(** * Collectives over nested containers: [src/utils/pkg/distributed.py]

    A shallow embedding of the container walker ([_recursive_read]), the
    rebuilder ([_recursive_write]), the three collectives built on them
    ([reduce], [stack], [cat]) and the two coordinator-gating decorators
    ([process_on_master_and_sync_by_pickle], [master_process_only]).

    What the module imports is kept abstract where the module does not
    look inside it:
    - the element arithmetic of the tensor library and of the
      communication backend, and Python's table of capital letters
      outside ASCII, are the interface [TensorLib];
    - a worker program is a tree of collective calls ([comm]); a job is a
      list of such programs, one per rank, run in lockstep ([lockstep]).
    Shapes, sizes, offsets, dictionaries and the order of traversal, which
    is what the module itself computes, are modelled concretely. *)

From Stdlib Require Import String Ascii.
From Stdlib Require Import List ZArith Lia Bool Arith PeanoNat.
Import ListNotations.

Set Implicit Arguments.

(* ================================================================== *)
(** * Exceptions and fallible computations *)
(* ================================================================== *)

(** The exceptions the module raises itself or lets escape from Python
    and the tensor library. *)
Inductive exn : Type :=
| ValueError_UnknownType          (* raise ValueError("Unknown type `%s`") *)
| ValueError_GroupNotInitialized  (* raise ValueError("%s group is not initialized ...") *)
| AttributeError                  (* getattr / method lookup fails *)
| AssertionError                  (* an [assert] fails *)
| KeyError                        (* d[k] on a missing key *)
| IndexError                      (* args[i], shape[-1] out of range *)
| TypeError                       (* len() of a 0-d tensor, subscripting a non-container *)
| UnboundLocalError               (* a local read before assignment *)
| FileNotFoundError               (* a file to read does not exist *)
| RuntimeError.                   (* raised inside the tensor library *)

Inductive result (A : Type) : Type :=
| Ok (a : A)
| Err (e : exn).
Arguments Ok {A} a.
Arguments Err {A} e.

Definition rbind {A B} (r : result A) (f : A -> result B) : result B :=
  match r with
  | Ok a => f a
  | Err e => Err e
  end.

Declare Scope result_scope.
Delimit Scope result_scope with result.
Notation "'let*' x ':=' c 'in' k" := (rbind c (fun x => k))
  (at level 10, x pattern, c at level 100, k at level 200) : result_scope.
Local Open Scope result_scope.

Fixpoint mapM {A B} (f : A -> result B) (l : list A) : result (list B) :=
  match l with
  | [] => Ok []
  | x :: xs =>
      let* y := f x in
      let* ys := mapM f xs in
      Ok (y :: ys)
  end.

(* ================================================================== *)
(** * Element types and the tensor-library interface *)
(* ================================================================== *)

Inductive dtype : Type :=
| th_bool | th_uint8 | th_int8 | th_int16 | th_int32 | th_int64
| th_float16 | th_bfloat16 | th_float32 | th_float64.

Definition dtype_eq_dec (a b : dtype) : {a = b} + {a <> b}.
Proof. decide equality. Defined.

Definition dtype_eqb (a b : dtype) : bool :=
  if dtype_eq_dec a b then true else false.

(** The members of [torch.distributed.ReduceOp]. *)
Inductive ReduceOp : Type :=
| SUM | AVG | PRODUCT | MIN | MAX | BAND | BOR | BXOR | PREMUL_SUM.

(** The dtype of [v / n] for a Python int [n]: true division keeps a
    floating dtype and sends every integral dtype (and bool) to the
    default dtype, float32. *)
Definition true_divide_dtype (d : dtype) : dtype :=
  match d with
  | th_float16 => th_float16
  | th_bfloat16 => th_bfloat16
  | th_float64 => th_float64
  | _ => th_float32
  end.

(** What the module needs from the tensor library and the backend, element
    by element, and from the interpreter.  [scalar] is the type of one
    element of a buffer, whatever its dtype. *)
Class TensorLib : Type := {
  scalar : Type;
  (** the element [th.zeros(..., dtype=d)] is filled with *)
  zero : dtype -> scalar;
  (** how the backend combines two elements of dtype [d] under an op *)
  reduce_elem : ReduceOp -> dtype -> scalar -> scalar -> scalar;
  (** what [dist.reduce] leaves at each position of the buffer of a rank
      that is not the destination, given that rank and every rank's
      buffer; the backend does not say *)
  reduce_residue : nat -> list (list scalar) -> nat -> scalar;
  (** conversion of an element between dtypes: [Tensor.type], [Tensor.byte]
      and the copy made when a buffer of another dtype is assigned into *)
  cast : dtype -> dtype -> scalar -> scalar;
  (** one element of [v / n], [v] of dtype [d], [n] a Python int; the
      result has dtype [true_divide_dtype d] *)
  true_divide : dtype -> scalar -> Z -> scalar;
  (** the int64 element holding a Python int: [th.tensor([n])] *)
  of_int : Z -> scalar;
  (** the Python int an int64 element converts to *)
  to_int : scalar -> Z;
  (** [s.upper()] for a [str] that holds a character outside ASCII, as
      UTF-8: the capitals of Unicode, some of which are ASCII letters *)
  str_upper : string -> string
}.

(** Two's-complement wrap-around of int64 arithmetic. *)
Definition wrap64 (z : Z) : Z := ((z + 2 ^ 63) mod 2 ^ 64 - 2 ^ 63)%Z.

(* ================================================================== *)
(** * Dictionaries in insertion order *)
(* ================================================================== *)

(** A Python dict keeps its keys in the order they were first inserted,
    and the module iterates over [items()] in that order to issue its
    collective calls, so a dict is an association list with distinct keys. *)
Section Dict.
Variables (K V : Type) (eqb : K -> K -> bool).

Fixpoint dict_get (k : K) (d : list (K * V)) : option V :=
  match d with
  | [] => None
  | (k', v) :: rest => if eqb k k' then Some v else dict_get k rest
  end.

(** [d[k] = v]: overwrite in place, or append a new key. *)
Fixpoint dict_set (k : K) (v : V) (d : list (K * V)) : list (K * V) :=
  match d with
  | [] => [(k, v)]
  | (k', v') :: rest =>
      if eqb k k' then (k', v) :: rest else (k', v') :: dict_set k v rest
  end.

(** [d[k]] on a plain dict. *)
Definition dict_getitem (k : K) (d : list (K * V)) : result V :=
  match dict_get k d with
  | Some v => Ok v
  | None => Err KeyError
  end.
End Dict.

Definition ddict (V : Type) : Type := list (dtype * V).
Definition dget {V} (k : dtype) (d : ddict V) : option V := dict_get dtype_eqb k d.
Definition dset {V} (k : dtype) (v : V) (d : ddict V) : ddict V := dict_set dtype_eqb k v d.
Definition dgetitem {V} (k : dtype) (d : ddict V) : result V := dict_getitem dtype_eqb k d.

(** [d[k] += v] on a [defaultdict(list)]. *)
Definition dextend {V} (d : ddict (list V)) (k : dtype) (v : list V) : ddict (list V) :=
  dset k (match dget k d with Some old => old | None => [] end ++ v) d.

(** [for k, v in child.items(): d[k] += v]. *)
Definition dmerge {V} (d child : ddict (list V)) : ddict (list V) :=
  fold_left (fun acc kv => dextend acc (fst kv) (snd kv)) child d.

(* ================================================================== *)
(** * Tensors *)
(* ================================================================== *)

Definition prod (shape : list nat) : nat := fold_right Nat.mul 1 shape.

Fixpoint chunks {A} (rows n : nat) (l : list A) : list (list A) :=
  match rows with
  | 0 => []
  | S r => firstn n l :: chunks r n (skipn n l)
  end.

Section Tensors.
Context {TL : TensorLib}.

(** A tensor: element type, shape, and its elements in row-major order.
    Every tensor of the module lives on one device class; see
    [group_ready] for what [get_group] does with it. *)
Record tensor : Type := mkTensor {
  tdtype : dtype;
  tshape : list nat;
  tdata : list scalar
}.

(** [obj.numel()] *)
Definition numel (t : tensor) : nat := prod (tshape t).

(** A tensor holds as many elements as its shape says. *)
Definition wf_tensor (t : tensor) : Prop := length (tdata t) = numel t.

(** [obj.flatten()] *)
Definition flatten (t : tensor) : tensor :=
  mkTensor (tdtype t) [numel t] (tdata t).

(** [th.tensor([n])]: a one-element int64 vector. *)
Definition size_tensor (n : nat) : tensor :=
  mkTensor th_int64 [1] [of_int (Z.of_nat n)].

(** [th.zeros] of a shape, with [dtype=d] *)
Definition th_zeros (shape : list nat) (d : dtype) : tensor :=
  mkTensor d shape (repeat (zero d) (prod shape)).

(** [t.type(d)]; a tensor that already has dtype [d] is returned as it is. *)
Definition tensor_type (t : tensor) (d : dtype) : tensor :=
  if dtype_eqb (tdtype t) d then t
  else mkTensor d (tshape t) (map (cast (tdtype t) d) (tdata t)).

(** [th.cat(ts)] along axis 0.  The list must not be empty and the
    tensors must have an axis 0 and agree on the other axes; the module
    only passes flattened tensors of one dtype. *)
Definition th_cat (ts : list tensor) : result tensor :=
  match ts with
  | [] => Err RuntimeError
  | t0 :: _ =>
      if forallb (fun t => match tshape t with
                           | [] => false
                           | _ :: tr => if list_eq_dec Nat.eq_dec tr (tl (tshape t0))
                                        then true else false
                           end) ts
      then Ok (mkTensor (tdtype t0)
                        (list_sum (map (fun t => hd 0 (tshape t)) ts) :: tl (tshape t0))
                        (concat (map tdata ts)))
      else Err RuntimeError
  end.

(** The Python int a one-element tensor converts to where an int is
    expected (a split size, a slice bound, a shape). *)
Definition tensor_item (t : tensor) : result Z :=
  match tdata t with
  | [x] => Ok (to_int x)
  | _ => Err RuntimeError
  end.

(** [s.split([1, len(s) - 1])]: the first entry along axis 0 and the
    rest.  [len] needs an axis; a negative section size is refused. *)
Definition split_head (s : tensor) : result (tensor * tensor) :=
  match tshape s with
  | [] => Err TypeError
  | 0 :: _ => Err RuntimeError
  | S n :: tr =>
      Ok (mkTensor (tdtype s) (1 :: tr) (firstn (prod tr) (tdata s)),
          mkTensor (tdtype s) (n :: tr) (skipn (prod tr) (tdata s)))
  end.

(** [v.split([k, v.shape[-1] - k], dim=-1)]: every row along the last
    axis is cut after [k] elements. *)
Definition split_last (v : tensor) (k : Z) : result (tensor * tensor) :=
  match rev (tshape v) with
  | [] => Err IndexError
  | n :: rpre =>
      let pre := rev rpre in
      if ((k <? 0) || (Z.of_nat n <? k))%Z then Err RuntimeError
      else
        let k' := Z.to_nat k in
        let rows := chunks (prod pre) n (tdata v) in
        Ok (mkTensor (tdtype v) (pre ++ [k']) (concat (map (firstn k') rows)),
            mkTensor (tdtype v) (pre ++ [n - k']) (concat (map (skipn k') rows)))
  end.

(** Shape inference of [view] with one [-1], between the axes [pre] and
    [post], for a tensor of [n] elements. *)
Definition view_infer (n : nat) (pre post : list nat) : result (list nat) :=
  let newsize := prod pre * prod post in
  if (n =? newsize) || ((0 <? newsize) && (n mod newsize =? 0)) then
    if newsize =? 0 then Err RuntimeError
    else Ok (pre ++ [n / newsize] ++ post)
  else Err RuntimeError.

(** [new_obj.view(new_obj.shape[:-1] + (-1,) + obj.shape[1:])] *)
Definition view_as_leaf (new_obj obj : tensor) : result tensor :=
  let* shape := view_infer (numel new_obj) (removelast (tshape new_obj)) (tl (tshape obj)) in
  Ok (mkTensor (tdtype new_obj) shape (tdata new_obj)).
End Tensors.

(* ================================================================== *)
(** * Python values *)
(* ================================================================== *)

Inductive pykey : Type :=
| KStr (s : string)
| KInt (z : Z)
| KDtype (d : dtype).

Definition pykey_eqb (a b : pykey) : bool :=
  match a, b with
  | KStr s, KStr s' => String.eqb s s'
  | KInt z, KInt z' => Z.eqb z z'
  | KDtype d, KDtype d' => dtype_eqb d d'
  | _, _ => false
  end.

Section Objects.
Context {TL : TensorLib}.

(** What [isinstance] tells apart: a tensor, a dict, a list, a tuple, and
    everything else. *)
#[local] Unset Elimination Schemes.
Inductive pyobj : Type :=
| PyTensor (t : tensor)
| PyDict (items : list (pykey * pyobj))
| PyList (elems : list pyobj)
| PyTuple (elems : list pyobj)
| PyOther (type_name : string).
#[local] Set Elimination Schemes.

(* ================================================================ *)
(** * The container walker and the rebuilder *)
(* ================================================================ *)

(** [_recursive_read]: per dtype, the flattened leaves and their element
    counts, in traversal order. *)
Fixpoint _recursive_read (obj : pyobj) : result (ddict (list tensor) * ddict (list tensor)) :=
  match obj with
  | PyTensor t =>
      Ok (dextend [] (tdtype t) [flatten t],
          dextend [] (tdtype t) [size_tensor (numel t)])
  | PyDict items =>
      (fix loop (items : list (pykey * pyobj)) (values sizes : ddict (list tensor)) :=
         match items with
         | [] => Ok (values, sizes)
         | (_, v) :: rest =>
             let* (child_values, child_sizes) := _recursive_read v in
             loop rest (dmerge values child_values) (dmerge sizes child_sizes)
         end) items [] []
  | PyList elems | PyTuple elems =>
      (fix loop (elems : list pyobj) (values sizes : ddict (list tensor)) :=
         match elems with
         | [] => Ok (values, sizes)
         | v :: rest =>
             let* (child_values, child_sizes) := _recursive_read v in
             loop rest (dmerge values child_values) (dmerge sizes child_sizes)
         end) elems [] []
  | PyOther _ => Err ValueError_UnknownType
  end.

(** The tensor case of [_recursive_write].  [values] and [sizes] are
    dicts the Python code updates in place, so they are threaded. *)
Definition write_leaf (obj : tensor) (values : ddict tensor) (sizes : option (ddict tensor))
  : result (pyobj * ddict tensor * option (ddict tensor)) :=
  let* (size, sizes) :=
    match sizes with
    | None => Ok (size_tensor (numel obj), None)
    | Some sz =>
        let* s := dgetitem (tdtype obj) sz in
        let* (size, s) := split_head s in
        Ok (size, Some (dset (tdtype obj) s sz))
    end in
  let* v := dgetitem (tdtype obj) values in
  let* k := tensor_item size in
  let* (new_obj, v) := split_last v k in
  let* new_obj := view_as_leaf new_obj obj in
  Ok (PyTensor new_obj, dset (tdtype obj) v values, sizes).

(** [_recursive_write]: the container rebuilt from the front of the
    per-dtype buffers; also the buffers (and the size table) that remain. *)
Fixpoint _recursive_write (obj : pyobj) (values : ddict tensor) (sizes : option (ddict tensor))
  : result (pyobj * ddict tensor * option (ddict tensor)) :=
  match obj with
  | PyTensor t => write_leaf t values sizes
  | PyDict items =>
      (fix loop (items new_obj : list (pykey * pyobj)) values sizes :=
         match items with
         | [] => Ok (PyDict new_obj, values, sizes)
         | (k, v) :: rest =>
             let* (new_v, values, sizes) := _recursive_write v values sizes in
             loop rest (dict_set pykey_eqb k new_v new_obj) values sizes
         end) items [] values sizes
  | PyList elems | PyTuple elems =>
      (fix loop (elems new_obj : list pyobj) values sizes :=
         match elems with
         | [] => Ok (PyList new_obj, values, sizes)
         | v :: rest =>
             let* (new_v, values, sizes) := _recursive_write v values sizes in
             loop rest (new_obj ++ [new_v]) values sizes
         end) elems [] values sizes
  | PyOther _ => Err ValueError_UnknownType
  end.

(** [{k: th.cat(v) for k, v in values.items()}] *)
Definition cat_values (values : ddict (list tensor)) : result (ddict tensor) :=
  mapM (fun kv => let* t := th_cat (snd kv) in Ok (fst kv, t)) values.

(** Flatten: the walker followed by the per-dtype concatenation, as
    [reduce] and [stack] begin. *)
Definition flatten_container (obj : pyobj) : result (ddict tensor) :=
  let* (values, _) := _recursive_read obj in
  cat_values values.

(** Rebuild with [sizes=None]. *)
Definition rebuild (obj : pyobj) (values : ddict tensor) : result pyobj :=
  let* (new_obj, _, _) := _recursive_write obj values None in
  Ok new_obj.
End Objects.

(* ================================================================== *)
(** * Worker programs and jobs *)
(* ================================================================== *)

(** What a worker knows about the job: [get_rank()], [get_world_size()],
    and whether the process group [get_group] looks up has been set by
    [init_process_group] (the module-level [cpu_group] / [gpu_group]). *)
Record context : Type := mkContext {
  rank : nat;
  world_size : nat;
  group_ready : bool
}.

Section Programs.
Context {TL : TensorLib}.

(** A worker program: it returns, raises, or hands a buffer to the backend
    for a reduction ([dist.all_reduce] when [dst] is [None], [dist.reduce]
    to rank [dst] otherwise) and goes on with the buffer as the backend
    left it. *)
Inductive comm (A : Type) : Type :=
| Ret (a : A)
| Raise (e : exn)
| AllReduce (op : ReduceOp) (dst : option nat) (buf : tensor) (k : tensor -> comm A).
Arguments Ret {A} a.
Arguments Raise {A} e.
Arguments AllReduce {A} op dst buf k.

Fixpoint cbind {A B} (p : comm A) (f : A -> comm B) : comm B :=
  match p with
  | Ret a => f a
  | Raise e => Raise e
  | AllReduce op dst buf k => AllReduce op dst buf (fun t => cbind (k t) f)
  end.

Definition lift {A} (r : result A) : comm A :=
  match r with
  | Ok a => Ret a
  | Err e => Raise e
  end.

Definition all_reduce (op : ReduceOp) (dst : option nat) (buf : tensor) : comm tensor :=
  AllReduce op dst buf Ret.

(** [for x in items: acc = body(x, acc)] *)
Fixpoint for_each {A B} (items : list A) (body : A -> B -> comm B) (acc : B) : comm B :=
  match items with
  | [] => Ret acc
  | x :: rest => cbind (body x acc) (for_each rest body)
  end.

(** How a worker ends. *)
Inductive outcome (A : Type) : Type :=
| Returned (a : A)
| Raised (e : exn)
| Hung          (* waits in a collective that some peer never joins *)
| Undefined.    (* joined a collective whose calls do not match *)
Arguments Returned {A} a.
Arguments Raised {A} e.
Arguments Hung {A}.
Arguments Undefined {A}.

(** A worker whose peers will join no further collective. *)
Definition abandoned {A} (p : comm A) : outcome A :=
  match p with
  | Ret a => Returned a
  | Raise e => Raised e
  | AllReduce _ _ _ _ => Hung
  end.

(** The pending collective call of each peer, if every one has one. *)
Fixpoint gather {A} (ps : list (comm A))
  : option (list (ReduceOp * option nat * tensor * (tensor -> comm A))) :=
  match ps with
  | [] => Some []
  | AllReduce op dst buf k :: rest =>
      match gather rest with
      | Some calls => Some ((op, dst, buf, k) :: calls)
      | None => None
      end
  | _ :: _ => None
  end.

Definition option_nat_eqb (a b : option nat) : bool :=
  match a, b with
  | None, None => true
  | Some x, Some y => x =? y
  | _, _ => false
  end.

Definition ReduceOp_eq_dec (a b : ReduceOp) : {a = b} + {a <> b}.
Proof. decide equality. Defined.

(** The backend's contract: all ranks pass the same op and destination and
    buffers of one dtype and shape. *)
Definition same_call {A} (op : ReduceOp) (dst : option nat) (buf : tensor)
    (c : ReduceOp * option nat * tensor * (tensor -> comm A)) : bool :=
  let '(op', dst', buf', _) := c in
  (if ReduceOp_eq_dec op op' then true else false)
  && option_nat_eqb dst dst'
  && dtype_eqb (tdtype buf) (tdtype buf')
  && (if list_eq_dec Nat.eq_dec (tshape buf) (tshape buf') then true else false).

Fixpoint zip_with {A B C} (f : A -> B -> C) (l : list A) (m : list B) : list C :=
  match l, m with
  | x :: l', y :: m' => f x y :: zip_with f l' m'
  | _, _ => []
  end.

(** The buffers of all ranks combined element by element, in rank order. *)
Definition reduce_buffers (op : ReduceOp) (d : dtype) (first : list scalar)
    (others : list (list scalar)) : list scalar :=
  fold_left (zip_with (reduce_elem op d)) others first.

(** What rank [r] finds in its buffer when the collective returns, for a
    destination that is a rank of the job. *)
Definition reply (op : ReduceOp) (dst : option nat) (bufs : list tensor) (r : nat)
    (own : tensor) : tensor :=
  let reduced :=
    match bufs with
    | [] => tdata own
    | b0 :: rest => reduce_buffers op (tdtype own) (tdata b0) (map tdata rest)
    end in
  let data :=
    match dst with
    | None => reduced
    | Some d => if r =? d then reduced
                else map (reduce_residue r (map tdata bufs)) (seq 0 (length (tdata own)))
    end in
  mkTensor (tdtype own) (tshape own) data.

Fixpoint resume {A} (op : ReduceOp) (dst : option nat) (bufs : list tensor) (r : nat)
    (calls : list (ReduceOp * option nat * tensor * (tensor -> comm A))) : list (comm A) :=
  match calls with
  | [] => []
  | (_, _, buf, k) :: rest => k (reply op dst bufs r buf) :: resume op dst bufs (S r) rest
  end.

(** A job: rank 0 runs [p0], rank [i+1] runs the [i]-th program of [ps].
    All ranks advance from collective to collective together; the job is
    over as soon as rank 0 is. *)
Fixpoint lockstep {A} (p0 : comm A) (ps : list (comm A)) : list (outcome A) :=
  match p0 with
  | Ret a => Returned a :: map abandoned ps
  | Raise e => Raised e :: map abandoned ps
  | AllReduce op dst buf k =>
      match gather ps with
      | None => Hung :: map abandoned ps
      | Some calls =>
          if forallb (same_call op dst buf) calls then
            let bufs := buf :: map (fun c => snd (fst c)) calls in
            lockstep (k (reply op dst bufs 0 buf)) (resume op dst bufs 1 calls)
          else Undefined :: map (fun _ => Undefined) ps
      end
  end.

Definition run_job {A} (programs : list (comm A)) : list (outcome A) :=
  match programs with
  | [] => []
  | p0 :: ps => lockstep p0 ps
  end.

(** The same function called on every rank, each with its own argument:
    rank [r] gets the [r]-th element of [args]. *)
Fixpoint spawn {A B} (f : context -> A -> comm B) (ws : nat) (ready : bool) (r : nat)
    (args : list A) : list (comm B) :=
  match args with
  | [] => []
  | a :: rest => f (mkContext r ws ready) a :: spawn f ws ready (S r) rest
  end.

Definition spmd {A B} (f : context -> A -> comm B) (ready : bool) (args : list A)
  : list (outcome B) :=
  run_job (spawn f (length args) ready 0 args).

(* ================================================================== *)
(** * Module-level helpers *)
(* ================================================================== *)

Definition get_rank (ctx : context) : nat := rank ctx.
Definition get_world_size (ctx : context) : nat := world_size ctx.

(** [get_group(device)]: the group, or a [ValueError] when it is [None]. *)
Definition get_group (ctx : context) : result unit :=
  if group_ready ctx then Ok tt else Err ValueError_GroupNotInitialized.
End Programs.

Arguments Ret {TL A} a.
Arguments Raise {TL A} e.
Arguments AllReduce {TL A} op dst buf k.
Arguments Returned {A} a.
Arguments Raised {A} e.
Arguments Hung {A}.
Arguments Undefined {A}.

(* ================================================================== *)
(** * Tensor operations of the collectives *)
(* ================================================================== *)

Section TensorOps.
Context {TL : TensorLib}.

(** [v / n] for a Python int [n] *)
Definition tensor_true_divide (v : tensor) (n : Z) : tensor :=
  mkTensor (true_divide_dtype (tdtype v)) (tshape v)
           (map (fun x => true_divide (tdtype v) x n) (tdata v)).

(** [s[i] = v] for an int [i]: [v] is copied, converted to the dtype of
    [s], into entry [i] along axis 0.  [v] has the shape of that entry
    wherever the module does this. *)
Definition set_index0 (s : tensor) (i : nat) (v : tensor) : result tensor :=
  match tshape s with
  | [] => Err IndexError
  | n :: tr =>
      if n <=? i then Err IndexError
      else if list_eq_dec Nat.eq_dec tr (tshape v) then
        Ok (mkTensor (tdtype s) (tshape s)
              (firstn (i * prod tr) (tdata s)
               ++ tdata (tensor_type v (tdtype s))
               ++ skipn ((i + 1) * prod tr) (tdata s)))
      else Err RuntimeError
  end.

(** A slice bound of Python, for a sequence of length [n]. *)
Definition slice_index (n : nat) (i : Z) : nat :=
  if (i <? 0)%Z then Z.to_nat (Z.max 0 (i + Z.of_nat n))
  else Nat.min (Z.to_nat i) n.

(** [s[lo:hi] = v] on a vector [s]: the slice takes [v], converted to the
    dtype of [s], when the lengths agree, a one-element [v] is broadcast,
    and anything else is refused. *)
Definition slice_assign (s : tensor) (lo hi : Z) (v : tensor) : result tensor :=
  let n := length (tdata s) in
  let a := slice_index n lo in
  let m := slice_index n hi - a in
  let src := tdata (tensor_type v (tdtype s)) in
  if length src =? m then
    Ok (mkTensor (tdtype s) (tshape s) (firstn a (tdata s) ++ src ++ skipn (a + m) (tdata s)))
  else
    match src with
    | [x] => Ok (mkTensor (tdtype s) (tshape s)
                   (firstn a (tdata s) ++ repeat x m ++ skipn (a + m) (tdata s)))
    | _ => Err RuntimeError
    end.

(** [t.t()]: the transpose of a matrix; a tensor with fewer axes is
    returned as it is, one with more is refused. *)
Definition transpose (t : tensor) : result tensor :=
  match tshape t with
  | [] | [_] => Ok t
  | [a; b] =>
      let rows := chunks a b (tdata t) in
      Ok (mkTensor (tdtype t) [b; a]
            (concat (map (fun j => map (fun row => nth j row (zero (tdtype t))) rows)
                         (seq 0 b))))
  | _ => Err RuntimeError
  end.

(** The sum of int64 elements, as int64 arithmetic computes it. *)
Definition int_sum (l : list scalar) : Z :=
  wrap64 (fold_right (fun x acc => to_int x + acc)%Z 0%Z l).

(** [t.sum(dim=0)] of an int64 tensor. *)
Definition sum_dim0 (t : tensor) : result tensor :=
  match tshape t with
  | [] => Err IndexError
  | a :: tr =>
      let rows := chunks a (prod tr) (tdata t) in
      Ok (mkTensor (tdtype t) tr
            (map (fun j => of_int (int_sum (map (fun row => nth j row (zero (tdtype t))) rows)))
                 (seq 0 (prod tr))))
  end.

(** The capital of an ASCII character. *)
Definition upper_ascii (c : ascii) : ascii :=
  let n := nat_of_ascii c in
  if (97 <=? n) && (n <=? 122) then ascii_of_nat (n - 32) else c.

Fixpoint map_ascii (f : ascii -> ascii) (s : string) : string :=
  match s with
  | EmptyString => EmptyString
  | String c r => String (f c) (map_ascii f r)
  end.

(** [str.isascii]: every byte of the UTF-8 text is below 128. *)
Fixpoint isascii (s : string) : bool :=
  match s with
  | EmptyString => true
  | String c r => (nat_of_ascii c <? 128) && isascii r
  end.

(** [str.upper]: letter by letter on ASCII, the interpreter's table
    otherwise. *)
Definition upper (s : string) : string :=
  if isascii s then map_ascii upper_ascii s else str_upper s.

(** [getattr(dist.ReduceOp, name)] *)
Definition ReduceOp_getattr (name : string) : result ReduceOp :=
  if String.eqb name "SUM" then Ok SUM
  else if String.eqb name "AVG" then Ok AVG
  else if String.eqb name "PRODUCT" then Ok PRODUCT
  else if String.eqb name "MIN" then Ok MIN
  else if String.eqb name "MAX" then Ok MAX
  else if String.eqb name "BAND" then Ok BAND
  else if String.eqb name "BOR" then Ok BOR
  else if String.eqb name "BXOR" then Ok BXOR
  else if String.eqb name "PREMUL_SUM" then Ok PREMUL_SUM
  else Err AttributeError.

(** [obj[k]] *)
Definition py_getitem (obj : pyobj) (k : pykey) : result pyobj :=
  match obj with
  | PyDict items => dict_getitem pykey_eqb k items
  | _ => Err TypeError
  end.

(** A tensor method is looked up on [obj]. *)
Definition as_tensor (obj : pyobj) : result tensor :=
  match obj with
  | PyTensor t => Ok t
  | _ => Err AttributeError
  end.

(** [obj.items()] *)
Definition py_items (obj : pyobj) : result (list (pykey * pyobj)) :=
  match obj with
  | PyDict items => Ok items
  | _ => Err AttributeError
  end.

(** A dict keyed by dtype, as a Python value. *)
Definition py_of_ddict (d : ddict tensor) : pyobj :=
  PyDict (map (fun kv => (KDtype (fst kv), PyTensor (snd kv))) d).
End TensorOps.

(* ================================================================== *)
(** * The collectives *)
(* ================================================================== *)

Declare Scope comm_scope.
Delimit Scope comm_scope with comm.
Notation "x <- c ;; k" := (cbind c (fun x => k))
  (at level 61, c at next level, right associativity) : comm_scope.
Notation "' pat <- c ;; k" := (cbind c (fun x => match x with pat => k end))
  (at level 61, pat pattern, c at next level, right associativity) : comm_scope.

Section Collectives.
Context {TL : TensorLib}.
Local Open Scope comm_scope.

(** The body of the loop of [reduce] over the buffers, one per dtype. *)
Definition reduce_body (ctx : context) (op : ReduceOp) (is_mean : bool) (dst : option nat)
    (kv : dtype * tensor) (reduced : ddict tensor) : comm (ddict tensor) :=
  let k := fst kv in
  let v := snd kv in
  let dtype := tdtype v in
  let v := if dtype_eqb dtype th_bool then tensor_type v th_uint8 else v in
  _ <- lift (get_group ctx) ;;
  v <- all_reduce op dst v ;;
  let v := if is_mean then tensor_true_divide v (Z.of_nat (get_world_size ctx)) else v in
  Ret (dset k (tensor_type v dtype) reduced).

Definition reduce (ctx : context) (obj : pyobj) (op : string) (dst : option nat)
  : comm pyobj :=
  values <- lift (flatten_container obj) ;;
  let is_mean := String.eqb op "mean" in
  let op := if is_mean then "sum"%string else op in
  op <- lift (ReduceOp_getattr (upper op)) ;;
  reduced <- for_each values (reduce_body ctx op is_mean dst) [] ;;
  lift (rebuild obj reduced).

(** The body of the loop of [stack]. *)
Definition stack_body (ctx : context) (dst : option nat)
    (kv : dtype * tensor) (stacked : ddict tensor) : comm (ddict tensor) :=
  let k := fst kv in
  let v := snd kv in
  let dtype := tdtype v in
  let dtype := if dtype_eqb dtype th_bool then th_uint8 else dtype in
  let s := th_zeros (get_world_size ctx :: tshape v) dtype in
  s <- lift (set_index0 s (get_rank ctx) v) ;;
  _ <- lift (get_group ctx) ;;
  s <- all_reduce SUM dst s ;;
  Ret (dset k (tensor_type s (tdtype v)) stacked).

Definition stack (ctx : context) (obj : pyobj) (dst : option nat) : comm pyobj :=
  values <- lift (flatten_container obj) ;;
  stacked <- for_each values (stack_body ctx dst) [] ;;
  lift (rebuild obj stacked).

(** The write loop of [cat]: [for v in value: ...]. *)
Fixpoint cat_fill (world_size : nat) (size : list scalar) (value : list tensor)
    (s : tensor) (offset : Z) (obj_id : nat) : result tensor :=
  match value with
  | [] => Ok s
  | v :: rest =>
      let stop := wrap64 (offset + Z.of_nat (numel v)) in
      if (stop <=? Z.of_nat (hd 0%nat (tshape s)))%Z then
        let* s := slice_assign s offset stop v in
        let offset :=
          wrap64 (offset + int_sum (firstn world_size (skipn obj_id size))) in
        cat_fill world_size size rest s offset (obj_id + world_size)
      else Err AssertionError
  end.

(** [{k: v.sum(dim=0) for k, v in sizes.items()}], as the dict keyed by
    dtype that [_recursive_write] looks its leaves up in. *)
Definition sum_sizes (sizes : pyobj) : result (ddict tensor) :=
  let* items := py_items sizes in
  fold_left (fun acc kv =>
      let* acc := acc in
      let* v := as_tensor (snd kv) in
      let* v := sum_dim0 v in
      Ok (match fst kv with
          | KDtype d => dset d v acc
          | _ => acc
          end))
    items (Ok []).

(** What [cat] hands to the backend for one dtype: a zero buffer as long
    as the contributions of all workers, with the worker's own leaves
    written where they belong. *)
Definition cat_buffer (ctx : context) (sizes : pyobj) (k : dtype) (value : list tensor)
  : result (tensor * tensor) :=
  let* sizes_k := (let* e := py_getitem sizes (KDtype k) in
                   let* e := as_tensor e in
                   transpose e) in
  let size := tdata (flatten sizes_k) in
  let* value_0 := match value with v :: _ => Ok v | [] => Err IndexError end in
  let dtype := tdtype value_0 in
  let dtype := if dtype_eqb dtype th_bool then th_uint8 else dtype in
  let* s := if (int_sum size <? 0)%Z then Err RuntimeError
            else Ok (th_zeros [Z.to_nat (int_sum size)] dtype) in
  let obj_id := get_rank ctx in
  let world_size := get_world_size ctx in
  let offset := int_sum (firstn obj_id size) in
  let* s := cat_fill world_size size value s offset obj_id in
  Ok (value_0, s).

(** The body of the loop of [cat]. *)
Definition cat_body (ctx : context) (dst : option nat) (sizes : pyobj)
    (kv : dtype * list tensor) (cated : ddict tensor) : comm (ddict tensor) :=
  let k := fst kv in
  let value := snd kv in
  '(value_0, s) <- lift (cat_buffer ctx sizes k value) ;;
  _ <- lift (get_group ctx) ;;
  s <- all_reduce SUM dst s ;;
  Ret (dset k (tensor_type s (tdtype value_0)) cated).

Definition cat (ctx : context) (obj : pyobj) (dst : option nat) : comm pyobj :=
  '(values, sizes) <- lift (_recursive_read obj) ;;
  sizes <- lift (cat_values sizes) ;;
  sizes <- stack ctx (py_of_ddict sizes) None ;;
  cated <- for_each values (cat_body ctx dst sizes) [] ;;
  sizes <- lift (sum_sizes sizes) ;;
  '(new_obj, _, _) <- lift (_recursive_write obj cated (Some sizes)) ;;
  Ret new_obj.
End Collectives.

(* ================================================================== *)
(** * Coordinator gating *)
(* ================================================================== *)

(** The Python values the decorators pass around without looking inside,
    apart from truthiness and use as a path.  [VObj] stands for an object
    that is true and that the operating system takes for no path: neither
    a [str], [bytes], a number nor an [os.PathLike]. *)
Inductive value : Type :=
| VNone
| VBool (b : bool)
| VStr (s : string)
| VObj (id : nat).

Definition truthy (v : value) : bool :=
  match v with
  | VNone => false
  | VBool b => b
  | VStr s => negb (String.eqb s "")
  | VObj _ => true
  end.

(** The artifact stored under each path, if the file exists. *)
Definition filesystem : Type := string -> option value.

Inductive log_message : Type :=
| No_cache_file_specified
| Loaded_cache_skipped (filename : value).

(** What a worker does that others can observe. *)
Inductive event : Type :=
| Called (args : list value) (kwargs : list (string * value))  (* the wrapped function is called *)
| Logged (msg : log_message)                                   (* log_func(...) *)
| Barrier.                                                     (* dist.barrier is called *)

Record process : Type := mkProcess {
  files : filesystem;
  trace : list event
}.

(** A step of one worker: a result or an exception, and the new state. *)
Definition io (A : Type) : Type := process -> result A * process.

Definition io_ret {A} (a : A) : io A := fun st => (Ok a, st).
Definition io_raise {A} (e : exn) : io A := fun st => (Err e, st).
Definition io_bind {A B} (m : io A) (f : A -> io B) : io B :=
  fun st =>
    match m st with
    | (Ok a, st') => f a st'
    | (Err e, st') => (Err e, st')
    end.
Definition io_lift {A} (r : result A) : io A := fun st => (r, st).
Definition emit (e : event) : io unit :=
  fun st => (Ok tt, mkProcess (files st) (trace st ++ [e])).

Declare Scope io_scope.
Delimit Scope io_scope with io.
Notation "x <- c ;; k" := (io_bind c (fun x => k))
  (at level 61, c at next level, right associativity) : io_scope.
Notation "c ;;; k" := (io_bind c (fun _ => k))
  (at level 61, right associativity) : io_scope.

Section Gating.
Local Open Scope io_scope.

(** The wrapped function: what it returns or raises, and what it leaves on
    disk. *)
Variable func : list value -> list (string * value) -> filesystem -> result value * filesystem.

(** What the other ranks have written by the time a barrier returns. *)
Variable peers : filesystem -> filesystem.

(** The call of the wrapped function with the wrapper's arguments. *)
Definition call (args : list value) (kwargs : list (string * value)) : io value :=
  fun st =>
    let (r, fs) := func args kwargs (files st) in
    (r, mkProcess fs (trace st ++ [Called args kwargs])).

Definition log_func (msg : log_message) : io unit := emit (Logged msg).

(** [dist.barrier()] *)
Definition barrier : io unit :=
  fun st => (Ok tt, mkProcess (peers (files st)) (trace st ++ [Barrier])).

(** [synchronize] *)
Definition synchronize (ctx : context) : io unit :=
  if 1 <? world_size ctx then barrier else io_ret tt.

(** The file [os.stat] and [open] look for when they are given
    [filename]: a [str] names it; a [bool] is an [int] and is taken as a
    file descriptor, [True] as 1 and [False] as 0, the file behind which is
    kept under [/dev/fd]; [None] and an object that is no path are
    refused. *)
Definition fspath (filename : value) : result string :=
  match filename with
  | VStr p => Ok p
  | VBool true => Ok "/dev/fd/1"%string
  | VBool false => Ok "/dev/fd/0"%string
  | VNone => Err TypeError
  | VObj _ => Err TypeError
  end.

(** [os.path.exists(filename)] *)
Definition path_exists (filename : value) : io bool :=
  fun st =>
    match fspath filename with
    | Ok p => (Ok (match files st p with Some _ => true | None => false end), st)
    | Err e => (Err e, st)
    end.

(** Modelled from the spec: [utils.basics.pickle_load], which is not among
    the sources; it "loads and returns the persisted artifact". *)
Definition pickle_load (filename : value) : io value :=
  fun st =>
    match fspath filename with
    | Ok p =>
        match files st p with
        | Some artifact => (Ok artifact, st)
        | None => (Err FileNotFoundError, st)
        end
    | Err e => (Err e, st)
    end.

(** [kwargs[key]] *)
Definition kwargs_getitem (key : string) (kwargs : list (string * value)) : result value :=
  dict_getitem String.eqb key kwargs.

(** [args[i]], a negative [i] counting from the end. *)
Definition args_getitem (i : Z) (args : list value) : result value :=
  let n := Z.of_nat (length args) in
  let j := if (i <? 0)%Z then (i + n)%Z else i in
  if ((j <? 0) || (n <=? j))%Z then Err IndexError
  else match nth_error args (Z.to_nat j) with
       | Some v => Ok v
       | None => Err IndexError
       end.

(** [kwargs.pop(key, default)]: the value and the dict without the key. *)
Definition kwargs_pop (key : string) (default : value) (kwargs : list (string * value))
  : value * list (string * value) :=
  (match dict_get String.eqb key kwargs with Some v => v | None => default end,
   filter (fun kv => negb (String.eqb key (fst kv))) kwargs).

(** The wrapper [process_on_master_and_sync_by_pickle(cache_arg,
    cache_kwarg)(func)] installs, called with [args] and [kwargs]. *)
Definition process_on_master_and_sync_by_pickle
    (cache_arg : option Z) (cache_kwarg : option string)
    (ctx : context) (args : list value) (kwargs : list (string * value)) : io value :=
  filename <- match cache_kwarg with
              | Some key => f <- io_lift (kwargs_getitem key kwargs) ;; io_ret (Some f)
              | None =>
                  match cache_arg with
                  | Some i => f <- io_lift (args_getitem i args) ;; io_ret (Some f)
                  | None => log_func No_cache_file_specified ;;; io_ret None
                  end
              end ;;
  let (skip_cache, kwargs) := kwargs_pop "skip_cache" (VBool false) kwargs in
  filename <- match filename with
              | Some f => io_ret f
              | None => io_raise UnboundLocalError
              end ;;
  found <- path_exists filename ;;
  if negb found || truthy skip_cache then
    (if get_rank ctx =? 0 then (_ <- call args kwargs ;; io_ret tt) else io_ret tt) ;;;
    synchronize ctx ;;;
    found <- path_exists filename ;;
    if found then pickle_load filename else io_raise AssertionError
  else
    (if get_rank ctx =? 0 then log_func (Loaded_cache_skipped filename) else io_ret tt) ;;;
    pickle_load filename.

(** The wrapper [master_process_only(func)] installs. *)
Definition master_process_only
    (ctx : context) (args : list value) (kwargs : list (string * value)) : io value :=
  if get_rank ctx =? 0 then
    result <- call args kwargs ;;
    io_ret result
  else
    synchronize ctx ;;;
    io_ret VNone.
End Gating.

(* ================================================================== *)
(** * Notions the statements about gating use *)
(* ================================================================== *)

(** The file name the wrapper of [process_on_master_and_sync_by_pickle]
    reads from its arguments, when [cache_kwarg] or [cache_arg] names one
    that is there. *)
Definition cache_file (cache_arg : option Z) (cache_kwarg : option string)
    (args : list value) (kwargs : list (string * value)) : option value :=
  match cache_kwarg with
  | Some key => match kwargs_getitem key kwargs with Ok f => Some f | Err _ => None end
  | None =>
      match cache_arg with
      | Some i => match args_getitem i args with Ok f => Some f | Err _ => None end
      | None => None
      end
  end.

(** The events a worker added while it went from [st] to [st']. *)
Definition issued (st st' : process) : list event :=
  skipn (length (trace st)) (trace st').

(** The collective calls among some events. *)
Definition collectives (evs : list event) : list event :=
  filter (fun e => match e with Barrier => true | _ => false end) evs.

(* ================================================================== *)
(** * Notions the statements about containers use *)
(* ================================================================== *)

Section Notions.
Context {TL : TensorLib}.

(** The leaves of a container, in traversal order. *)
Fixpoint leaves (obj : pyobj) : list tensor :=
  match obj with
  | PyTensor t => [t]
  | PyDict items => flat_map (fun kv : pykey * pyobj => let (_, v) := kv in leaves v) items
  | PyList elems | PyTuple elems => flat_map leaves elems
  | PyOther _ => []
  end.

(** Every node is a tensor, a dict, a list or a tuple. *)
Fixpoint supported (obj : pyobj) : bool :=
  match obj with
  | PyTensor _ => true
  | PyDict items => forallb (fun kv : pykey * pyobj => let (_, v) := kv in supported v) items
  | PyList elems | PyTuple elems => forallb supported elems
  | PyOther _ => false
  end.

Fixpoint all_distinct (ks : list pykey) : bool :=
  match ks with
  | [] => true
  | k :: rest => negb (existsb (pykey_eqb k) rest) && all_distinct rest
  end.

(** The keys of every dict are pairwise distinct, as in any Python dict. *)
Fixpoint distinct_keys (obj : pyobj) : bool :=
  match obj with
  | PyTensor _ | PyOther _ => true
  | PyDict items =>
      all_distinct (map fst items)
      && forallb (fun kv : pykey * pyobj => let (_, v) := kv in distinct_keys v) items
  | PyList elems | PyTuple elems => forallb distinct_keys elems
  end.

(** The container [obj] with its leaves replaced, in traversal order, by
    the tensors of [news], and its tuples by lists; also the tensors left
    over. *)
Fixpoint fill (obj : pyobj) (news : list tensor) : pyobj * list tensor :=
  match obj with
  | PyTensor t =>
      match news with
      | n :: rest => (PyTensor n, rest)
      | [] => (PyTensor t, [])
      end
  | PyDict items =>
      let (items', rest) :=
        (fix go (items : list (pykey * pyobj)) (news : list tensor)
           : list (pykey * pyobj) * list tensor :=
           match items with
           | [] => ([], news)
           | (k, v) :: more =>
               let (v', news) := fill v news in
               let (more', news) := go more news in
               ((k, v') :: more', news)
           end) items news in
      (PyDict items', rest)
  | PyList elems | PyTuple elems =>
      let (elems', rest) :=
        (fix go (elems : list pyobj) (news : list tensor)
           : list pyobj * list tensor :=
           match elems with
           | [] => ([], news)
           | v :: more =>
               let (v', news) := fill v news in
               let (more', news) := go more news in
               (v' :: more', news)
           end) elems news in
      (PyList elems', rest)
  | PyOther s => (PyOther s, news)
  end.

(** The shape a leaf of shape [shape] is rebuilt with from [n] elements
    behind the leading axes [pre]: the axes after the first are kept and
    the first is what [n] leaves for it. *)
Definition rebuilt_shape (pre : list nat) (n : nat) (shape : list nat) : list nat :=
  pre ++ [n / prod (tl shape)] ++ tl shape.

(** A leaf as a rebuild without a collective returns it. *)
Definition as_rebuilt (t : tensor) : tensor :=
  mkTensor (tdtype t) (rebuilt_shape [] (numel t) (tshape t)) (tdata t).

(** A container as a rebuild without a collective returns it: tuples have
    become lists, and a leaf without axes a vector of one element. *)
Fixpoint normalize (obj : pyobj) : pyobj :=
  match obj with
  | PyTensor t => PyTensor (as_rebuilt t)
  | PyDict items => PyDict (map (fun kv : pykey * pyobj => let (k, v) := kv in (k, normalize v)) items)
  | PyList elems | PyTuple elems => PyList (map normalize elems)
  | PyOther s => PyOther s
  end.

(** No tuple anywhere in the container. *)
Fixpoint tuple_free (obj : pyobj) : bool :=
  match obj with
  | PyTensor _ | PyOther _ => true
  | PyDict items => forallb (fun kv : pykey * pyobj => let (_, v) := kv in tuple_free v) items
  | PyList elems => forallb tuple_free elems
  | PyTuple _ => false
  end.

(** What a leaf must satisfy for the rebuilder to give it back a shape:
    it holds as many elements as its shape says, fewer than 2^63, and none
    of its axes after the first is empty. *)
Definition leaf_ok (t : tensor) : Prop :=
  wf_tensor t /\ prod (tl (tshape t)) <> 0 /\ (Z.of_nat (numel t) < 2 ^ 63)%Z.

(** Whether [d] is among the keys [ks]. *)
Definition mem (d : dtype) (ks : list dtype) : bool := existsb (dtype_eqb d) ks.

(** [d[k]] on a [defaultdict(list)] that is only read. *)
Definition dlist {V} (k : dtype) (d : ddict (list V)) : list V :=
  match dget k d with
  | Some l => l
  | None => []
  end.

(** The dtypes of some leaves, each once, in order of first occurrence. *)
Fixpoint dtypes_of (ls : list tensor) : list dtype :=
  match ls with
  | [] => []
  | t :: rest =>
      tdtype t :: filter (fun d => negb (dtype_eqb d (tdtype t))) (dtypes_of rest)
  end.

Definition has_dtype (d : dtype) (t : tensor) : bool := dtype_eqb (tdtype t) d.

(** The buffer of dtype [d] that flattening a container with leaves [ls]
    produces. *)
Definition flat_buffer (d : dtype) (ls : list tensor) : tensor :=
  mkTensor d [list_sum (map numel (filter (has_dtype d) ls))]
           (concat (map tdata (filter (has_dtype d) ls))).

Definition flattened (ls : list tensor) : ddict tensor :=
  map (fun d => (d, flat_buffer d ls)) (dtypes_of ls).

(** The local size table of [cat]: per dtype, the element counts of the
    leaves of that dtype. *)
Definition size_table (ls : list tensor) : ddict tensor :=
  map (fun d => (d, mkTensor th_int64 [length (filter (has_dtype d) ls)]
                      (map (fun t => of_int (Z.of_nat (numel t))) (filter (has_dtype d) ls))))
      (dtypes_of ls).

(** Blocks of rows put side by side: row [i] of the result is row [i] of
    every block in turn. *)
Fixpoint rowcat {A} (rows : nat) (blocks : list (list (list A))) : list (list A) :=
  match blocks with
  | [] => repeat [] rows
  | b :: bs => zip_with (@app A) b (rowcat rows bs)
  end.

(** What the rebuilder is to give one leaf: the leaf of the template, and
    the rows, each [piece_len] long, that a buffer holds for it. *)
Record piece : Type := mkPiece {
  piece_leaf : tensor;
  piece_len : nat;
  piece_rows : list (list scalar)
}.

Definition piece_ok (rows : nat) (p : piece) : Prop :=
  length (piece_rows p) = rows
  /\ Forall (fun r => length r = piece_len p) (piece_rows p)
  /\ prod (tl (tshape (piece_leaf p))) <> 0
  /\ piece_len p mod prod (tl (tshape (piece_leaf p))) = 0.

(** The leaf rebuilt from a piece behind the leading axes [pre]. *)
Definition piece_tensor (pre : list nat) (p : piece) : tensor :=
  mkTensor (tdtype (piece_leaf p))
           (rebuilt_shape pre (piece_len p) (tshape (piece_leaf p)))
           (concat (piece_rows p)).

Definition pieces_of (d : dtype) (ps : list piece) : list piece :=
  filter (fun p => has_dtype d (piece_leaf p)) ps.

(** The buffers [values] hold exactly the pieces [ps]: the buffer of each
    dtype has the leading axes [pre] and, along its last axis, the pieces
    of that dtype in order. *)
Definition Supplies (pre : list nat) (values : ddict tensor) (ps : list piece) : Prop :=
  forall d, pieces_of d ps <> [] ->
    dget d values =
    Some (mkTensor d (pre ++ [list_sum (map piece_len (pieces_of d ps))])
            (concat (rowcat (prod pre) (map piece_rows (pieces_of d ps))))).

(** The size table, if there is one, lists the lengths of the pieces;
    without one the length of a piece is the element count of its leaf,
    which an int64 holds. *)
Definition Sized (sizes : option (ddict tensor)) (ps : list piece) : Prop :=
  match sizes with
  | None =>
      Forall (fun p => piece_len p = numel (piece_leaf p)
                       /\ (Z.of_nat (numel (piece_leaf p)) < 2 ^ 63)%Z) ps
  | Some sz =>
      forall d, pieces_of d ps <> [] ->
        exists dt xs,
          dget d sz = Some (mkTensor dt [length xs] xs)
          /\ map to_int xs = map (fun p => Z.of_nat (piece_len p)) (pieces_of d ps)
  end.

(** The rebuilder on [obj], fed with pieces for its leaves and more:
    it returns [obj] filled with the leaves rebuilt from its pieces and
    leaves the other pieces in the buffers. *)
Definition Rebuilds (pre : list nat) (obj : pyobj) : Prop :=
  forall ps rest values sizes,
    map piece_leaf ps = leaves obj ->
    Forall (piece_ok (prod pre)) (ps ++ rest) ->
    Supplies pre values (ps ++ rest) -> Sized sizes (ps ++ rest) ->
    exists values' sizes',
      _recursive_write obj values sizes
        = Ok (fst (fill obj (map (piece_tensor pre) ps)), values', sizes')
      /\ Supplies pre values' rest /\ Sized sizes' rest
      /\ (sizes = None -> sizes' = None).

(** The piece a leaf makes of itself when nothing is communicated. *)
Definition own_piece (t : tensor) : piece := mkPiece t (numel t) [tdata t].

(** The leaves the traversal visits before it meets a node it does not
    support (all of them if there is none). *)
Fixpoint leaves_before (obj : pyobj) : list tensor :=
  match obj with
  | PyTensor t => [t]
  | PyDict items =>
      (fix go (items : list (pykey * pyobj)) : list tensor :=
         match items with
         | [] => []
         | (_, v) :: more =>
             if supported v then leaves v ++ go more else leaves_before v
         end) items
  | PyList elems | PyTuple elems =>
      (fix go (elems : list pyobj) : list tensor :=
         match elems with
         | [] => []
         | v :: more =>
             if supported v then leaves v ++ go more else leaves_before v
         end) elems
  | PyOther _ => []
  end.

(** The same over the children of a node. *)
Definition leaves_before_children : list pyobj -> list tensor :=
  fix go (elems : list pyobj) : list tensor :=
    match elems with
    | [] => []
    | v :: more =>
        if supported v then leaves v ++ go more else leaves_before v
    end.

(** The rebuilder meets the unsupported node of [obj] when the buffers
    serve the leaves before it. *)
Definition Stops (pre : list nat) (obj : pyobj) : Prop :=
  forall ps rest values sizes,
    map piece_leaf ps = leaves_before obj ->
    Forall (piece_ok (prod pre)) (ps ++ rest) ->
    Supplies pre values (ps ++ rest) -> Sized sizes (ps ++ rest) ->
    _recursive_write obj values sizes = Err ValueError_UnknownType.

(** How a worker ends whose program is a computation without collectives. *)
Definition settle {A} (r : result A) : outcome A :=
  match r with
  | Ok a => Returned a
  | Err e => Raised e
  end.

(** The workers of a job: each argument with its rank. *)
Definition ranked {A} (args : list A) : list (nat * A) :=
  List.combine (seq 0 (length args)) args.

(** The calls gathered from programs that each go on with a function. *)
Definition then_call {A B} (c : ReduceOp * option nat * tensor * (tensor -> comm A))
    (f : A -> comm B) : ReduceOp * option nat * tensor * (tensor -> comm B) :=
  let '(op, dst, buf, k) := c in (op, dst, buf, fun t => cbind (k t) f).

(** A tensor to name where a list of leaves has none. *)
Definition no_tensor : tensor := mkTensor th_bool [] [].

(** The leaves at traversal position [j], one per worker, in rank order;
    [rows] lists the leaves of each worker. *)
Definition column (rows : list (list tensor)) (j : nat) : list tensor :=
  map (fun row => nth j row no_tensor) rows.

(** One new leaf per leaf of [ls], made from the leaves of all workers at
    the same position and the leaf itself. *)
Definition per_leaf (F : list tensor -> tensor -> tensor) (rows : list (list tensor))
    (ls : list tensor) : list tensor :=
  map (fun j => F (column rows j) (nth j ls no_tensor)) (seq 0 (length ls)).

(** The dtype a buffer of dtype [d] is communicated in: bool goes as
    uint8. *)
Definition wire_dtype (d : dtype) : dtype :=
  if dtype_eqb d th_bool then th_uint8 else d.

(** A buffer with the blocks of one owner in place and zeros for the
    blocks of the others. *)
Definition masked (d : dtype) (r : nat) (blocks : list (nat * list scalar)) : list scalar :=
  concat (map (fun ob => if fst ob =? r then snd ob
                         else repeat (zero d) (length (snd ob))) blocks).

(** What two leaves must share for their buffers to match in a
    collective: the dtype and the element count. *)
Definition leaf_sig (t : tensor) : dtype * nat := (tdtype t, numel t).

(** The containers of all workers have, position by position in
    traversal order, leaves of the same signature. *)
Definition aligned {S} (sig : tensor -> S) (objs : list pyobj) : Prop :=
  forall a b, In a objs -> In b objs -> map sig (leaves a) = map sig (leaves b).

(** The elements of a leaf as they are communicated. *)
Definition wire_data (t : tensor) : list scalar :=
  tdata (tensor_type t (wire_dtype (tdtype t))).

(** The reduction of the leaves of all workers at one position, element
    by element in rank order, in the dtype it is communicated in and with
    the shape of the worker's own leaf. *)
Definition leaf_reduction (op : ReduceOp) (col : list tensor) (own : tensor) : tensor :=
  mkTensor (wire_dtype (tdtype own)) (tshape own)
    (match map wire_data col with
     | [] => []
     | first :: others => reduce_buffers op (wire_dtype (tdtype own)) first others
     end).

(** What [reduce] makes of the reduction of a leaf: for the mean the
    division by the world size, then the conversion to the dtype of the
    leaf, in the shape the rebuilder gives. *)
Definition reduced_leaf (op : ReduceOp) (is_mean : bool) (ws : nat)
    (col : list tensor) (own : tensor) : tensor :=
  let v := leaf_reduction op col own in
  let v := if is_mean then tensor_true_divide v (Z.of_nat ws) else v in
  as_rebuilt (tensor_type v (tdtype own)).

(** What [stack] makes of a leaf: a new leading axis, and the elements of
    the leaves of all workers in rank order. *)
Definition stacked_leaf (col : list tensor) (own : tensor) : tensor :=
  mkTensor (tdtype own) (rebuilt_shape [length col] (numel own) (tshape own))
           (concat (map tdata col)).

(** The positions of the leaves of dtype [d] among the leaves [ls]. *)
Definition positions (d : dtype) (ls : list tensor) : list nat :=
  filter (fun j => has_dtype d (nth j ls no_tensor)) (seq 0 (length ls)).

(** What [reduce] hands to the backend for dtype [d]: the flat buffer of
    the container, as communicated. *)
Definition reduce_send (d : dtype) (obj : pyobj) : tensor :=
  tensor_type (flat_buffer d (leaves obj)) (wire_dtype d).

(** What [reduce] makes of the buffer the backend returns for dtype [d]. *)
Definition reduce_finish (is_mean : bool) (ws : nat) (d : dtype) (v : tensor) : tensor :=
  tensor_type (if is_mean then tensor_true_divide v (Z.of_nat ws) else v) d.

(** The same, element by element. *)
Definition reduce_finish_elem (is_mean : bool) (ws : nat) (d : dtype) (x : scalar) : scalar :=
  let d' := wire_dtype d in
  let y := if is_mean then true_divide d' x (Z.of_nat ws) else x in
  let dy := if is_mean then true_divide_dtype d' else d' in
  if dtype_eqb dy d then y else cast dy d y.

(** The piece [reduce] rebuilds the leaf at position [j] from. *)
Definition reduce_piece (op : ReduceOp) (is_mean : bool) (rows : list (list tensor))
    (ls : list tensor) (j : nat) : piece :=
  mkPiece (nth j ls no_tensor) (numel (nth j ls no_tensor))
    [tdata (reduced_leaf op is_mean (length rows) (column rows j) (nth j ls no_tensor))].

(** What [stack] hands to the backend for dtype [d] on rank [r] of [ws]:
    zeros, but for the worker's own flat buffer in row [r]. *)
Definition stack_send (ws r : nat) (d : dtype) (obj : pyobj) : tensor :=
  let v := flat_buffer d (leaves obj) in
  let zeros := repeat (zero (wire_dtype d)) (prod (ws :: tshape v)) in
  mkTensor (wire_dtype d) (ws :: tshape v)
    (firstn (r * prod (tshape v)) zeros
     ++ tdata (tensor_type v (wire_dtype d))
     ++ skipn ((r + 1) * prod (tshape v)) zeros).

(** The piece [stack] rebuilds the leaf at position [j] from: one row per
    worker. *)
Definition stack_piece (rows : list (list tensor)) (ls : list tensor) (j : nat) : piece :=
  mkPiece (nth j ls no_tensor) (numel (nth j ls no_tensor)) (map tdata (column rows j)).

(** A size as the int64 element that holds it. *)
Definition enc (n : nat) : scalar := of_int (Z.of_nat n).

(** What [cat] needs the workers to agree on at a leaf position: the
    dtype and the axes after the first. *)
Definition cat_sig (t : tensor) : dtype * list nat := (tdtype t, tl (tshape t)).

(** What [cat] makes of a leaf: the elements of the leaves of all workers
    in rank order, as many rows along the first axis as they fill. *)
Definition cat_leaf (col : list tensor) (own : tensor) : tensor :=
  mkTensor (tdtype own) (rebuilt_shape [] (list_sum (map numel col)) (tshape own))
           (concat (map tdata col)).

(** The piece [cat] rebuilds the leaf at position [j] from. *)
Definition cat_piece (rows : list (list tensor)) (ls : list tensor) (j : nat) : piece :=
  mkPiece (nth j ls no_tensor) (list_sum (map numel (column rows j)))
          [concat (map tdata (column rows j))].

(** The blocks of the buffer of dtype [d] in [cat], in the order of the
    buffer: for each leaf position of that dtype, the leaves of all
    workers in rank order, as they are sent. *)
Definition cat_rows (d : dtype) (rows : list (list tensor)) (ls : list tensor)
  : list (list (list scalar)) :=
  map (fun j => map wire_data (column rows j)) (positions d ls).

(** The blocks of one leaf position with all but the block of rank [r]
    zeroed. *)
Definition mask_row (d : dtype) (r : nat) (row : list (list scalar)) : list scalar :=
  masked d r (List.combine (seq 0 (length row)) row).

(** What [cat] hands to the backend for dtype [d] on rank [r]. *)
Definition cat_send (d : dtype) (r : nat) (rows : list (list tensor)) (ls : list tensor)
  : tensor :=
  let blocks := cat_rows d rows ls in
  mkTensor (wire_dtype d) [list_sum (map (@length scalar) (concat blocks))]
           (concat (map (mask_row (wire_dtype d) r) blocks)).

(** Where in its buffer of dtype [d] the worker of rank [r] writes its
    [i]-th leaf of that dtype: after the elements of all workers at the
    leaf positions before, and those of the lower ranks at this one. *)
Definition cat_offset (d : dtype) (r i : nat) (rows : list (list tensor)) (ls : list tensor)
  : nat :=
  list_sum (map (fun p => list_sum (map numel (column rows p))) (firstn i (positions d ls)))
  + list_sum (firstn r (map numel (column rows (nth i (positions d ls) 0)))).

(** The buffer of dtype [d] that [cat] rebuilds from: for each leaf
    position of that dtype, the elements of the leaves of all workers in
    rank order. *)
Definition cat_out (d : dtype) (rows : list (list tensor)) (ls : list tensor) : tensor :=
  mkTensor d [list_sum (map (@length scalar) (concat (cat_rows d rows ls)))]
           (concat (map tdata (concat (map (column rows) (positions d ls))))).

(** The size table of a worker, as [cat] hands it to [stack]. *)
Definition sizes_obj (ls : list tensor) : pyobj := py_of_ddict (size_table ls).

(** The size table of [cat] after [stack]: for each dtype a matrix with a
    row per worker and a column per leaf of that dtype. *)
Definition stacked_sizes (rows : list (list tensor)) (ls : list tensor) : pyobj :=
  PyDict (map (fun d =>
                 (KDtype d,
                  PyTensor (mkTensor th_int64 [length rows; length (positions d ls)]
                              (concat (map (fun row =>
                                              map (fun p => enc (numel (nth p row no_tensor)))
                                                  (positions d ls))
                                           rows)))))
              (dtypes_of ls)).

(** The size table summed over the workers. *)
Definition summed_sizes (rows : list (list tensor)) (ls : list tensor) : ddict tensor :=
  map (fun d => (d, mkTensor th_int64 [length (positions d ls)]
                      (map (fun j => enc (list_sum (map numel (column rows j))))
                           (positions d ls))))
      (dtypes_of ls).

(** What the walker returns for leaves [ls], for either of its two dicts:
    the keys are the dtypes in order of first occurrence, and each maps to
    the images of its leaves of that dtype. *)
Definition Buckets {V} (f : tensor -> V) (ls : list tensor) (d : ddict (list V)) : Prop :=
  map fst d = dtypes_of ls /\
  forall k, dlist k d = map f (filter (has_dtype k) ls).
End Notions.

(* ================================================================== *)
(** * A reference instance of the tensor library *)
(* ================================================================== *)

(** A table for names outside ASCII, with the two letters whose capital
    is one ASCII letter: the long s (U+017F, bytes 197 191) has [S] and
    the dotless i (U+0131, bytes 196 177) has [I].  Every other character
    outside ASCII is left as it is. *)
Fixpoint upper_latin (s : string) : string :=
  match s with
  | EmptyString => EmptyString
  | String c r =>
      match r with
      | String c' r' =>
          if (nat_of_ascii c =? 197) && (nat_of_ascii c' =? 191)
          then String "S"%char (upper_latin r')
          else if (nat_of_ascii c =? 196) && (nat_of_ascii c' =? 177)
          then String "I"%char (upper_latin r')
          else String (upper_ascii c) (upper_latin r)
      | EmptyString => String (upper_ascii c) EmptyString
      end
  end.

(** Unbounded integers for every dtype: addition, multiplication, minimum
    and maximum for the reductions, truncating division for [/], and no
    change of representation between dtypes; of the capitals outside
    ASCII, those of [upper_latin]. *)
Definition Z_lib : TensorLib := {|
  scalar := Z;
  zero := fun _ => 0%Z;
  reduce_elem := fun op _ x y =>
    match op with
    | PRODUCT => (x * y)%Z
    | MIN => Z.min x y
    | MAX => Z.max x y
    | BAND => Z.land x y
    | BOR => Z.lor x y
    | BXOR => Z.lxor x y
    | _ => (x + y)%Z
    end;
  reduce_residue := fun _ _ _ => 0%Z;
  cast := fun _ _ x => x;
  true_divide := fun _ x n => Z.quot x n;
  of_int := fun z => z;
  to_int := fun z => z;
  str_upper := upper_latin
|}.

(* ================================================================== *)
(** * The loops of the walker and the rebuilder, by name *)
(* ================================================================== *)

Section Loops.
Context {TL : TensorLib}.

(** The loop of [_recursive_read] over the children of a list or tuple. *)
Definition read_children : list pyobj -> ddict (list tensor) -> ddict (list tensor)
    -> result (ddict (list tensor) * ddict (list tensor)) :=
  fix loop (elems : list pyobj) (values sizes : ddict (list tensor)) :=
    match elems with
    | [] => Ok (values, sizes)
    | v :: rest =>
        let* (child_values, child_sizes) := _recursive_read v in
        loop rest (dmerge values child_values) (dmerge sizes child_sizes)
    end.

(** The loop of [_recursive_read] over the items of a dict. *)
Definition read_items : list (pykey * pyobj) -> ddict (list tensor) -> ddict (list tensor)
    -> result (ddict (list tensor) * ddict (list tensor)) :=
  fix loop (items : list (pykey * pyobj)) (values sizes : ddict (list tensor)) :=
    match items with
    | [] => Ok (values, sizes)
    | (_, v) :: rest =>
        let* (child_values, child_sizes) := _recursive_read v in
        loop rest (dmerge values child_values) (dmerge sizes child_sizes)
    end.

(** The loop of [_recursive_write] over the children of a list or tuple. *)
Definition write_children : list pyobj -> list pyobj -> ddict tensor -> option (ddict tensor)
    -> result (pyobj * ddict tensor * option (ddict tensor)) :=
  fix loop (elems new_obj : list pyobj) values sizes :=
    match elems with
    | [] => Ok (PyList new_obj, values, sizes)
    | v :: rest =>
        let* (new_v, values, sizes) := _recursive_write v values sizes in
        loop rest (new_obj ++ [new_v]) values sizes
    end.

(** The loop of [_recursive_write] over the items of a dict. *)
Definition write_items : list (pykey * pyobj) -> list (pykey * pyobj) -> ddict tensor
    -> option (ddict tensor) -> result (pyobj * ddict tensor * option (ddict tensor)) :=
  fix loop (items new_obj : list (pykey * pyobj)) values sizes :=
    match items with
    | [] => Ok (PyDict new_obj, values, sizes)
    | (k, v) :: rest =>
        let* (new_v, values, sizes) := _recursive_write v values sizes in
        loop rest (dict_set pykey_eqb k new_v new_obj) values sizes
    end.

(** The loops of [fill]. *)
Definition fill_children : list pyobj -> list tensor -> list pyobj * list tensor :=
  fix go (elems : list pyobj) (news : list tensor) : list pyobj * list tensor :=
    match elems with
    | [] => ([], news)
    | v :: more =>
        let (v', news) := fill v news in
        let (more', news) := go more news in
        (v' :: more', news)
    end.

Definition fill_items : list (pykey * pyobj) -> list tensor
    -> list (pykey * pyobj) * list tensor :=
  fix go (items : list (pykey * pyobj)) (news : list tensor)
    : list (pykey * pyobj) * list tensor :=
    match items with
    | [] => ([], news)
    | (k, v) :: more =>
        let (v', news) := fill v news in
        let (more', news) := go more news in
        ((k, v') :: more', news)
    end.
End Loops.

(* ================================================================== *)
(** * The examples of the docstrings, on the reference instance *)
(* ================================================================== *)

Definition Ztensor (d : dtype) (shape : list nat) (data : list Z) : @tensor Z_lib :=
  @mkTensor Z_lib d shape data.

(** [{key: x ** rank}] on four workers, for [x = [2, 3, 5]]. *)
Definition powers (key : string) : list (@pyobj Z_lib) :=
  map (fun r => PyDict [(KStr key,
                         PyTensor (Ztensor th_int64 [3] (map (fun v => v ^ r)%Z [2; 3; 5]%Z)))])
      [0; 1; 2; 3]%Z.

(** [{"range": rng[rank * (rank + 1) // 2: (rank + 1) * (rank + 2) // 2]}]
    on four workers, for [rng = arange(10)]. *)
Definition ranges : list (@pyobj Z_lib) :=
  [PyDict [(KStr "range", PyTensor (Ztensor th_int64 [1] [0]%Z))];
   PyDict [(KStr "range", PyTensor (Ztensor th_int64 [2] [1; 2]%Z))];
   PyDict [(KStr "range", PyTensor (Ztensor th_int64 [3] [3; 4; 5]%Z))];
   PyDict [(KStr "range", PyTensor (Ztensor th_int64 [4] [6; 7; 8; 9]%Z))]].

(** Three workers, the second with nothing to contribute to the first
    leaf. *)
Definition ragged : list (@pyobj Z_lib) :=
  [PyList [PyTensor (Ztensor th_int64 [2] [1; 2]%Z); PyTensor (Ztensor th_bool [1; 2] [1; 0]%Z)];
   PyList [PyTensor (Ztensor th_int64 [0] []); PyTensor (Ztensor th_bool [2; 2] [0; 0; 1; 1]%Z)];
   PyList [PyTensor (Ztensor th_int64 [1] [3]%Z); PyTensor (Ztensor th_bool [1; 2] [0; 1]%Z)]].

(** Two workers whose leaves have the shapes (2, 3) and (3, 2). *)
Definition reshaped : list (@pyobj Z_lib) :=
  [PyTensor (Ztensor th_int64 [2; 3] [1; 2; 3; 4; 5; 6]%Z);
   PyTensor (Ztensor th_int64 [3; 2] [10; 20; 30; 40; 50; 60]%Z)].

(** A container with a dict, a list, a tuple and leaves of two dtypes. *)
Definition mixed : @pyobj Z_lib :=
  PyDict [(KStr "w", PyTensor (Ztensor th_float32 [2; 2] [1; 2; 3; 4]%Z));
          (KStr "b", PyList [PyTensor (Ztensor th_int64 [3] [5; 6; 7]%Z);
                             PyTuple [PyTensor (Ztensor th_float32 [1] [8]%Z)]])].

(** Two workers that each hold a leaf without axes. *)
Definition scalars : list (@pyobj Z_lib) :=
  [PyTensor (Ztensor th_float32 [] [5]%Z); PyTensor (Ztensor th_float32 [] [7]%Z)].

(** A leaf without axes, as a loss or a metric is. *)
Definition scalar_leaf : @pyobj Z_lib := PyTensor (Ztensor th_float32 [] [5]%Z).

(** A list of a tensor and a Python int. *)
Definition tensor_then_int : @pyobj Z_lib :=
  PyList [PyTensor (Ztensor th_float32 [1] [8]%Z); PyOther "int"].

(** Two workers that each hold a tuple of one leaf. *)
Definition pairs : list (@pyobj Z_lib) :=
  [PyTuple [PyTensor (Ztensor th_int64 [1] [1]%Z)];
   PyTuple [PyTensor (Ztensor th_int64 [2] [2; 3]%Z)]].

(** Two workers whose leaves have rows of length zero: the shapes (2, 0)
    and (3, 0). *)
Definition empty_rows : list (@pyobj Z_lib) :=
  [PyTensor (Ztensor th_int64 [2; 0] []); PyTensor (Ztensor th_int64 [3; 0] [])].

(** A list of a leaf of shape (2, 0) and a Python int. *)
Definition empty_rows_then_int : @pyobj Z_lib :=
  PyList [PyTensor (Ztensor th_int64 [2; 0] []); PyOther "int"].

(** A wrapped function that pickles its result to [cache.pkl], and peers
    that leave the files alone. *)
Definition write_cache (args : list value) (kwargs : list (string * value))
    (fs : filesystem) : result value * filesystem :=
  (Ok VNone, fun p => if String.eqb p "cache.pkl" then Some (VObj 7) else fs p).

Definition idle_peers (fs : filesystem) : filesystem := fs.

(** Peers among which rank 0 writes [cache.pkl] before the barrier
    ends. *)
Definition master_writes (fs : filesystem) : filesystem :=
  fun p => if String.eqb p "cache.pkl" then Some (VObj 7) else fs p.

Definition empty_disk : process := mkProcess (fun _ => None) [].

Definition cached : process :=
  mkProcess (fun p => if String.eqb p "cache.pkl" then Some (VObj 7) else None) [].

(** A disk on which [cache.pkl] holds an older artifact. *)
Definition stale : process :=
  mkProcess (fun p => if String.eqb p "cache.pkl" then Some (VObj 1) else None) [].

(** Tactics for statements about the example jobs: a case per worker,
    and evaluation. *)
Ltac each_worker H :=
  cbn [In powers ranges ragged reshaped scalars pairs empty_rows map] in H;
  repeat (destruct H as [<-|H]; [|]); try contradiction.

Ltac all_workers := repeat constructor.

Ltac leaves_ok :=
  repeat constructor; try discriminate; try reflexivity.

Ltac workers_aligned :=
  let a := fresh "a" in
  let b := fresh "b" in
  let Ha := fresh "Ha" in
  let Hb := fresh "Hb" in
  intros a b Ha Hb; each_worker Ha; each_worker Hb; reflexivity.

Ltac totals_bounded :=
  let o := fresh "o" in
  let d := fresh "d" in
  let Ho := fresh "Ho" in
  intros o d Ho; each_worker Ho; destruct d; reflexivity.

(* ================================================================== *)
(** * The calls of the backend a worker makes *)
(* ================================================================== *)

Section Requests.
Context {TL : TensorLib}.

(** The calls a worker program makes, in order, when the backend leaves
    [respond op dst buf] in the buffer of each call: the operator, the
    destination and the buffer handed over. *)
Fixpoint requests {A} (respond : ReduceOp -> option nat -> tensor -> tensor) (p : comm A)
  : list (ReduceOp * option nat * tensor) :=
  match p with
  | AllReduce op dst buf k => (op, dst, buf) :: requests respond (k (respond op dst buf))
  | _ => []
  end.
End Requests.

(* ================================================================== *)
(** * The process groups of the module *)
(* ================================================================== *)

(** [get_group] and [init_process_group] with the two globals of the
    module, [cpu_group] and [gpu_group], spelled out.  A Python value that
    may be [None] is an [option].  The collectives above see these globals
    only through [group_ready]: whether [get_group] answers for the device
    of their buffers. *)
Module Groups.
Section Groups.

(** What the module does not look inside: the process groups of
    [torch.distributed] and the state of that library. *)
Variable group : Type.
Variable dist_state : Type.

(** [dist.init_process_group(backend, init_method, **kwargs)] *)
Variable dist_init_process_group :
  string -> value -> list (string * value) -> dist_state -> result unit * dist_state.

(** [dist.group.WORLD] *)
Variable dist_group_WORLD : dist_state -> option group.

(** [dist.new_group(backend=...)] *)
Variable dist_new_group : string -> dist_state -> result group * dist_state.

Record globals : Type := mkGlobals {
  cpu_group : option group;
  gpu_group : option group;
  dist : dist_state
}.

(** The module as it is imported: [cpu_group = None], [gpu_group = None]. *)
Definition imported (d : dist_state) : globals := mkGlobals None None d.

(** [get_group(device)], for a device of type [device_type]. *)
Definition get_group (device_type : string) (g : globals) : result group :=
  let group := if String.eqb device_type "cpu" then cpu_group g else gpu_group g in
  match group with
  | None => Err ValueError_GroupNotInitialized
  | Some grp => Ok grp
  end.

(** [init_process_group(backend, init_method, **kwargs)] *)
Definition init_process_group (backend : string) (init_method : value)
    (kwargs : list (string * value)) (g : globals) : result unit * globals :=
  match dist_init_process_group backend init_method kwargs (dist g) with
  | (Err e, d) => (Err e, mkGlobals (cpu_group g) (gpu_group g) d)
  | (Ok _, d) =>
      let gpu := dist_group_WORLD d in
      if String.eqb backend "nccl" then
        match dist_new_group "gloo" d with
        | (Err e, d') => (Err e, mkGlobals (cpu_group g) gpu d')
        | (Ok grp, d') => (Ok tt, mkGlobals (Some grp) gpu d')
        end
      else (Ok tt, mkGlobals gpu gpu d)
  end.
End Groups.
End Groups.

(* ================================================================== *)
(** * What the rebuilder takes from flat buffers *)
(* ================================================================== *)

Section Dealing.
Context {TL : TensorLib}.

(** The elements the rebuilder hands to the leaves [ls], in traversal
    order, from the flat buffers [bufs], one per dtype: each leaf takes as
    many as it holds off the front of the buffer of its dtype, and the
    leaves after it go on behind. *)
Fixpoint deal (ls : list tensor) (bufs : dtype -> list scalar) : list (list scalar) :=
  match ls with
  | [] => []
  | t :: rest =>
      firstn (numel t) (bufs (tdtype t))
      :: deal rest (fun d => if has_dtype d t then skipn (numel t) (bufs d) else bufs d)
  end.

(** The leaves rebuilt from flat buffers: each with the dtype of the
    template and the shape the rebuilder gives. *)
Definition dealt (ls : list tensor) (bufs : dtype -> list scalar) : list tensor :=
  zip_with (fun t xs => mkTensor (tdtype t) (rebuilt_shape [] (numel t) (tshape t)) xs)
           ls (deal ls bufs).

(** The same as pieces: each leaf with the elements it takes, in one row. *)
Definition dealt_pieces (ls : list tensor) (bufs : dtype -> list scalar) : list piece :=
  zip_with (fun t xs => mkPiece t (numel t) [xs]) ls (deal ls bufs).

(** The elements of the buffer of each dtype in [values]. *)
Definition buffer_data (values : ddict tensor) (d : dtype) : list scalar :=
  match dget d values with
  | Some v => tdata v
  | None => []
  end.
End Dealing.

Unset Implicit Arguments.

(* ================================================================== *)
(** * Lists *)
(* ================================================================== *)

Lemma filter_filter {A} (p q : A -> bool) (l : list A) :
  filter p (filter q l) = filter (fun x => q x && p x) l.
Proof.
  induction l as [|x l IH]; cbn [filter]; [reflexivity|].
  destruct (q x); cbn [filter andb]; [destruct (p x)|]; now rewrite IH.
Qed.

Lemma filter_none {A} (p : A -> bool) (l : list A) :
  (forall x, In x l -> p x = false) -> filter p l = [].
Proof.
  induction l as [|x l IH]; intros H; cbn [filter]; [reflexivity|].
  rewrite (H x (or_introl eq_refl)). apply IH. intros y Hy. apply H. now right.
Qed.

Lemma filter_all {A} (p : A -> bool) (l : list A) :
  (forall x, In x l -> p x = true) -> filter p l = l.
Proof.
  induction l as [|x l IH]; intros H; cbn [filter]; [reflexivity|].
  rewrite (H x (or_introl eq_refl)). f_equal. apply IH. intros y Hy. apply H. now right.
Qed.

Lemma existsb_false_iff {A} (p : A -> bool) (l : list A) :
  existsb p l = false <-> forall x, In x l -> p x = false.
Proof.
  induction l as [|x l IH]; cbn [existsb]; split; intros H.
  - intros ? [].
  - reflexivity.
  - apply orb_false_iff in H as [Hx Hl]. intros y [<-|Hy]; [exact Hx|].
    now apply IH.
  - apply orb_false_iff. split; [apply H; now left|].
    apply IH. intros y Hy. apply H. now right.
Qed.

(* ================================================================== *)
(** * Keys *)
(* ================================================================== *)

Lemma dtype_eqb_eq (a b : dtype) : dtype_eqb a b = true <-> a = b.
Proof. unfold dtype_eqb. destruct (dtype_eq_dec a b); split; congruence. Qed.

Lemma dtype_eqb_refl (a : dtype) : dtype_eqb a a = true.
Proof. now apply dtype_eqb_eq. Qed.

Lemma dtype_eqb_neq (a b : dtype) : dtype_eqb a b = false <-> a <> b.
Proof. unfold dtype_eqb. destruct (dtype_eq_dec a b); split; congruence. Qed.

Lemma dtype_eqb_sym (a b : dtype) : dtype_eqb a b = dtype_eqb b a.
Proof.
  destruct (dtype_eqb a b) eqn:E.
  - apply dtype_eqb_eq in E. subst. now rewrite dtype_eqb_refl.
  - apply dtype_eqb_neq in E. symmetry. apply dtype_eqb_neq. congruence.
Qed.

Lemma pykey_eqb_eq (a b : pykey) : pykey_eqb a b = true <-> a = b.
Proof.
  destruct a, b; cbn [pykey_eqb]; split; intros H; try discriminate;
    try (apply String.eqb_eq in H); try (apply Z.eqb_eq in H);
    try (apply dtype_eqb_eq in H); try congruence.
  - injection H as ->. apply String.eqb_refl.
  - injection H as ->. apply Z.eqb_refl.
  - injection H as ->. apply dtype_eqb_refl.
Qed.

(** Membership of a dtype among some keys. *)
Lemma mem_in (d : dtype) (ks : list dtype) : mem d ks = true <-> In d ks.
Proof.
  unfold mem. rewrite existsb_exists. split.
  - intros (x & Hx & E). apply dtype_eqb_eq in E. now subst.
  - intros H. exists d. split; [exact H | apply dtype_eqb_refl].
Qed.

Lemma mem_not_in (d : dtype) (ks : list dtype) : mem d ks = false <-> ~ In d ks.
Proof.
  rewrite <- mem_in. destruct (mem d ks); split; congruence.
Qed.

(* ================================================================== *)
(** * Dictionaries keyed by dtype *)
(* ================================================================== *)

Section DictFacts.
Variable V : Type.
Implicit Types (d : ddict V) (k : dtype).

Lemma dget_dset_eq k (v : V) d : dget k (dset k v d) = Some v.
Proof.
  unfold dget, dset. induction d as [|[k' v'] d IH]; cbn [dict_get dict_set].
  - now rewrite dtype_eqb_refl.
  - destruct (dtype_eqb k k') eqn:E; cbn [dict_get]; rewrite E; [reflexivity | exact IH].
Qed.

Lemma dget_dset_neq k k' (v : V) d : k <> k' -> dget k' (dset k v d) = dget k' d.
Proof.
  intros Hne. unfold dget, dset.
  induction d as [|[k0 v0] d IH]; cbn [dict_get dict_set].
  - assert (E : dtype_eqb k' k = false) by (apply dtype_eqb_neq; congruence).
    now rewrite E.
  - destruct (dtype_eqb k k0) eqn:E; cbn [dict_get].
    + apply dtype_eqb_eq in E. subst k0.
      assert (E' : dtype_eqb k' k = false) by (apply dtype_eqb_neq; congruence).
      now rewrite E'.
    + now rewrite IH.
Qed.

Lemma keys_dset k (v : V) d :
  map fst (dset k v d) = if mem k (map fst d) then map fst d else map fst d ++ [k].
Proof.
  unfold dset, mem. induction d as [|[k' v'] d IH]; cbn [dict_set map fst existsb app].
  - reflexivity.
  - destruct (dtype_eqb k k') eqn:E; cbn [orb map fst].
    + reflexivity.
    + rewrite IH. destruct (existsb (dtype_eqb k) (map fst d)); reflexivity.
Qed.

Lemma dget_none k d : ~ In k (map fst d) -> dget k d = None.
Proof.
  unfold dget. induction d as [|[k' v'] d IH]; cbn [dict_get map fst In]; intros H.
  - reflexivity.
  - destruct (dtype_eqb k k') eqn:E.
    + apply dtype_eqb_eq in E. subst. exfalso. apply H. now left.
    + apply IH. intros Hin. apply H. now right.
Qed.

Lemma dget_some_in k d (v : V) : dget k d = Some v -> In k (map fst d).
Proof.
  intros H. destruct (in_dec dtype_eq_dec k (map fst d)) as [Hin|Hn]; [exact Hin|].
  rewrite (dget_none _ _ Hn) in H. discriminate.
Qed.

Lemma dget_in_some k d : In k (map fst d) -> exists v, dget k d = Some v.
Proof.
  unfold dget. induction d as [|[k' v'] d IH]; cbn [dict_get map fst In]; intros H.
  - contradiction.
  - destruct (dtype_eqb k k') eqn:E; [eauto|].
    destruct H as [->|H]; [now rewrite dtype_eqb_refl in E | now apply IH].
Qed.

(** A dict with distinct keys is its keys paired with what they map to. *)
Lemma dict_eta d (f : dtype -> V) :
  NoDup (map fst d) ->
  (forall k, In k (map fst d) -> dget k d = Some (f k)) ->
  d = map (fun k => (k, f k)) (map fst d).
Proof.
  induction d as [|[k v] d IH]; cbn [map fst]; intros Hnd Hget; [reflexivity|].
  inversion Hnd as [|? ? Hk Hd]; subst.
  f_equal.
  - specialize (Hget k (or_introl eq_refl)). unfold dget in Hget.
    cbn [dict_get] in Hget. rewrite dtype_eqb_refl in Hget. congruence.
  - apply IH; [exact Hd|]. intros k' Hin.
    specialize (Hget k' (or_intror Hin)). unfold dget in *. cbn [dict_get] in Hget.
    destruct (dtype_eqb k' k) eqn:E; [|exact Hget].
    apply dtype_eqb_eq in E. subst. contradiction.
Qed.
End DictFacts.

Section BucketFacts.
Variable V : Type.
Implicit Types (d c : ddict (list V)) (k : dtype).

Lemma dlist_dextend k k' (v : list V) d :
  dlist k' (dextend d k v) = if dtype_eqb k' k then dlist k' d ++ v else dlist k' d.
Proof.
  unfold dlist, dextend. destruct (dtype_eqb k' k) eqn:E.
  - apply dtype_eqb_eq in E. subst. now rewrite dget_dset_eq.
  - apply dtype_eqb_neq in E. rewrite dget_dset_neq by congruence. reflexivity.
Qed.

Lemma keys_dextend k (v : list V) d :
  map fst (dextend d k v) = if mem k (map fst d) then map fst d else map fst d ++ [k].
Proof. unfold dextend. apply keys_dset. Qed.

Lemma dlist_absent k d : ~ In k (map fst d) -> dlist k d = [].
Proof. intros H. unfold dlist. now rewrite dget_none. Qed.

Lemma dlist_cons k k' (v : list V) c :
  dlist k ((k', v) :: c) = if dtype_eqb k k' then v else dlist k c.
Proof. unfold dlist, dget. cbn [dict_get]. now destruct (dtype_eqb k k'). Qed.

Lemma dlist_nil k : dlist k (@nil (dtype * list V)) = [].
Proof. reflexivity. Qed.

Lemma dlist_dmerge k d c :
  NoDup (map fst c) -> dlist k (dmerge d c) = dlist k d ++ dlist k c.
Proof.
  unfold dmerge. revert d.
  induction c as [|[k' v] c IH]; intros d Hnd; cbn [fold_left fst snd map] in *.
  - rewrite dlist_nil. now rewrite app_nil_r.
  - inversion Hnd as [|? ? Hk Hc]; subst. rewrite IH by exact Hc.
    rewrite dlist_dextend, dlist_cons.
    destruct (dtype_eqb k k') eqn:E.
    + apply dtype_eqb_eq in E. subst k'. rewrite (dlist_absent _ _ Hk).
      now rewrite app_nil_r.
    + reflexivity.
Qed.

Lemma keys_dmerge d c :
  NoDup (map fst c) ->
  map fst (dmerge d c) =
  map fst d ++ filter (fun k => negb (mem k (map fst d))) (map fst c).
Proof.
  unfold dmerge. revert d.
  induction c as [|[k v] c IH]; intros d Hnd; cbn [fold_left fst snd map filter] in *.
  - now rewrite app_nil_r.
  - inversion Hnd as [|? ? Hk Hc]; subst. rewrite IH by exact Hc.
    rewrite keys_dextend. destruct (mem k (map fst d)) eqn:E; cbn [negb].
    + reflexivity.
    + rewrite <- app_assoc. cbn [app]. do 2 f_equal.
      apply filter_ext_in. intros k' Hin. f_equal.
      unfold mem. rewrite existsb_app. cbn [existsb].
      rewrite orb_false_r.
      assert (E' : dtype_eqb k' k = false).
      { apply dtype_eqb_neq. intros ->. contradiction. }
      rewrite E'. now rewrite orb_false_r.
Qed.
End BucketFacts.

(* ================================================================== *)
(** * Induction over containers *)
(* ================================================================== *)

Section PyobjInduction.
Context {TL : TensorLib}.
Variable P : pyobj -> Prop.
Hypothesis P_tensor : forall t, P (PyTensor t).
Hypothesis P_dict : forall items, Forall (fun kv => P (snd kv)) items -> P (PyDict items).
Hypothesis P_list : forall elems, Forall P elems -> P (PyList elems).
Hypothesis P_tuple : forall elems, Forall P elems -> P (PyTuple elems).
Hypothesis P_other : forall s, P (PyOther s).

Lemma pyobj_ind : forall obj, P obj.
Proof.
  fix IH 1. intros [t|items|elems|elems|s].
  - apply P_tensor.
  - apply P_dict. induction items as [|[k v] rest IHrest]; constructor;
      [apply IH | exact IHrest].
  - apply P_list. induction elems as [|v rest IHrest]; constructor;
      [apply IH | exact IHrest].
  - apply P_tuple. induction elems as [|v rest IHrest]; constructor;
      [apply IH | exact IHrest].
  - apply P_other.
Qed.
End PyobjInduction.

(* ================================================================== *)
(** * The walker *)
(* ================================================================== *)

Section Walker.
Context {TL : TensorLib}.

Lemma read_list_eq elems : _recursive_read (PyList elems) = read_children elems [] [].
Proof. reflexivity. Qed.

Lemma read_tuple_eq elems : _recursive_read (PyTuple elems) = read_children elems [] [].
Proof. reflexivity. Qed.

Lemma read_dict_eq items : _recursive_read (PyDict items) = read_items items [] [].
Proof. reflexivity. Qed.

Lemma read_children_cons v rest values sizes :
  read_children (v :: rest) values sizes =
  let* (child_values, child_sizes) := _recursive_read v in
  read_children rest (dmerge values child_values) (dmerge sizes child_sizes).
Proof. reflexivity. Qed.

Lemma read_items_children items values sizes :
  read_items items values sizes = read_children (map snd items) values sizes.
Proof.
  revert values sizes. induction items as [|[k v] rest IH]; intros values sizes.
  - reflexivity.
  - cbn [map snd]. rewrite read_children_cons.
    change (read_items ((k, v) :: rest) values sizes)
      with (let* (child_values, child_sizes) := _recursive_read v in
            read_items rest (dmerge values child_values) (dmerge sizes child_sizes)).
    destruct (_recursive_read v) as [[cv cs]|e]; cbn [rbind]; [apply IH | reflexivity].
Qed.

Lemma leaves_dict items : leaves (PyDict items) = flat_map leaves (map snd items).
Proof.
  cbn [leaves]. induction items as [|[k v] rest IH]; cbn [flat_map map snd];
    [reflexivity | now rewrite IH].
Qed.

Lemma supported_dict items : supported (PyDict items) = forallb supported (map snd items).
Proof.
  cbn [supported]. induction items as [|[k v] rest IH]; cbn [forallb map snd];
    [reflexivity | now rewrite IH].
Qed.

Lemma mem_dtypes_of d ls : mem d (dtypes_of ls) = existsb (has_dtype d) ls.
Proof.
  induction ls as [|t ls IH]; [reflexivity|].
  cbn [dtypes_of existsb]. unfold mem in *. cbn [existsb]. unfold has_dtype at 1.
  rewrite (dtype_eqb_sym (tdtype t) d).
  destruct (dtype_eqb d (tdtype t)) eqn:E; cbn [orb]; [reflexivity|].
  rewrite <- IH. clear IH.
  induction (dtypes_of ls) as [|k ks IHk]; [reflexivity|].
  cbn [filter]. destruct (dtype_eqb k (tdtype t)) eqn:Ek; cbn [negb existsb].
  - apply dtype_eqb_eq in Ek. subst k. rewrite E. exact IHk.
  - now rewrite IHk.
Qed.

Lemma in_dtypes_of d ls : In d (dtypes_of ls) <-> exists t, In t ls /\ tdtype t = d.
Proof.
  rewrite <- mem_in, mem_dtypes_of, existsb_exists. unfold has_dtype.
  split; intros (t & Ht & E); exists t; split; auto; now apply dtype_eqb_eq.
Qed.

Lemma NoDup_filter {A} (p : A -> bool) (l : list A) : NoDup l -> NoDup (filter p l).
Proof.
  induction 1 as [|x l Hx Hl IH]; cbn [filter]; [constructor|].
  destruct (p x); [constructor; [|exact IH] | exact IH].
  intros Hin. apply filter_In in Hin. tauto.
Qed.

Lemma NoDup_dtypes_of ls : NoDup (dtypes_of ls).
Proof.
  induction ls as [|t ls IH]; cbn [dtypes_of]; constructor.
  - intros Hin. apply filter_In in Hin as [_ Hne].
    now rewrite dtype_eqb_refl in Hne.
  - now apply NoDup_filter.
Qed.

Lemma dtypes_of_app l1 l2 :
  dtypes_of (l1 ++ l2) =
  dtypes_of l1 ++ filter (fun d => negb (mem d (dtypes_of l1))) (dtypes_of l2).
Proof.
  induction l1 as [|t l1 IH]; cbn [app dtypes_of].
  - cbn [filter]. symmetry. apply filter_all. reflexivity.
  - f_equal. rewrite IH, filter_app. f_equal.
    rewrite filter_filter. apply filter_ext. intros d.
    unfold mem at 2. cbn [existsb].
    destruct (dtype_eqb d (tdtype t)) eqn:E; cbn [negb orb].
    + apply andb_false_r.
    + rewrite andb_true_r. f_equal.
      fold (mem d (filter (fun d0 => negb (dtype_eqb d0 (tdtype t))) (dtypes_of l1))).
      destruct (mem d (dtypes_of l1)) eqn:M; symmetry.
      * apply mem_in. apply filter_In. split; [now apply mem_in | now rewrite E].
      * apply mem_not_in. rewrite mem_not_in in M. intros Hin.
        apply filter_In in Hin. tauto.
Qed.

Lemma Buckets_nil {V} (f : tensor -> V) : Buckets f [] [].
Proof. split; reflexivity. Qed.

Lemma Buckets_leaf {V} (f : tensor -> V) t : Buckets f [t] (dextend [] (tdtype t) [f t]).
Proof.
  split; [reflexivity|]. intros k. rewrite dlist_dextend, dlist_nil.
  cbn [filter]. unfold has_dtype. rewrite (dtype_eqb_sym k).
  destruct (dtype_eqb (tdtype t) k); reflexivity.
Qed.

Lemma Buckets_merge {V} (f : tensor -> V) l1 l2 d c :
  Buckets f l1 d -> Buckets f l2 c -> Buckets f (l1 ++ l2) (dmerge d c).
Proof.
  intros [Hk1 Hl1] [Hk2 Hl2].
  assert (Hnd : NoDup (map fst c)) by (rewrite Hk2; apply NoDup_dtypes_of).
  split.
  - rewrite keys_dmerge by exact Hnd. now rewrite Hk1, Hk2, dtypes_of_app.
  - intros k. rewrite dlist_dmerge by exact Hnd.
    now rewrite Hl1, Hl2, filter_app, map_app.
Qed.

Lemma read_children_ok elems :
  Forall (fun obj => supported obj = true ->
            exists values sizes,
              _recursive_read obj = Ok (values, sizes)
              /\ Buckets flatten (leaves obj) values
              /\ Buckets (fun t => size_tensor (numel t)) (leaves obj) sizes) elems ->
  forallb supported elems = true ->
  forall ls values sizes,
    Buckets flatten ls values ->
    Buckets (fun t => size_tensor (numel t)) ls sizes ->
    exists values' sizes',
      read_children elems values sizes = Ok (values', sizes')
      /\ Buckets flatten (ls ++ flat_map leaves elems) values'
      /\ Buckets (fun t => size_tensor (numel t)) (ls ++ flat_map leaves elems) sizes'.
Proof.
  induction 1 as [|v rest Hv Hrest IH]; cbn [forallb flat_map]; intros Hs ls values sizes Bv Bs.
  - exists values, sizes. rewrite app_nil_r. auto.
  - apply andb_true_iff in Hs as [Hsv Hsr].
    destruct (Hv Hsv) as (cv & cs & E & Bcv & Bcs).
    rewrite read_children_cons, E. cbn [rbind].
    destruct (IH Hsr (ls ++ leaves v) (dmerge values cv) (dmerge sizes cs))
      as (values' & sizes' & E' & Bv' & Bs').
    + now apply Buckets_merge.
    + now apply Buckets_merge.
    + exists values', sizes'. rewrite app_assoc. auto.
Qed.

(** The walker on a container it supports. *)
Lemma read_ok obj :
  supported obj = true ->
  exists values sizes,
    _recursive_read obj = Ok (values, sizes)
    /\ Buckets flatten (leaves obj) values
    /\ Buckets (fun t => size_tensor (numel t)) (leaves obj) sizes.
Proof.
  induction obj as [t|items IH|elems IH|elems IH|s] using pyobj_ind; intros Hs.
  - eexists _, _. split; [reflexivity|]. split.
    + apply (Buckets_leaf flatten).
    + apply (Buckets_leaf (fun t => size_tensor (numel t))).
  - rewrite read_dict_eq, read_items_children, leaves_dict.
    rewrite supported_dict in Hs.
    apply read_children_ok with (ls := []); auto using Buckets_nil.
    apply Forall_map. exact IH.
  - rewrite read_list_eq.
    apply read_children_ok with (ls := []); auto using Buckets_nil.
  - rewrite read_tuple_eq.
    apply read_children_ok with (ls := []); auto using Buckets_nil.
  - discriminate.
Qed.

(** A dict the walker returned, written out. *)
Lemma Buckets_eta {V} (f : tensor -> V) ls d :
  Buckets f ls d ->
  d = map (fun k => (k, map f (filter (has_dtype k) ls))) (dtypes_of ls).
Proof.
  intros [Hk Hl]. rewrite <- Hk. apply dict_eta.
  - rewrite Hk. apply NoDup_dtypes_of.
  - intros k Hin. destruct (dget_in_some _ _ _ Hin) as [v Hv].
    rewrite Hv. f_equal. specialize (Hl k). unfold dlist in Hl. now rewrite Hv in Hl.
Qed.
End Walker.

(* ================================================================== *)
(** * Flattening *)
(* ================================================================== *)

Section Flattening.
Context {TL : TensorLib}.

Lemma th_cat_vectors t0 ts :
  Forall (fun t => exists n, tshape t = [n]) (t0 :: ts) ->
  th_cat (t0 :: ts) =
  Ok (mkTensor (tdtype t0)
        [list_sum (map (fun t => hd 0 (tshape t)) (t0 :: ts))]
        (concat (map tdata (t0 :: ts)))).
Proof.
  intros Hall. unfold th_cat.
  assert (Htl : tl (tshape t0) = []).
  { inversion Hall as [|? ? [n Hn] _]; subst. now rewrite Hn. }
  rewrite Htl.
  replace (forallb _ (t0 :: ts)) with true; [reflexivity|].
  symmetry. apply forallb_forall. intros t Hin.
  rewrite Forall_forall in Hall. destruct (Hall t Hin) as [n Hn]. rewrite Hn.
  now destruct (list_eq_dec Nat.eq_dec [] []).
Qed.

Lemma list_sum_ones {A} (l : list A) : list_sum (map (fun _ => 1) l) = length l.
Proof. induction l as [|x l IH]; simpl; [reflexivity | now f_equal]. Qed.

Lemma concat_singletons {A B} (f : A -> B) (l : list A) :
  concat (map (fun x => [f x]) l) = map f l.
Proof. induction l as [|x l IH]; cbn [map concat app]; [reflexivity | now rewrite IH]. Qed.

Lemma mapM_map {A B C} (f : B -> result C) (g : A -> B) (h : A -> C) (l : list A) :
  (forall x, In x l -> f (g x) = Ok (h x)) ->
  mapM f (map g l) = Ok (map h l).
Proof.
  induction l as [|x l IH]; intros H; cbn [map mapM]; [reflexivity|].
  rewrite (H x (or_introl eq_refl)). cbn [rbind].
  rewrite IH; [reflexivity|]. intros y Hy. apply H. now right.
Qed.

Lemma filter_has_dtype_nonempty d ls :
  In d (dtypes_of ls) -> exists t ts, filter (has_dtype d) ls = t :: ts /\ tdtype t = d.
Proof.
  intros Hin. apply in_dtypes_of in Hin as (t & Ht & E).
  destruct (filter (has_dtype d) ls) as [|t' ts] eqn:F.
  - assert (Hin : In t (filter (has_dtype d) ls)).
    { apply filter_In. split; [exact Ht|]. unfold has_dtype. now apply dtype_eqb_eq. }
    rewrite F in Hin. contradiction.
  - exists t', ts. split; [reflexivity|].
    assert (Hin : In t' (filter (has_dtype d) ls)) by (rewrite F; now left).
    apply filter_In in Hin as [_ H]. now apply dtype_eqb_eq in H.
Qed.

(** Flattening a supported container gives, per dtype in order of first
    occurrence, the concatenation of its leaves of that dtype. *)
Lemma flatten_container_ok obj :
  supported obj = true -> flatten_container obj = Ok (flattened (leaves obj)).
Proof.
  intros Hs. unfold flatten_container.
  destruct (read_ok obj Hs) as (values & sizes & E & Bv & _).
  rewrite E. cbn [rbind].
  rewrite (Buckets_eta _ _ _ Bv). unfold cat_values, flattened.
  apply mapM_map. intros d Hin. cbn [fst snd].
  destruct (filter_has_dtype_nonempty _ _ Hin) as (t & ts & F & Ed).
  unfold flat_buffer. rewrite F. cbn [map].
  rewrite th_cat_vectors.
  - cbn [rbind flatten tdtype]. rewrite Ed. do 3 f_equal.
    + cbn [map tshape hd list_sum]. f_equal.
      rewrite map_map. reflexivity.
    + cbn [map tdata concat]. f_equal. rewrite map_map. reflexivity.
  - constructor; [now eexists|]. apply Forall_map.
    apply Forall_forall. intros; now eexists.
Qed.

(** The walker's size lists, concatenated per dtype as [cat] begins. *)
Lemma read_sizes_ok obj :
  supported obj = true ->
  exists values sizes,
    _recursive_read obj = Ok (values, sizes)
    /\ values = map (fun d => (d, map flatten (filter (has_dtype d) (leaves obj))))
                    (dtypes_of (leaves obj))
    /\ cat_values sizes = Ok (size_table (leaves obj)).
Proof.
  intros Hs. destruct (read_ok obj Hs) as (values & sizes & E & Bv & Bs).
  exists values, sizes. split; [exact E|]. split; [exact (Buckets_eta _ _ _ Bv)|].
  rewrite (Buckets_eta _ _ _ Bs). unfold cat_values, size_table.
  apply mapM_map. intros d Hin. cbn [fst snd].
  destruct (filter_has_dtype_nonempty _ _ Hin) as (t & ts & F & Ed).
  rewrite F. cbn [map].
  rewrite th_cat_vectors.
  - cbn [rbind size_tensor tdtype]. do 3 f_equal.
    + change (size_tensor (numel t) :: map (fun t => size_tensor (numel t)) ts)
        with (map (fun t => size_tensor (numel t)) (t :: ts)).
      rewrite map_map. cbn [tshape hd size_tensor]. f_equal. apply list_sum_ones.
    + change (size_tensor (numel t) :: map (fun t => size_tensor (numel t)) ts)
        with (map (fun t => size_tensor (numel t)) (t :: ts)).
      rewrite map_map. cbn [tdata size_tensor].
      apply (concat_singletons (fun x => of_int (Z.of_nat (numel x))) (t :: ts)).
  - constructor; [now eexists|]. apply Forall_map.
    apply Forall_forall. intros; now eexists.
Qed.
End Flattening.

(* ================================================================== *)
(** * Rows and chunks *)
(* ================================================================== *)

Lemma zip_with_length {A B C} (f : A -> B -> C) (l : list A) (m : list B) :
  length (zip_with f l m) = Nat.min (length l) (length m).
Proof.
  revert m. induction l as [|x l IH]; intros [|y m]; cbn [zip_with length Nat.min];
    try reflexivity. now rewrite IH.
Qed.

Section Rows.
Variable A : Type.
Implicit Types (l : list A) (rows b c : list (list A)).

Lemma chunks_concat rows n :
  Forall (fun r => length r = n) rows ->
  chunks (length rows) n (concat rows) = rows.
Proof.
  induction 1 as [|r rows Hr Hrows IH]; cbn [length chunks concat]; [reflexivity|].
  rewrite firstn_app, skipn_app, Hr, Nat.sub_diag, firstn_all2, skipn_all2 by lia.
  cbn [firstn skipn app]. rewrite app_nil_r. now rewrite IH.
Qed.

Lemma map_firstn_zip_app n b c :
  length b = length c -> Forall (fun r => length r = n) b ->
  map (firstn n) (zip_with (@app A) b c) = b.
Proof.
  revert c. induction b as [|r b IH]; intros [|r' c] Hlen Hb; cbn [zip_with map];
    try reflexivity; try discriminate.
  inversion Hb as [|? ? Hr Hb']; subst.
  rewrite firstn_app, Nat.sub_diag, firstn_all2 by lia.
  cbn [firstn]. rewrite app_nil_r. f_equal. apply IH; [|exact Hb'].
  cbn [length] in Hlen. lia.
Qed.

Lemma map_skipn_zip_app n b c :
  length b = length c -> Forall (fun r => length r = n) b ->
  map (skipn n) (zip_with (@app A) b c) = c.
Proof.
  revert c. induction b as [|r b IH]; intros [|r' c] Hlen Hb; cbn [zip_with map];
    try reflexivity; try discriminate.
  inversion Hb as [|? ? Hr Hb']; subst.
  rewrite skipn_app, Nat.sub_diag, skipn_all2 by lia.
  cbn [skipn app]. f_equal. apply IH; [|exact Hb'].
  cbn [length] in Hlen. lia.
Qed.

Lemma Forall_length_zip_app n m b c :
  Forall (fun r => length r = n) b -> Forall (fun r => length r = m) c ->
  Forall (fun r => length r = n + m) (zip_with (@app A) b c).
Proof.
  intros Hb. revert c. induction Hb as [|r b Hr Hb IH]; intros c Hc; cbn [zip_with].
  - constructor.
  - destruct Hc as [|r' c Hr' Hc]; constructor.
    + rewrite length_app. lia.
    + now apply IH.
Qed.

Lemma rowcat_length n (blocks : list (list (list A))) :
  Forall (fun b => length b = n) blocks -> length (rowcat n blocks) = n.
Proof.
  induction 1 as [|b blocks Hb Hblocks IH]; cbn [rowcat].
  - apply repeat_length.
  - rewrite zip_with_length, Hb, IH. apply Nat.min_id.
Qed.

Lemma concat_repeat_nil n : concat (repeat (@nil A) n) = [].
Proof. induction n as [|n IH]; cbn [repeat concat app]; [reflexivity | exact IH]. Qed.
End Rows.

Lemma prod_app (l m : list nat) : prod (l ++ m) = prod l * prod m.
Proof.
  unfold prod. induction l as [|x l IH]; cbn [app fold_right]; [lia|].
  rewrite IH. lia.
Qed.

Lemma removelast_snoc {A} (l : list A) (x : A) : removelast (l ++ [x]) = l.
Proof. rewrite removelast_app by discriminate. cbn [removelast]. apply app_nil_r. Qed.

(* ================================================================== *)
(** * The rebuilder *)
(* ================================================================== *)

Section Rebuilder.
Context {TL : TensorLib}.

(** An int64 element holds the ints of its range. *)
Hypothesis int64_roundtrip :
  forall z, (0 <= z < 2 ^ 63)%Z -> to_int (of_int z) = z.

Variable pre : list nat.
Hypothesis pre_rows : prod pre <> 0.

Lemma rowcat_pieces_length (ps : list piece) :
  Forall (piece_ok (prod pre)) ps ->
  length (rowcat (prod pre) (map piece_rows ps)) = prod pre.
Proof.
  intros H. apply rowcat_length. apply Forall_map.
  eapply Forall_impl; [|exact H]. intros p Hp. apply Hp.
Qed.

Lemma rowcat_pieces_rows (ps : list piece) :
  Forall (piece_ok (prod pre)) ps ->
  Forall (fun r => length r = list_sum (map piece_len ps))
         (rowcat (prod pre) (map piece_rows ps)).
Proof.
  induction 1 as [|p ps Hp Hps IH]; cbn [map rowcat list_sum].
  - apply Forall_forall. intros r Hr. apply repeat_spec in Hr. now subst.
  - apply Forall_length_zip_app; [apply Hp | exact IH].
Qed.

Lemma split_last_piece d (p : piece) (ps : list piece) :
  piece_ok (prod pre) p -> Forall (piece_ok (prod pre)) ps ->
  split_last
    (mkTensor d (pre ++ [list_sum (map piece_len (p :: ps))])
       (concat (rowcat (prod pre) (map piece_rows (p :: ps)))))
    (Z.of_nat (piece_len p)) =
  Ok (mkTensor d (pre ++ [piece_len p]) (concat (piece_rows p)),
      mkTensor d (pre ++ [list_sum (map piece_len ps)])
        (concat (rowcat (prod pre) (map piece_rows ps)))).
Proof.
  intros Hp Hps. unfold split_last. cbn [tshape tdata tdtype].
  rewrite rev_app_distr. cbn [rev app]. rewrite rev_involutive.
  cbn [map rowcat].
  change (list_sum (piece_len p :: map piece_len ps))
    with (piece_len p + list_sum (map piece_len ps)).
  replace ((Z.of_nat (piece_len p) <? 0)%Z) with false by (symmetry; apply Z.ltb_ge; lia).
  replace ((Z.of_nat (piece_len p + list_sum (map piece_len ps))
            <? Z.of_nat (piece_len p))%Z) with false
    by (symmetry; apply Z.ltb_ge; lia).
  cbn [orb]. rewrite Nat2Z.id.
  destruct Hp as (Hrows & Hlen & _).
  pose proof (rowcat_pieces_length ps Hps) as Hrc.
  pose proof (rowcat_pieces_rows ps Hps) as Hrr.
  set (zipped := zip_with (@app scalar) (piece_rows p)
                   (rowcat (prod pre) (map piece_rows ps))).
  assert (Hch : chunks (prod pre) (piece_len p + list_sum (map piece_len ps))
                  (concat zipped) = zipped).
  { assert (Hz : length zipped = prod pre).
    { unfold zipped. rewrite zip_with_length, Hrows, Hrc. apply Nat.min_id. }
    rewrite <- Hz. apply chunks_concat.
    apply Forall_length_zip_app; [exact Hlen | exact Hrr]. }
  rewrite !Hch. unfold zipped.
  rewrite map_firstn_zip_app, map_skipn_zip_app by (try exact Hlen; congruence).
  replace (piece_len p + list_sum (map piece_len ps) - piece_len p)
    with (list_sum (map piece_len ps)) by lia.
  reflexivity.
Qed.

Lemma view_as_leaf_piece d (p : piece) :
  piece_ok (prod pre) p ->
  view_as_leaf (mkTensor d (pre ++ [piece_len p]) (concat (piece_rows p))) (piece_leaf p) =
  Ok (mkTensor d (rebuilt_shape pre (piece_len p) (tshape (piece_leaf p)))
        (concat (piece_rows p))).
Proof.
  intros (_ & _ & Hp & Hmod). unfold view_as_leaf, numel. cbn [tshape tdata tdtype].
  rewrite removelast_snoc, prod_app. cbn [prod fold_right]. rewrite Nat.mul_1_r.
  unfold view_infer.
  set (q := prod (tl (tshape (piece_leaf p)))) in *.
  assert (Hq : prod pre * q <> 0) by (apply Nat.neq_mul_0; auto).
  replace (0 <? prod pre * q) with true by (symmetry; apply Nat.ltb_lt; lia).
  replace ((prod pre * piece_len p) mod (prod pre * q) =? 0) with true.
  2:{ symmetry. apply Nat.eqb_eq. rewrite Nat.Div0.mul_mod_distr_l, Hmod. lia. }
  rewrite orb_true_r.
  replace (prod pre * q =? 0) with false by (symmetry; apply Nat.eqb_neq; exact Hq).
  cbn [rbind]. unfold rebuilt_shape. fold q.
  rewrite Nat.Div0.div_mul_cancel_l by exact pre_rows. reflexivity.
Qed.

Lemma pieces_of_cons d (p : piece) ps :
  pieces_of d (p :: ps) =
  if has_dtype d (piece_leaf p) then p :: pieces_of d ps else pieces_of d ps.
Proof. reflexivity. Qed.

Lemma pieces_of_ok d ps :
  Forall (piece_ok (prod pre)) ps -> Forall (piece_ok (prod pre)) (pieces_of d ps).
Proof.
  intros H. apply Forall_forall. intros p Hp. apply filter_In in Hp as [Hp _].
  rewrite Forall_forall in H. now apply H.
Qed.

Lemma has_dtype_own t : has_dtype (tdtype t) t = true.
Proof. apply dtype_eqb_refl. Qed.

Lemma has_dtype_other d t : d <> tdtype t -> has_dtype d t = false.
Proof. intros H. apply dtype_eqb_neq. congruence. Qed.

(** The tensor case of the rebuilder, given the piece for the leaf. *)
Lemma write_leaf_ok (p : piece) rest values sizes :
  piece_ok (prod pre) p -> Forall (piece_ok (prod pre)) rest ->
  Supplies pre values (p :: rest) -> Sized sizes (p :: rest) ->
  exists values' sizes',
    write_leaf (piece_leaf p) values sizes
      = Ok (PyTensor (piece_tensor pre p), values', sizes')
    /\ Supplies pre values' rest /\ Sized sizes' rest
    /\ (sizes = None -> sizes' = None).
Proof.
  intros Hp Hrest Hsup Hsized.
  set (t := piece_leaf p) in *. set (d := tdtype t).
  assert (Hown : pieces_of d (p :: rest) = p :: pieces_of d rest).
  { rewrite pieces_of_cons. fold t. unfold d. now rewrite has_dtype_own. }
  assert (Hother : forall d', d' <> d -> pieces_of d' (p :: rest) = pieces_of d' rest).
  { intros d' Hne. rewrite pieces_of_cons. fold t. now rewrite has_dtype_other. }
  assert (Hget : dget d values =
    Some (mkTensor d (pre ++ [list_sum (map piece_len (p :: pieces_of d rest))])
            (concat (rowcat (prod pre) (map piece_rows (p :: pieces_of d rest)))))).
  { rewrite <- Hown. apply Hsup. rewrite Hown. discriminate. }
  assert (Hstep : forall sizes' : option (ddict tensor),
    (let* v := dgetitem d values in
     let* k := Ok (Z.of_nat (piece_len p)) in
     let* (new_obj, v) := split_last v k in
     let* new_obj := view_as_leaf new_obj t in
     Ok (PyTensor new_obj, dset d v values, sizes'))
    = Ok (PyTensor (piece_tensor pre p),
          dset d (mkTensor d (pre ++ [list_sum (map piece_len (pieces_of d rest))])
                    (concat (rowcat (prod pre) (map piece_rows (pieces_of d rest)))))
               values,
          sizes')).
  { intros sizes'. unfold dgetitem, dict_getitem. fold (dget d values). rewrite Hget.
    cbn [rbind]. rewrite split_last_piece by (auto using pieces_of_ok).
    cbn [rbind]. unfold t. rewrite view_as_leaf_piece by exact Hp.
    reflexivity. }
  assert (Hsup' : forall buf,
    buf = mkTensor d (pre ++ [list_sum (map piece_len (pieces_of d rest))])
            (concat (rowcat (prod pre) (map piece_rows (pieces_of d rest)))) ->
    Supplies pre (dset d buf values) rest).
  { intros buf -> d' Hne. destruct (dtype_eq_dec d d') as [<-|Hdd].
    - apply dget_dset_eq.
    - rewrite dget_dset_neq by exact Hdd. rewrite <- Hother by congruence.
      apply Hsup. rewrite Hother by congruence. exact Hne. }
  destruct sizes as [sz|]; cbn [Sized] in Hsized.
  - destruct (Hsized d) as (dt & xs & Hsz & Hxs); [rewrite Hown; discriminate|].
    rewrite Hown in Hxs. cbn [map] in Hxs.
    destruct xs as [|x xs]; [discriminate|]. injection Hxs as Hx Hxs.
    eexists _, _. split; [|split; [|split]].
    + unfold write_leaf. fold d. unfold dgetitem at 1, dict_getitem.
      fold (dget d sz). rewrite Hsz. cbn [rbind split_head tshape length tdata tdtype].
      cbn [prod fold_right Nat.mul firstn skipn rbind tensor_item tdata].
      rewrite Hx. apply (Hstep (Some (dset d (mkTensor dt [length xs] xs) sz))).
    + now apply Hsup'.
    + cbn [Sized]. intros d' Hne. destruct (dtype_eq_dec d d') as [<-|Hdd].
      * exists dt, xs. split; [apply dget_dset_eq | exact Hxs].
      * rewrite dget_dset_neq by exact Hdd. rewrite <- (Hother d') by congruence.
        apply Hsized. rewrite Hother by congruence. exact Hne.
    + discriminate.
  - inversion Hsized as [|? ? [Hlen Hfit] Hsized']; subst.
    eexists _, _. split; [|split; [|split]].
    + unfold write_leaf. fold t. fold d. cbn [rbind].
      unfold tensor_item, size_tensor. cbn [tdata].
      rewrite int64_roundtrip by (fold t in Hfit; lia).
      fold t in Hlen. rewrite <- Hlen. apply (Hstep None).
    + now apply Hsup'.
    + exact Hsized'.
    + reflexivity.
Qed.

(** [fill] takes as many tensors as the container has leaves. *)
Lemma fill_children_cons v more news :
  fill_children (v :: more) news =
  let (v', news) := fill v news in
  let (more', news) := fill_children more news in
  (v' :: more', news).
Proof. reflexivity. Qed.

Lemma fill_items_cons k v more news :
  fill_items ((k, v) :: more) news =
  let (v', news) := fill v news in
  let (more', news) := fill_items more news in
  ((k, v') :: more', news).
Proof. reflexivity. Qed.

Lemma fill_list_eq elems news :
  fill (PyList elems) news = let (e, r) := fill_children elems news in (PyList e, r).
Proof. reflexivity. Qed.

Lemma fill_tuple_eq elems news :
  fill (PyTuple elems) news = let (e, r) := fill_children elems news in (PyList e, r).
Proof. reflexivity. Qed.

Lemma fill_dict_eq items news :
  fill (PyDict items) news = let (e, r) := fill_items items news in (PyDict e, r).
Proof. reflexivity. Qed.

Lemma fill_children_app elems :
  Forall (fun obj => forall news more,
            length news = length (leaves obj) ->
            fill obj (news ++ more) = (fst (fill obj news), more)) elems ->
  forall news more,
    length news = length (flat_map leaves elems) ->
    fill_children elems (news ++ more) = (fst (fill_children elems news), more).
Proof.
  induction 1 as [|v rest Hv Hrest IH]; intros news more Hlen.
  - cbn [flat_map length] in Hlen. apply length_zero_iff_nil in Hlen. now subst.
  - cbn [flat_map] in Hlen. rewrite length_app in Hlen.
    rewrite <- (firstn_skipn (length (leaves v)) news).
    set (n1 := firstn (length (leaves v)) news).
    set (n2 := skipn (length (leaves v)) news).
    assert (H1 : length n1 = length (leaves v)) by (unfold n1; rewrite length_firstn; lia).
    assert (H2 : length n2 = length (flat_map leaves rest))
      by (unfold n2; rewrite length_skipn; lia).
    rewrite !fill_children_cons, <- app_assoc.
    rewrite (Hv n1 (n2 ++ more) H1), (Hv n1 n2 H1).
    rewrite (IH n2 more H2).
    pose proof (IH n2 [] H2) as E. rewrite app_nil_r in E. rewrite E.
    reflexivity.
Qed.

Lemma fill_items_children items news :
  fill_items items news =
  (combine (map fst items) (fst (fill_children (map snd items) news)),
   snd (fill_children (map snd items) news)).
Proof.
  revert news. induction items as [|[k v] rest IH]; intros news; [reflexivity|].
  cbn [map fst snd]. rewrite fill_items_cons, fill_children_cons.
  destruct (fill v news) as [v' news1]. rewrite IH.
  destruct (fill_children (map snd rest) news1) as [more' news2]. reflexivity.
Qed.

Lemma fill_app obj :
  forall news more,
    length news = length (leaves obj) ->
    fill obj (news ++ more) = (fst (fill obj news), more).
Proof.
  induction obj as [t|items IH|elems IH|elems IH|s] using pyobj_ind; intros news more Hlen.
  - destruct news as [|n [|? ?]]; try discriminate. reflexivity.
  - rewrite leaves_dict in Hlen. rewrite !fill_dict_eq, !fill_items_children.
    rewrite (fill_children_app (map snd items)) by (try apply Forall_map; assumption).
    reflexivity.
  - rewrite !fill_list_eq.
    rewrite (fill_children_app elems) by assumption.
    now destruct (fill_children elems news).
  - rewrite !fill_tuple_eq.
    rewrite (fill_children_app elems) by assumption.
    now destruct (fill_children elems news).
  - cbn [leaves length] in Hlen. apply length_zero_iff_nil in Hlen. now subst.
Qed.

Lemma all_distinct_NoDup ks : all_distinct ks = true <-> NoDup ks.
Proof.
  induction ks as [|k ks IH]; cbn [all_distinct].
  - split; [constructor | reflexivity].
  - rewrite andb_true_iff, negb_true_iff, IH. split.
    + intros [Hk Hks]. constructor; [|exact Hks]. intros Hin.
      rewrite existsb_false_iff in Hk. specialize (Hk k Hin).
      assert (pykey_eqb k k = true) by now apply pykey_eqb_eq. congruence.
    + intros Hnd. inversion Hnd as [|? ? Hk Hks]; subst. split; [|exact Hks].
      apply existsb_false_iff. intros x Hx.
      destruct (pykey_eqb k x) eqn:E; [|reflexivity].
      apply pykey_eqb_eq in E. subst. contradiction.
Qed.

Lemma dict_set_fresh k (v : pyobj) acc :
  ~ In k (map fst acc) -> dict_set pykey_eqb k v acc = acc ++ [(k, v)].
Proof.
  induction acc as [|[k' v'] acc IH]; cbn [dict_set map fst In app]; intros H.
  - reflexivity.
  - destruct (pykey_eqb k k') eqn:E.
    + apply pykey_eqb_eq in E. subst. exfalso. apply H. now left.
    + rewrite IH; [reflexivity|]. intros Hin. apply H. now right.
Qed.

Lemma distinct_keys_dict items :
  distinct_keys (PyDict items) =
  all_distinct (map fst items) && forallb distinct_keys (map snd items).
Proof.
  cbn [distinct_keys]. f_equal.
  induction items as [|[k v] rest IH]; cbn [forallb map snd];
    [reflexivity | now rewrite IH].
Qed.

Lemma write_children_cons v more acc values sizes :
  write_children (v :: more) acc values sizes =
  let* (new_v, values, sizes) := _recursive_write v values sizes in
  write_children more (acc ++ [new_v]) values sizes.
Proof. reflexivity. Qed.

Lemma write_items_cons k v more acc values sizes :
  write_items ((k, v) :: more) acc values sizes =
  let* (new_v, values, sizes) := _recursive_write v values sizes in
  write_items more (dict_set pykey_eqb k new_v acc) values sizes.
Proof. reflexivity. Qed.

Lemma write_list_eq elems values sizes :
  _recursive_write (PyList elems) values sizes = write_children elems [] values sizes.
Proof. reflexivity. Qed.

Lemma write_tuple_eq elems values sizes :
  _recursive_write (PyTuple elems) values sizes = write_children elems [] values sizes.
Proof. reflexivity. Qed.

Lemma write_dict_eq items values sizes :
  _recursive_write (PyDict items) values sizes = write_items items [] values sizes.
Proof. reflexivity. Qed.

Lemma write_children_ok elems :
  Forall (Rebuilds pre) elems ->
  forall acc ps rest values sizes,
    map piece_leaf ps = flat_map leaves elems ->
    Forall (piece_ok (prod pre)) (ps ++ rest) ->
    Supplies pre values (ps ++ rest) -> Sized sizes (ps ++ rest) ->
    exists values' sizes',
      write_children elems acc values sizes
        = Ok (PyList (acc ++ fst (fill_children elems (map (piece_tensor pre) ps))),
              values', sizes')
      /\ Supplies pre values' rest /\ Sized sizes' rest
      /\ (sizes = None -> sizes' = None).
Proof.
  induction 1 as [|v more Hv Hmore IH]; intros acc ps rest values sizes Hleaves Hok Hsup Hsz.
  - cbn [flat_map] in Hleaves. apply map_eq_nil in Hleaves. subst ps.
    exists values, sizes. cbn [write_children fill_children map fst app] in *.
    rewrite app_nil_r. auto.
  - cbn [flat_map] in Hleaves.
    apply map_eq_app in Hleaves as (ps1 & ps2 & -> & H1 & H2).
    rewrite <- app_assoc in Hok, Hsup, Hsz.
    destruct (Hv ps1 (ps2 ++ rest) values sizes H1 Hok Hsup Hsz)
      as (values1 & sizes1 & E1 & Hsup1 & Hsz1 & Hn1).
    apply Forall_app in Hok as [_ Hok2].
    destruct (IH (acc ++ [fst (fill v (map (piece_tensor pre) ps1))])
                 ps2 rest values1 sizes1 H2 Hok2 Hsup1 Hsz1)
      as (values2 & sizes2 & E2 & Hsup2 & Hsz2 & Hn2).
    exists values2, sizes2. split; [|auto].
    rewrite write_children_cons, E1. cbn [rbind]. rewrite E2.
    rewrite map_app, fill_children_cons.
    rewrite fill_app by (rewrite length_map, <- H1; symmetry; apply length_map).
    destruct (fill_children more (map (piece_tensor pre) ps2)) as [more' left] eqn:F.
    cbn [fst]. now rewrite <- app_assoc.
Qed.

Lemma write_items_ok items :
  Forall (fun kv => Rebuilds pre (snd kv)) items ->
  forall acc ps rest values sizes,
    NoDup (map fst acc ++ map fst items) ->
    map piece_leaf ps = flat_map leaves (map snd items) ->
    Forall (piece_ok (prod pre)) (ps ++ rest) ->
    Supplies pre values (ps ++ rest) -> Sized sizes (ps ++ rest) ->
    exists values' sizes',
      write_items items acc values sizes
        = Ok (PyDict (acc ++ fst (fill_items items (map (piece_tensor pre) ps))),
              values', sizes')
      /\ Supplies pre values' rest /\ Sized sizes' rest
      /\ (sizes = None -> sizes' = None).
Proof.
  induction 1 as [|[k v] more Hv Hmore IH];
    intros acc ps rest values sizes Hnd Hleaves Hok Hsup Hsz.
  - cbn [map flat_map] in Hleaves. apply map_eq_nil in Hleaves. subst ps.
    exists values, sizes. cbn [write_items fill_items map fst app] in *.
    rewrite app_nil_r. auto.
  - cbn [map snd flat_map] in Hleaves. cbn [snd] in Hv.
    apply map_eq_app in Hleaves as (ps1 & ps2 & -> & H1 & H2).
    rewrite <- app_assoc in Hok, Hsup, Hsz.
    destruct (Hv ps1 (ps2 ++ rest) values sizes H1 Hok Hsup Hsz)
      as (values1 & sizes1 & E1 & Hsup1 & Hsz1 & Hn1).
    apply Forall_app in Hok as [_ Hok2].
    cbn [map fst] in Hnd.
    assert (Hfresh : ~ In k (map fst acc)).
    { intros Hin. apply NoDup_remove_2 in Hnd. apply Hnd. apply in_or_app. now left. }
    destruct (IH (acc ++ [(k, fst (fill v (map (piece_tensor pre) ps1)))])
                 ps2 rest values1 sizes1) as (values2 & sizes2 & E2 & Hsup2 & Hsz2 & Hn2);
      auto.
    { rewrite map_app. cbn [map fst]. rewrite <- app_assoc. exact Hnd. }
    exists values2, sizes2. split; [|auto].
    rewrite write_items_cons, E1. cbn [rbind].
    rewrite dict_set_fresh by exact Hfresh. rewrite E2.
    rewrite map_app, fill_items_cons.
    rewrite fill_app by (rewrite length_map, <- H1; symmetry; apply length_map).
    destruct (fill_items more (map (piece_tensor pre) ps2)) as [more' left] eqn:F.
    cbn [fst]. now rewrite <- app_assoc.
Qed.

(** The rebuilder on any supported container with distinct keys. *)
Lemma write_ok obj :
  supported obj = true -> distinct_keys obj = true -> Rebuilds pre obj.
Proof.
  induction obj as [t|items IH|elems IH|elems IH|s] using pyobj_ind; intros Hs Hd.
  - intros ps rest values sizes Hleaves Hok Hsup Hsz.
    destruct ps as [|p [|? ?]]; try discriminate.
    cbn [map leaves] in Hleaves. injection Hleaves as <-.
    cbn [app] in *. inversion Hok as [|? ? Hp Hrest]; subst.
    destruct (write_leaf_ok p rest values sizes Hp Hrest Hsup Hsz)
      as (values' & sizes' & E & H).
    exists values', sizes'. split; [exact E | exact H].
  - rewrite supported_dict in Hs. rewrite distinct_keys_dict in Hd.
    apply andb_true_iff in Hd as [Hkeys Hd].
    assert (Hall : Forall (fun kv => Rebuilds pre (snd kv)) items).
    { apply Forall_forall. intros kv Hin. rewrite Forall_forall in IH.
      rewrite forallb_forall in Hs, Hd.
      apply IH; [exact Hin | apply Hs | apply Hd]; apply in_map; exact Hin. }
    intros ps rest values sizes Hleaves Hok Hsup Hsz.
    rewrite leaves_dict in Hleaves.
    destruct (write_items_ok items Hall [] ps rest values sizes)
      as (values' & sizes' & E & H); auto.
    { cbn [map app]. now apply all_distinct_NoDup. }
    exists values', sizes'. split; [|exact H].
    rewrite write_dict_eq, E, fill_dict_eq.
    now destruct (fill_items items (map (piece_tensor pre) ps)).
  - assert (Hall : Forall (Rebuilds pre) elems).
    { apply Forall_forall. intros v Hin. rewrite Forall_forall in IH.
      cbn [supported distinct_keys] in Hs, Hd. rewrite forallb_forall in Hs, Hd.
      apply IH; auto. }
    intros ps rest values sizes Hleaves Hok Hsup Hsz.
    destruct (write_children_ok elems Hall [] ps rest values sizes)
      as (values' & sizes' & E & H); auto.
    exists values', sizes'. split; [|exact H].
    rewrite write_list_eq, E, fill_list_eq.
    now destruct (fill_children elems (map (piece_tensor pre) ps)).
  - assert (Hall : Forall (Rebuilds pre) elems).
    { apply Forall_forall. intros v Hin. rewrite Forall_forall in IH.
      cbn [supported distinct_keys] in Hs, Hd. rewrite forallb_forall in Hs, Hd.
      apply IH; auto. }
    intros ps rest values sizes Hleaves Hok Hsup Hsz.
    destruct (write_children_ok elems Hall [] ps rest values sizes)
      as (values' & sizes' & E & H); auto.
    exists values', sizes'. split; [|exact H].
    rewrite write_tuple_eq, E, fill_tuple_eq.
    now destruct (fill_children elems (map (piece_tensor pre) ps)).
  - discriminate.
Qed.
End Rebuilder.

(* ================================================================== *)
(** * Round trip *)
(* ================================================================== *)

Section RoundTrip.
Context {TL : TensorLib}.
Hypothesis int64_roundtrip :
  forall z, (0 <= z < 2 ^ 63)%Z -> to_int (of_int z) = z.

Lemma dget_tabulate {V} (f : dtype -> V) d ks :
  In d ks -> dget d (map (fun k => (k, f k)) ks) = Some (f d).
Proof.
  unfold dget. induction ks as [|k ks IH]; cbn [In map dict_get]; intros H; [contradiction|].
  destruct (dtype_eqb d k) eqn:E.
  - apply dtype_eqb_eq in E. now subst.
  - destruct H as [->|H]; [now rewrite dtype_eqb_refl in E | now apply IH].
Qed.

Lemma pieces_of_map d (g : tensor -> piece) ls :
  (forall t, piece_leaf (g t) = t) ->
  pieces_of d (map g ls) = map g (filter (has_dtype d) ls).
Proof.
  intros Hg. unfold pieces_of.
  induction ls as [|t ls IH]; cbn [map filter]; [reflexivity|].
  rewrite Hg. destruct (has_dtype d t); cbn [map]; now rewrite IH.
Qed.

Lemma pieces_of_in_dtypes d ps :
  pieces_of d ps <> [] -> In d (dtypes_of (map piece_leaf ps)).
Proof.
  intros Hne. apply in_dtypes_of.
  destruct (pieces_of d ps) as [|p l] eqn:E; [congruence|].
  assert (Hin : In p (pieces_of d ps)) by (rewrite E; now left).
  apply filter_In in Hin as [Hin Hd]. exists (piece_leaf p). split.
  - now apply in_map.
  - now apply dtype_eqb_eq.
Qed.

Lemma rowcat_single {A B} (f : A -> list B) (l : list A) :
  rowcat 1 (map (fun x => [f x]) l) = [concat (map f l)].
Proof.
  induction l as [|x l IH]; cbn [map rowcat concat repeat]; [reflexivity|].
  rewrite IH. reflexivity.
Qed.

Lemma numel_mod_trailing t : numel t mod prod (tl (tshape t)) = 0.
Proof.
  unfold numel. destruct (tshape t) as [|n tr]; cbn [tl prod fold_right].
  - reflexivity.
  - fold (prod tr). apply Nat.Div0.mod_mul.
Qed.

Lemma own_piece_ok t : leaf_ok t -> piece_ok 1 (own_piece t).
Proof.
  intros (Hwf & Htr & _). unfold piece_ok, own_piece. cbn [piece_rows piece_len piece_leaf].
  split; [reflexivity|]. split; [constructor; [exact Hwf | constructor]|].
  split; [exact Htr | apply numel_mod_trailing].
Qed.

Lemma own_piece_tensor t : piece_tensor [] (own_piece t) = as_rebuilt t.
Proof.
  unfold piece_tensor, own_piece, as_rebuilt.
  cbn [piece_rows piece_len piece_leaf concat]. now rewrite app_nil_r.
Qed.

Lemma own_pieces_supply ls :
  Supplies [] (flattened ls) (map own_piece ls).
Proof.
  intros d Hne. unfold flattened.
  rewrite dget_tabulate.
  2:{ apply pieces_of_in_dtypes in Hne. rewrite map_map in Hne. cbn [own_piece piece_leaf] in Hne.
      now rewrite map_id in Hne. }
  rewrite pieces_of_map by reflexivity.
  unfold flat_buffer. cbn [app prod fold_right]. rewrite !map_map.
  cbn [own_piece piece_len piece_rows].
  rewrite (rowcat_single tdata). cbn [concat]. now rewrite app_nil_r.
Qed.

Lemma own_pieces_sized ls :
  Forall leaf_ok ls -> Sized None (map own_piece ls).
Proof.
  intros H. cbn [Sized]. apply Forall_map. eapply Forall_impl; [|exact H].
  intros t (_ & _ & Hfit). split; [reflexivity | exact Hfit].
Qed.

Lemma fill_children_normalize elems :
  Forall (fun obj => forall more,
            fill obj (map as_rebuilt (leaves obj) ++ more) = (normalize obj, more)) elems ->
  forall more,
    fill_children elems (map as_rebuilt (flat_map leaves elems) ++ more)
    = (map normalize elems, more).
Proof.
  induction 1 as [|v rest Hv Hrest IH]; intros more; [reflexivity|].
  cbn [flat_map map]. rewrite map_app, <- app_assoc, fill_children_cons.
  now rewrite Hv, IH.
Qed.

Lemma fill_normalize obj :
  forall more, fill obj (map as_rebuilt (leaves obj) ++ more) = (normalize obj, more).
Proof.
  induction obj as [t|items IH|elems IH|elems IH|s] using pyobj_ind; intros more.
  - reflexivity.
  - rewrite leaves_dict, fill_dict_eq, fill_items_children.
    rewrite (fill_children_normalize (map snd items))
      by (apply Forall_map; exact IH).
    cbn [fst snd normalize]. do 2 f_equal.
    clear IH. induction items as [|[k v] rest IHr]; cbn [map fst snd List.combine];
      [reflexivity | now rewrite IHr].
  - rewrite fill_list_eq. cbn [leaves]. now rewrite (fill_children_normalize elems IH).
  - rewrite fill_tuple_eq. cbn [leaves]. now rewrite (fill_children_normalize elems IH).
  - reflexivity.
Qed.

Lemma as_rebuilt_id t :
  tshape t <> [] -> prod (tl (tshape t)) <> 0 -> as_rebuilt t = t.
Proof.
  destruct t as [d shape data]. unfold as_rebuilt, rebuilt_shape, numel.
  cbn [tdtype tshape tdata]. intros Hs Htr.
  destruct shape as [|n tr]; [congruence|]. cbn [tl prod fold_right app] in *.
  fold (prod tr) in *. now rewrite Nat.div_mul by exact Htr.
Qed.

Lemma normalize_id obj :
  tuple_free obj = true ->
  Forall (fun t => tshape t <> [] /\ prod (tl (tshape t)) <> 0) (leaves obj) ->
  normalize obj = obj.
Proof.
  induction obj as [t|items IH|elems IH|elems IH|s] using pyobj_ind; intros Hf Hl.
  - cbn [leaves] in Hl. inversion Hl as [|? ? [H1 H2] _]; subst.
    cbn [normalize]. now rewrite as_rebuilt_id.
  - cbn [normalize]. f_equal. cbn [tuple_free] in Hf. rewrite leaves_dict in Hl.
    induction items as [|[k v] rest IHr]; [reflexivity|].
    cbn [map snd flat_map forallb] in *. apply andb_true_iff in Hf as [Hv Hr].
    apply Forall_app in Hl as [Hlv Hlr].
    inversion IH as [|? ? IHv IHrest]; subst. cbn [snd] in IHv.
    rewrite IHv by assumption. f_equal. now apply IHr.
  - cbn [normalize]. f_equal. cbn [tuple_free leaves] in Hf, Hl.
    induction elems as [|v rest IHr]; [reflexivity|].
    cbn [map flat_map forallb] in *. apply andb_true_iff in Hf as [Hv Hr].
    apply Forall_app in Hl as [Hlv Hlr].
    inversion IH as [|? ? IHv IHrest]; subst.
    rewrite IHv by assumption. f_equal. now apply IHr.
  - discriminate.
  - reflexivity.
Qed.

(** C2, as amended.  Flattening a container (of tensors, dicts with
    distinct keys, lists and tuples, each leaf with as many elements as its
    shape says and no empty axis after the first) and rebuilding it from
    its own buffers with [sizes=None], with no collective in between,
    returns the same nesting with the same keys, dtypes and values, except
    that every tuple has become a list and every leaf without axes a
    vector of one element.  When the container has no tuple and every
    leaf has an axis, what is returned is the original itself. *)
Theorem roundtrip_is_normalize obj :
  supported obj = true -> distinct_keys obj = true ->
  Forall leaf_ok (leaves obj) ->
  (let* values := flatten_container obj in rebuild obj values) = Ok (normalize obj)
  /\ (tuple_free obj = true ->
      Forall (fun t => tshape t <> []) (leaves obj) ->
      normalize obj = obj).
Proof.
  intros Hs Hd Hl. split.
  - rewrite flatten_container_ok by exact Hs. cbn [rbind]. unfold rebuild.
    assert (Hone : prod [] <> 0) by discriminate.
    destruct (@write_ok _ int64_roundtrip [] Hone obj Hs Hd
                (map own_piece (leaves obj)) [] (flattened (leaves obj)) None)
      as (values' & sizes' & E & _).
    + rewrite map_map. cbn [own_piece piece_leaf]. apply map_id.
    + rewrite app_nil_r. apply Forall_map. eapply Forall_impl; [|exact Hl].
      intros t. apply own_piece_ok.
    + rewrite app_nil_r. apply own_pieces_supply.
    + rewrite app_nil_r. now apply own_pieces_sized.
    + rewrite E. cbn [rbind]. f_equal.
      rewrite map_map.
      rewrite (map_ext _ as_rebuilt) by (intros; apply own_piece_tensor).
      pose proof (fill_normalize obj []) as F. rewrite app_nil_r in F. now rewrite F.
  - intros Hf Hax. apply normalize_id; [exact Hf|].
    apply Forall_forall. intros t Hin. rewrite Forall_forall in Hl, Hax.
    split; [now apply Hax | apply (Hl t Hin)].
Qed.
End RoundTrip.

(* ================================================================== *)
(** * Nodes that are not supported *)
(* ================================================================== *)

Section Unsupported.
Context {TL : TensorLib}.
Hypothesis int64_roundtrip :
  forall z, (0 <= z < 2 ^ 63)%Z -> to_int (of_int z) = z.

Lemma read_children_unsupported elems :
  Forall (fun obj => supported obj = false ->
            _recursive_read obj = Err ValueError_UnknownType) elems ->
  forallb supported elems = false ->
  forall values sizes, read_children elems values sizes = Err ValueError_UnknownType.
Proof.
  induction 1 as [|v rest Hv Hrest IH]; cbn [forallb]; intros Hs values sizes;
    [discriminate|].
  rewrite read_children_cons. destruct (supported v) eqn:Sv.
  - destruct (read_ok v Sv) as (cv & cs & E & _). rewrite E. cbn [rbind].
    apply IH. exact Hs.
  - now rewrite (Hv eq_refl).
Qed.

Lemma read_unsupported obj :
  supported obj = false -> _recursive_read obj = Err ValueError_UnknownType.
Proof.
  induction obj as [t|items IH|elems IH|elems IH|s] using pyobj_ind; intros Hs.
  - discriminate.
  - rewrite read_dict_eq, read_items_children. rewrite supported_dict in Hs.
    apply read_children_unsupported; [apply Forall_map; exact IH | exact Hs].
  - rewrite read_list_eq. now apply read_children_unsupported.
  - rewrite read_tuple_eq. now apply read_children_unsupported.
  - reflexivity.
Qed.

Lemma write_children_never_ok elems :
  Forall (fun obj => supported obj = false ->
            forall values sizes, exists e, _recursive_write obj values sizes = Err e) elems ->
  forallb supported elems = false ->
  forall acc values sizes, exists e, write_children elems acc values sizes = Err e.
Proof.
  induction 1 as [|v rest Hv Hrest IH]; cbn [forallb]; intros Hs acc values sizes;
    [discriminate|].
  rewrite write_children_cons.
  destruct (_recursive_write v values sizes) as [[[nv values'] sizes']|e] eqn:E;
    cbn [rbind]; [|now exists e].
  destruct (supported v) eqn:Sv.
  - apply IH. exact Hs.
  - destruct (Hv eq_refl values sizes) as [e He]. congruence.
Qed.

Lemma write_items_never_ok items :
  Forall (fun kv => supported (snd kv) = false ->
            forall values sizes, exists e, _recursive_write (snd kv) values sizes = Err e)
         items ->
  forallb supported (map snd items) = false ->
  forall acc values sizes, exists e, write_items items acc values sizes = Err e.
Proof.
  induction 1 as [|[k v] rest Hv Hrest IH]; cbn [forallb map snd]; intros Hs acc values sizes;
    [discriminate|].
  rewrite write_items_cons. cbn [snd] in Hv.
  destruct (_recursive_write v values sizes) as [[[nv values'] sizes']|e] eqn:E;
    cbn [rbind]; [|now exists e].
  destruct (supported v) eqn:Sv.
  - apply IH. exact Hs.
  - destruct (Hv eq_refl values sizes) as [e He]. congruence.
Qed.

Lemma write_never_ok obj :
  supported obj = false ->
  forall values sizes, exists e, _recursive_write obj values sizes = Err e.
Proof.
  induction obj as [t|items IH|elems IH|elems IH|s] using pyobj_ind; intros Hs values sizes.
  - discriminate.
  - rewrite write_dict_eq. rewrite supported_dict in Hs.
    now apply write_items_never_ok.
  - rewrite write_list_eq. now apply write_children_never_ok.
  - rewrite write_tuple_eq. now apply write_children_never_ok.
  - now exists ValueError_UnknownType.
Qed.

Lemma leaves_before_dict items :
  leaves_before (PyDict items) = leaves_before_children (map snd items).
Proof.
  cbn [leaves_before].
  induction items as [|[k v] rest IH]; cbn [map snd leaves_before_children];
    [reflexivity | now rewrite IH].
Qed.

Section Reached.
Variable pre : list nat.
Hypothesis pre_rows : prod pre <> 0.

Lemma write_children_stops elems :
  Forall (fun obj => supported obj = false -> distinct_keys obj = true -> Stops pre obj) elems ->
  forallb supported elems = false -> forallb distinct_keys elems = true ->
  forall acc ps rest values sizes,
    map piece_leaf ps = leaves_before_children elems ->
    Forall (piece_ok (prod pre)) (ps ++ rest) ->
    Supplies pre values (ps ++ rest) -> Sized sizes (ps ++ rest) ->
    write_children elems acc values sizes = Err ValueError_UnknownType.
Proof.
  induction 1 as [|v more Hv Hmore IH]; cbn [forallb];
    intros Hs Hd acc ps rest values sizes Hleaves Hok Hsup Hsz; [discriminate|].
  apply andb_true_iff in Hd as [Hdv Hdm].
  rewrite write_children_cons. cbn [leaves_before_children] in Hleaves.
  destruct (supported v) eqn:Sv.
  - apply map_eq_app in Hleaves as (ps1 & ps2 & -> & H1 & H2).
    rewrite <- app_assoc in Hok, Hsup, Hsz.
    destruct (write_ok int64_roundtrip pre pre_rows v Sv Hdv ps1 (ps2 ++ rest) values sizes
                H1 Hok Hsup Hsz) as (values1 & sizes1 & E1 & Hsup1 & Hsz1 & _).
    rewrite E1. cbn [rbind]. apply Forall_app in Hok as [_ Hok2].
    now apply (IH Hs Hdm _ ps2 rest).
  - now rewrite (Hv eq_refl Hdv ps rest values sizes).
Qed.

Lemma write_items_stops items :
  Forall (fun kv => supported (snd kv) = false -> distinct_keys (snd kv) = true ->
                    Stops pre (snd kv)) items ->
  forallb supported (map snd items) = false ->
  forallb distinct_keys (map snd items) = true ->
  forall acc ps rest values sizes,
    map piece_leaf ps = leaves_before_children (map snd items) ->
    Forall (piece_ok (prod pre)) (ps ++ rest) ->
    Supplies pre values (ps ++ rest) -> Sized sizes (ps ++ rest) ->
    write_items items acc values sizes = Err ValueError_UnknownType.
Proof.
  induction 1 as [|[k v] more Hv Hmore IH]; cbn [forallb map snd];
    intros Hs Hd acc ps rest values sizes Hleaves Hok Hsup Hsz; [discriminate|].
  apply andb_true_iff in Hd as [Hdv Hdm]. cbn [snd] in Hv.
  rewrite write_items_cons. cbn [leaves_before_children] in Hleaves.
  destruct (supported v) eqn:Sv.
  - apply map_eq_app in Hleaves as (ps1 & ps2 & -> & H1 & H2).
    rewrite <- app_assoc in Hok, Hsup, Hsz.
    destruct (write_ok int64_roundtrip pre pre_rows v Sv Hdv ps1 (ps2 ++ rest) values sizes
                H1 Hok Hsup Hsz) as (values1 & sizes1 & E1 & Hsup1 & Hsz1 & _).
    rewrite E1. cbn [rbind]. apply Forall_app in Hok as [_ Hok2].
    now apply (IH Hs Hdm _ ps2 rest).
  - now rewrite (Hv eq_refl Hdv ps rest values sizes).
Qed.

Lemma write_stops obj :
  supported obj = false -> distinct_keys obj = true -> Stops pre obj.
Proof.
  induction obj as [t|items IH|elems IH|elems IH|s] using pyobj_ind; intros Hs Hd.
  - discriminate.
  - rewrite supported_dict in Hs. rewrite distinct_keys_dict in Hd.
    apply andb_true_iff in Hd as [_ Hd].
    intros ps rest values sizes Hleaves Hok Hsup Hsz.
    rewrite leaves_before_dict in Hleaves. rewrite write_dict_eq.
    now apply (write_items_stops items IH Hs Hd [] ps rest).
  - intros ps rest values sizes Hleaves Hok Hsup Hsz. rewrite write_list_eq.
    now apply (write_children_stops elems IH Hs Hd [] ps rest).
  - intros ps rest values sizes Hleaves Hok Hsup Hsz. rewrite write_tuple_eq.
    now apply (write_children_stops elems IH Hs Hd [] ps rest).
  - intros ps rest values sizes _ _ _ _. reflexivity.
Qed.
End Reached.

(** X24.  On a container that holds a node which is neither a tensor
    nor a dict, list or tuple, the walker, and so the flattening that
    Reduce, Stack and Cat begin with, fails with the error of an unknown
    type (UnsupportedType); and the rebuilder returns no container,
    whatever the buffers and the size table it is given: it fails too.
    It fails with that same error, at the node, when the dict keys are
    distinct and it is given, with [sizes=None], the buffers that
    flattening yields for the leaves the traversal visits before the
    node, alone or followed by further leaves, provided that none of
    these leaves has an axis of length zero after the first and each
    holds as many elements as its shape says, fewer than 2^63. *)
Theorem unsupported_node_fails obj :
  supported obj = false ->
  _recursive_read obj = Err ValueError_UnknownType
  /\ flatten_container obj = Err ValueError_UnknownType
  /\ (forall values sizes, exists e, _recursive_write obj values sizes = Err e)
  /\ (forall values, exists e, rebuild obj values = Err e)
  /\ (distinct_keys obj = true ->
      forall more,
        Forall leaf_ok (leaves_before obj ++ more) ->
        rebuild obj (flattened (leaves_before obj ++ more)) = Err ValueError_UnknownType).
Proof.
  intros Hs. split; [now apply read_unsupported|].
  split; [unfold flatten_container; now rewrite read_unsupported|].
  split; [now apply write_never_ok|]. split.
  - intros values. unfold rebuild.
    destruct (write_never_ok obj Hs values None) as [e He]. rewrite He. now exists e.
  - intros Hd more Hok. unfold rebuild.
    assert (Hone : prod [] <> 0) by discriminate.
    rewrite (write_stops [] Hone obj Hs Hd
               (map own_piece (leaves_before obj)) (map own_piece more)
               (flattened (leaves_before obj ++ more)) None); [reflexivity| | | |].
    + rewrite map_map. cbn [own_piece piece_leaf]. apply map_id.
    + rewrite <- map_app. apply Forall_map. eapply Forall_impl; [|exact Hok].
      intros t. apply own_piece_ok.
    + rewrite <- map_app. apply own_pieces_supply.
    + rewrite <- map_app. now apply own_pieces_sized.
Qed.
End Unsupported.

(* ================================================================== *)
(** * Jobs in lockstep *)
(* ================================================================== *)

Lemma zip_with_map {A B C D E} (f : C -> D -> E) (g : A -> C) (h : B -> D)
    (l : list A) (m : list B) :
  zip_with f (map g l) (map h m) = zip_with (fun x y => f (g x) (h y)) l m.
Proof.
  revert m. induction l as [|x l IH]; intros [|y m]; cbn [map zip_with];
    try reflexivity. now rewrite IH.
Qed.

Lemma zip_with_diag {A C} (f : A -> A -> C) (l : list A) :
  zip_with f l l = map (fun x => f x x) l.
Proof. induction l as [|x l IH]; cbn [map zip_with]; [reflexivity | now rewrite IH]. Qed.

Section Lockstep.
Context {TL : TensorLib}.

Lemma abandoned_lift {A} (r : result A) : abandoned (lift r) = settle r.
Proof. now destruct r. Qed.

Lemma run_job_lift {S A} (r : S -> result A) (W : list S) :
  run_job (map (fun w => lift (r w)) W) = map (fun w => settle (r w)) W.
Proof.
  destruct W as [|w0 W]; [reflexivity|]. cbn [map run_job].
  assert (Hrest : map abandoned (map (fun w => lift (r w)) W)
                  = map (fun w => settle (r w)) W).
  { rewrite map_map. apply map_ext. intros w. apply abandoned_lift. }
  destruct (r w0); cbn [lift lockstep settle]; now rewrite Hrest.
Qed.

Lemma run_job_ret {S A} (a : S -> A) (W : list S) :
  run_job (map (fun w => Ret (a w)) W) = map (fun w => Returned (a w)) W.
Proof. apply (run_job_lift (fun w => Ok (a w))). Qed.

Lemma abandoned_returned {A} (ps : list (comm A)) (xs : list A) :
  map abandoned ps = map Returned xs -> ps = map Ret xs.
Proof.
  revert xs. induction ps as [|p ps IH]; intros [|x xs] H; cbn [map] in *;
    try discriminate; [reflexivity|].
  injection H as Hp Hps. rewrite (IH xs Hps). f_equal.
  destruct p; cbn [abandoned] in Hp; congruence.
Qed.

Lemma gather_bind {A B} (ps : list (comm A)) (fs : list (A -> comm B)) calls :
  length ps = length fs ->
  gather ps = Some calls ->
  gather (zip_with cbind ps fs) = Some (zip_with then_call calls fs).
Proof.
  revert fs calls. induction ps as [|p ps IH]; intros [|f fs] calls Hlen H;
    try discriminate.
  - cbn [gather] in H. injection H as <-. reflexivity.
  - cbn [length] in Hlen. injection Hlen as Hlen.
    destruct p as [a|e|op dst buf k]; cbn [gather] in H; try discriminate.
    destruct (gather ps) as [calls'|] eqn:G; [|discriminate].
    injection H as <-. cbn [zip_with cbind gather].
    now rewrite (IH fs calls' Hlen eq_refl).
Qed.

Lemma gather_length {A} (ps : list (comm A)) calls :
  gather ps = Some calls -> length calls = length ps.
Proof.
  revert calls. induction ps as [|p ps IH]; intros calls H.
  - cbn [gather] in H. now injection H as <-.
  - destruct p as [a|e|op dst buf k]; cbn [gather] in H; try discriminate.
    destruct (gather ps) as [calls'|] eqn:G; [|discriminate].
    injection H as <-. cbn [length]. now rewrite (IH calls' eq_refl).
Qed.

Lemma same_call_then {A B} op dst buf
    (calls : list (ReduceOp * option nat * tensor * (tensor -> comm A)))
    (fs : list (A -> comm B)) :
  length calls = length fs ->
  forallb (same_call op dst buf) (zip_with then_call calls fs)
  = forallb (same_call op dst buf) calls.
Proof.
  revert fs. induction calls as [|[[[op' dst'] buf'] k] calls IH]; intros [|f fs] Hlen;
    try discriminate; [reflexivity|].
  cbn [zip_with forallb then_call]. injection Hlen as Hlen. now rewrite IH.
Qed.

Lemma bufs_then {A B}
    (calls : list (ReduceOp * option nat * tensor * (tensor -> comm A)))
    (fs : list (A -> comm B)) :
  length calls = length fs ->
  map (fun c => snd (fst c)) (zip_with then_call calls fs)
  = map (fun c => snd (fst c)) calls.
Proof.
  revert fs. induction calls as [|[[[op' dst'] buf'] k] calls IH]; intros [|f fs] Hlen;
    try discriminate; [reflexivity|].
  cbn [zip_with map then_call fst snd]. injection Hlen as Hlen. now rewrite IH.
Qed.

Lemma resume_then {A B} op dst bufs r
    (calls : list (ReduceOp * option nat * tensor * (tensor -> comm A)))
    (fs : list (A -> comm B)) :
  length calls = length fs ->
  resume op dst bufs r (zip_with then_call calls fs)
  = zip_with cbind (resume op dst bufs r calls) fs.
Proof.
  revert r fs. induction calls as [|[[[op' dst'] buf'] k] calls IH]; intros r [|f fs] Hlen;
    try discriminate; [reflexivity|].
  cbn [zip_with resume then_call]. injection Hlen as Hlen. now rewrite IH.
Qed.

Lemma resume_length {A} op dst bufs r
    (calls : list (ReduceOp * option nat * tensor * (tensor -> comm A))) :
  length (resume op dst bufs r calls) = length calls.
Proof.
  revert r. induction calls as [|[[[op' dst'] buf'] k] calls IH]; intros r;
    cbn [resume length]; [reflexivity | now rewrite IH].
Qed.

Lemma zip_bind_ret {A B} (xs : list A) (fs : list (A -> comm B)) :
  zip_with cbind (map Ret xs) fs = zip_with (fun x f => f x) xs fs.
Proof.
  revert fs. induction xs as [|x xs IH]; intros [|f fs]; cbn [map zip_with cbind];
    try reflexivity. now rewrite IH.
Qed.

(** When every worker of a job returns, the job of the same workers each
    going on with a function is the job of what they go on with. *)
Lemma lockstep_bind {A B} (p0 : comm A) :
  forall (ps : list (comm A)) (f0 : A -> comm B) (fs : list (A -> comm B)) a0 xs,
    length ps = length fs ->
    lockstep p0 ps = Returned a0 :: map Returned xs ->
    lockstep (cbind p0 f0) (zip_with cbind ps fs)
    = lockstep (f0 a0) (zip_with (fun x f => f x) xs fs).
Proof.
  induction p0 as [a|e|op dst buf k IH]; intros ps f0 fs a0 xs Hlen Hrun.
  - cbn [lockstep] in Hrun. injection Hrun as -> Hps.
    apply abandoned_returned in Hps. subst ps. cbn [cbind].
    now rewrite zip_bind_ret.
  - discriminate.
  - cbn [lockstep] in Hrun. cbn [cbind lockstep].
    destruct (gather ps) as [calls|] eqn:G; [|discriminate].
    pose proof (gather_length ps calls G) as Hcalls.
    rewrite (gather_bind ps fs calls Hlen G).
    rewrite same_call_then, bufs_then by congruence.
    destruct (forallb (same_call op dst buf) calls); [|discriminate].
    rewrite resume_then by congruence.
    apply IH; [|exact Hrun]. rewrite resume_length. congruence.
Qed.

Lemma run_job_bind {S A B} (W : list S) (p : S -> comm A) (f : S -> A -> comm B)
    (a : S -> A) :
  run_job (map p W) = map (fun w => Returned (a w)) W ->
  run_job (map (fun w => cbind (p w) (f w)) W) = run_job (map (fun w => f w (a w)) W).
Proof.
  destruct W as [|w0 W]; [reflexivity|]. cbn [map run_job]. intros Hrun.
  rewrite <- (map_map a Returned) in Hrun.
  rewrite <- (zip_with_diag (fun w w' => cbind (p w) (f w')) W).
  rewrite <- (zip_with_map cbind p f W W).
  rewrite (lockstep_bind (p w0) (map p W) (f w0) (map f W) (a w0) (map a W))
    by (rewrite ?length_map; auto).
  rewrite zip_with_map, zip_with_diag. reflexivity.
Qed.

(** A loop whose every round makes all workers return goes through all
    its rounds, on all workers. *)
Lemma run_job_for_each {S K X B} (W : list S) (item : S -> K -> X)
    (body : S -> X -> B -> comm B) (g : K -> S -> B -> B) (ks : list K) :
  (forall k acc, In k ks ->
     run_job (map (fun w => body w (item w k) (acc w)) W)
     = map (fun w => Returned (g k w (acc w))) W) ->
  forall acc,
    run_job (map (fun w => for_each (map (item w) ks) (body w) (acc w)) W)
    = map (fun w => Returned (fold_left (fun b k => g k w b) ks (acc w))) W.
Proof.
  induction ks as [|k ks IH]; intros Hround acc.
  - cbn [map for_each fold_left]. apply run_job_ret.
  - cbn [map for_each fold_left].
    rewrite (run_job_bind W (fun w => body w (item w k) (acc w))
               (fun w => for_each (map (item w) ks) (body w))
               (fun w => g k w (acc w))).
    + apply (IH (fun k' acc' Hin => Hround k' acc' (or_intror Hin))
                (fun w => g k w (acc w))).
    + apply Hround. now left.
Qed.

Lemma gather_calls {S A} (W : list S) op dst (buf : S -> tensor)
    (k : S -> tensor -> comm A) :
  gather (map (fun w => AllReduce op dst (buf w) (k w)) W)
  = Some (map (fun w => (op, dst, buf w, k w)) W).
Proof.
  induction W as [|w W IH]; cbn [map gather]; [reflexivity | now rewrite IH].
Qed.

Lemma resume_ranked {X A} op dst bufs (buf : nat * X -> tensor)
    (k : nat * X -> tensor -> comm A) (xs : list X) r :
  resume op dst bufs r
    (map (fun w => (op, dst, buf w, k w)) (List.combine (seq r (length xs)) xs))
  = map (fun w => k w (reply op dst bufs (fst w) (buf w)))
        (List.combine (seq r (length xs)) xs).
Proof.
  revert r. induction xs as [|x xs IH]; intros r; [reflexivity|].
  cbn [length seq List.combine map resume fst]. now rewrite IH.
Qed.

(** One collective call of all workers, whose buffers agree in dtype and
    shape: every worker goes on with its reply. *)
Lemma run_job_all_reduce {X A} (xs : list X) op dst (buf : nat * X -> tensor)
    (k : nat * X -> tensor -> comm A) d shape :
  Forall (fun w => tdtype (buf w) = d /\ tshape (buf w) = shape) (ranked xs) ->
  run_job (map (fun w => AllReduce op dst (buf w) (k w)) (ranked xs))
  = run_job (map (fun w => k w (reply op dst (map buf (ranked xs)) (fst w) (buf w)))
                 (ranked xs)).
Proof.
  unfold ranked. destruct xs as [|x0 xs]; [reflexivity|].
  cbn [length seq List.combine map run_job lockstep]. intros Hall.
  rewrite gather_calls.
  inversion Hall as [|? ? [Hd0 Hs0] Hrest]; subst.
  replace (forallb _ _) with true.
  - rewrite map_map. cbn [fst snd]. rewrite resume_ranked. reflexivity.
  - symmetry. apply forallb_forall. intros c Hc. apply in_map_iff in Hc as (w & <- & Hw).
    rewrite Forall_forall in Hrest. destruct (Hrest w Hw) as [Hd Hs].
    unfold same_call. destruct (ReduceOp_eq_dec op op); [|congruence].
    rewrite Hd, Hs. rewrite dtype_eqb_refl.
    destruct (list_eq_dec Nat.eq_dec (tshape (buf (0, x0))) (tshape (buf (0, x0))));
      [|congruence].
    destruct dst as [n|]; cbn [option_nat_eqb andb]; [now rewrite Nat.eqb_refl | reflexivity].
Qed.

Lemma spawn_ranked {A B} (f : context -> A -> comm B) ws ready (args : list A) r :
  spawn f ws ready r args
  = map (fun w => f (mkContext (fst w) ws ready) (snd w))
        (List.combine (seq r (length args)) args).
Proof.
  revert r. induction args as [|a args IH]; intros r; [reflexivity|].
  cbn [spawn length seq List.combine map fst snd]. now rewrite IH.
Qed.

Lemma spmd_ranked {A B} (f : context -> A -> comm B) ready (args : list A) :
  spmd f ready args
  = run_job (map (fun w => f (mkContext (fst w) (length args) ready) (snd w))
                 (ranked args)).
Proof. unfold spmd, ranked. now rewrite spawn_ranked. Qed.

Lemma nth_error_ranked {A} (args : list A) r a :
  nth_error args r = Some a -> nth_error (ranked args) r = Some (r, a).
Proof.
  unfold ranked.
  assert (G : forall s, nth_error args r = Some a ->
              nth_error (List.combine (seq s (length args)) args) r = Some (s + r, a)).
  { revert r. induction args as [|x args IH]; intros [|r] s H;
      try discriminate; cbn [length seq List.combine nth_error] in *.
    - injection H as ->. now rewrite Nat.add_0_r.
    - rewrite (IH r (S s) H). do 2 f_equal. lia. }
  intros H. rewrite (G 0 H). reflexivity.
Qed.

Lemma in_ranked {A} (args : list A) w :
  In w (ranked args) -> nth_error args (fst w) = Some (snd w) /\ fst w < length args.
Proof.
  unfold ranked.
  assert (G : forall s, In w (List.combine (seq s (length args)) args) ->
              s <= fst w /\ nth_error args (fst w - s) = Some (snd w)
              /\ fst w - s < length args).
  { induction args as [|x args IH]; intros s H; [contradiction|].
    cbn [length seq List.combine In] in H. destruct H as [<-|H].
    - cbn [fst snd]. rewrite Nat.sub_diag. cbn. split; [lia|]. split; [reflexivity | lia].
    - destruct (IH (S s) H) as (Hle & Hn & Hlt).
      replace (fst w - s) with (S (fst w - S s)) by lia. cbn [nth_error length].
      split; [lia|]. split; [exact Hn | lia]. }
  intros H. destruct (G 0 H) as (_ & Hn & Hlt). rewrite Nat.sub_0_r in *. auto.
Qed.
End Lockstep.

(* ================================================================== *)
(** * Lists by position *)
(* ================================================================== *)

Lemma map_nth_seq {A} (l : list A) (d : A) :
  map (fun j => nth j l d) (seq 0 (length l)) = l.
Proof.
  induction l as [|x l IH]; [reflexivity|].
  cbn [length seq map nth]. f_equal.
  rewrite <- seq_shift, map_map. exact IH.
Qed.

Lemma filter_map_comm {A B} (p : B -> bool) (f : A -> B) (l : list A) :
  filter p (map f l) = map f (filter (fun x => p (f x)) l).
Proof.
  induction l as [|x l IH]; [reflexivity|].
  cbn [map filter]. destruct (p (f x)); cbn [map]; now rewrite IH.
Qed.

Lemma filter_by_position {A} (p : A -> bool) (l : list A) (d : A) :
  filter p l
  = map (fun j => nth j l d) (filter (fun j => p (nth j l d)) (seq 0 (length l))).
Proof.
  rewrite <- (filter_map_comm p (fun j => nth j l d)). now rewrite map_nth_seq.
Qed.

Lemma zip_with_app {A B C} (f : A -> B -> C) (a a' : list A) (b b' : list B) :
  length a = length b ->
  zip_with f (a ++ a') (b ++ b') = zip_with f a b ++ zip_with f a' b'.
Proof.
  revert b. induction a as [|x a IH]; intros [|y b] Hlen; try discriminate.
  - reflexivity.
  - cbn [app zip_with]. injection Hlen as Hlen. now rewrite IH.
Qed.

Lemma concat_map_repeat {A B} (x : B) (n : nat) (l : list A) :
  concat (map (fun _ => repeat x n) l) = repeat x (length l * n).
Proof.
  induction l as [|y l IH]; [reflexivity|].
  cbn [map concat length Nat.mul]. now rewrite IH, repeat_app.
Qed.

Lemma fold_dset_tabulate {V} (f : dtype -> V) (ks : list dtype) :
  NoDup ks ->
  fold_left (fun acc k => dset k (f k) acc) ks [] = map (fun k => (k, f k)) ks.
Proof.
  intros Hnd.
  assert (G : forall acc, NoDup (map fst acc ++ ks) ->
            fold_left (fun acc k => dset k (f k) acc) ks acc
            = acc ++ map (fun k => (k, f k)) ks).
  { clear Hnd. induction ks as [|k ks IH]; intros acc Hnd; cbn [fold_left map].
    - now rewrite app_nil_r.
    - assert (Hfresh : ~ In k (map fst acc)).
      { intros Hin. apply NoDup_remove_2 in Hnd. apply Hnd. apply in_or_app. now left. }
      assert (Hset : dset k (f k) acc = acc ++ [(k, f k)]).
      { clear -Hfresh. unfold dset.
        induction acc as [|[k' v'] acc IHa]; cbn [dict_set map fst In app] in *.
        - reflexivity.
        - destruct (dtype_eqb k k') eqn:E.
          + apply dtype_eqb_eq in E. subst. exfalso. apply Hfresh. now left.
          + rewrite IHa; [reflexivity|]. intros Hin. apply Hfresh. now right. }
      rewrite Hset, IH.
      + now rewrite <- app_assoc.
      + rewrite map_app. cbn [map fst]. now rewrite <- app_assoc. }
  apply (G []). exact Hnd.
Qed.


Section Buffers.
Context {TL : TensorLib}.

Lemma reduce_buffers_length op d (first : list scalar) others :
  Forall (fun b => length b = length first) others ->
  length (reduce_buffers op d first others) = length first.
Proof.
  unfold reduce_buffers. revert first.
  induction others as [|b others IH]; intros first Hall; cbn [fold_left]; [reflexivity|].
  inversion Hall as [|? ? Hb Hrest]; subst.
  rewrite IH.
  - rewrite zip_with_length, Hb. apply Nat.min_id.
  - eapply Forall_impl; [|exact Hrest]. intros b' Hb'. cbn beta in *.
    rewrite zip_with_length, Hb, Nat.min_id. exact Hb'.
Qed.

Lemma reduce_buffers_app {G} op d (a b : list scalar) (ga gb : G -> list scalar)
    (gs : list G) :
  (forall g, In g gs -> length (ga g) = length a) ->
  reduce_buffers op d (a ++ b) (map (fun g => ga g ++ gb g) gs)
  = reduce_buffers op d a (map ga gs) ++ reduce_buffers op d b (map gb gs).
Proof.
  unfold reduce_buffers. revert a b.
  induction gs as [|g gs IH]; intros a b Hlen; cbn [map fold_left]; [reflexivity|].
  rewrite zip_with_app by (symmetry; apply Hlen; now left).
  apply IH. intros g' Hg'. rewrite zip_with_length.
  rewrite (Hlen g (or_introl eq_refl)), Nat.min_id. apply Hlen. now right.
Qed.

(** Reducing buffers made of blocks of matching lengths reduces block by
    block. *)
Lemma reduce_buffers_concat {G J} op d (f : J -> list scalar) (blk : G -> J -> list scalar)
    (gs : list G) (js : list J) :
  (forall g j, In g gs -> In j js -> length (blk g j) = length (f j)) ->
  reduce_buffers op d (concat (map f js)) (map (fun g => concat (map (blk g) js)) gs)
  = concat (map (fun j => reduce_buffers op d (f j) (map (fun g => blk g j) gs)) js).
Proof.
  induction js as [|j js IH]; intros Hlen.
  - cbn [map concat]. unfold reduce_buffers. clear Hlen.
    induction gs as [|g gs IHg]; cbn [map fold_left zip_with]; [reflexivity | exact IHg].
  - cbn [map concat].
    rewrite (reduce_buffers_app op d (f j) (concat (map f js))
               (fun g => blk g j) (fun g => concat (map (blk g) js)) gs).
    + f_equal. apply IH. intros g j' Hg Hj. apply Hlen; [exact Hg | now right].
    + intros g Hg. apply Hlen; [exact Hg | now left].
Qed.

Hypothesis add_zero_l : forall d x, reduce_elem SUM d (zero d) x = x.
Hypothesis add_zero_r : forall d x, reduce_elem SUM d x (zero d) = x.

Lemma zip_add_zeros_l d (x : list scalar) :
  zip_with (reduce_elem SUM d) (repeat (zero d) (length x)) x = x.
Proof.
  induction x as [|y x IH]; [reflexivity|].
  cbn [length repeat zip_with]. now rewrite add_zero_l, IH.
Qed.

Lemma zip_add_zeros_r d (x : list scalar) :
  zip_with (reduce_elem SUM d) x (repeat (zero d) (length x)) = x.
Proof.
  induction x as [|y x IH]; [reflexivity|].
  cbn [length repeat zip_with]. now rewrite add_zero_r, IH.
Qed.

(** Summing buffers of which one holds [x] and the others zeros gives
    [x]. *)
Lemma one_hot_sum d (x : list scalar) (owner : nat) :
  forall n s (acc : list scalar),
    acc = (if owner <? s then x else repeat (zero d) (length x)) ->
    owner < s + n ->
    fold_left (zip_with (reduce_elem SUM d))
      (map (fun r => if owner =? r then x else repeat (zero d) (length x)) (seq s n))
      acc = x.
Proof.
  induction n as [|n IH]; intros s acc Hacc Hown; cbn [seq map fold_left].
  - replace (owner <? s) with true in Hacc by (symmetry; apply Nat.ltb_lt; lia).
    exact Hacc.
  - apply IH; [|lia]. subst acc.
    destruct (owner =? s) eqn:E.
    + apply Nat.eqb_eq in E. subst s.
      rewrite Nat.ltb_irrefl.
      replace (owner <? S owner) with true by (symmetry; apply Nat.ltb_lt; lia).
      apply zip_add_zeros_l.
    + apply Nat.eqb_neq in E.
      destruct (owner <? s) eqn:L.
      * apply Nat.ltb_lt in L.
        replace (owner <? S s) with true by (symmetry; apply Nat.ltb_lt; lia).
        apply zip_add_zeros_r.
      * apply Nat.ltb_ge in L.
        replace (owner <? S s) with false by (symmetry; apply Nat.ltb_ge; lia).
        rewrite <- (repeat_length (zero d) (length x)) at 1.
        apply zip_add_zeros_l.
Qed.

(** The sum over all ranks of the masked buffers is the blocks in
    order. *)
Lemma sum_masked d ws (blocks : list (nat * list scalar)) :
  Forall (fun ob => fst ob < S ws) blocks ->
  reduce_buffers SUM d (masked d 0 blocks) (map (fun r => masked d r blocks) (seq 1 ws))
  = concat (map snd blocks).
Proof.
  intros Hown. unfold masked.
  rewrite (reduce_buffers_concat SUM d
             (fun ob => if fst ob =? 0 then snd ob else repeat (zero d) (length (snd ob)))
             (fun r ob => if fst ob =? r then snd ob else repeat (zero d) (length (snd ob)))).
  - f_equal. apply map_ext_in. intros ob Hin.
    rewrite Forall_forall in Hown. specialize (Hown ob Hin).
    unfold reduce_buffers. apply one_hot_sum; [|lia].
    destruct (fst ob) as [|o]; reflexivity.
  - intros r ob _ _.
    destruct (fst ob =? r), (fst ob =? 0); rewrite ?repeat_length; reflexivity.
Qed.
End Buffers.

(* ================================================================== *)
(** * Workers whose leaves are aligned *)
(* ================================================================== *)

Section Aligned.
Context {TL : TensorLib}.

Lemma dtypes_of_ext (l1 l2 : list tensor) :
  map tdtype l1 = map tdtype l2 -> dtypes_of l1 = dtypes_of l2.
Proof.
  revert l2. induction l1 as [|t l1 IH]; intros [|t' l2] H; try discriminate;
    [reflexivity|].
  cbn [map] in H. injection H as Ht Hl. cbn [dtypes_of].
  now rewrite Ht, (IH l2 Hl).
Qed.

Lemma sig_dtype (l1 l2 : list tensor) :
  map leaf_sig l1 = map leaf_sig l2 -> map tdtype l1 = map tdtype l2.
Proof.
  intros H. apply (f_equal (map fst)) in H. now rewrite !map_map in H.
Qed.

Lemma sig_numel (l1 l2 : list tensor) :
  map leaf_sig l1 = map leaf_sig l2 -> map numel l1 = map numel l2.
Proof.
  intros H. apply (f_equal (map snd)) in H. now rewrite !map_map in H.
Qed.

Lemma map_eq_nth {A B} (f : A -> B) (l1 l2 : list A) (d : A) j :
  map f l1 = map f l2 -> f (nth j l1 d) = f (nth j l2 d).
Proof.
  intros H. rewrite <- !(map_nth f). now rewrite H.
Qed.

Lemma map_eq_length {A B} (f : A -> B) (l1 l2 : list A) :
  map f l1 = map f l2 -> length l1 = length l2.
Proof. intros H. apply (f_equal (@length B)) in H. now rewrite !length_map in H. Qed.

Lemma positions_ext d (l1 l2 : list tensor) :
  map tdtype l1 = map tdtype l2 -> positions d l1 = positions d l2.
Proof.
  intros H. unfold positions. rewrite (map_eq_length _ _ _ H).
  apply filter_ext. intros j. unfold has_dtype.
  now rewrite (map_eq_nth tdtype l1 l2 no_tensor j H).
Qed.

Lemma filter_positions d (ls : list tensor) :
  filter (has_dtype d) ls = map (fun j => nth j ls no_tensor) (positions d ls).
Proof. apply filter_by_position. Qed.

Lemma in_positions d ls j :
  In j (positions d ls) -> j < length ls /\ tdtype (nth j ls no_tensor) = d.
Proof.
  unfold positions. intros H. apply filter_In in H as [Hj Hd].
  apply in_seq in Hj. split; [lia|]. now apply dtype_eqb_eq.
Qed.

Lemma tensor_type_data (t : tensor) d :
  tdata (tensor_type t d)
  = if dtype_eqb (tdtype t) d then tdata t else map (cast (tdtype t) d) (tdata t).
Proof. unfold tensor_type. now destruct (dtype_eqb (tdtype t) d). Qed.

Lemma tensor_type_shape (t : tensor) d : tshape (tensor_type t d) = tshape t.
Proof. unfold tensor_type. now destruct (dtype_eqb (tdtype t) d). Qed.

Lemma tensor_type_dtype (t : tensor) d : tdtype (tensor_type t d) = d.
Proof.
  unfold tensor_type. destruct (dtype_eqb (tdtype t) d) eqn:E; [|reflexivity].
  now apply dtype_eqb_eq.
Qed.

(** The elements of a flat buffer as communicated, leaf by leaf. *)
Lemma wire_flat_buffer d (ls : list tensor) :
  tdata (tensor_type (flat_buffer d ls) (wire_dtype d))
  = concat (map (fun j => wire_data (nth j ls no_tensor)) (positions d ls)).
Proof.
  rewrite tensor_type_data. unfold flat_buffer. cbn [tdtype tdata].
  rewrite filter_positions, map_map.
  assert (Hw : forall j, In j (positions d ls) ->
            wire_data (nth j ls no_tensor)
            = if dtype_eqb d (wire_dtype d) then tdata (nth j ls no_tensor)
              else map (cast d (wire_dtype d)) (tdata (nth j ls no_tensor))).
  { intros j Hj. apply in_positions in Hj as [_ Hd].
    unfold wire_data. rewrite tensor_type_data, Hd. reflexivity. }
  rewrite (map_ext_in _ _ _ Hw).
  destruct (dtype_eqb d (wire_dtype d)); [reflexivity|].
  now rewrite concat_map, map_map.
Qed.

Lemma wire_data_length (t : tensor) : length (wire_data t) = length (tdata t).
Proof.
  unfold wire_data. rewrite tensor_type_data.
  destruct (dtype_eqb _ _); [reflexivity | apply length_map].
Qed.

Lemma flat_buffer_shape d (ls : list tensor) :
  tshape (flat_buffer d ls)
  = [list_sum (map (fun j => numel (nth j ls no_tensor)) (positions d ls))].
Proof.
  unfold flat_buffer. cbn [tshape]. now rewrite filter_positions, map_map.
Qed.
End Aligned.

(* ================================================================== *)
(** * A job of workers with aligned containers *)
(* ================================================================== *)

Section Job.
Context {TL : TensorLib}.
Hypothesis int64_roundtrip :
  forall z, (0 <= z < 2 ^ 63)%Z -> to_int (of_int z) = z.

Variable objs : list pyobj.
Hypothesis all_supported : Forall (fun o => supported o = true) objs.
Hypothesis all_distinct_keys : Forall (fun o => distinct_keys o = true) objs.
Hypothesis all_leaf_ok : Forall (fun o => Forall leaf_ok (leaves o)) objs.
Hypothesis all_aligned : aligned leaf_sig objs.

Lemma ranked_in w : In w (ranked objs) -> In (snd w) objs.
Proof. intros H. apply in_ranked in H as [H _]. now apply nth_error_In in H. Qed.

Lemma worker_supported w : In w (ranked objs) -> supported (snd w) = true.
Proof.
  intros H. apply ranked_in in H. rewrite Forall_forall in all_supported. auto.
Qed.

Lemma aligned_dtypes a b :
  In a objs -> In b objs -> map tdtype (leaves a) = map tdtype (leaves b).
Proof. intros Ha Hb. apply sig_dtype. now apply all_aligned. Qed.

Lemma aligned_numel a b j :
  In a objs -> In b objs ->
  numel (nth j (leaves a) no_tensor) = numel (nth j (leaves b) no_tensor).
Proof.
  intros Ha Hb. apply (map_eq_nth numel). apply sig_numel. now apply all_aligned.
Qed.

Lemma aligned_length a b : In a objs -> In b objs -> length (leaves a) = length (leaves b).
Proof. intros Ha Hb. apply (map_eq_length leaf_sig). now apply all_aligned. Qed.

Lemma leaf_at_ok a j : In a objs -> j < length (leaves a) -> leaf_ok (nth j (leaves a) no_tensor).
Proof.
  intros Ha Hj. rewrite Forall_forall in all_leaf_ok. specialize (all_leaf_ok a Ha).
  rewrite Forall_forall in all_leaf_ok. apply all_leaf_ok. now apply nth_In.
Qed.

(** Every worker flattens to buffers of the reference worker's keys and
    lengths. *)
Lemma worker_flattened ref w :
  In ref objs -> In w (ranked objs) ->
  flatten_container (snd w)
  = Ok (map (fun d => (d, flat_buffer d (leaves (snd w)))) (dtypes_of (leaves ref))).
Proof.
  intros Href Hw. rewrite flatten_container_ok by now apply worker_supported.
  unfold flattened. f_equal. f_equal. apply dtypes_of_ext.
  apply aligned_dtypes; [now apply ranked_in | exact Href].
Qed.

Lemma worker_buffer_shape ref w d :
  In ref objs -> In w (ranked objs) ->
  tshape (flat_buffer d (leaves (snd w))) = tshape (flat_buffer d (leaves ref)).
Proof.
  intros Href Hw. apply ranked_in in Hw. rewrite !flat_buffer_shape.
  rewrite (positions_ext d (leaves (snd w)) (leaves ref)) by now apply aligned_dtypes.
  do 2 f_equal. apply map_ext. intros j. now apply aligned_numel.
Qed.

(** What a worker of rank [r] finds after a collective, when the result is
    meant for it. *)
Lemma reply_reduced op dst (bufs : list tensor) r own b0 rest :
  dst = None \/ dst = Some r ->
  bufs = b0 :: rest ->
  reply op dst bufs r own
  = mkTensor (tdtype own) (tshape own)
      (reduce_buffers op (tdtype own) (tdata b0) (map tdata rest)).
Proof.
  intros Hdst ->. unfold reply.
  destruct Hdst as [-> | ->]; [reflexivity | now rewrite Nat.eqb_refl].
Qed.

(** The loop over the buffers and the rebuild after it, for [reduce] and
    [stack] alike: every worker ends as its rebuild from its replies
    does. *)
Lemma collective_then_rebuild (ref : pyobj)
    (body : context -> dtype * tensor -> ddict tensor -> comm (ddict tensor))
    (val : dtype -> nat * pyobj -> tensor) :
  In ref objs ->
  (forall k acc, In k (dtypes_of (leaves ref)) ->
     run_job (map (fun w => body (mkContext (fst w) (length objs) true)
                              (k, flat_buffer k (leaves (snd w))) (acc w)) (ranked objs))
     = map (fun w => Returned (dset k (val k w) (acc w))) (ranked objs)) ->
  run_job (map (fun w =>
                  cbind (lift (flatten_container (snd w)))
                    (fun values =>
                       cbind (for_each values
                                (body (mkContext (fst w) (length objs) true)) [])
                         (fun final => lift (rebuild (snd w) final))))
               (ranked objs))
  = map (fun w => settle (rebuild (snd w)
                    (map (fun k => (k, val k w)) (dtypes_of (leaves ref)))))
        (ranked objs).
Proof.
  intros Href Hround.
  rewrite (map_ext_in _
    (fun w => cbind (for_each (map (fun d => (d, flat_buffer d (leaves (snd w))))
                                   (dtypes_of (leaves ref)))
                       (body (mkContext (fst w) (length objs) true)) [])
                (fun final => lift (rebuild (snd w) final)))).
  2:{ intros w Hw. now rewrite (worker_flattened ref w Href Hw). }
  rewrite (run_job_bind (ranked objs) _ _
             (fun w => map (fun k => (k, val k w)) (dtypes_of (leaves ref)))).
  - apply (run_job_lift (fun w => rebuild (snd w) _)).
  - rewrite (run_job_for_each (ranked objs)
               (fun w d => (d, flat_buffer d (leaves (snd w))))
               (fun w => body (mkContext (fst w) (length objs) true))
               (fun k w acc => dset k (val k w) acc)).
    + apply map_ext. intros w. f_equal.
      apply (fold_dset_tabulate (fun k => val k w)). apply NoDup_dtypes_of.
    + intros k acc Hk. now apply Hround.
Qed.
End Job.

(* ================================================================== *)
(** * Reduce *)
(* ================================================================== *)

Section Reduce.
Context {TL : TensorLib}.
Hypothesis int64_roundtrip :
  forall z, (0 <= z < 2 ^ 63)%Z -> to_int (of_int z) = z.

Variable objs : list pyobj.
Hypothesis all_supported : Forall (fun o => supported o = true) objs.
Hypothesis all_distinct_keys : Forall (fun o => distinct_keys o = true) objs.
Hypothesis all_leaf_ok : Forall (fun o => Forall leaf_ok (leaves o)) objs.
Hypothesis all_aligned : aligned leaf_sig objs.

Variables (rop : ReduceOp) (is_mean : bool) (dst : option nat).

Lemma reduce_send_eq d ls :
  (if dtype_eqb (tdtype (flat_buffer d ls)) th_bool
   then tensor_type (flat_buffer d ls) th_uint8 else flat_buffer d ls)
  = tensor_type (flat_buffer d ls) (wire_dtype d).
Proof.
  cbn [flat_buffer tdtype]. unfold wire_dtype.
  destruct (dtype_eqb d th_bool); [reflexivity|].
  unfold tensor_type. cbn [tdtype]. now rewrite dtype_eqb_refl.
Qed.

Lemma reduce_finish_data d (v : tensor) :
  tdtype v = wire_dtype d ->
  tdata (reduce_finish is_mean (length objs) d v)
  = map (reduce_finish_elem is_mean (length objs) d) (tdata v).
Proof.
  intros Hd. unfold reduce_finish, reduce_finish_elem.
  rewrite tensor_type_data. destruct is_mean.
  - unfold tensor_true_divide. cbn [tdtype tdata]. rewrite Hd.
    destruct (dtype_eqb (true_divide_dtype (wire_dtype d)) d);
      [reflexivity | now rewrite map_map].
  - rewrite Hd. destruct (dtype_eqb (wire_dtype d) d); [now rewrite map_id | reflexivity].
Qed.

Lemma reduce_finish_shape d (v : tensor) :
  tshape (reduce_finish is_mean (length objs) d v) = tshape v.
Proof.
  unfold reduce_finish. rewrite tensor_type_shape. now destruct is_mean.
Qed.

(** One round of the loop of [reduce], on all workers. *)
Lemma reduce_round ref k (acc : nat * pyobj -> ddict tensor) :
  In ref objs ->
  run_job (map (fun w => reduce_body (mkContext (fst w) (length objs) true) rop is_mean dst
                           (k, flat_buffer k (leaves (snd w))) (acc w)) (ranked objs))
  = map (fun w => Returned
           (dset k (reduce_finish is_mean (length objs) k
                      (reply rop dst (map (fun w => reduce_send k (snd w)) (ranked objs))
                         (fst w) (reduce_send k (snd w))))
                 (acc w)))
        (ranked objs).
Proof.
  intros Href.
  rewrite (map_ext _
    (fun w => AllReduce rop dst (reduce_send k (snd w))
                (fun t => Ret (dset k (reduce_finish is_mean (length objs) k t) (acc w))))).
  2:{ intros w. unfold reduce_body. cbn [fst snd]. rewrite reduce_send_eq.
      reflexivity. }
  rewrite (run_job_all_reduce objs rop dst (fun w => reduce_send k (snd w)) _
             (wire_dtype k) (tshape (flat_buffer k (leaves ref)))).
  - apply run_job_ret.
  - apply Forall_forall. intros w Hw. unfold reduce_send.
    rewrite tensor_type_dtype, tensor_type_shape. split; [reflexivity|].
    exact (worker_buffer_shape objs all_aligned ref w k Href Hw).
Qed.

(** The job of [reduce]: every worker ends as its rebuild from what the
    backend returned to it does. *)
Lemma reduce_job ref op :
  In ref objs ->
  ReduceOp_getattr (upper (if String.eqb op "mean" then "sum"%string else op)) = Ok rop ->
  String.eqb op "mean" = is_mean ->
  spmd (fun ctx o => reduce ctx o op dst) true objs
  = map (fun w => settle (rebuild (snd w)
           (map (fun k => (k, reduce_finish is_mean (length objs) k
                               (reply rop dst (map (fun w => reduce_send k (snd w)) (ranked objs))
                                  (fst w) (reduce_send k (snd w)))))
                (dtypes_of (leaves ref)))))
        (ranked objs).
Proof.
  intros Href Hop Hmean. rewrite spmd_ranked.
  rewrite <- (collective_then_rebuild objs all_supported all_aligned ref
                (fun ctx => reduce_body ctx rop is_mean dst)
                (fun k w => reduce_finish is_mean (length objs) k
                              (reply rop dst (map (fun w => reduce_send k (snd w)) (ranked objs))
                                 (fst w) (reduce_send k (snd w))))
                Href).
  - f_equal. apply map_ext. intros w. unfold reduce.
    destruct (flatten_container (snd w)) as [values|e]; cbn [lift cbind]; [|reflexivity].
    rewrite Hop, Hmean. reflexivity.
  - intros k acc _. exact (reduce_round ref k acc Href).
Qed.

Lemma tensor_ext (a b : tensor) :
  tdtype a = tdtype b -> tshape a = tshape b -> tdata a = tdata b -> a = b.
Proof. destruct a, b. cbn. intros -> -> ->. reflexivity. Qed.

Lemma in_nonempty {A} (x : A) (l : list A) : In x l -> exists y ys, l = y :: ys.
Proof. destruct l as [|y ys]; [contradiction | eauto]. Qed.

Lemma map_snd_ranked {A} (l : list A) : map snd (ranked l) = l.
Proof.
  unfold ranked. generalize 0. induction l as [|x l IH]; intros s; [reflexivity|].
  cbn [length seq List.combine map snd]. now rewrite IH.
Qed.

Lemma column_objs j :
  column (map leaves objs) j = map (fun o => nth j (leaves o) no_tensor) objs.
Proof. unfold column. apply map_map. Qed.

Lemma leaf_reduction_data o0 os j own :
  objs = o0 :: os ->
  tdata (leaf_reduction rop (column (map leaves objs) j) own)
  = reduce_buffers rop (wire_dtype (tdtype own))
      (wire_data (nth j (leaves o0) no_tensor))
      (map (fun o => wire_data (nth j (leaves o) no_tensor)) os).
Proof.
  intros E. unfold leaf_reduction. cbn [tdata]. rewrite column_objs, E.
  cbn [map]. now rewrite map_map.
Qed.

Lemma wire_data_numel a j :
  In a objs -> j < length (leaves a) ->
  length (wire_data (nth j (leaves a) no_tensor)) = numel (nth j (leaves a) no_tensor).
Proof.
  intros Ha Hj. rewrite wire_data_length.
  apply (leaf_at_ok objs all_leaf_ok a j Ha Hj).
Qed.

Lemma leaf_reduction_length ref j :
  In ref objs -> j < length (leaves ref) ->
  length (tdata (leaf_reduction rop (column (map leaves objs) j)
                   (nth j (leaves ref) no_tensor)))
  = numel (nth j (leaves ref) no_tensor).
Proof.
  intros Href Hj. destruct (in_nonempty _ _ Href) as (o0 & os & E).
  rewrite (leaf_reduction_data o0 os j _ E).
  assert (H0 : In o0 objs) by (rewrite E; now left).
  rewrite reduce_buffers_length.
  - rewrite wire_data_numel; [|exact H0|].
    + now apply (aligned_numel objs all_aligned).
    + now rewrite (aligned_length objs all_aligned o0 ref).
  - apply Forall_map. apply Forall_forall. intros o Ho.
    assert (Hin : In o objs) by (rewrite E; now right).
    rewrite !wire_data_numel; auto.
    + now apply (aligned_numel objs all_aligned).
    + now rewrite (aligned_length objs all_aligned o0 ref).
    + now rewrite (aligned_length objs all_aligned o ref).
Qed.

Lemma reduced_leaf_finish col own :
  reduced_leaf rop is_mean (length objs) col own
  = as_rebuilt (reduce_finish is_mean (length objs) (tdtype own)
                  (leaf_reduction rop col own)).
Proof. reflexivity. Qed.

Lemma reduced_leaf_data col own :
  tdata (reduced_leaf rop is_mean (length objs) col own)
  = map (reduce_finish_elem is_mean (length objs) (tdtype own))
        (tdata (leaf_reduction rop col own)).
Proof.
  rewrite reduced_leaf_finish. unfold as_rebuilt. cbn [tdata].
  now rewrite reduce_finish_data.
Qed.

Lemma reduce_piece_tensor j ls :
  piece_tensor [] (reduce_piece rop is_mean (map leaves objs) ls j)
  = reduced_leaf rop is_mean (length objs) (column (map leaves objs) j) (nth j ls no_tensor).
Proof.
  unfold piece_tensor, reduce_piece. cbn [piece_leaf piece_len piece_rows concat].
  rewrite app_nil_r, length_map.
  apply tensor_ext; cbn [tdtype tshape tdata]; try reflexivity.
  - rewrite reduced_leaf_finish. unfold as_rebuilt. cbn [tdtype].
    unfold reduce_finish. now rewrite tensor_type_dtype.
  - rewrite reduced_leaf_finish. unfold as_rebuilt, numel. cbn [tshape].
    now rewrite reduce_finish_shape.
Qed.

Lemma reduce_piece_ok ref j :
  In ref objs -> j < length (leaves ref) ->
  piece_ok 1 (reduce_piece rop is_mean (map leaves objs) (leaves ref) j).
Proof.
  intros Href Hj. unfold piece_ok, reduce_piece. cbn [piece_leaf piece_len piece_rows].
  destruct (leaf_at_ok objs all_leaf_ok ref j Href Hj) as (_ & Htr & _).
  split; [reflexivity|]. split.
  - constructor; [|constructor]. rewrite length_map, reduced_leaf_data, length_map.
    now apply leaf_reduction_length.
  - split; [exact Htr | apply numel_mod_trailing].
Qed.

Lemma pieces_of_tabulate d (g : nat -> piece) ls :
  (forall j, piece_leaf (g j) = nth j ls no_tensor) ->
  pieces_of d (map g (seq 0 (length ls))) = map g (positions d ls).
Proof.
  intros Hg. unfold pieces_of, positions. rewrite filter_map_comm. f_equal.
  apply filter_ext. intros j. now rewrite Hg.
Qed.

(** The buffers of all workers for dtype [d], reduced: leaf by leaf, the
    reduction of the leaves at the positions of that dtype. *)
Lemma reduced_flat_buffers ref o0 os d :
  In ref objs -> objs = o0 :: os ->
  reduce_buffers rop (wire_dtype d) (tdata (reduce_send d o0))
    (map tdata (map (reduce_send d) os))
  = concat (map (fun j => tdata (leaf_reduction rop (column (map leaves objs) j)
                                    (nth j (leaves ref) no_tensor)))
                (positions d (leaves ref))).
Proof.
  intros Href E.
  assert (H0 : In o0 objs) by (rewrite E; now left).
  assert (Hsend : forall o, In o objs ->
            tdata (reduce_send d o)
            = concat (map (fun j => wire_data (nth j (leaves o) no_tensor))
                          (positions d (leaves ref)))).
  { intros o Ho. unfold reduce_send. rewrite wire_flat_buffer.
    now rewrite (positions_ext d (leaves o) (leaves ref))
      by (apply (aligned_dtypes objs all_aligned); assumption). }
  rewrite (Hsend o0 H0), map_map.
  rewrite (map_ext_in _ (fun o => concat (map (fun j => wire_data (nth j (leaves o) no_tensor))
                                            (positions d (leaves ref))))).
  2:{ intros o Ho. apply Hsend. rewrite E. now right. }
  rewrite (reduce_buffers_concat rop (wire_dtype d)
             (fun j => wire_data (nth j (leaves o0) no_tensor))
             (fun o j => wire_data (nth j (leaves o) no_tensor))).
  - f_equal. apply map_ext_in. intros j Hj.
    apply in_positions in Hj as [_ Hd].
    rewrite (leaf_reduction_data o0 os j _ E). now rewrite Hd.
  - intros o j Ho Hj. apply in_positions in Hj as [Hj _].
    assert (Hin : In o objs) by (rewrite E; now right).
    rewrite !wire_data_numel; auto.
    + now apply (aligned_numel objs all_aligned).
    + now rewrite (aligned_length objs all_aligned o0 ref).
    + now rewrite (aligned_length objs all_aligned o ref).
Qed.

(** The rebuild of a worker the result of [reduce] is meant for. *)
Lemma reduce_rebuild r obj :
  nth_error objs r = Some obj ->
  dst = None \/ dst = Some r ->
  rebuild obj
    (map (fun k => (k, reduce_finish is_mean (length objs) k
                         (reply rop dst (map (fun w => reduce_send k (snd w)) (ranked objs))
                            r (reduce_send k obj))))
         (dtypes_of (leaves obj)))
  = Ok (fst (fill obj (per_leaf (reduced_leaf rop is_mean (length objs))
                         (map leaves objs) (leaves obj)))).
Proof.
  intros Hr Hdst.
  assert (Hin : In obj objs) by (now apply nth_error_In in Hr).
  destruct (in_nonempty _ _ Hin) as (o0 & os & E).
  set (ps := map (reduce_piece rop is_mean (map leaves objs) (leaves obj)) (seq 0 (length (leaves obj)))).
  assert (Hone : prod [] <> 0) by discriminate.
  rewrite Forall_forall in all_supported, all_distinct_keys.
  unfold rebuild.
  match goal with |- context [_recursive_write obj ?values None] =>
    destruct (@write_ok _ int64_roundtrip [] Hone obj (all_supported obj Hin)
                (all_distinct_keys obj Hin) ps [] values None)
      as (values' & sizes' & Ew & _)
  end.
  - unfold ps. rewrite map_map. cbn [reduce_piece piece_leaf]. apply map_nth_seq.
  - rewrite app_nil_r. unfold ps. apply Forall_map. apply Forall_forall.
    intros j Hj. apply in_seq in Hj. apply reduce_piece_ok; [exact Hin | lia].
  - rewrite app_nil_r. intros d Hne.
    assert (Hd : In d (dtypes_of (leaves obj))).
    { apply pieces_of_in_dtypes in Hne. unfold ps in Hne. rewrite map_map in Hne.
      cbn [reduce_piece piece_leaf] in Hne. now rewrite map_nth_seq in Hne. }
    rewrite (dget_tabulate _ d _ Hd). f_equal.
    unfold ps. rewrite pieces_of_tabulate by reflexivity.
    rewrite !map_map. cbn [reduce_piece piece_len piece_rows].
    rewrite (rowcat_single (fun j => tdata (reduced_leaf rop is_mean (length (map leaves objs))
                                              (column (map leaves objs) j)
                                              (nth j (leaves obj) no_tensor)))).
    cbn [concat app prod fold_right]. rewrite app_nil_r.
    rewrite (reply_reduced rop dst _ r _ (reduce_send d o0) (map (reduce_send d) os) Hdst).
    2:{ rewrite <- (map_map snd (reduce_send d)), map_snd_ranked. now rewrite E. }
    apply tensor_ext.
    + unfold reduce_finish. now rewrite tensor_type_dtype.
    + rewrite reduce_finish_shape. cbn [tshape]. unfold reduce_send.
      rewrite tensor_type_shape. apply flat_buffer_shape.
    + rewrite reduce_finish_data by (cbn [tdtype]; unfold reduce_send; apply tensor_type_dtype).
      cbn [tdata]. unfold reduce_send at 1. rewrite tensor_type_dtype.
      rewrite (reduced_flat_buffers obj o0 os d Hin E).
      rewrite concat_map, map_map. f_equal. apply map_ext_in. intros j Hj.
      apply in_positions in Hj as [_ Hdj]. rewrite length_map.
      rewrite reduced_leaf_data. now rewrite Hdj.
  - rewrite app_nil_r. cbn [Sized]. unfold ps. apply Forall_map. apply Forall_forall.
    intros j Hj. apply in_seq in Hj. cbn [reduce_piece piece_len piece_leaf].
    split; [reflexivity|]. apply (leaf_at_ok objs all_leaf_ok obj j Hin). lia.
  - rewrite Ew. cbn [rbind]. do 3 f_equal. unfold ps, per_leaf.
    rewrite map_map. apply map_ext. intros j. apply reduce_piece_tensor.
Qed.

(** Reduce on the workers of a job. *)
Lemma reduce_spmd op r obj :
  ReduceOp_getattr (upper (if String.eqb op "mean" then "sum"%string else op)) = Ok rop ->
  String.eqb op "mean" = is_mean ->
  nth_error objs r = Some obj ->
  dst = None \/ dst = Some r ->
  nth_error (spmd (fun ctx o => reduce ctx o op dst) true objs) r
  = Some (Returned (fst (fill obj (per_leaf (reduced_leaf rop is_mean (length objs))
                                     (map leaves objs) (leaves obj))))).
Proof.
  intros Hop Hmean Hr Hdst.
  assert (Hin : In obj objs) by (now apply nth_error_In in Hr).
  rewrite (reduce_job obj op Hin Hop Hmean).
  rewrite nth_error_map, (nth_error_ranked objs r obj Hr). cbn [option_map fst snd].
  now rewrite (reduce_rebuild r obj Hr Hdst).
Qed.
End Reduce.

(* ================================================================== *)
(** * Stack *)
(* ================================================================== *)

Lemma firstn_repeat_le {A} (x : A) (k n : nat) :
  k <= n -> firstn k (repeat x n) = repeat x k.
Proof.
  intros H. replace n with (k + (n - k)) by lia.
  rewrite repeat_app, firstn_app, repeat_length, Nat.sub_diag.
  rewrite firstn_all2 by (rewrite repeat_length; lia). cbn [firstn]. apply app_nil_r.
Qed.

Lemma skipn_repeat_le {A} (x : A) (k n : nat) :
  k <= n -> skipn k (repeat x n) = repeat x (n - k).
Proof.
  intros H. replace n with (k + (n - k)) at 1 by lia.
  rewrite repeat_app, skipn_app, repeat_length, Nat.sub_diag.
  rewrite skipn_all2 by (rewrite repeat_length; lia). reflexivity.
Qed.


Lemma rowcat_of_columns {W J B} (ws : list W) (f : W -> J -> list B) (js : list J) :
  rowcat (length ws) (map (fun j => map (fun w => f w j) ws) js)
  = map (fun w => concat (map (f w) js)) ws.
Proof.
  induction js as [|j js IH]; cbn [map rowcat concat].
  - induction ws as [|w ws IHw]; cbn [length repeat map]; [reflexivity | now rewrite IHw].
  - rewrite IH, zip_with_map, zip_with_diag. reflexivity.
Qed.


Lemma map_fst_combine_seq {A} (l : list A) s :
  map fst (List.combine (seq s (length l)) l) = seq s (length l).
Proof.
  revert s. induction l as [|x l IH]; intros s; [reflexivity|].
  cbn [length seq List.combine map fst]. now rewrite IH.
Qed.

Lemma combine_map_ranked {A B} (f : A -> B) (l : list A) :
  map (fun w => (fst w, f (snd w))) (ranked l)
  = List.combine (seq 0 (length (map f l))) (map f l).
Proof.
  unfold ranked. rewrite length_map. generalize 0.
  induction l as [|x l IH]; intros s; [reflexivity|].
  cbn [length seq List.combine map fst snd]. now rewrite IH.
Qed.

Section Masks.
Context {TL : TensorLib}.

Lemma masked_cons d r o (b : list scalar) blocks :
  masked d r ((o, b) :: blocks)
  = (if o =? r then b else repeat (zero d) (length b)) ++ masked d r blocks.
Proof. reflexivity. Qed.

Lemma masked_others d r (X : list (list scalar)) N :
  Forall (fun b => length b = N) X ->
  forall s, r < s ->
  masked d r (List.combine (seq s (length X)) X) = repeat (zero d) (length X * N).
Proof.
  induction 1 as [|b X Hb HX IH]; intros s Hr; [reflexivity|].
  cbn [length seq List.combine]. rewrite masked_cons.
  replace (s =? r) with false by (symmetry; apply Nat.eqb_neq; lia).
  rewrite IH by lia. rewrite Hb. cbn [Nat.mul]. now rewrite repeat_app.
Qed.

(** Blocks of one length: the masked buffer of rank [r] is its block
    between zeros. *)
Lemma masked_uniform d (X : list (list scalar)) N :
  Forall (fun b => length b = N) X ->
  forall s r x, s <= r -> nth_error X (r - s) = Some x ->
  masked d r (List.combine (seq s (length X)) X)
  = repeat (zero d) ((r - s) * N) ++ x
    ++ repeat (zero d) ((length X - (r - s) - 1) * N).
Proof.
  induction 1 as [|b X Hb HX IH]; intros s r x Hs Hx.
  - destruct (r - s); discriminate.
  - cbn [length seq List.combine]. rewrite masked_cons.
    destruct (Nat.eq_dec s r) as [->|Hne].
    + rewrite Nat.eqb_refl. rewrite Nat.sub_diag in *. cbn [nth_error] in Hx.
      injection Hx as ->.
      rewrite (masked_others d r X N HX (S r)) by lia.
      replace (S (length X) - 0 - 1) with (length X) by lia.
      reflexivity.
    + replace (s =? r) with false by (symmetry; apply Nat.eqb_neq; lia).
      assert (Ek : r - s = S (r - S s)) by lia. rewrite Ek in *.
      cbn [nth_error] in Hx.
      rewrite (IH (S s) r x) by (lia || assumption).
      replace (S (length X) - S (r - S s) - 1) with (length X - (r - S s) - 1) by lia.
      rewrite Hb. cbn [Nat.mul]. now rewrite repeat_app, <- app_assoc.
Qed.
End Masks.

Section Stack.
Context {TL : TensorLib}.
Hypothesis int64_roundtrip :
  forall z, (0 <= z < 2 ^ 63)%Z -> to_int (of_int z) = z.
Hypothesis add_zero_l : forall d x, reduce_elem SUM d (zero d) x = x.
Hypothesis add_zero_r : forall d x, reduce_elem SUM d x (zero d) = x.
Hypothesis bool_roundtrip : forall x, cast th_uint8 th_bool (cast th_bool th_uint8 x) = x.

Variable objs : list pyobj.
Hypothesis all_supported : Forall (fun o => supported o = true) objs.
Hypothesis all_distinct_keys : Forall (fun o => distinct_keys o = true) objs.
Hypothesis all_leaf_ok : Forall (fun o => Forall leaf_ok (leaves o)) objs.
Hypothesis all_aligned : aligned leaf_sig objs.

Variable dst : option nat.

Lemma stack_body_send r ws k ls (acc : ddict tensor) obj :
  ls = leaves obj -> r < ws ->
  stack_body (mkContext r ws true) dst (k, flat_buffer k ls) acc
  = AllReduce SUM dst (stack_send ws r k obj)
      (fun t => Ret (dset k (tensor_type t k) acc)).
Proof.
  intros -> Hr. unfold stack_body. cbn [fst snd get_world_size get_rank world_size rank].
  unfold set_index0, th_zeros. cbn [tshape tdata tdtype flat_buffer].
  replace (ws <=? r) with false by (symmetry; apply Nat.leb_gt; exact Hr).
  match goal with |- context [list_eq_dec Nat.eq_dec ?a ?b] =>
    destruct (list_eq_dec Nat.eq_dec a b) as [_|Hne]; [|congruence]
  end.
  reflexivity.
Qed.

(** One round of the loop of [stack], on all workers. *)
Lemma stack_round ref k (acc : nat * pyobj -> ddict tensor) :
  In ref objs ->
  run_job (map (fun w => stack_body (mkContext (fst w) (length objs) true) dst
                           (k, flat_buffer k (leaves (snd w))) (acc w)) (ranked objs))
  = map (fun w => Returned
           (dset k (tensor_type
                      (reply SUM dst
                         (map (fun w => stack_send (length objs) (fst w) k (snd w))
                              (ranked objs))
                         (fst w) (stack_send (length objs) (fst w) k (snd w))) k)
                 (acc w)))
        (ranked objs).
Proof.
  intros Href.
  rewrite (map_ext_in _
    (fun w => AllReduce SUM dst (stack_send (length objs) (fst w) k (snd w))
                (fun t => Ret (dset k (tensor_type t k) (acc w))))).
  2:{ intros w Hw. apply stack_body_send; [reflexivity|]. now apply in_ranked in Hw. }
  rewrite (run_job_all_reduce objs SUM dst
             (fun w => stack_send (length objs) (fst w) k (snd w)) _
             (wire_dtype k) (length objs :: tshape (flat_buffer k (leaves ref)))).
  - apply run_job_ret.
  - apply Forall_forall. intros w Hw. unfold stack_send. cbn [tdtype tshape].
    split; [reflexivity|]. f_equal.
    exact (worker_buffer_shape objs all_aligned ref w k Href Hw).
Qed.

Lemma stack_job ref :
  In ref objs ->
  spmd (fun ctx o => stack ctx o dst) true objs
  = map (fun w => settle (rebuild (snd w)
           (map (fun k => (k, tensor_type
                               (reply SUM dst
                                  (map (fun w => stack_send (length objs) (fst w) k (snd w))
                                       (ranked objs))
                                  (fst w) (stack_send (length objs) (fst w) k (snd w))) k))
                (dtypes_of (leaves ref)))))
        (ranked objs).
Proof.
  intros Href. rewrite spmd_ranked.
  rewrite <- (collective_then_rebuild objs all_supported all_aligned ref
                (fun ctx => stack_body ctx dst)
                (fun k w => tensor_type
                              (reply SUM dst
                                 (map (fun w => stack_send (length objs) (fst w) k (snd w))
                                      (ranked objs))
                                 (fst w) (stack_send (length objs) (fst w) k (snd w))) k)
                Href).
  - reflexivity.
  - intros k acc _. exact (stack_round ref k acc Href).
Qed.

Lemma send_length ref o d :
  In ref objs -> In o objs ->
  length (tdata (reduce_send d o))
  = list_sum (map (fun j => numel (nth j (leaves ref) no_tensor)) (positions d (leaves ref))).
Proof.
  intros Href Ho. unfold reduce_send. rewrite wire_flat_buffer, length_concat, map_map.
  rewrite (positions_ext d (leaves o) (leaves ref))
    by (apply (aligned_dtypes objs all_aligned); assumption).
  f_equal. apply map_ext_in. intros j Hj. apply in_positions in Hj as [Hj _].
  rewrite (wire_data_numel objs all_leaf_ok o j Ho)
    by now rewrite (aligned_length objs all_aligned o ref).
  now apply (aligned_numel objs all_aligned).
Qed.

(** What a worker sends in [stack] is its wire buffer between zeros. *)
Lemma stack_send_masked r obj d :
  nth_error objs r = Some obj ->
  tdata (stack_send (length objs) r d obj)
  = masked (wire_dtype d) r
      (map (fun w => (fst w, tdata (reduce_send d (snd w)))) (ranked objs)).
Proof.
  intros Hr.
  assert (Hin : In obj objs) by (now apply nth_error_In in Hr).
  assert (Hlt : r < length objs) by (apply nth_error_Some; congruence).
  set (N := list_sum (map (fun j => numel (nth j (leaves obj) no_tensor))
                          (positions d (leaves obj)))).
  rewrite (combine_map_ranked (fun o => tdata (reduce_send d o)) objs).
  rewrite (masked_uniform (wire_dtype d) (map (fun o => tdata (reduce_send d o)) objs) N)
    with (x := tdata (reduce_send d obj)).
  - unfold stack_send. cbv zeta. rewrite flat_buffer_shape. fold N.
    cbn [tdata prod fold_right]. rewrite !Nat.mul_1_r.
    rewrite firstn_repeat_le by nia. rewrite skipn_repeat_le by nia.
    rewrite length_map, Nat.sub_0_r. unfold reduce_send.
    f_equal. f_equal. f_equal. nia.
  - apply Forall_map. apply Forall_forall. intros o Ho. now apply send_length.
  - lia.
  - rewrite Nat.sub_0_r, nth_error_map, Hr. reflexivity.
Qed.

(** The sum of what the workers send is their wire buffers, in order of
    rank. *)
Lemma stack_reply_data o0 os d :
  objs = o0 :: os ->
  reduce_buffers SUM (wire_dtype d) (tdata (stack_send (length objs) 0 d o0))
    (map tdata (map (fun w => stack_send (length objs) (fst w) d (snd w))
                    (List.combine (seq 1 (length os)) os)))
  = concat (map (fun o => tdata (reduce_send d o)) objs).
Proof.
  intros E.
  set (blocks := map (fun w => (fst w, tdata (reduce_send d (snd w)))) (ranked objs)).
  assert (H0 : nth_error objs 0 = Some o0) by now rewrite E.
  rewrite (stack_send_masked 0 o0 d H0). fold blocks.
  rewrite map_map.
  rewrite (map_ext_in _ (fun w => masked (wire_dtype d) (fst w) blocks)).
  2:{ intros w Hw. apply stack_send_masked.
      assert (Hr : In w (ranked objs)).
      { unfold ranked. rewrite E. cbn [length seq List.combine]. now right. }
      now apply in_ranked in Hr. }
  rewrite <- (map_map fst (fun r => masked (wire_dtype d) r blocks)).
  rewrite map_fst_combine_seq.
  rewrite sum_masked; auto.
  - unfold blocks. rewrite map_map. cbn [snd].
    rewrite <- (map_map snd (fun o => tdata (reduce_send d o))).
    now rewrite map_snd_ranked.
  - unfold blocks. apply Forall_map. apply Forall_forall. intros w Hw.
    apply in_ranked in Hw as [_ Hw]. cbn [fst]. rewrite E in Hw. exact Hw.
Qed.

(** Converting the summed wire buffers back restores the buffers of the
    workers. *)
Lemma unwire_data d sh :
  tdata (tensor_type
           (mkTensor (wire_dtype d) sh (concat (map (fun o => tdata (reduce_send d o)) objs)))
           d)
  = concat (map (fun o => tdata (flat_buffer d (leaves o))) objs).
Proof.
  rewrite tensor_type_data. cbn [tdtype tdata]. unfold reduce_send, wire_dtype.
  destruct (dtype_eqb d th_bool) eqn:Eb.
  - apply dtype_eqb_eq in Eb. subst d. cbn [dtype_eqb].
    replace (dtype_eqb th_uint8 th_bool) with false by reflexivity.
    rewrite concat_map, map_map. f_equal. apply map_ext. intros o.
    rewrite tensor_type_data. cbn [tdtype flat_buffer].
    replace (dtype_eqb th_bool th_uint8) with false by reflexivity.
    rewrite map_map. rewrite <- (map_id (tdata _)) at 2.
    apply map_ext. intros x. apply bool_roundtrip.
  - rewrite dtype_eqb_refl. f_equal. apply map_ext. intros o.
    rewrite tensor_type_data. cbn [tdtype flat_buffer]. now rewrite dtype_eqb_refl.
Qed.

Lemma stack_piece_ok ref j :
  In ref objs -> j < length (leaves ref) ->
  piece_ok (prod [length objs]) (stack_piece (map leaves objs) (leaves ref) j).
Proof.
  intros Href Hj. unfold piece_ok, stack_piece. cbn [piece_leaf piece_len piece_rows].
  destruct (leaf_at_ok objs all_leaf_ok ref j Href Hj) as (_ & Htr & _).
  split; [|split; [|split; [exact Htr | apply numel_mod_trailing]]].
  - rewrite length_map. unfold column. rewrite !length_map.
    cbn [prod fold_right]. lia.
  - rewrite column_objs, map_map. apply Forall_map. apply Forall_forall. intros o Ho.
    assert (Hjo : j < length (leaves o))
      by now rewrite (aligned_length objs all_aligned o ref).
    destruct (leaf_at_ok objs all_leaf_ok o j Ho Hjo) as (Hwf & _).
    rewrite Hwf. now apply (aligned_numel objs all_aligned).
Qed.

Lemma stack_piece_tensor j ls :
  piece_tensor [length objs] (stack_piece (map leaves objs) ls j)
  = stacked_leaf (column (map leaves objs) j) (nth j ls no_tensor).
Proof.
  unfold piece_tensor, stack_piece, stacked_leaf. cbn [piece_leaf piece_len piece_rows].
  unfold column. now rewrite !length_map.
Qed.

(** The rebuild of a worker the result of [stack] is meant for. *)
Lemma stack_rebuild r obj :
  nth_error objs r = Some obj ->
  dst = None \/ dst = Some r ->
  rebuild obj
    (map (fun k => (k, tensor_type
                         (reply SUM dst
                            (map (fun w => stack_send (length objs) (fst w) k (snd w))
                                 (ranked objs))
                            r (stack_send (length objs) r k obj)) k))
         (dtypes_of (leaves obj)))
  = Ok (fst (fill obj (per_leaf stacked_leaf (map leaves objs) (leaves obj)))).
Proof.
  intros Hr Hdst.
  assert (Hin : In obj objs) by (now apply nth_error_In in Hr).
  destruct (in_nonempty _ _ Hin) as (o0 & os & E).
  set (ps := map (stack_piece (map leaves objs) (leaves obj)) (seq 0 (length (leaves obj)))).
  assert (Hone : prod [length objs] <> 0).
  { rewrite E. cbn [length prod fold_right]. lia. }
  pose proof all_supported as Hsup. pose proof all_distinct_keys as Hdk.
  rewrite Forall_forall in Hsup, Hdk.
  unfold rebuild.
  match goal with |- context [_recursive_write obj ?values None] =>
    destruct (@write_ok _ int64_roundtrip [length objs] Hone obj (Hsup obj Hin)
                (Hdk obj Hin) ps [] values None)
      as (values' & sizes' & Ew & _)
  end.
  - unfold ps. rewrite map_map. cbn [stack_piece piece_leaf]. apply map_nth_seq.
  - rewrite app_nil_r. unfold ps. apply Forall_map. apply Forall_forall.
    intros j Hj. apply in_seq in Hj. apply stack_piece_ok; [exact Hin | lia].
  - rewrite app_nil_r. intros d Hne.
    assert (Hd : In d (dtypes_of (leaves obj))).
    { apply pieces_of_in_dtypes in Hne. unfold ps in Hne. rewrite map_map in Hne.
      cbn [stack_piece piece_leaf] in Hne. now rewrite map_nth_seq in Hne. }
    rewrite (dget_tabulate _ d _ Hd). f_equal.
    unfold ps. rewrite pieces_of_tabulate by reflexivity.
    rewrite !map_map. cbn [stack_piece piece_len piece_rows].
    rewrite (reply_reduced SUM dst _ r _ (stack_send (length objs) 0 d o0)
               (map (fun w => stack_send (length objs) (fst w) d (snd w))
                    (List.combine (seq 1 (length os)) os)) Hdst).
    2:{ unfold ranked. rewrite E. reflexivity. }
    change (tdtype (stack_send (length objs) r d obj)) with (wire_dtype d).
    rewrite (stack_reply_data o0 os d E).
    apply tensor_ext.
    + now rewrite tensor_type_dtype.
    + rewrite tensor_type_shape. cbn [tshape stack_send]. cbn [app]. f_equal.
      apply flat_buffer_shape.
    + rewrite unwire_data. cbn [tdata].
      cbn [prod fold_right]. rewrite Nat.mul_1_r.
      rewrite (map_ext _ (fun j => map (fun o => tdata (nth j (leaves o) no_tensor)) objs)).
      2:{ intros j. now rewrite column_objs, map_map. }
      rewrite (rowcat_of_columns objs (fun o j => tdata (nth j (leaves o) no_tensor))).
      f_equal. apply map_ext_in. intros o Ho. cbn [flat_buffer tdata].
      rewrite filter_positions, map_map.
      now rewrite (positions_ext d (leaves o) (leaves obj))
        by (apply (aligned_dtypes objs all_aligned); assumption).
  - rewrite app_nil_r. cbn [Sized]. unfold ps. apply Forall_map. apply Forall_forall.
    intros j Hj. apply in_seq in Hj. cbn [stack_piece piece_len piece_leaf].
    split; [reflexivity|]. apply (leaf_at_ok objs all_leaf_ok obj j Hin). lia.
  - rewrite Ew. cbn [rbind]. do 3 f_equal. unfold ps, per_leaf.
    rewrite map_map. apply map_ext. intros j. apply stack_piece_tensor.
Qed.

(** Stack on the workers of a job. *)
Lemma stack_spmd r obj :
  nth_error objs r = Some obj ->
  dst = None \/ dst = Some r ->
  nth_error (spmd (fun ctx o => stack ctx o dst) true objs) r
  = Some (Returned (fst (fill obj (per_leaf stacked_leaf (map leaves objs) (leaves obj))))).
Proof.
  intros Hr Hdst.
  assert (Hin : In obj objs) by (now apply nth_error_In in Hr).
  rewrite (stack_job obj Hin).
  rewrite nth_error_map, (nth_error_ranked objs r obj Hr). cbn [option_map fst snd].
  now rewrite (stack_rebuild r obj Hr Hdst).
Qed.
End Stack.

(* ================================================================== *)
(** * Reduce and Stack on the workers of a job *)
(* ================================================================== *)

Section Workers.
Context {TL : TensorLib}.
Hypothesis int64_roundtrip :
  forall z, (0 <= z < 2 ^ 63)%Z -> to_int (of_int z) = z.
Hypothesis add_zero_l : forall d x, reduce_elem SUM d (zero d) x = x.
Hypothesis add_zero_r : forall d x, reduce_elem SUM d x (zero d) = x.
Hypothesis bool_roundtrip : forall x, cast th_uint8 th_bool (cast th_bool th_uint8 x) = x.

Variable objs : list pyobj.
Hypothesis all_supported : Forall (fun o => supported o = true) objs.
Hypothesis all_distinct_keys : Forall (fun o => distinct_keys o = true) objs.
Hypothesis all_leaf_ok : Forall (fun o => Forall leaf_ok (leaves o)) objs.
Hypothesis all_aligned : aligned leaf_sig objs.



(** C4, as amended.  Let the workers hold containers of tensors, dicts
    with distinct keys, lists and tuples whose leaves agree, position by
    position, in dtype and element count; let no leaf have an axis of
    length zero after the first, and let every leaf hold fewer than 2^63
    elements.  Then Reduce with op "mean" returns, on every worker the
    result is meant for, the worker's container (its tuples as lists, a
    leaf without axes as a vector of one element) with every leaf replaced
    by the SUM reduction of the leaves of all workers at that position,
    divided by the world size and then converted back to the dtype of the
    leaf, so that the quotient of an integer leaf loses its fraction; with
    op "sum" it returns the same without the division. *)
Theorem reduce_mean_is_sum_over_world_size dst r obj :
  nth_error objs r = Some obj ->
  dst = None \/ dst = Some r ->
  nth_error (spmd (fun ctx o => reduce ctx o "mean" dst) true objs) r
  = Some (Returned (fst (fill obj
       (per_leaf (fun col own =>
                    as_rebuilt (tensor_type
                                  (tensor_true_divide (leaf_reduction SUM col own)
                                     (Z.of_nat (length objs)))
                                  (tdtype own)))
                 (map leaves objs) (leaves obj)))))
  /\ nth_error (spmd (fun ctx o => reduce ctx o "sum" dst) true objs) r
     = Some (Returned (fst (fill obj
          (per_leaf (fun col own =>
                       as_rebuilt (tensor_type (leaf_reduction SUM col own) (tdtype own)))
                    (map leaves objs) (leaves obj))))).
Proof.
  intros Hr Hdst. split.
  - exact (reduce_spmd int64_roundtrip objs all_supported all_distinct_keys all_leaf_ok
             all_aligned SUM true dst "mean" r obj eq_refl eq_refl Hr Hdst).
  - exact (reduce_spmd int64_roundtrip objs all_supported all_distinct_keys all_leaf_ok
             all_aligned SUM false dst "sum" r obj eq_refl eq_refl Hr Hdst).
Qed.


(** C7, as amended.  Reduce and Stack make no check of shapes across the
    workers: when the leaves of the workers agree, position by position,
    in dtype and element count, and no leaf has an axis of length zero
    after the first, then, however else the shapes differ, both return
    without error on every worker the result is meant for.  Each worker
    gets its result in the shapes of its own leaves, and the elements are
    combined by flat index.  The containers are of tensors, dicts with
    distinct keys, lists and tuples, every leaf holds fewer than 2^63
    elements, and the operator of Reduce is one the backend knows; of the
    tensor library the statement takes that adding zero changes no
    element, that a size survives its int64, and a bool the byte it
    travels as. *)
Theorem reduce_and_stack_check_no_shapes op rop dst r obj :
  ReduceOp_getattr (upper (if String.eqb op "mean" then "sum"%string else op)) = Ok rop ->
  nth_error objs r = Some obj ->
  dst = None \/ dst = Some r ->
  nth_error (spmd (fun ctx o => reduce ctx o op dst) true objs) r
  = Some (Returned (fst (fill obj
       (per_leaf (reduced_leaf rop (String.eqb op "mean") (length objs))
                 (map leaves objs) (leaves obj)))))
  /\ nth_error (spmd (fun ctx o => stack ctx o dst) true objs) r
     = Some (Returned (fst (fill obj (per_leaf stacked_leaf (map leaves objs) (leaves obj)))))
  /\ (forall col own,
        tshape (reduced_leaf rop (String.eqb op "mean") (length objs) col own)
        = rebuilt_shape [] (numel own) (tshape own)
        /\ tshape (stacked_leaf col own)
           = rebuilt_shape [length col] (numel own) (tshape own)
        /\ tdata (stacked_leaf col own) = concat (map tdata col)
        /\ tdata (leaf_reduction rop col own)
           = match map wire_data col with
             | [] => []
             | first :: others => reduce_buffers rop (wire_dtype (tdtype own)) first others
             end).
Proof.
  intros Hop Hr Hdst. split; [|split].
  - exact (reduce_spmd int64_roundtrip objs all_supported all_distinct_keys all_leaf_ok
             all_aligned rop (String.eqb op "mean") dst op r obj Hop eq_refl Hr Hdst).
  - exact (stack_spmd int64_roundtrip add_zero_l add_zero_r bool_roundtrip objs
             all_supported all_distinct_keys all_leaf_ok all_aligned dst r obj Hr Hdst).
  - intros col own. split; [|split; [|split]]; try reflexivity.
    unfold reduced_leaf, as_rebuilt, numel. cbn [tshape].
    rewrite tensor_type_shape. now destruct (String.eqb op "mean").
Qed.
End Workers.

(* ================================================================== *)
(** * Cat: the write loop *)
(* ================================================================== *)

Lemma wrap64_small z : (0 <= z < 2 ^ 63)%Z -> wrap64 z = z.
Proof. intros H. unfold wrap64. rewrite Z.mod_small; lia. Qed.

Lemma list_sum_firstn_skipn (l : list nat) k :
  list_sum l = list_sum (firstn k l) + list_sum (skipn k l).
Proof. rewrite <- (firstn_skipn k l) at 1. apply list_sum_app. Qed.

Lemma list_sum_skipn_S (l : list nat) k :
  k < length l -> list_sum (skipn k l) = nth k l 0 + list_sum (skipn (S k) l).
Proof.
  revert k. induction l as [|x l IH]; intros k Hk; [cbn in Hk; lia|].
  destruct k as [|k]; [reflexivity|]. cbn [skipn nth]. apply IH. cbn in Hk. lia.
Qed.

Lemma size_window {A} W r (lens rest done_lens : list A) :
  length lens = W -> r <= W ->
  firstn W (skipn (length done_lens + r) (done_lens ++ lens ++ rest))
  = skipn r lens ++ firstn r rest.
Proof.
  intros HW Hr.
  rewrite skipn_app. rewrite skipn_all2 by lia.
  replace (length done_lens + r - length done_lens) with r by lia. cbn [app].
  rewrite skipn_app. replace (r - length lens) with 0 by lia. cbn [skipn].
  rewrite firstn_app, length_skipn, HW.
  rewrite firstn_all2 by (rewrite length_skipn; lia).
  now replace (W - (W - r)) with r by lia.
Qed.

Section Sizes.
Context {TL : TensorLib}.
Hypothesis int64_roundtrip :
  forall z, (0 <= z < 2 ^ 63)%Z -> to_int (of_int z) = z.

Lemma sum_to_int_enc (l : list nat) :
  (Z.of_nat (list_sum l) < 2 ^ 63)%Z ->
  fold_right (fun x acc => (to_int x + acc)%Z) 0%Z (map enc l) = Z.of_nat (list_sum l).
Proof.
  induction l as [|n l IH]; intros H; [reflexivity|].
  change (list_sum (n :: l)) with (n + list_sum l) in *.
  cbn [map fold_right]. rewrite IH by lia. unfold enc. rewrite int64_roundtrip by lia. lia.
Qed.

Lemma int_sum_enc (l : list nat) :
  (Z.of_nat (list_sum l) < 2 ^ 63)%Z ->
  int_sum (map enc l) = Z.of_nat (list_sum l).
Proof.
  intros H. unfold int_sum. rewrite sum_to_int_enc by exact H.
  apply wrap64_small. lia.
Qed.

Lemma masked_app d r (a b : list (nat * list scalar)) :
  masked d r (a ++ b) = masked d r a ++ masked d r b.
Proof. unfold masked. now rewrite map_app, concat_app. Qed.

Lemma masked_length d r (blocks : list (nat * list scalar)) :
  length (masked d r blocks) = list_sum (map (fun ob => length (snd ob)) blocks).
Proof.
  induction blocks as [|[o b] blocks IH]; [reflexivity|].
  rewrite masked_cons, length_app, IH. cbn [map snd].
  change (list_sum (?x :: ?l)) with (x + list_sum l).
  destruct (o =? r); [reflexivity | now rewrite repeat_length].
Qed.

Lemma masked_beyond d r (X : list (list scalar)) :
  forall s, r < s ->
  masked d r (List.combine (seq s (length X)) X)
  = repeat (zero d) (list_sum (map (@length scalar) X)).
Proof.
  induction X as [|b X IH]; intros s Hr; [reflexivity|].
  cbn [length seq List.combine]. rewrite masked_cons.
  replace (s =? r) with false by (symmetry; apply Nat.eqb_neq; lia).
  rewrite IH by lia. cbn [map].
  change (list_sum (?x :: ?l)) with (x + list_sum l). now rewrite repeat_app.
Qed.

(** The masked blocks of one leaf position: zeros, the block of rank
    [r], zeros. *)
Lemma masked_split d (X : list (list scalar)) :
  forall s r, s <= r -> r - s < length X ->
  masked d r (List.combine (seq s (length X)) X)
  = repeat (zero d) (list_sum (map (@length scalar) (firstn (r - s) X)))
    ++ nth (r - s) X []
    ++ repeat (zero d) (list_sum (map (@length scalar) (skipn (S (r - s)) X))).
Proof.
  induction X as [|b X IH]; intros s r Hs Hr; [cbn in Hr; lia|].
  cbn [length seq List.combine]. rewrite masked_cons.
  destruct (Nat.eq_dec s r) as [->|Hne].
  - rewrite Nat.eqb_refl, Nat.sub_diag. cbn [firstn map nth skipn].
    change (list_sum []) with 0. cbn [repeat app].
    now rewrite masked_beyond by lia.
  - replace (s =? r) with false by (symmetry; apply Nat.eqb_neq; lia).
    assert (Ek : r - s = S (r - S s)) by lia. rewrite Ek.
    cbn [firstn map nth skipn].
    change (list_sum (?x :: ?l)) with (x + list_sum l).
    rewrite repeat_app, <- app_assoc.
    f_equal. apply IH; [lia|]. cbn [length] in Hr. lia.
Qed.

Lemma mask_row_split d r (row : list (list scalar)) :
  r < length row ->
  mask_row d r row
  = repeat (zero d) (list_sum (firstn r (map (@length scalar) row)))
    ++ nth r row []
    ++ repeat (zero d) (list_sum (skipn (S r) (map (@length scalar) row))).
Proof.
  intros Hr. unfold mask_row. rewrite (masked_split d row 0 r) by lia.
  now rewrite Nat.sub_0_r, firstn_map, skipn_map.
Qed.

Lemma mask_row_length d r (row : list (list scalar)) :
  length (mask_row d r row) = list_sum (map (@length scalar) row).
Proof.
  unfold mask_row. rewrite masked_length.
  generalize 0. induction row as [|b row IH]; intros s; [reflexivity|].
  cbn [length seq List.combine map snd].
  change (list_sum (?x :: ?l)) with (x + list_sum l). now rewrite IH.
Qed.

(** Writing a leaf into the zeros of the buffer. *)
Lemma slice_assign_zeros d T (done : list scalar) a m rest (v : tensor) src :
  tdata (tensor_type v d) = src -> length src = m ->
  T = length done + (a + m + rest) ->
  slice_assign (mkTensor d [T] (done ++ repeat (zero d) (a + m + rest)))
    (Z.of_nat (length done + a)) (Z.of_nat (length done + a + m)) v
  = Ok (mkTensor d [T] (done ++ repeat (zero d) a ++ src ++ repeat (zero d) rest)).
Proof.
  intros Hsrc Hm HT. unfold slice_assign. cbn [tdata tdtype tshape].
  rewrite Hsrc, length_app, repeat_length, <- HT.
  unfold slice_index.
  replace (Z.of_nat (length done + a) <? 0)%Z with false by (symmetry; apply Z.ltb_ge; lia).
  replace (Z.of_nat (length done + a + m) <? 0)%Z with false
    by (symmetry; apply Z.ltb_ge; lia).
  rewrite !Nat2Z.id.
  replace (Nat.min (length done + a) T) with (length done + a) by lia.
  replace (Nat.min (length done + a + m) T) with (length done + a + m) by lia.
  replace (length done + a + m - (length done + a)) with m by lia.
  rewrite Hm, Nat.eqb_refl. do 2 f_equal.
  rewrite firstn_app, skipn_app.
  rewrite firstn_all2, skipn_all2 by lia.
  replace (length done + a - length done) with a by lia.
  replace (length done + a + m - length done) with (a + m) by lia.
  rewrite firstn_repeat_le, skipn_repeat_le by lia.
  replace (a + m + rest - (a + m)) with rest by lia.
  cbn [app]. now rewrite <- app_assoc.
Qed.

(** The write loop of [cat]: into a buffer of zeros that holds the masked
    blocks of the leaf positions already passed, it writes the worker's
    remaining leaves, each at the start of the worker's block, and so
    leaves the masked blocks of all positions. *)
Lemma cat_fill_masked W r d :
  r < W ->
  forall (rows : list (list (list scalar))) (value : list tensor)
         (done_lens : list nat) (done : list scalar) T,
    Forall (fun row => length row = W) rows ->
    Forall2 (fun v row => tdata (tensor_type v d) = nth r row []
                          /\ numel v = length (nth r row [])) value rows ->
    T = length done + list_sum (map (@length scalar) (concat rows)) ->
    (Z.of_nat T < 2 ^ 63)%Z ->
    cat_fill W (map enc (done_lens ++ map (@length scalar) (concat rows))) value
      (mkTensor d [T]
         (done ++ repeat (zero d) (list_sum (map (@length scalar) (concat rows)))))
      (Z.of_nat (length done
                 + list_sum (firstn r (map (@length scalar) (concat rows)))))
      (length done_lens + r)
    = Ok (mkTensor d [T] (done ++ concat (map (mask_row d r) rows))).
Proof.
  intros Hr. induction rows as [|row rows IH]; intros value done_lens done T Hlen Hv HT Hb.
  - inversion Hv; subst. reflexivity.
  - inversion Hv as [|v row' vs rows' [Hdata Hnum] Hvs]; subst value row' rows'.
    apply Forall_cons_iff in Hlen as [HW Hlen'].
    set (lens := map (@length scalar) row).
    set (rest := map (@length scalar) (concat rows)).
    assert (Elens : map (@length scalar) (concat (row :: rows)) = lens ++ rest).
    { cbn [concat]. apply map_app. }
    assert (Hll : length lens = W) by (unfold lens; now rewrite length_map).
    set (a := list_sum (firstn r lens)).
    set (m := length (nth r row [])).
    set (tail := list_sum (skipn (S r) lens)).
    assert (Hnth : nth r lens 0 = m).
    { unfold lens, m. now rewrite <- (map_nth (@length scalar) row [] r). }
    assert (Hsum : list_sum lens = a + m + tail).
    { rewrite (list_sum_firstn_skipn lens r), (list_sum_skipn_S lens r) by lia.
      fold a tail. lia. }
    assert (Hfirst : firstn r (lens ++ rest) = firstn r lens).
    { rewrite firstn_app. replace (r - length lens) with 0 by lia.
      cbn [firstn]. apply app_nil_r. }
    rewrite Elens in *. rewrite list_sum_app in HT. rewrite Hfirst. fold a.
    rewrite list_sum_app, Hsum.
    cbn [cat_fill]. rewrite Hnum. fold m.
    rewrite <- Nat2Z.inj_add, wrap64_small by lia.
    cbn [tshape hd].
    replace (Z.of_nat (length done + a + m) <=? Z.of_nat T)%Z with true
      by (symmetry; apply Z.leb_le; lia).
    replace (a + m + tail + list_sum rest) with (a + m + (tail + list_sum rest)) by lia.
    rewrite (slice_assign_zeros d T done a m (tail + list_sum rest) v (nth r row []) Hdata
               eq_refl) by lia.
    cbn [rbind].
    rewrite skipn_map, firstn_map.
    rewrite (size_window W r lens rest done_lens Hll) by lia.
    assert (Hwin : list_sum (skipn r lens ++ firstn r rest)
                   = m + tail + list_sum (firstn r rest)).
    { rewrite list_sum_app, (list_sum_skipn_S lens r) by lia. fold tail. lia. }
    assert (Hrest : list_sum (firstn r rest) <= list_sum rest).
    { rewrite (list_sum_firstn_skipn rest r). lia. }
    rewrite int_sum_enc by (rewrite Hwin; lia).
    rewrite Hwin, <- Nat2Z.inj_add, wrap64_small by lia.
    assert (Hmask : mask_row d r row = repeat (zero d) a ++ nth r row [] ++ repeat (zero d) tail).
    { rewrite mask_row_split by lia. reflexivity. }
    specialize (IH vs (done_lens ++ lens) (done ++ mask_row d r row) T Hlen' Hvs).
    rewrite !length_app, mask_row_length in IH. fold lens rest in IH.
    rewrite <- app_assoc in IH.
    replace (length done_lens + r + W) with (length done_lens + length lens + r)
      by lia.
    replace (length done + a + (m + tail + list_sum (firstn r rest)))
      with (length done + list_sum lens + list_sum (firstn r rest)) by lia.
    replace (done ++ repeat (zero d) a ++ nth r row [] ++ repeat (zero d) (tail + list_sum rest))
      with ((done ++ mask_row d r row) ++ repeat (zero d) (list_sum rest)).
    2:{ rewrite Hmask, repeat_app, <- !app_assoc. reflexivity. }
    rewrite IH by lia.
    cbn [map concat]. now rewrite <- app_assoc.
Qed.
End Sizes.

(* ================================================================== *)
(** * Cat: the size table *)
(* ================================================================== *)

Lemma map_seq_nth {A B} (g : A -> B) (G : nat -> B) (l : list A) (d0 : A) :
  (forall i, i < length l -> G i = g (nth i l d0)) ->
  map G (seq 0 (length l)) = map g l.
Proof.
  intros H. rewrite <- (map_nth_seq l d0) at 2. rewrite map_map.
  apply map_ext_in. intros i Hi. apply in_seq in Hi. apply H. lia.
Qed.

Lemma nth_map_in {A B} (f : A -> B) (l : list A) (i : nat) (d : B) (d0 : A) :
  i < length l -> nth i (map f l) d = f (nth i l d0).
Proof.
  intros Hi. rewrite (nth_indep (map f l) d (f d0)) by now rewrite length_map.
  apply map_nth.
Qed.

Lemma filter_length_le {A} (p : A -> bool) (l : list A) : length (filter p l) <= length l.
Proof.
  induction l as [|x l IH]; [reflexivity|]. cbn [filter length].
  destruct (p x); cbn [length]; lia.
Qed.

Section SizeTable.
Context {TL : TensorLib}.

Lemma fill_tabulated {K} (ks : list K) (key : K -> pykey) (old new : K -> tensor) rest :
  fill (PyDict (map (fun k => (key k, PyTensor (old k))) ks)) (map new ks ++ rest)
  = (PyDict (map (fun k => (key k, PyTensor (new k))) ks), rest).
Proof.
  rewrite fill_dict_eq.
  assert (H : fill_items (map (fun k => (key k, PyTensor (old k))) ks) (map new ks ++ rest)
              = (map (fun k => (key k, PyTensor (new k))) ks, rest)).
  { induction ks as [|k ks IH]; [reflexivity|].
    cbn [map app]. rewrite fill_items_cons. cbn [fill]. now rewrite IH. }
  now rewrite H.
Qed.

Lemma sizes_obj_eq ls :
  sizes_obj ls
  = PyDict (map (fun d => (KDtype d,
                           PyTensor (mkTensor th_int64 [length (filter (has_dtype d) ls)]
                                       (map (fun t => enc (numel t))
                                            (filter (has_dtype d) ls)))))
                (dtypes_of ls)).
Proof. unfold sizes_obj, py_of_ddict, size_table. now rewrite map_map. Qed.

Lemma sizes_obj_leaves ls :
  leaves (sizes_obj ls)
  = map (fun d => mkTensor th_int64 [length (filter (has_dtype d) ls)]
                    (map (fun t => enc (numel t)) (filter (has_dtype d) ls)))
        (dtypes_of ls).
Proof.
  rewrite sizes_obj_eq, leaves_dict, map_map. cbn [snd].
  induction (dtypes_of ls) as [|d ks IH]; [reflexivity|].
  cbn [map flat_map leaves app]. now rewrite IH.
Qed.

Lemma sizes_obj_supported ls : supported (sizes_obj ls) = true.
Proof.
  rewrite sizes_obj_eq, supported_dict, map_map. cbn [snd].
  apply forallb_forall. intros x Hx. apply in_map_iff in Hx as (d & <- & _). reflexivity.
Qed.

Lemma sizes_obj_distinct_keys ls : distinct_keys (sizes_obj ls) = true.
Proof.
  rewrite sizes_obj_eq, distinct_keys_dict, !map_map. cbn [fst snd].
  apply andb_true_intro. split.
  - apply all_distinct_NoDup.
    pose proof (NoDup_dtypes_of ls) as H.
    induction H as [|d ks Hd _ IH]; cbn [map]; constructor; [|exact IH].
    intros Hin. apply in_map_iff in Hin as (d' & E & Hin). now injection E as ->.
  - apply forallb_forall. intros x Hx. apply in_map_iff in Hx as (d & <- & _). reflexivity.
Qed.

Lemma filter_count d (ls : list tensor) :
  length (filter (has_dtype d) ls) = length (positions d ls).
Proof. now rewrite filter_positions, length_map. Qed.
End SizeTable.

Lemma ranked_map {A B} (g : A -> B) (l : list A) :
  ranked (map g l) = map (fun w => (fst w, g (snd w))) (ranked l).
Proof. symmetry. apply combine_map_ranked. Qed.

(* ================================================================== *)
(** * Cat on the workers of a job *)
(* ================================================================== *)

Lemma Forall2_map_same {A B C} (R : B -> C -> Prop) (f : A -> B) (g : A -> C) (l : list A) :
  (forall x, In x l -> R (f x) (g x)) -> Forall2 R (map f l) (map g l).
Proof.
  induction l as [|x l IH]; intros H; cbn [map]; constructor.
  - apply H. now left.
  - apply IH. intros y Hy. apply H. now right.
Qed.

Lemma concat_flat {A B C} (f : B -> list C) (g : A -> list B) (l : list A) :
  concat (map f (concat (map g l))) = concat (map (fun a => concat (map f (g a))) l).
Proof.
  induction l as [|a l IH]; [reflexivity|].
  cbn [map concat]. now rewrite map_app, concat_app, IH.
Qed.

Lemma skipn_nth_cons {A} (l : list A) i d :
  i < length l -> skipn i l = nth i l d :: skipn (S i) l.
Proof.
  revert i. induction l as [|x l IH]; intros i Hi; [cbn in Hi; lia|].
  destruct i as [|i]; [reflexivity|]. cbn [skipn nth]. apply IH. cbn in Hi. lia.
Qed.

Lemma list_sum_concat (l : list (list nat)) :
  list_sum (concat l) = list_sum (map list_sum l).
Proof.
  induction l as [|x l IH]; [reflexivity|].
  cbn [concat map]. change (list_sum (?a :: ?b)) with (a + list_sum b).
  now rewrite list_sum_app, IH.
Qed.

Section Transpose.
Context {TL : TensorLib}.

Lemma py_getitem_tabulate (f : dtype -> pyobj) k ks :
  In k ks -> py_getitem (PyDict (map (fun d => (KDtype d, f d)) ks)) (KDtype k) = Ok (f k).
Proof.
  intros H. unfold py_getitem, dict_getitem.
  assert (E : dict_get pykey_eqb (KDtype k) (map (fun d => (KDtype d, f d)) ks) = Some (f k)).
  { induction ks as [|d ks IH]; cbn [In map dict_get] in *; [contradiction|].
    change (pykey_eqb (KDtype k) (KDtype d)) with (dtype_eqb k d).
    destruct (dtype_eqb k d) eqn:E.
    - apply dtype_eqb_eq in E. now subst.
    - destruct H as [->|H]; [now rewrite dtype_eqb_refl in E | now apply IH]. }
  now rewrite E.
Qed.

Lemma chunks_tabulate {A} (F : A -> nat -> scalar) (ws : list A) (P : list nat) :
  chunks (length ws) (length P) (concat (map (fun o => map (F o) P) ws))
  = map (fun o => map (F o) P) ws.
Proof.
  rewrite <- (length_map (fun o => map (F o) P) ws) at 1.
  apply chunks_concat. apply Forall_map. apply Forall_forall. intros o _.
  apply length_map.
Qed.

(** The transpose of a matrix given row by row is the matrix given column
    by column. *)
Lemma transpose_tabulate {A} (F : A -> nat -> scalar) (ws : list A) (P : list nat) dt :
  transpose (mkTensor dt [length ws; length P] (concat (map (fun o => map (F o) P) ws)))
  = Ok (mkTensor dt [length P; length ws]
          (concat (map (fun p => map (fun o => F o p) ws) P))).
Proof.
  unfold transpose. cbn [tshape tdata tdtype]. rewrite chunks_tabulate.
  do 3 f_equal. apply (map_seq_nth _ _ P 0). intros i Hi.
  rewrite map_map. apply map_ext. intros o. now apply nth_map_in.
Qed.

Lemma flatten_wire (t : tensor) :
  tdata (tensor_type (flatten t) (wire_dtype (tdtype t))) = wire_data t.
Proof. unfold wire_data. now rewrite !tensor_type_data. Qed.
End Transpose.

Section Cat.
Context {TL : TensorLib}.
Hypothesis int64_roundtrip :
  forall z, (0 <= z < 2 ^ 63)%Z -> to_int (of_int z) = z.
Hypothesis add_zero_l : forall d x, reduce_elem SUM d (zero d) x = x.
Hypothesis add_zero_r : forall d x, reduce_elem SUM d x (zero d) = x.
Hypothesis bool_roundtrip : forall x, cast th_uint8 th_bool (cast th_bool th_uint8 x) = x.

Variable objs : list pyobj.
Hypothesis all_supported : Forall (fun o => supported o = true) objs.
Hypothesis all_distinct_keys : Forall (fun o => distinct_keys o = true) objs.
Hypothesis all_leaf_ok : Forall (fun o => Forall leaf_ok (leaves o)) objs.
Hypothesis all_aligned : aligned cat_sig objs.
Hypothesis leaf_count : Forall (fun o => (Z.of_nat (length (leaves o)) < 2 ^ 63)%Z) objs.
Hypothesis total_bound :
  forall o d, In o objs ->
    (Z.of_nat (list_sum (map (fun j => list_sum (map numel (column (map leaves objs) j)))
                             (positions d (leaves o)))) < 2 ^ 63)%Z.

Lemma cat_dtypes a b :
  In a objs -> In b objs -> map tdtype (leaves a) = map tdtype (leaves b).
Proof.
  intros Ha Hb. pose proof (all_aligned a b Ha Hb) as H.
  apply (f_equal (map fst)) in H. now rewrite !map_map in H.
Qed.

Lemma cat_trailing a b j :
  In a objs -> In b objs ->
  tl (tshape (nth j (leaves a) no_tensor)) = tl (tshape (nth j (leaves b) no_tensor)).
Proof.
  intros Ha Hb. pose proof (all_aligned a b Ha Hb) as H.
  apply (map_eq_nth cat_sig _ _ no_tensor j) in H. now injection H.
Qed.

Lemma cat_length a b : In a objs -> In b objs -> length (leaves a) = length (leaves b).
Proof.
  intros Ha Hb. pose proof (cat_dtypes a b Ha Hb) as H.
  apply (f_equal (@length dtype)) in H. now rewrite !length_map in H.
Qed.

Lemma cat_positions a b d :
  In a objs -> In b objs -> positions d (leaves a) = positions d (leaves b).
Proof. intros Ha Hb. apply positions_ext. now apply cat_dtypes. Qed.

Lemma cat_dtypes_of a b :
  In a objs -> In b objs -> dtypes_of (leaves a) = dtypes_of (leaves b).
Proof. intros Ha Hb. apply dtypes_of_ext. now apply cat_dtypes. Qed.

Lemma cat_leaf_at a j : In a objs -> j < length (leaves a) -> leaf_ok (nth j (leaves a) no_tensor).
Proof. intros Ha Hj. exact (leaf_at_ok objs all_leaf_ok a j Ha Hj). Qed.

(** The size tables of the workers meet what [stack] asks of its
    arguments. *)
Lemma sizes_supported :
  Forall (fun o => supported o = true) (map (fun o => sizes_obj (leaves o)) objs).
Proof. apply Forall_map. apply Forall_forall. intros o _. apply sizes_obj_supported. Qed.

Lemma sizes_distinct_keys :
  Forall (fun o => distinct_keys o = true) (map (fun o => sizes_obj (leaves o)) objs).
Proof. apply Forall_map. apply Forall_forall. intros o _. apply sizes_obj_distinct_keys. Qed.

Lemma sizes_leaf_ok :
  Forall (fun o => Forall leaf_ok (leaves o)) (map (fun o => sizes_obj (leaves o)) objs).
Proof.
  apply Forall_map. apply Forall_forall. intros o Ho.
  rewrite sizes_obj_leaves. apply Forall_map. apply Forall_forall. intros d _.
  unfold leaf_ok, wf_tensor, numel. cbn [tdata tshape tl prod fold_right].
  rewrite length_map. split; [lia|]. split; [discriminate|].
  rewrite Forall_forall in leaf_count. specialize (leaf_count o Ho).
  pose proof (filter_length_le (has_dtype d) (leaves o)). lia.
Qed.

Lemma sizes_aligned : aligned leaf_sig (map (fun o => sizes_obj (leaves o)) objs).
Proof.
  intros a' b' Ha Hb.
  apply in_map_iff in Ha as (a & <- & Ha). apply in_map_iff in Hb as (b & <- & Hb).
  rewrite !sizes_obj_leaves, !map_map. unfold leaf_sig, numel. cbn [tdtype tshape].
  rewrite (cat_dtypes_of a b Ha Hb). apply map_ext. intros d.
  now rewrite !filter_count, (cat_positions a b d Ha Hb).
Qed.

Lemma sizes_column i o ref :
  In o objs -> In ref objs -> i < length (dtypes_of (leaves ref)) ->
  nth i (leaves (sizes_obj (leaves o))) no_tensor
  = mkTensor th_int64 [length (positions (nth i (dtypes_of (leaves ref)) th_bool) (leaves ref))]
      (map (fun p => enc (numel (nth p (leaves o) no_tensor)))
           (positions (nth i (dtypes_of (leaves ref)) th_bool) (leaves ref))).
Proof.
  intros Ho Href Hi. rewrite sizes_obj_leaves, (cat_dtypes_of o ref Ho Href).
  rewrite (nth_map_in _ _ i no_tensor th_bool Hi).
  set (d := nth i (dtypes_of (leaves ref)) th_bool).
  rewrite filter_count, (cat_positions o ref d Ho Href).
  f_equal. rewrite filter_positions, map_map.
  now rewrite (cat_positions o ref d Ho Href).
Qed.

(** What [stack] makes of the size table of a worker. *)
Lemma stacked_sizes_fill o ref :
  In o objs -> In ref objs ->
  fst (fill (sizes_obj (leaves o))
         (per_leaf stacked_leaf (map leaves (map (fun o => sizes_obj (leaves o)) objs))
            (leaves (sizes_obj (leaves o)))))
  = stacked_sizes (map leaves objs) (leaves ref).
Proof.
  intros Ho Href. unfold per_leaf.
  assert (Hlen : length (leaves (sizes_obj (leaves o))) = length (dtypes_of (leaves ref))).
  { now rewrite sizes_obj_leaves, length_map, (cat_dtypes_of o ref Ho Href). }
  rewrite Hlen.
  rewrite (map_seq_nth
             (fun d => mkTensor th_int64 [length (map leaves objs); length (positions d (leaves ref))]
                         (concat (map (fun row => map (fun p => enc (numel (nth p row no_tensor)))
                                                      (positions d (leaves ref)))
                                      (map leaves objs))))
             _ (dtypes_of (leaves ref)) th_bool).
  - rewrite sizes_obj_eq, (cat_dtypes_of o ref Ho Href).
    match goal with |- context [fill (PyDict (map (fun d => (KDtype d, PyTensor (@?old d))) ?ks))
                                    (map ?new ?ks)] =>
      pose proof (fill_tabulated ks KDtype old new []) as Hf
    end.
    rewrite app_nil_r in Hf. cbv beta in Hf. rewrite Hf. reflexivity.
  - intros i Hi. unfold column. rewrite !map_map.
    rewrite (sizes_column i o ref Ho Href Hi).
    rewrite (map_ext_in _ (fun o' =>
               mkTensor th_int64
                 [length (positions (nth i (dtypes_of (leaves ref)) th_bool) (leaves ref))]
                 (map (fun p => enc (numel (nth p (leaves o') no_tensor)))
                      (positions (nth i (dtypes_of (leaves ref)) th_bool) (leaves ref))))).
    2:{ intros o' Ho'. now apply sizes_column. }
    set (d := nth i (dtypes_of (leaves ref)) th_bool).
    unfold stacked_leaf, rebuilt_shape, numel. cbn [tdtype tshape tl prod fold_right app].
    rewrite !length_map, map_map. cbn [tdata].
    now rewrite Nat.mul_1_r, Nat.div_1_r.
Qed.

(** The nested [stack] of [cat]: every worker gets the size tables of
    all workers. *)
Lemma sizes_stacked ref :
  In ref objs ->
  run_job (map (fun w => stack (mkContext (fst w) (length objs) true)
                           (sizes_obj (leaves (snd w))) None) (ranked objs))
  = map (fun w => Returned (stacked_sizes (map leaves objs) (leaves ref))) (ranked objs).
Proof.
  intros Href.
  pose proof (spmd_ranked (fun ctx o => stack ctx o None) true
                (map (fun o => sizes_obj (leaves o)) objs)) as Hs.
  rewrite ranked_map, map_map, length_map in Hs. cbn [fst snd] in Hs.
  rewrite <- Hs. clear Hs.
  rewrite (stack_job _ sizes_supported sizes_aligned None (sizes_obj (leaves ref)))
    by (apply in_map_iff; eauto).
  rewrite (map_ext_in _ (fun _ => Returned (stacked_sizes (map leaves objs) (leaves ref)))).
  { now rewrite ranked_map, map_map. }
  intros w Hw.
  pose proof (in_ranked _ w Hw) as [Hnth Hlt].
  destruct w as [r o']. cbn [fst snd] in *.
  assert (Ho : exists o, nth_error objs r = Some o /\ o' = sizes_obj (leaves o)).
  { rewrite nth_error_map in Hnth. destruct (nth_error objs r) as [o|]; [|discriminate].
    injection Hnth as <-. eauto. }
  destruct Ho as (o & Hr & ->).
  assert (Hin : In o objs) by now apply nth_error_In in Hr.
  rewrite (dtypes_of_ext (leaves (sizes_obj (leaves ref))) (leaves (sizes_obj (leaves o))))
    by (apply (aligned_dtypes _ sizes_aligned); apply in_map_iff; eauto).
  rewrite (stack_rebuild int64_roundtrip add_zero_l add_zero_r bool_roundtrip _
             sizes_supported sizes_distinct_keys sizes_leaf_ok sizes_aligned None r
             (sizes_obj (leaves o))).
  - cbn [settle]. f_equal. now apply stacked_sizes_fill.
  - now rewrite nth_error_map, Hr.
  - now left.
Qed.

Lemma cat_rows_length ref k :
  Forall (fun row : list (list scalar) => length row = length objs)
         (cat_rows k (map leaves objs) (leaves ref)).
Proof.
  unfold cat_rows. apply Forall_map. apply Forall_forall. intros j _.
  unfold column. now rewrite !length_map.
Qed.

Lemma cat_wire_length ref o j k :
  In ref objs -> In o objs -> In j (positions k (leaves ref)) ->
  length (wire_data (nth j (leaves o) no_tensor)) = numel (nth j (leaves o) no_tensor).
Proof.
  intros Href Ho Hj. apply in_positions in Hj as [Hj _].
  apply (wire_data_numel objs all_leaf_ok o j Ho).
  now rewrite (cat_length o ref Ho Href).
Qed.

(** The lengths of the blocks of a buffer are the element counts of the
    leaves. *)
Lemma cat_lens ref k :
  In ref objs ->
  map (@length scalar) (concat (cat_rows k (map leaves objs) (leaves ref)))
  = concat (map (fun p => map (fun o => numel (nth p (leaves o) no_tensor)) objs)
                (positions k (leaves ref))).
Proof.
  intros Href. unfold cat_rows. rewrite concat_map, map_map. f_equal.
  apply map_ext_in. intros p Hp. rewrite column_objs, !map_map.
  apply map_ext_in. intros o Ho. now apply (cat_wire_length ref o p k).
Qed.

Lemma cat_total ref k :
  In ref objs ->
  list_sum (map (@length scalar) (concat (cat_rows k (map leaves objs) (leaves ref))))
  = list_sum (map (fun j => list_sum (map numel (column (map leaves objs) j)))
                  (positions k (leaves ref))).
Proof.
  intros Href. rewrite (cat_lens ref k Href), list_sum_concat, map_map. f_equal.
  apply map_ext. intros p. now rewrite column_objs, map_map.
Qed.

(** The size vector [cat] computes from the stacked table holds the
    lengths of the blocks in the order of the buffer. *)
Lemma cat_size_vector ref k :
  In ref objs ->
  concat (map (fun p => map (fun o => enc (numel (nth p (leaves o) no_tensor))) objs)
              (positions k (leaves ref)))
  = map enc (map (@length scalar) (concat (cat_rows k (map leaves objs) (leaves ref)))).
Proof.
  intros Href. rewrite (cat_lens ref k Href), concat_map, map_map. f_equal.
  apply map_ext. intros p. now rewrite map_map.
Qed.

(** The leaves a worker writes and the blocks of the buffer. *)
Lemma cat_own_blocks ref r obj k :
  In ref objs -> nth_error objs r = Some obj ->
  Forall2 (fun v row => tdata (tensor_type v (wire_dtype k)) = nth r row []
                        /\ numel v = length (nth r row []))
    (map flatten (filter (has_dtype k) (leaves obj)))
    (cat_rows k (map leaves objs) (leaves ref)).
Proof.
  intros Href Hr.
  assert (Hin : In obj objs) by (now apply nth_error_In in Hr).
  rewrite filter_positions, map_map, (cat_positions obj ref k Hin Href).
  unfold cat_rows. apply Forall2_map_same. intros p Hp.
  assert (Hrow : nth r (map wire_data (column (map leaves objs) p)) []
                 = wire_data (nth p (leaves obj) no_tensor)).
  { apply nth_error_nth. rewrite column_objs, map_map, nth_error_map. now rewrite Hr. }
  rewrite Hrow. split.
  - pose proof Hp as Hp'. rewrite <- (cat_positions obj ref k Hin Href) in Hp'.
    apply in_positions in Hp' as [_ Hd]. rewrite <- Hd. apply flatten_wire.
  - rewrite (cat_wire_length ref obj p k Href Hin Hp).
    unfold numel at 1. cbn [flatten tshape prod fold_right]. lia.
Qed.

(** The buffer a worker hands to the backend for dtype [k]. *)
Lemma cat_buffer_ok ref r obj k :
  In ref objs -> nth_error objs r = Some obj ->
  In k (dtypes_of (leaves ref)) ->
  exists v0,
    tdtype v0 = k /\
    cat_buffer (mkContext r (length objs) true)
      (stacked_sizes (map leaves objs) (leaves ref)) k
      (map flatten (filter (has_dtype k) (leaves obj)))
    = Ok (v0, cat_send k r (map leaves objs) (leaves ref)).
Proof.
  intros Href Hr Hk.
  assert (Hin : In obj objs) by (now apply nth_error_In in Hr).
  assert (Hlt : r < length objs) by (apply nth_error_Some; congruence).
  assert (Hk' : In k (dtypes_of (leaves obj))) by now rewrite (cat_dtypes_of obj ref).
  destruct (filter_has_dtype_nonempty k (leaves obj) Hk') as (t0 & ts & Ef & Hd0).
  exists (flatten t0). split; [exact Hd0|].
  pose proof (cat_own_blocks ref r obj k Href Hr) as Hown.
  pose proof (cat_total ref k Href) as Htot.
  pose proof (total_bound ref k Href) as Hb. rewrite <- Htot in Hb.
  set (lens := map (@length scalar) (concat (cat_rows k (map leaves objs) (leaves ref)))) in *.
  unfold cat_buffer, stacked_sizes.
  rewrite (py_getitem_tabulate _ k _ Hk). cbn [rbind as_tensor].
  rewrite length_map, (map_map leaves).
  rewrite (transpose_tabulate (fun o p => enc (numel (nth p (leaves o) no_tensor)))).
  cbn [rbind flatten tdata].
  rewrite (cat_size_vector ref k Href). fold lens.
  rewrite Ef in *. cbn [map rbind]. cbn [flatten tdtype]. rewrite Hd0.
  fold (wire_dtype k).
  rewrite (int_sum_enc int64_roundtrip lens Hb).
  replace (Z.of_nat (list_sum lens) <? 0)%Z with false by (symmetry; apply Z.ltb_ge; lia).
  cbn [rbind]. rewrite Nat2Z.id. cbn [get_rank get_world_size rank world_size].
  assert (Hfirst : (Z.of_nat (list_sum (firstn r lens)) < 2 ^ 63)%Z).
  { pose proof (list_sum_firstn_skipn lens r). lia. }
  rewrite firstn_map, (int_sum_enc int64_roundtrip _ Hfirst).
  pose proof (cat_fill_masked int64_roundtrip (length objs) r (wire_dtype k) Hlt
                (cat_rows k (map leaves objs) (leaves ref))
                (flatten t0 :: map flatten ts) [] [] (list_sum lens)
                (cat_rows_length ref k) Hown eq_refl Hb) as Hfill.
  cbn [app length Nat.add] in Hfill. fold lens in Hfill.
  unfold th_zeros. cbn [prod fold_right]. rewrite Nat.mul_1_r.
  cbn [map] in Hfill. rewrite Hfill. cbn [rbind]. reflexivity.
Qed.

Variable dst : option nat.

(** One round of the loop of [cat], on all workers. *)
Lemma cat_round ref k (acc : nat * pyobj -> ddict tensor) :
  In ref objs -> In k (dtypes_of (leaves ref)) ->
  run_job (map (fun w => cat_body (mkContext (fst w) (length objs) true) dst
                           (stacked_sizes (map leaves objs) (leaves ref))
                           (k, map flatten (filter (has_dtype k) (leaves (snd w))))
                           (acc w)) (ranked objs))
  = map (fun w => Returned
           (dset k (tensor_type
                      (reply SUM dst
                         (map (fun w => cat_send k (fst w) (map leaves objs) (leaves ref))
                              (ranked objs))
                         (fst w) (cat_send k (fst w) (map leaves objs) (leaves ref))) k)
                 (acc w)))
        (ranked objs).
Proof.
  intros Href Hk.
  rewrite (map_ext_in _
    (fun w => AllReduce SUM dst (cat_send k (fst w) (map leaves objs) (leaves ref))
                (fun t => Ret (dset k (tensor_type t k) (acc w))))).
  2:{ intros w Hw. apply in_ranked in Hw as [Hw _].
      destruct (cat_buffer_ok ref (fst w) (snd w) k Href Hw Hk) as (v0 & Hd & E).
      unfold cat_body. cbn [fst snd]. rewrite E. cbn [lift cbind get_group group_ready].
      rewrite Hd. reflexivity. }
  rewrite (run_job_all_reduce objs SUM dst
             (fun w => cat_send k (fst w) (map leaves objs) (leaves ref)) _
             (wire_dtype k)
             [list_sum (map (@length scalar)
                            (concat (cat_rows k (map leaves objs) (leaves ref))))]).
  - apply run_job_ret.
  - apply Forall_forall. intros w _. split; reflexivity.
Qed.

Lemma mask_rows_masked d r (rows : list (list (list scalar))) :
  concat (map (mask_row d r) rows) = masked d r (concat (map ranked rows)).
Proof.
  induction rows as [|row rows IH]; [reflexivity|].
  cbn [map concat]. now rewrite masked_app, IH.
Qed.

(** The sum of what the workers send in [cat] is all blocks in order. *)
Lemma cat_reply_data ref o0 os k :
  objs = o0 :: os ->
  reduce_buffers SUM (wire_dtype k)
    (tdata (cat_send k 0 (map leaves objs) (leaves ref)))
    (map tdata (map (fun w : nat * pyobj => cat_send k (fst w) (map leaves objs) (leaves ref))
                    (List.combine (seq 1 (length os)) os)))
  = concat (concat (cat_rows k (map leaves objs) (leaves ref))).
Proof.
  intros E. set (blocks := cat_rows k (map leaves objs) (leaves ref)).
  rewrite map_map. cbn [cat_send tdata]. fold blocks.
  rewrite (map_ext _ (fun w => masked (wire_dtype k) (fst w) (concat (map ranked blocks))))
    by (intros w; apply mask_rows_masked).
  rewrite mask_rows_masked.
  rewrite <- (map_map fst (fun r => masked (wire_dtype k) r (concat (map ranked blocks)))).
  rewrite map_fst_combine_seq.
  rewrite sum_masked; auto.
  - rewrite concat_map, map_map. f_equal. rewrite <- (map_id blocks) at 2.
    f_equal. apply map_ext. intros row. apply map_snd_ranked.
  - apply Forall_concat. apply Forall_map. apply Forall_forall. intros row Hrow.
    pose proof (cat_rows_length ref k) as Hlen. rewrite Forall_forall in Hlen.
    specialize (Hlen row Hrow). apply Forall_forall. intros w Hw.
    apply in_ranked in Hw as [_ Hw]. rewrite Hlen, E in Hw. exact Hw.
Qed.

(** Converting the summed wire data of leaves of dtype [d] back. *)
Lemma unwire_list (ts : list tensor) d sh :
  Forall (fun t => tdtype t = d) ts ->
  tdata (tensor_type (mkTensor (wire_dtype d) sh (concat (map wire_data ts))) d)
  = concat (map tdata ts).
Proof.
  intros Hts. rewrite tensor_type_data. cbn [tdtype tdata]. unfold wire_dtype.
  destruct (dtype_eqb d th_bool) eqn:Eb.
  - apply dtype_eqb_eq in Eb. subst d.
    replace (dtype_eqb th_uint8 th_bool) with false by reflexivity.
    rewrite concat_map, map_map. f_equal. apply map_ext_in. intros t Ht.
    rewrite Forall_forall in Hts. specialize (Hts t Ht).
    unfold wire_data. rewrite tensor_type_data, Hts.
    replace (dtype_eqb th_bool (wire_dtype th_bool)) with false by reflexivity.
    rewrite map_map. rewrite <- (map_id (tdata t)) at 2.
    apply map_ext. intros x. apply bool_roundtrip.
  - rewrite dtype_eqb_refl. f_equal. apply map_ext_in. intros t Ht.
    rewrite Forall_forall in Hts. specialize (Hts t Ht).
    unfold wire_data. rewrite tensor_type_data, Hts. unfold wire_dtype.
    now rewrite Eb, dtype_eqb_refl.
Qed.

(** What a worker the result is meant for holds for dtype [k] after the
    loop of [cat]. *)
Lemma cat_reply ref r k :
  In ref objs -> r < length objs ->
  dst = None \/ dst = Some r ->
  tensor_type
    (reply SUM dst
       (map (fun w : nat * pyobj => cat_send k (fst w) (map leaves objs) (leaves ref))
            (ranked objs))
       r (cat_send k r (map leaves objs) (leaves ref))) k
  = cat_out k (map leaves objs) (leaves ref).
Proof.
  intros Href Hr Hdst.
  destruct (in_nonempty _ _ Href) as (o0 & os & E).
  rewrite (reply_reduced SUM dst _ r _ (cat_send k 0 (map leaves objs) (leaves ref))
             (map (fun w : nat * pyobj => cat_send k (fst w) (map leaves objs) (leaves ref))
                  (List.combine (seq 1 (length os)) os)) Hdst).
  2:{ unfold ranked. rewrite E. reflexivity. }
  change (tdtype (cat_send k r (map leaves objs) (leaves ref))) with (wire_dtype k).
  rewrite (cat_reply_data ref o0 os k E).
  apply tensor_ext.
  - now rewrite tensor_type_dtype.
  - now rewrite tensor_type_shape.
  - unfold cat_rows. rewrite <- (map_map (column (map leaves objs)) (map wire_data)).
    rewrite <- concat_map. rewrite unwire_list; [reflexivity|].
    apply Forall_concat. apply Forall_map. apply Forall_forall. intros p Hp.
    rewrite column_objs. apply Forall_map. apply Forall_forall. intros o Ho.
    rewrite <- (cat_positions o ref k Ho Href) in Hp.
    now apply in_positions in Hp.
Qed.

Lemma list_sum_in_le (f : nat -> nat) (l : list nat) x :
  In x l -> f x <= list_sum (map f l).
Proof.
  induction l as [|y l IH]; intros H; [contradiction|].
  cbn [map]. change (list_sum (?a :: ?b)) with (a + list_sum b).
  destruct H as [->|H]; [lia | specialize (IH H); lia].
Qed.

Lemma list_sum_mod (k : nat) (l : list nat) :
  Forall (fun n => n mod k = 0) l -> list_sum l mod k = 0.
Proof.
  induction 1 as [|n l Hn _ IH]; [apply Nat.Div0.mod_0_l|].
  change (list_sum (n :: l)) with (n + list_sum l).
  rewrite Nat.Div0.add_mod, Hn, IH. cbn [Nat.add]. apply Nat.Div0.mod_0_l.
Qed.

Lemma column_total_bound ref k p :
  In ref objs -> In p (positions k (leaves ref)) ->
  (Z.of_nat (list_sum (map numel (column (map leaves objs) p))) < 2 ^ 63)%Z.
Proof.
  intros Href Hp. pose proof (total_bound ref k Href) as Hb.
  pose proof (list_sum_in_le (fun j => list_sum (map numel (column (map leaves objs) j)))
                (positions k (leaves ref)) p Hp).
  cbv beta in *. lia.
Qed.

(** [v.sum(dim=0)] on the stacked sizes of dtype [k]. *)
Lemma sum_dim0_sizes ref k :
  In ref objs ->
  sum_dim0 (mkTensor th_int64 [length (map leaves objs); length (positions k (leaves ref))]
              (concat (map (fun row => map (fun p => enc (numel (nth p row no_tensor)))
                                           (positions k (leaves ref)))
                           (map leaves objs))))
  = Ok (mkTensor th_int64 [length (positions k (leaves ref))]
          (map (fun j => enc (list_sum (map numel (column (map leaves objs) j))))
               (positions k (leaves ref)))).
Proof.
  intros Href. unfold sum_dim0. cbn [tshape tdata tdtype prod fold_right].
  rewrite Nat.mul_1_r.
  rewrite (chunks_tabulate (fun row p => enc (numel (nth p row no_tensor)))).
  do 2 f_equal. apply (map_seq_nth _ _ (positions k (leaves ref)) 0). intros i Hi.
  rewrite map_map.
  rewrite (map_ext _ (fun row => enc (numel (nth (nth i (positions k (leaves ref)) 0) row
                                                 no_tensor))))
    by (intros row;
        exact (nth_map_in (fun p => enc (numel (nth p row no_tensor))) _ i _ 0 Hi)).
  rewrite <- (map_map (fun row => numel (nth _ row no_tensor)) enc).
  assert (Hcol : map (fun row => numel (nth (nth i (positions k (leaves ref)) 0) row no_tensor))
                     (map leaves objs)
                 = map numel (column (map leaves objs) (nth i (positions k (leaves ref)) 0))).
  { unfold column. symmetry. apply map_map. }
  rewrite Hcol.
  rewrite (int_sum_enc int64_roundtrip)
    by (apply (column_total_bound ref k); [exact Href | now apply nth_In]).
  reflexivity.
Qed.

Lemma fold_sum_sizes (T S : dtype -> tensor) (ks : list dtype) :
  (forall d, In d ks -> sum_dim0 (T d) = Ok (S d)) ->
  forall acc0,
    fold_left (fun acc (kv : pykey * pyobj) =>
                 let* acc := acc in
                 let* v := as_tensor (snd kv) in
                 let* v := sum_dim0 v in
                 Ok (match fst kv with
                     | KDtype d => dset d v acc
                     | _ => acc
                     end))
      (map (fun d => (KDtype d, PyTensor (T d))) ks) (Ok acc0)
    = Ok (fold_left (fun acc d => dset d (S d) acc) ks acc0).
Proof.
  induction ks as [|d ks IH]; intros H acc0; [reflexivity|].
  cbn [map fold_left rbind as_tensor fst snd].
  rewrite (H d) by now left. cbn [rbind]. apply IH. intros d' Hd'. apply H. now right.
Qed.

(** The size table summed over the workers. *)
Lemma sum_sizes_ok ref :
  In ref objs ->
  sum_sizes (stacked_sizes (map leaves objs) (leaves ref))
  = Ok (summed_sizes (map leaves objs) (leaves ref)).
Proof.
  intros Href. unfold sum_sizes, stacked_sizes. cbn [py_items rbind].
  rewrite (fold_sum_sizes _
             (fun d => mkTensor th_int64 [length (positions d (leaves ref))]
                         (map (fun j => enc (list_sum (map numel (column (map leaves objs) j))))
                              (positions d (leaves ref))))).
  - f_equal. apply fold_dset_tabulate. apply NoDup_dtypes_of.
  - intros d _. now apply sum_dim0_sizes.
Qed.

Lemma cat_piece_ok ref j :
  In ref objs -> j < length (leaves ref) ->
  piece_ok 1 (cat_piece (map leaves objs) (leaves ref) j).
Proof.
  intros Href Hj. unfold piece_ok, cat_piece. cbn [piece_leaf piece_len piece_rows].
  destruct (cat_leaf_at ref j Href Hj) as (_ & Htr & _).
  split; [reflexivity|]. split; [|split; [exact Htr|]].
  - constructor; [|constructor]. rewrite length_concat, map_map. f_equal.
    rewrite column_objs, !map_map. apply map_ext_in. intros o Ho.
    assert (Hjo : j < length (leaves o)) by now rewrite (cat_length o ref Ho Href).
    now destruct (cat_leaf_at o j Ho Hjo) as (Hwf & _).
  - apply list_sum_mod. rewrite column_objs, map_map. apply Forall_map.
    apply Forall_forall. intros o Ho.
    rewrite <- (cat_trailing o ref j Ho Href). apply numel_mod_trailing.
Qed.

Lemma cat_piece_tensor j ls :
  piece_tensor [] (cat_piece (map leaves objs) ls j)
  = cat_leaf (column (map leaves objs) j) (nth j ls no_tensor).
Proof.
  unfold piece_tensor, cat_piece, cat_leaf. cbn [piece_leaf piece_len piece_rows concat].
  now rewrite app_nil_r.
Qed.

(** The rebuild of [cat] on a worker the result is meant for. *)
Lemma cat_rebuild obj :
  In obj objs ->
  exists values' sizes',
    _recursive_write obj
      (map (fun k => (k, cat_out k (map leaves objs) (leaves obj))) (dtypes_of (leaves obj)))
      (Some (summed_sizes (map leaves objs) (leaves obj)))
    = Ok (fst (fill obj (per_leaf cat_leaf (map leaves objs) (leaves obj))),
          values', sizes').
Proof.
  intros Hin.
  set (ps := map (cat_piece (map leaves objs) (leaves obj)) (seq 0 (length (leaves obj)))).
  assert (Hone : prod [] <> 0) by discriminate.
  pose proof all_supported as Hsup. pose proof all_distinct_keys as Hdk.
  rewrite Forall_forall in Hsup, Hdk.
  assert (Hleaf : map piece_leaf ps = leaves obj).
  { unfold ps. rewrite map_map. cbn [cat_piece piece_leaf]. apply map_nth_seq. }
  match goal with |- context [_recursive_write obj ?values ?sizes] =>
    destruct (@write_ok _ int64_roundtrip [] Hone obj (Hsup obj Hin)
                (Hdk obj Hin) ps [] values sizes)
      as (values' & sizes' & Ew & _)
  end.
  - exact Hleaf.
  - rewrite app_nil_r. unfold ps. apply Forall_map. apply Forall_forall.
    intros j Hj. apply in_seq in Hj. apply cat_piece_ok; [exact Hin | lia].
  - rewrite app_nil_r. intros d Hne.
    assert (Hd : In d (dtypes_of (leaves obj))).
    { apply pieces_of_in_dtypes in Hne. now rewrite Hleaf in Hne. }
    rewrite (dget_tabulate _ d _ Hd). f_equal.
    unfold ps. rewrite pieces_of_tabulate by reflexivity.
    rewrite !map_map. cbn [cat_piece piece_len piece_rows].
    rewrite (rowcat_single (fun j => concat (map tdata (column (map leaves objs) j)))).
    cbn [concat app prod fold_right]. rewrite app_nil_r.
    unfold cat_out. f_equal.
    + f_equal. apply cat_total. exact Hin.
    + apply concat_flat.
  - rewrite app_nil_r. cbn [Sized]. intros d Hne.
    assert (Hd : In d (dtypes_of (leaves obj))).
    { apply pieces_of_in_dtypes in Hne. now rewrite Hleaf in Hne. }
    exists th_int64,
      (map (fun j => enc (list_sum (map numel (column (map leaves objs) j))))
           (positions d (leaves obj))).
    split.
    + unfold summed_sizes. rewrite (dget_tabulate _ d _ Hd). now rewrite length_map.
    + unfold ps. rewrite pieces_of_tabulate by reflexivity.
      rewrite !map_map. cbn [cat_piece piece_len]. apply map_ext_in. intros j Hj.
      unfold enc. apply int64_roundtrip.
      pose proof (column_total_bound obj d j Hin Hj). lia.
  - exists values', sizes'. rewrite Ew. do 5 f_equal. unfold ps, per_leaf.
    rewrite map_map. apply map_ext. intros j. apply cat_piece_tensor.
Qed.

(** The job of [cat]: every worker ends as its rebuild, with the summed
    size table, from what the backend returned to it does. *)
Lemma cat_job ref :
  In ref objs ->
  spmd (fun ctx o => cat ctx o dst) true objs
  = map (fun w =>
           settle
             (let* (new_obj, _, _) :=
                _recursive_write (snd w)
                  (map (fun k =>
                          (k, tensor_type
                                (reply SUM dst
                                   (map (fun w : nat * pyobj =>
                                           cat_send k (fst w) (map leaves objs) (leaves ref))
                                        (ranked objs))
                                   (fst w)
                                   (cat_send k (fst w) (map leaves objs) (leaves ref))) k))
                       (dtypes_of (leaves ref)))
                  (Some (summed_sizes (map leaves objs) (leaves ref))) in
              Ok new_obj))
        (ranked objs).
Proof.
  intros Href. rewrite spmd_ranked.
  set (ST := stacked_sizes (map leaves objs) (leaves ref)).
  set (val := fun (k : dtype) (w : nat * pyobj) =>
                tensor_type
                  (reply SUM dst
                     (map (fun w : nat * pyobj =>
                             cat_send k (fst w) (map leaves objs) (leaves ref))
                          (ranked objs))
                     (fst w) (cat_send k (fst w) (map leaves objs) (leaves ref))) k).
  pose proof all_supported as Hsup. rewrite Forall_forall in Hsup.
  rewrite (map_ext_in _
    (fun w =>
       cbind (stack (mkContext (fst w) (length objs) true) (sizes_obj (leaves (snd w))) None)
         (fun sizes =>
            cbind (for_each
                     (map (fun d => (d, map flatten (filter (has_dtype d) (leaves (snd w)))))
                          (dtypes_of (leaves ref)))
                     (cat_body (mkContext (fst w) (length objs) true) dst sizes) [])
              (fun cated =>
                 cbind (lift (sum_sizes sizes))
                   (fun sizes =>
                      cbind (lift (_recursive_write (snd w) cated (Some sizes)))
                        (fun x => match x with (new_obj, _, _) => Ret new_obj end)))))).
  2:{ intros w Hw. apply in_ranked in Hw as [Hw _]. apply nth_error_In in Hw.
      destruct (read_sizes_ok (snd w) (Hsup _ Hw)) as (values & sizes & Er & Ev & Es).
      unfold cat. rewrite Er. cbn [lift cbind]. rewrite Es. cbn [lift cbind].
      rewrite Ev, (cat_dtypes_of (snd w) ref Hw Href). reflexivity. }
  rewrite (run_job_bind (ranked objs) _ _ (fun _ => ST)) by exact (sizes_stacked ref Href).
  rewrite (run_job_bind (ranked objs) _ _
             (fun w => map (fun k => (k, val k w)) (dtypes_of (leaves ref)))).
  - rewrite (map_ext _
      (fun w => lift (let* (new_obj, _, _) :=
                        _recursive_write (snd w)
                          (map (fun k => (k, val k w)) (dtypes_of (leaves ref)))
                          (Some (summed_sizes (map leaves objs) (leaves ref))) in
                      Ok new_obj))).
    + apply run_job_lift.
    + intros w. unfold ST. rewrite (sum_sizes_ok ref Href). cbn [lift cbind].
      destruct (_recursive_write _ _ _) as [[[n v] s']|e]; reflexivity.
  - rewrite (run_job_for_each (ranked objs)
               (fun w d => (d, map flatten (filter (has_dtype d) (leaves (snd w)))))
               (fun w => cat_body (mkContext (fst w) (length objs) true) dst ST)
               (fun k w acc => dset k (val k w) acc)).
    + apply map_ext. intros w. f_equal.
      apply (fold_dset_tabulate (fun k => val k w)). apply NoDup_dtypes_of.
    + intros k acc Hk. exact (cat_round ref k acc Href Hk).
Qed.

(** Cat on the workers of a job. *)
Lemma cat_spmd r obj :
  nth_error objs r = Some obj ->
  dst = None \/ dst = Some r ->
  nth_error (spmd (fun ctx o => cat ctx o dst) true objs) r
  = Some (Returned (fst (fill obj (per_leaf cat_leaf (map leaves objs) (leaves obj))))).
Proof.
  intros Hr Hdst.
  assert (Hin : In obj objs) by (now apply nth_error_In in Hr).
  assert (Hlt : r < length objs) by (apply nth_error_Some; congruence).
  rewrite (cat_job obj Hin).
  rewrite nth_error_map, (nth_error_ranked objs r obj Hr). cbn [option_map fst snd].
  rewrite (map_ext _ (fun k => (k, cat_out k (map leaves objs) (leaves obj))))
    by (intros k; now rewrite (cat_reply obj r k Hin Hlt Hdst)).
  destruct (cat_rebuild obj Hin) as (values' & sizes' & Ew).
  rewrite Ew. reflexivity.
Qed.

(** The leaf [cat] rebuilds is the concatenation along the first axis. *)
Lemma cat_leaf_is_th_cat obj j :
  In obj objs -> j < length (leaves obj) ->
  Forall (fun t => tshape t <> []) (column (map leaves objs) j) ->
  th_cat (column (map leaves objs) j)
  = Ok (cat_leaf (column (map leaves objs) j) (nth j (leaves obj) no_tensor)).
Proof.
  intros Hin Hj Hax. destruct (in_nonempty _ _ Hin) as (o0 & os & E).
  assert (H0 : In o0 objs) by (rewrite E; now left).
  set (own := nth j (leaves obj) no_tensor).
  set (tr := tl (tshape own)).
  assert (Hcol : forall t, In t (column (map leaves objs) j) ->
                   exists n, tshape t = n :: tr /\ tdtype t = tdtype own).
  { intros t Ht. rewrite Forall_forall in Hax. specialize (Hax t Ht).
    rewrite column_objs in Ht. apply in_map_iff in Ht as (o & <- & Ho).
    pose proof (cat_trailing o obj j Ho Hin) as Htl.
    pose proof (map_eq_nth tdtype _ _ no_tensor j (cat_dtypes o obj Ho Hin)) as Hdt.
    fold own in Htl, Hdt. fold tr in Htl.
    destruct (tshape (nth j (leaves o) no_tensor)) as [|n tr'] eqn:Es.
    - exfalso. apply Hax. reflexivity.
    - exists n. cbn [tl] in Htl. now subst tr'. }
  assert (Hprod : prod tr <> 0) by (now destruct (cat_leaf_at obj j Hin Hj) as (_ & ? & _)).
  assert (Hown : In own (column (map leaves objs) j)).
  { rewrite column_objs. apply in_map_iff. now exists obj. }
  destruct (Hcol own Hown) as (n_own & Eown & _).
  assert (Hsum' : forall l : list tensor,
            (forall t, In t l -> exists n, tshape t = n :: tr /\ tdtype t = tdtype own) ->
            list_sum (map numel l) = list_sum (map (fun t => hd 0 (tshape t)) l) * prod tr).
  { induction l as [|t l IH]; intros Hl; [reflexivity|].
    cbn [map]. change (list_sum (?a :: ?b)) with (a + list_sum b).
    rewrite IH by (intros t' Ht'; apply Hl; now right).
    destruct (Hl t (or_introl eq_refl)) as (n & Et & _).
    unfold numel. rewrite Et. cbn [hd prod fold_right]. fold (prod tr). lia. }
  pose proof (Hsum' _ Hcol) as Hsum. clear Hsum'.
  unfold th_cat, cat_leaf.
  destruct (column (map leaves objs) j) as [|t0 ts] eqn:Ec; [contradiction|].
  destruct (Hcol t0 (or_introl eq_refl)) as (n0 & E0 & Hd0).
  replace (forallb _ (t0 :: ts)) with true.
  - rewrite Hd0, E0. cbn [tl]. unfold rebuilt_shape. fold own. rewrite Eown. cbn [tl app].
    fold tr. rewrite Hsum. now rewrite Nat.div_mul by exact Hprod.
  - symmetry. apply forallb_forall. intros t Ht.
    destruct (Hcol t Ht) as (n & Et & _). rewrite Et, E0. cbn [tl].
    now destruct (list_eq_dec Nat.eq_dec tr tr).
Qed.

Lemma cat_leaf_numel obj j :
  In obj objs -> j < length (leaves obj) ->
  numel (cat_leaf (column (map leaves objs) j) (nth j (leaves obj) no_tensor))
  = list_sum (map numel (column (map leaves objs) j))
  /\ length (tdata (cat_leaf (column (map leaves objs) j) (nth j (leaves obj) no_tensor)))
     = list_sum (map numel (column (map leaves objs) j)).
Proof.
  intros Hin Hj.
  destruct (cat_piece_ok obj j Hin Hj) as (_ & Hrows & Hq & Hmod).
  cbn [cat_piece piece_leaf piece_len piece_rows] in *. split.
  - set (q := prod (tl (tshape (nth j (leaves obj) no_tensor)))) in *.
    set (T := list_sum (map numel (column (map leaves objs) j))) in *.
    unfold cat_leaf. unfold numel at 1. cbn [tshape]. unfold rebuilt_shape. cbn [app].
    change (prod (?a :: ?b)) with (a * prod b). fold q T.
    pose proof (Nat.div_mod_eq T q). nia.
  - apply Forall_inv in Hrows. exact Hrows.
Qed.

(** Where a worker's leaves sit in the buffer it hands to the backend. *)
Lemma cat_send_at ref r obj k i :
  In ref objs -> nth_error objs r = Some obj ->
  i < length (positions k (leaves ref)) ->
  let own := nth (nth i (positions k (leaves ref)) 0) (leaves obj) no_tensor in
  firstn (numel own)
    (skipn (cat_offset k r i (map leaves objs) (leaves ref))
       (tdata (cat_send k r (map leaves objs) (leaves ref))))
  = wire_data own.
Proof.
  intros Href Hr Hi own.
  assert (Hin : In obj objs) by (now apply nth_error_In in Hr).
  assert (Hlt : r < length objs) by (apply nth_error_Some; congruence).
  set (P := positions k (leaves ref)) in *.
  set (p := nth i P 0) in *.
  assert (Hp : In p P) by (now apply nth_In).
  assert (EP : P = firstn i P ++ p :: skipn (S i) P).
  { rewrite <- (firstn_skipn i P) at 1. f_equal.
    exact (skipn_nth_cons P i 0 Hi). }
  unfold cat_send, cat_rows, cat_offset. cbn [tdata]. fold P p.
  set (B := fun j => map wire_data (column (map leaves objs) j)).
  assert (Hlens : forall j, In j P -> map (@length scalar) (B j)
                                      = map numel (column (map leaves objs) j)).
  { intros j Hj. unfold B. rewrite column_objs, !map_map. apply map_ext_in.
    intros o Ho. now apply (cat_wire_length ref o j k). }
  replace (map B P) with (map B (firstn i P) ++ B p :: map B (skipn (S i) P))
    by (change (B p :: map B (skipn (S i) P)) with (map B (p :: skipn (S i) P));
        now rewrite <- map_app, <- EP).
  rewrite !map_app, concat_app. cbn [map concat].
  assert (Hpre : length (concat (map (mask_row (wire_dtype k) r) (map B (firstn i P))))
                 = list_sum (map (fun p => list_sum (map numel (column (map leaves objs) p)))
                                 (firstn i P))).
  { rewrite length_concat, !map_map. f_equal. apply map_ext_in. intros j Hj.
    rewrite mask_row_length. f_equal. apply Hlens.
    rewrite <- (firstn_skipn i P). apply in_or_app. now left. }
  assert (Hrow : length (B p) = length objs).
  { unfold B, column. now rewrite !length_map. }
  rewrite (mask_row_split (wire_dtype k) r (B p)) by lia.
  rewrite (Hlens p Hp).
  assert (Hnth : nth r (B p) [] = wire_data own).
  { apply nth_error_nth. unfold B. rewrite column_objs, map_map, nth_error_map.
    now rewrite Hr. }
  rewrite Hnth, <- Hpre.
  rewrite skipn_app. rewrite skipn_all2 by lia. cbn [app].
  rewrite <- !app_assoc.
  match goal with |- context [skipn ?n (repeat ?z ?m ++ ?rest)] =>
    replace n with m by lia
  end.
  rewrite skipn_app, repeat_length, Nat.sub_diag.
  rewrite skipn_all2 by (rewrite repeat_length; lia). cbn [skipn app].
  subst own. rewrite <- (cat_wire_length ref obj p k Href Hin Hp).
  rewrite firstn_app, Nat.sub_diag, firstn_all. cbn [firstn]. apply app_nil_r.
Qed.

(** Writing a leaf without elements leaves the buffer as it is. *)
Lemma slice_assign_empty (buf v : tensor) off :
  wf_tensor v -> numel v = 0 ->
  (0 <= off <= Z.of_nat (length (tdata buf)))%Z -> (off < 2 ^ 63)%Z ->
  slice_assign buf off (wrap64 (off + Z.of_nat (numel (flatten v)))) (flatten v) = Ok buf.
Proof.
  intros Hwf Hz Hoff Hb. unfold wf_tensor in Hwf. rewrite Hz in Hwf.
  apply length_zero_iff_nil in Hwf.
  assert (Hn : numel (flatten v) = 0).
  { unfold numel at 1. cbn [flatten tshape prod fold_right]. now rewrite Hz. }
  rewrite Hn, Z.add_0_r, wrap64_small by lia.
  unfold slice_assign. rewrite Nat.sub_diag, tensor_type_data.
  cbn [flatten tdtype tdata]. rewrite Hwf.
  destruct (dtype_eqb (tdtype v) (tdtype buf)); cbn [map length Nat.eqb app];
    rewrite Nat.add_0_r, firstn_skipn; now destruct buf.
Qed.

(** C1, as amended.  Let the workers hold containers of tensors, dicts
    with distinct keys, lists and tuples whose leaves agree, position by
    position, in dtype and in the axes after the first; let no leaf have
    an axis of length zero after the first, and let the numbers of leaves
    and of elements be below 2^63, as an int64 size table needs.  Then Cat
    returns, on every worker the result is meant for (every worker when
    dst is unset), the worker's container, its tuples as lists, with every
    leaf replaced by the concatenation along the first axis, in rank
    order, of the leaves of all workers at that position, a leaf without
    axes counting as a vector of one element.  In the buffer a worker
    hands to the backend for a dtype, its leaf at position i sits after
    the elements of all workers at the positions before i and those of
    the lower-ranked workers at position i.  The rebuild takes its leaf
    lengths from the stacked size table summed over the workers.  Of the
    tensor library the statement takes that adding zero changes no
    element, that a size survives its int64, and a bool the byte it
    travels as. *)
Theorem cat_concatenates_in_rank_order r obj :
  nth_error objs r = Some obj ->
  dst = None \/ dst = Some r ->
  let rows := map leaves objs in
  nth_error (spmd (fun ctx o => cat ctx o dst) true objs) r
  = Some (Returned (fst (fill obj (per_leaf cat_leaf rows (leaves obj)))))
  /\ (forall j, j < length (leaves obj) ->
        Forall (fun t => tshape t <> []) (column rows j) ->
        th_cat (column rows j)
        = Ok (cat_leaf (column rows j) (nth j (leaves obj) no_tensor)))
  /\ (forall k, In k (dtypes_of (leaves obj)) ->
        (exists v0,
           cat_buffer (mkContext r (length objs) true) (stacked_sizes rows (leaves obj)) k
             (map flatten (filter (has_dtype k) (leaves obj)))
           = Ok (v0, cat_send k r rows (leaves obj)))
        /\ forall i, i < length (positions k (leaves obj)) ->
             let own := nth (nth i (positions k (leaves obj)) 0) (leaves obj) no_tensor in
             firstn (numel own)
               (skipn (cat_offset k r i rows (leaves obj))
                  (tdata (cat_send k r rows (leaves obj))))
             = wire_data own)
  /\ sum_sizes (stacked_sizes rows (leaves obj)) = Ok (summed_sizes rows (leaves obj))
  /\ exists values' sizes',
       _recursive_write obj
         (map (fun k => (k, cat_out k rows (leaves obj))) (dtypes_of (leaves obj)))
         (Some (summed_sizes rows (leaves obj)))
       = Ok (fst (fill obj (per_leaf cat_leaf rows (leaves obj))), values', sizes').
Proof.
  intros Hr Hdst rows.
  assert (Hin : In obj objs) by (now apply nth_error_In in Hr).
  split; [|split; [|split; [|split]]].
  - exact (cat_spmd r obj Hr Hdst).
  - intros j Hj Hax. now apply cat_leaf_is_th_cat.
  - intros k Hk. split.
    + destruct (cat_buffer_ok obj r obj k Hin Hr Hk) as (v0 & _ & E). now exists v0.
    + intros i Hi. exact (cat_send_at obj r obj k i Hin Hr Hi).
  - now apply sum_sizes_ok.
  - now apply cat_rebuild.
Qed.

(** X23.  Let the workers hold containers as in C1 as amended: leaves
    that agree, position by position, in dtype and in the axes after the
    first, no axis of length zero after the first, distinct dict keys,
    numbers of leaves and of elements below 2^63.  Then a worker that holds
    a leaf without elements at some position, which under these
    conditions is a leaf whose first axis has length zero, does not make
    Cat fail: Cat returns on every worker the result is meant for; the
    write loop of that worker passes its bounds assertion and yields the
    worker's buffer for the dtype of the leaf; writing the empty leaf at
    an offset within a buffer leaves the buffer as it is (a slice of width
    zero); and the rebuilt leaf has as many elements as the leaves of all
    workers at that position together. *)
Theorem cat_accepts_empty_leaves r obj s o j :
  nth_error objs r = Some obj ->
  dst = None \/ dst = Some r ->
  nth_error objs s = Some o ->
  j < length (leaves o) ->
  numel (nth j (leaves o) no_tensor) = 0 ->
  let rows := map leaves objs in
  let empty := nth j (leaves o) no_tensor in
  nth_error (spmd (fun ctx o => cat ctx o dst) true objs) r
  = Some (Returned (fst (fill obj (per_leaf cat_leaf rows (leaves obj)))))
  /\ (exists v0,
        cat_buffer (mkContext s (length objs) true) (stacked_sizes rows (leaves o))
          (tdtype empty) (map flatten (filter (has_dtype (tdtype empty)) (leaves o)))
        = Ok (v0, cat_send (tdtype empty) s rows (leaves o)))
  /\ (forall buf off,
        (0 <= off <= Z.of_nat (length (tdata buf)))%Z -> (off < 2 ^ 63)%Z ->
        slice_assign buf off (wrap64 (off + Z.of_nat (numel (flatten empty)))) (flatten empty)
        = Ok buf)
  /\ numel (cat_leaf (column rows j) (nth j (leaves obj) no_tensor))
     = list_sum (map numel (column rows j))
  /\ length (tdata (cat_leaf (column rows j) (nth j (leaves obj) no_tensor)))
     = list_sum (map numel (column rows j)).
Proof.
  intros Hr Hdst Hs Hj Hz rows empty.
  assert (Hin : In obj objs) by (now apply nth_error_In in Hr).
  assert (Ho : In o objs) by (now apply nth_error_In in Hs).
  assert (Hj' : j < length (leaves obj)) by now rewrite (cat_length obj o Hin Ho).
  split; [|split; [|split]].
  - exact (cat_spmd r obj Hr Hdst).
  - assert (Hk : In (tdtype empty) (dtypes_of (leaves o))).
    { apply in_dtypes_of. exists empty. split; [now apply nth_In | reflexivity]. }
    destruct (cat_buffer_ok o s o (tdtype empty) Ho Hs Hk) as (v0 & _ & E). now exists v0.
  - intros buf off Hoff Hb. apply slice_assign_empty; try assumption.
    now destruct (cat_leaf_at o j Ho Hj) as (Hwf & _).
  - now apply cat_leaf_numel.
Qed.
End Cat.

(* ================================================================== *)
(** * Coordinator gating: what one call does on one rank *)
(* ================================================================== *)

Section GatingFacts.
Variable func : list value -> list (string * value) -> filesystem -> result value * filesystem.
Variable peers : filesystem -> filesystem.

Lemma synchronize_run (ctx : context) (st : process) :
  synchronize peers ctx st =
  (Ok tt, if 1 <? world_size ctx
          then mkProcess (peers (files st)) (trace st ++ [Barrier])
          else st).
Proof.
  unfold synchronize. destruct (1 <? world_size ctx); reflexivity.
Qed.

Lemma issued_app (st : process) (fs : filesystem) (evs : list event) :
  issued st (mkProcess fs (trace st ++ evs)) = evs.
Proof.
  unfold issued. cbn [trace].
  rewrite skipn_app, skipn_all, Nat.sub_diag. reflexivity.
Qed.

Lemma issued_same (st : process) : issued st st = [].
Proof. unfold issued. apply skipn_all. Qed.

(** The file name the wrapper settles on, once [cache_file] finds one
    that names a file: the wrapper's first three statements neither raise
    nor touch the state beyond that. *)
Lemma gate_after_file cache_arg cache_kwarg ctx args kwargs st f p :
  cache_file cache_arg cache_kwarg args kwargs = Some f ->
  fspath f = Ok p ->
  process_on_master_and_sync_by_pickle func peers cache_arg cache_kwarg ctx args kwargs st =
  let kwargs' := snd (kwargs_pop "skip_cache" (VBool false) kwargs) in
  let skip_cache := fst (kwargs_pop "skip_cache" (VBool false) kwargs) in
  let found := match files st p with Some _ => true | None => false end in
  if negb found || truthy skip_cache then
    io_bind (if get_rank ctx =? 0
             then io_bind (call func args kwargs') (fun _ => io_ret tt)
             else io_ret tt)
      (fun _ => io_bind (synchronize peers ctx)
         (fun _ => io_bind (path_exists f)
            (fun found => if found then pickle_load f
                          else io_raise AssertionError))) st
  else
    io_bind (if get_rank ctx =? 0
             then log_func (Loaded_cache_skipped f) else io_ret tt)
      (fun _ => pickle_load f) st.
Proof.
  unfold cache_file, process_on_master_and_sync_by_pickle. intros Hf Hp.
  destruct cache_kwarg as [key|].
  - destruct (kwargs_getitem key kwargs) as [f0|e] eqn:Hk; [|discriminate].
    injection Hf as ->.
    unfold io_bind at 1. unfold io_lift. unfold io_bind at 1. unfold io_ret at 1.
    destruct (kwargs_pop "skip_cache" (VBool false) kwargs) as [skip kw'].
    cbn [fst snd]. unfold io_bind at 1. unfold io_ret at 1.
    unfold io_bind at 1. unfold path_exists at 1. rewrite Hp.
    destruct (files st p); destruct (truthy skip); reflexivity.
  - destruct cache_arg as [i|]; [|discriminate].
    destruct (args_getitem i args) as [f0|e] eqn:Hk; [|discriminate].
    injection Hf as ->.
    unfold io_bind at 1. unfold io_lift. unfold io_bind at 1. unfold io_ret at 1.
    destruct (kwargs_pop "skip_cache" (VBool false) kwargs) as [skip kw'].
    cbn [fst snd]. unfold io_bind at 1. unfold io_ret at 1.
    unfold io_bind at 1. unfold path_exists at 1. rewrite Hp.
    destruct (files st p); destruct (truthy skip); reflexivity.
Qed.

Lemma gate_after_filename cache_arg cache_kwarg ctx args kwargs st p :
  cache_file cache_arg cache_kwarg args kwargs = Some (VStr p) ->
  process_on_master_and_sync_by_pickle func peers cache_arg cache_kwarg ctx args kwargs st =
  let kwargs' := snd (kwargs_pop "skip_cache" (VBool false) kwargs) in
  let skip_cache := fst (kwargs_pop "skip_cache" (VBool false) kwargs) in
  let found := match files st p with Some _ => true | None => false end in
  if negb found || truthy skip_cache then
    io_bind (if get_rank ctx =? 0
             then io_bind (call func args kwargs') (fun _ => io_ret tt)
             else io_ret tt)
      (fun _ => io_bind (synchronize peers ctx)
         (fun _ => io_bind (path_exists (VStr p))
            (fun found => if found then pickle_load (VStr p)
                          else io_raise AssertionError))) st
  else
    io_bind (if get_rank ctx =? 0
             then log_func (Loaded_cache_skipped (VStr p)) else io_ret tt)
      (fun _ => pickle_load (VStr p)) st.
Proof. intros Hf. apply gate_after_file; [exact Hf | reflexivity]. Qed.

(** C8.  Let the wrapper of [process_on_master_and_sync_by_pickle] be
    called with a cache file name [p] that is absent, or with a keyword
    argument [skip_cache] that is true, and let the wrapped function
    return normally where it is called.  Then the wrapped function is
    called on rank 0 and on no other rank, with the positional arguments
    as they are and the keyword arguments without [skip_cache]; next the
    worker runs [synchronize], which is a barrier of the backend whenever
    the job has more than one worker; and then, if the file [p] exists,
    the worker returns the artifact loaded from it, and otherwise the call
    fails with the assertion error (MissingCacheArtifact) and returns
    nothing.  The worker does nothing else that is observable. *)
Theorem gate_miss_runs_on_master_then_barrier_then_load
    cache_arg cache_kwarg ctx args kwargs st p :
  cache_file cache_arg cache_kwarg args kwargs = Some (VStr p) ->
  files st p = None
  \/ (exists flag, dict_get String.eqb "skip_cache"%string kwargs = Some flag /\ truthy flag = true) ->
  let kwargs' := filter (fun kv => negb (String.eqb "skip_cache"%string (fst kv))) kwargs in
  (get_rank ctx = 0 -> exists r, fst (func args kwargs' (files st)) = Ok r) ->
  let computed := if get_rank ctx =? 0 then snd (func args kwargs' (files st)) else files st in
  let synced := if 1 <? world_size ctx then peers computed else computed in
  let st' := snd (process_on_master_and_sync_by_pickle func peers cache_arg cache_kwarg ctx args kwargs st) in
  issued st st' =
    (if get_rank ctx =? 0 then [Called args kwargs'] else [])
    ++ (if 1 <? world_size ctx then [Barrier] else [])
  /\ files st' = synced
  /\ fst (process_on_master_and_sync_by_pickle func peers cache_arg cache_kwarg ctx args kwargs st) =
       match synced p with
       | Some artifact => Ok artifact
       | None => Err AssertionError
       end.
Proof.
  intros Hf Hmiss kwargs' Hfunc computed synced st'.
  subst st'. rewrite (@gate_after_filename _ _ ctx _ _ st _ Hf).
  cbv zeta.
  change (snd (kwargs_pop "skip_cache" (VBool false) kwargs)) with kwargs'.
  assert (Hcond : negb (match files st p with Some _ => true | None => false end)
                  || truthy (fst (kwargs_pop "skip_cache" (VBool false) kwargs)) = true).
  { destruct Hmiss as [-> | (flag & Hget & Hflag)]; [reflexivity|].
    unfold kwargs_pop. cbn [fst]. rewrite Hget, Hflag. apply orb_true_r. }
  rewrite Hcond.
  match goal with |- context [io_bind ?m ?k st] =>
    assert (Hrun : io_bind m k st =
      (match synced p with Some artifact => Ok artifact | None => Err AssertionError end,
       mkProcess synced
         (trace st ++ (if get_rank ctx =? 0 then [Called args kwargs'] else [])
                   ++ (if 1 <? world_size ctx then [Barrier] else []))))
  end.
  { subst computed synced.
    unfold synchronize, barrier, call, path_exists, pickle_load, io_raise.
    cbn [fspath]. unfold io_bind, io_ret.
    destruct (get_rank ctx =? 0) eqn:Hr.
    - apply Nat.eqb_eq in Hr. destruct (Hfunc Hr) as [r Hres].
      destruct (func args kwargs' (files st)) as [res fs1] eqn:Hcall.
      cbn [fst snd] in *. subst res.
      destruct (1 <? world_size ctx); cbn [files trace];
        [destruct (peers fs1 p) eqn:E | destruct (fs1 p) eqn:E];
        cbn [files trace]; rewrite ?E;
        rewrite <- ?app_assoc; cbn [app]; rewrite ?app_nil_r; reflexivity.
    - destruct (1 <? world_size ctx); cbn [files trace];
        [destruct (peers (files st) p) eqn:E | destruct (files st p) eqn:E];
        cbn [files trace]; rewrite ?E;
        cbn [app]; rewrite ?app_nil_r; try reflexivity;
        destruct st; reflexivity. }
  rewrite Hrun. cbn [fst snd files]. rewrite issued_app. auto.
Qed.

(** C9.  If the cache file [p] exists and [skip_cache] is false, the
    wrapper returns the artifact unpickled from [p], on every rank; it
    never calls the wrapped function and issues no barrier
    ([synchronize] is not reached): all it does besides is the log line
    of rank 0, and the files stay as they were. *)
Theorem gate_hit_loads_without_call_or_barrier
    cache_arg cache_kwarg ctx args kwargs st p artifact :
  cache_file cache_arg cache_kwarg args kwargs = Some (VStr p) ->
  files st p = Some artifact ->
  truthy (fst (kwargs_pop "skip_cache" (VBool false) kwargs)) = false ->
  let st' := snd (process_on_master_and_sync_by_pickle func peers cache_arg cache_kwarg ctx args kwargs st) in
  fst (process_on_master_and_sync_by_pickle func peers cache_arg cache_kwarg ctx args kwargs st) = Ok artifact
  /\ issued st st' =
       (if get_rank ctx =? 0 then [Logged (Loaded_cache_skipped (VStr p))] else [])
  /\ (forall e, In e (issued st st') -> e <> Barrier /\ forall a k, e <> Called a k)
  /\ files st' = files st.
Proof.
  intros Hf Hhit Hskip st'. subst st'.
  rewrite (@gate_after_filename _ _ ctx _ _ st _ Hf). cbv zeta.
  rewrite Hhit, Hskip. cbn [negb orb].
  assert (Hrun :
    io_bind (if get_rank ctx =? 0
             then log_func (Loaded_cache_skipped (VStr p)) else io_ret tt)
      (fun _ => pickle_load (VStr p)) st =
    (Ok artifact,
     mkProcess (files st)
       (trace st ++ if get_rank ctx =? 0
                    then [Logged (Loaded_cache_skipped (VStr p))] else []))).
  { unfold io_bind, log_func, emit, io_ret, pickle_load. cbn [fspath].
    destruct (get_rank ctx =? 0); cbn [files]; rewrite Hhit; [reflexivity|].
    rewrite app_nil_r. destruct st; reflexivity. }
  rewrite Hrun. cbn [fst snd files]. rewrite issued_app.
  repeat split; auto.
  - destruct (get_rank ctx =? 0); cbn [In] in H; [|contradiction].
    destruct H as [<- | []]. discriminate.
  - destruct (get_rank ctx =? 0); cbn [In] in H; [|contradiction].
    destruct H as [<- | []]. discriminate.
Qed.

(** C10.  The wrapper of [master_process_only]: on rank 0 it calls the
    wrapped function and returns (or raises) what the function does,
    without calling [synchronize]; on any other rank it does not call the
    function, calls [synchronize] (a barrier when the world size exceeds
    one) and returns [None].  So in a job of several workers the sequence
    of collective calls of rank 0, which is empty, differs from that of
    every other rank, which is one barrier. *)
Theorem master_process_only_ranks args kwargs :
  (forall ctx st, get_rank ctx = 0 ->
     fst (master_process_only func peers ctx args kwargs st) = fst (func args kwargs (files st))
     /\ files (snd (master_process_only func peers ctx args kwargs st))
        = snd (func args kwargs (files st))
     /\ issued st (snd (master_process_only func peers ctx args kwargs st))
        = [Called args kwargs])
  /\ (forall ctx st, get_rank ctx <> 0 ->
     fst (master_process_only func peers ctx args kwargs st) = Ok VNone
     /\ issued st (snd (master_process_only func peers ctx args kwargs st))
        = if 1 <? world_size ctx then [Barrier] else [])
  /\ (forall ctx0 ctx1 st0 st1,
     get_rank ctx0 = 0 -> get_rank ctx1 <> 0 ->
     world_size ctx0 = world_size ctx1 -> 1 < world_size ctx0 ->
     collectives (issued st0 (snd (master_process_only func peers ctx0 args kwargs st0))) = []
     /\ collectives (issued st1 (snd (master_process_only func peers ctx1 args kwargs st1)))
        = [Barrier]).
Proof.
  assert (Hmaster : forall ctx st, get_rank ctx = 0 ->
     fst (master_process_only func peers ctx args kwargs st) = fst (func args kwargs (files st))
     /\ files (snd (master_process_only func peers ctx args kwargs st))
        = snd (func args kwargs (files st))
     /\ issued st (snd (master_process_only func peers ctx args kwargs st))
        = [Called args kwargs]).
  { intros ctx st Hr. unfold master_process_only. rewrite Hr. cbn [Nat.eqb].
    unfold io_bind, call, io_ret.
    destruct (func args kwargs (files st)) as [[r|e] fs]; cbn [fst snd files];
      rewrite issued_app; auto. }
  assert (Hother : forall ctx st, get_rank ctx <> 0 ->
     fst (master_process_only func peers ctx args kwargs st) = Ok VNone
     /\ issued st (snd (master_process_only func peers ctx args kwargs st))
        = if 1 <? world_size ctx then [Barrier] else []).
  { intros ctx st Hr. unfold master_process_only.
    apply Nat.eqb_neq in Hr. rewrite Hr.
    unfold io_bind. rewrite synchronize_run. unfold io_ret. cbn [fst snd].
    destruct (1 <? world_size ctx); rewrite ?issued_app, ?issued_same; auto. }
  split; [exact Hmaster|]. split; [exact Hother|].
  intros ctx0 ctx1 st0 st1 H0 H1 Hws Hmany.
  destruct (Hmaster ctx0 st0 H0) as (_ & _ & ->).
  destruct (Hother ctx1 st1 H1) as (_ & ->).
  rewrite <- Hws. apply Nat.ltb_lt in Hmany. rewrite Hmany. split; reflexivity.
Qed.
End GatingFacts.

(* ================================================================== *)
(** * Containers without leaves, and buffers without entries *)
(* ================================================================== *)

Section Leafless.
Context {TL : TensorLib}.

Lemma normalize_dict items :
  normalize (PyDict items) = PyDict (map (fun kv => (fst kv, normalize (snd kv))) items).
Proof.
  cbn [normalize]. f_equal. apply map_ext. now intros [k v].
Qed.

Lemma flat_map_nil {A B} (f : A -> list B) (l : list A) :
  flat_map f l = [] -> Forall (fun x => f x = []) l.
Proof.
  induction l as [|x l IH]; intros H; constructor.
  - cbn [flat_map] in H. now apply app_eq_nil in H.
  - apply IH. cbn [flat_map] in H. now apply app_eq_nil in H.
Qed.

Lemma write_children_leafless elems :
  Forall (fun obj => forall values sizes,
            _recursive_write obj values sizes = Ok (normalize obj, values, sizes)) elems ->
  forall acc values sizes,
    write_children elems acc values sizes = Ok (PyList (acc ++ map normalize elems), values, sizes).
Proof.
  induction 1 as [|v rest Hv _ IH]; intros acc values sizes.
  - cbn [map]. now rewrite app_nil_r.
  - rewrite write_children_cons, Hv. cbn [rbind]. rewrite IH.
    cbn [map]. now rewrite <- app_assoc.
Qed.

Lemma write_items_leafless items :
  Forall (fun kv => forall values sizes,
            _recursive_write (snd kv) values sizes
            = Ok (normalize (snd kv), values, sizes)) items ->
  forall acc values sizes,
    NoDup (map fst acc ++ map fst items) ->
    write_items items acc values sizes
    = Ok (PyDict (acc ++ map (fun kv => (fst kv, normalize (snd kv))) items), values, sizes).
Proof.
  induction 1 as [|[k v] rest Hv _ IH]; intros acc values sizes Hnd.
  - cbn [map]. now rewrite app_nil_r.
  - rewrite write_items_cons. cbn [snd] in Hv. rewrite Hv. cbn [rbind].
    cbn [map fst] in Hnd.
    rewrite dict_set_fresh.
    + rewrite IH.
      * cbn [map fst snd]. now rewrite <- app_assoc.
      * rewrite map_app. cbn [map fst]. now rewrite <- app_assoc.
    + apply NoDup_remove_2 in Hnd. intros Hin. apply Hnd. apply in_or_app. now left.
Qed.

(** A container without leaves is rebuilt without a look at the buffers
    or the size table, which stay as they are. *)
Lemma write_leafless obj :
  supported obj = true -> distinct_keys obj = true -> leaves obj = [] ->
  forall values sizes, _recursive_write obj values sizes = Ok (normalize obj, values, sizes).
Proof.
  induction obj as [t|items IH|elems IH|elems IH|s] using pyobj_ind; intros Hs Hd Hl.
  - discriminate.
  - intros values sizes. rewrite write_dict_eq, normalize_dict.
    rewrite supported_dict in Hs. rewrite distinct_keys_dict in Hd.
    rewrite leaves_dict in Hl. apply andb_true_iff in Hd as [Hk Hd].
    rewrite forallb_forall in Hs, Hd. apply flat_map_nil in Hl. rewrite Forall_forall in Hl.
    rewrite (write_items_leafless items).
    + reflexivity.
    + apply Forall_forall. intros kv Hin. rewrite Forall_forall in IH.
      assert (Hv : In (snd kv) (map snd items)) by now apply in_map.
      apply (IH kv Hin); [now apply Hs | now apply Hd | now apply Hl].
    + cbn [map app]. now apply all_distinct_NoDup.
  - intros values sizes. rewrite write_list_eq. cbn [supported distinct_keys leaves] in *.
    rewrite forallb_forall in Hs, Hd. apply flat_map_nil in Hl. rewrite Forall_forall in Hl.
    rewrite (write_children_leafless elems); [reflexivity|].
    apply Forall_forall. intros v Hin. rewrite Forall_forall in IH.
    apply (IH v Hin); [now apply Hs | now apply Hd | now apply Hl].
  - intros values sizes. rewrite write_tuple_eq. cbn [supported distinct_keys leaves] in *.
    rewrite forallb_forall in Hs, Hd. apply flat_map_nil in Hl. rewrite Forall_forall in Hl.
    rewrite (write_children_leafless elems); [reflexivity|].
    apply Forall_forall. intros v Hin. rewrite Forall_forall in IH.
    apply (IH v Hin); [now apply Hs | now apply Hd | now apply Hl].
  - discriminate.
Qed.

Lemma write_children_nothing elems :
  Forall (fun obj => supported obj = true -> distinct_keys obj = true -> leaves obj <> [] ->
                     _recursive_write obj [] None = Err KeyError) elems ->
  forallb supported elems = true -> forallb distinct_keys elems = true ->
  flat_map leaves elems <> [] ->
  forall acc, write_children elems acc [] None = Err KeyError.
Proof.
  induction 1 as [|v rest Hv _ IH]; intros Hs Hd Hl acc; [now contradiction Hl|].
  cbn [forallb flat_map] in *.
  apply andb_true_iff in Hs as [Hsv Hsr]. apply andb_true_iff in Hd as [Hdv Hdr].
  rewrite write_children_cons.
  destruct (leaves v) as [|t ts] eqn:Ev.
  - rewrite (write_leafless v Hsv Hdv Ev). cbn [rbind]. now apply IH.
  - rewrite Hv; [reflexivity | exact Hsv | exact Hdv | discriminate].
Qed.

(** From buffers without entries the first leaf cannot be served. *)
Lemma write_nothing obj :
  supported obj = true -> distinct_keys obj = true -> leaves obj <> [] ->
  _recursive_write obj [] None = Err KeyError.
Proof.
  induction obj as [t|items IH|elems IH|elems IH|s] using pyobj_ind; intros Hs Hd Hl.
  - reflexivity.
  - rewrite write_dict_eq. rewrite supported_dict in Hs. rewrite distinct_keys_dict in Hd.
    rewrite leaves_dict in Hl. apply andb_true_iff in Hd as [Hk Hd].
    apply all_distinct_NoDup in Hk.
    assert (G : forall acc, NoDup (map fst acc ++ map fst items) ->
                  write_items items acc [] None = Err KeyError).
    { clear Hk. induction items as [|[k v] rest IHr]; intros acc Hnd; [now contradiction Hl|].
      cbn [map forallb flat_map fst snd] in *.
      apply andb_true_iff in Hs as [Hsv Hsr]. apply andb_true_iff in Hd as [Hdv Hdr].
      apply Forall_cons_iff in IH as [IHv IHrest]. cbn [snd] in IHv.
      rewrite write_items_cons.
      destruct (leaves v) as [|t ts] eqn:Ev.
      - rewrite (write_leafless v Hsv Hdv Ev). cbn [rbind].
        rewrite dict_set_fresh.
        + apply IHr; try assumption.
          rewrite map_app. cbn [map fst]. now rewrite <- app_assoc.
        + apply NoDup_remove_2 in Hnd. intros Hin. apply Hnd. apply in_or_app. now left.
      - rewrite IHv; [reflexivity | exact Hsv | exact Hdv | discriminate]. }
    apply G. exact Hk.
  - rewrite write_list_eq. cbn [supported distinct_keys leaves] in *.
    now apply write_children_nothing.
  - rewrite write_tuple_eq. cbn [supported distinct_keys leaves] in *.
    now apply write_children_nothing.
  - discriminate.
Qed.
End Leafless.

(* ================================================================== *)
(** * The collectives on one worker: errors and calls that are not made *)
(* ================================================================== *)

Section Programs.
Context {TL : TensorLib}.

Lemma flattened_cons t ls :
  flattened (t :: ls)
  = (tdtype t, flat_buffer (tdtype t) (t :: ls))
    :: map (fun d => (d, flat_buffer d (t :: ls)))
           (filter (fun d => negb (dtype_eqb d (tdtype t))) (dtypes_of ls)).
Proof. reflexivity. Qed.

(** X1. From buffers without entries ([values = {}]) the rebuild returns
    the container (its tuples as lists) when it has no leaf, and fails with
    KeyError, at the lookup of the first leaf's dtype, when it has one. *)
Theorem rebuild_from_empty_buffers obj :
  supported obj = true -> distinct_keys obj = true ->
  rebuild obj []
  = match leaves obj with
    | [] => Ok (normalize obj)
    | _ :: _ => Err KeyError
    end.
Proof.
  intros Hs Hd. unfold rebuild. destruct (leaves obj) as [|t ts] eqn:El.
  - now rewrite (write_leafless obj Hs Hd El).
  - rewrite (write_nothing obj Hs Hd); [reflexivity | now rewrite El].
Qed.

(** X2. A container that holds a node which is neither a tensor nor a dict,
    list or tuple makes each collective raise the error of the walker
    before it calls the backend, whatever the operator, the destination
    and the state of the process group. *)
Theorem collectives_reject_unsupported ctx obj op dst :
  supported obj = false ->
  reduce ctx obj op dst = Raise ValueError_UnknownType
  /\ stack ctx obj dst = Raise ValueError_UnknownType
  /\ cat ctx obj dst = Raise ValueError_UnknownType.
Proof.
  intros Hs. unfold reduce, stack, cat, flatten_container.
  now rewrite (read_unsupported obj Hs).
Qed.

(** X3. An operator name that is not [mean] and whose upper case is not an
    attribute of [dist.ReduceOp] makes [reduce] raise AttributeError after
    the container is flattened and before any call of the backend.  The
    upper case is that of [str.upper]: the capital of each letter for a
    name within ASCII, the table of the interpreter for another.  The
    test for [mean] is on the name as given, so [MEAN] is such a name. *)
Theorem reduce_unknown_operator ctx obj op dst :
  supported obj = true ->
  String.eqb op "mean" = false ->
  ReduceOp_getattr (upper op) = Err AttributeError ->
  reduce ctx obj op dst = Raise AttributeError.
Proof.
  intros Hs Hm Ho. unfold reduce. rewrite (flatten_container_ok obj Hs).
  cbn [lift cbind]. now rewrite Hm, Ho.
Qed.

Lemma stack_without_group ctx obj dst :
  group_ready ctx = false -> supported obj = true -> leaves obj <> [] ->
  rank ctx < world_size ctx ->
  stack ctx obj dst = Raise ValueError_GroupNotInitialized.
Proof.
  intros Hg Hs Hl Hr. unfold stack. rewrite (flatten_container_ok obj Hs).
  destruct (leaves obj) as [|t ts]; [congruence|].
  rewrite flattened_cons. cbn [lift cbind for_each]. unfold stack_body.
  cbn [fst snd]. unfold set_index0, th_zeros, get_world_size, get_rank.
  cbn [tshape tdata tdtype flat_buffer].
  replace (world_size ctx <=? rank ctx) with false by (symmetry; apply Nat.leb_gt; exact Hr).
  match goal with |- context [list_eq_dec Nat.eq_dec ?a ?b] =>
    destruct (list_eq_dec Nat.eq_dec a b) as [_|Hne]; [|congruence]
  end.
  cbn [lift cbind]. unfold get_group. now rewrite Hg.
Qed.

(** X4. While the process group is not initialised, each collective on a
    container with at least one leaf raises the ValueError of [get_group]
    before it calls the backend; [cat] raises it from the [stack] of its
    size table. *)
Theorem collectives_need_process_group ctx obj dst :
  group_ready ctx = false -> supported obj = true -> leaves obj <> [] ->
  (forall op rop,
     ReduceOp_getattr (upper (if String.eqb op "mean" then "sum"%string else op)) = Ok rop ->
     reduce ctx obj op dst = Raise ValueError_GroupNotInitialized)
  /\ (rank ctx < world_size ctx ->
      stack ctx obj dst = Raise ValueError_GroupNotInitialized
      /\ cat ctx obj dst = Raise ValueError_GroupNotInitialized).
Proof.
  intros Hg Hs Hl. split.
  - intros op rop Hop. unfold reduce. rewrite (flatten_container_ok obj Hs).
    cbn [lift cbind]. rewrite Hop. cbn [lift cbind].
    destruct (leaves obj) as [|t ts]; [congruence|].
    rewrite flattened_cons. cbn [for_each cbind]. unfold reduce_body.
    cbn [fst snd]. unfold get_group. now rewrite Hg.
  - intros Hr. split; [now apply stack_without_group|].
    destruct (read_sizes_ok obj Hs) as (values & sizes & Er & _ & Es).
    unfold cat. rewrite Er. cbn [lift cbind]. rewrite Es. cbn [lift cbind].
    fold (sizes_obj (leaves obj)).
    rewrite (stack_without_group ctx (sizes_obj (leaves obj)) None Hg);
      [reflexivity | apply sizes_obj_supported | | exact Hr].
    rewrite sizes_obj_leaves. destruct (leaves obj); [congruence | discriminate].
Qed.

Lemma stack_leafless ctx obj dst :
  supported obj = true -> distinct_keys obj = true -> leaves obj = [] ->
  stack ctx obj dst = Ret (normalize obj).
Proof.
  intros Hs Hd Hl. unfold stack. rewrite (flatten_container_ok obj Hs), Hl.
  cbn [flattened dtypes_of map lift cbind for_each]. unfold rebuild.
  now rewrite (write_leafless obj Hs Hd Hl).
Qed.

Lemma cat_leafless ctx obj dst :
  supported obj = true -> distinct_keys obj = true -> leaves obj = [] ->
  cat ctx obj dst = Ret (normalize obj).
Proof.
  intros Hs Hd Hl.
  destruct (read_sizes_ok obj Hs) as (values & sizes & Er & Ev & Es).
  unfold cat. rewrite Er. cbn [lift cbind]. rewrite Es, Ev, Hl. cbn [lift cbind].
  change (stack ctx (py_of_ddict (size_table [])) None) with (@Ret TL pyobj (PyDict [])).
  cbn [cbind for_each dtypes_of map].
  change (sum_sizes (PyDict [])) with (@Ok (ddict tensor) []).
  cbn [lift cbind]. now rewrite (write_leafless obj Hs Hd Hl).
Qed.

Lemma reduce_leafless ctx obj op rop dst :
  supported obj = true -> distinct_keys obj = true -> leaves obj = [] ->
  ReduceOp_getattr (upper (if String.eqb op "mean" then "sum"%string else op)) = Ok rop ->
  reduce ctx obj op dst = Ret (normalize obj).
Proof.
  intros Hs Hd Hl Hop. unfold reduce. rewrite (flatten_container_ok obj Hs), Hl.
  cbn [flattened dtypes_of map lift cbind]. rewrite Hop.
  cbn [lift cbind for_each]. unfold rebuild.
  now rewrite (write_leafless obj Hs Hd Hl).
Qed.

(** X5. On a container without leaves (an empty list, a dict of empty
    lists, ...) no collective calls the backend or looks at the process
    group: each returns the container, its tuples as lists; [reduce] still
    looks the operator up first. *)
Theorem collectives_skip_leafless ctx obj dst :
  supported obj = true -> distinct_keys obj = true -> leaves obj = [] ->
  stack ctx obj dst = Ret (normalize obj)
  /\ cat ctx obj dst = Ret (normalize obj)
  /\ (forall op rop,
        ReduceOp_getattr (upper (if String.eqb op "mean" then "sum"%string else op)) = Ok rop ->
        reduce ctx obj op dst = Ret (normalize obj))
  /\ (forall op,
        ReduceOp_getattr (upper (if String.eqb op "mean" then "sum"%string else op))
        = Err AttributeError ->
        reduce ctx obj op dst = Raise AttributeError).
Proof.
  intros Hs Hd Hl. split; [|split; [|split]].
  - now apply stack_leafless.
  - now apply cat_leafless.
  - intros op rop Hop. now apply (reduce_leafless ctx obj op rop dst).
  - intros op Hop. unfold reduce. rewrite (flatten_container_ok obj Hs).
    cbn [lift cbind]. now rewrite Hop.
Qed.
End Programs.

(* ================================================================== *)
(** * What the walker and the flattening return *)
(* ================================================================== *)

Section Walked.
Context {TL : TensorLib}.

(** X6. On a container of tensors, dicts, lists and tuples the walker
    returns two dicts with the same keys: the dtypes of the leaves, each
    once, in the order in which the traversal first meets them.  Under a
    dtype the first dict lists the leaves of that dtype, flattened, in
    traversal order, and the second a one-element tensor with the element
    count of each. *)
Theorem walker_buckets_leaves_by_dtype obj :
  supported obj = true ->
  let ls := leaves obj in
  _recursive_read obj
  = Ok (map (fun d => (d, map flatten (filter (has_dtype d) ls))) (dtypes_of ls),
        map (fun d => (d, map (fun t => size_tensor (numel t)) (filter (has_dtype d) ls)))
            (dtypes_of ls))
  /\ NoDup (dtypes_of ls)
  /\ (forall d, In d (dtypes_of ls) <-> exists t, In t ls /\ tdtype t = d)
  /\ dtypes_of ls = match ls with
                    | [] => []
                    | t :: rest =>
                        tdtype t :: filter (fun d => negb (dtype_eqb d (tdtype t)))
                                           (dtypes_of rest)
                    end.
Proof.
  intros Hs ls. destruct (read_ok obj Hs) as (values & sizes & E & Hv & Hz).
  rewrite E, (Buckets_eta _ _ _ Hv), (Buckets_eta _ _ _ Hz).
  split; [reflexivity|]. split; [apply NoDup_dtypes_of|]. split.
  - intros d. apply in_dtypes_of.
  - now destruct ls.
Qed.

(** X7. Flattening returns one vector per dtype, keyed in the order of
    first occurrence: the elements of the leaves of that dtype, one leaf
    after the other in traversal order; its length is the sum of their
    element counts. *)
Theorem flatten_concatenates_by_dtype obj :
  supported obj = true ->
  let ls := leaves obj in
  flatten_container obj
  = Ok (map (fun d =>
               (d, mkTensor d [list_sum (map numel (filter (has_dtype d) ls))]
                     (concat (map tdata (filter (has_dtype d) ls)))))
            (dtypes_of ls))
  /\ forall d, Forall wf_tensor ls ->
       length (concat (map tdata (filter (has_dtype d) ls)))
       = list_sum (map numel (filter (has_dtype d) ls)).
Proof.
  intros Hs ls. split; [exact (flatten_container_ok obj Hs)|].
  intros d Hwf. rewrite length_concat, map_map. f_equal.
  apply map_ext_in. intros t Ht. apply filter_In in Ht as [Ht _].
  rewrite Forall_forall in Hwf. exact (Hwf t Ht).
Qed.

Lemma fill_children_leaves elems :
  Forall (fun obj => forall news, length news = length (leaves obj) ->
                       leaves (fst (fill obj news)) = news) elems ->
  forall news, length news = length (flat_map leaves elems) ->
    flat_map leaves (fst (fill_children elems news)) = news.
Proof.
  induction 1 as [|v rest Hv _ IH]; intros news Hlen.
  - destruct news; [reflexivity | discriminate].
  - cbn [flat_map] in Hlen. rewrite length_app in Hlen.
    rewrite <- (firstn_skipn (length (leaves v)) news).
    assert (H1 : length (firstn (length (leaves v)) news) = length (leaves v))
      by (rewrite length_firstn; lia).
    assert (H2 : length (skipn (length (leaves v)) news) = length (flat_map leaves rest))
      by (rewrite length_skipn; lia).
    assert (Hone : prod [] <> 0) by discriminate.
    rewrite fill_children_cons, (fill_app [] Hone v _ _ H1).
    destruct (fill_children rest (skipn (length (leaves v)) news)) as [more' left] eqn:E.
    cbn [fst flat_map]. rewrite (Hv _ H1). f_equal.
    specialize (IH _ H2). now rewrite E in IH.
Qed.

(** The leaves of a container filled with new leaves are the new
    leaves. *)
Lemma fill_leaves obj :
  forall news, length news = length (leaves obj) -> leaves (fst (fill obj news)) = news.
Proof.
  induction obj as [t|items IH|elems IH|elems IH|s] using pyobj_ind; intros news Hlen.
  - destruct news as [|n [|? ?]]; try discriminate. reflexivity.
  - rewrite leaves_dict in Hlen. rewrite fill_dict_eq, fill_items_children.
    cbn [fst]. rewrite leaves_dict.
    assert (Hc : length (fst (fill_children (map snd items) news)) = length items).
    { clear. revert news. induction items as [|[k v] rest IHr]; intros news; [reflexivity|].
      cbn [map snd]. rewrite fill_children_cons.
      destruct (fill v news) as [v' n1]. specialize (IHr n1).
      destruct (fill_children (map snd rest) n1). cbn [fst length] in *. now rewrite IHr. }
    assert (Hs : map snd (List.combine (map fst items)
                            (fst (fill_children (map snd items) news)))
                 = fst (fill_children (map snd items) news)).
    { revert Hc. generalize (fst (fill_children (map snd items) news)). clear.
      induction items as [|[k v] rest IHr]; intros l Hl; destruct l; try discriminate;
        [reflexivity|]. cbn [map fst List.combine snd]. f_equal. apply IHr.
      cbn in Hl. lia. }
    rewrite Hs. apply fill_children_leaves; [|exact Hlen].
    apply Forall_map. exact IH.
  - rewrite fill_list_eq.
    destruct (fill_children elems news) as [e r] eqn:E. cbn [fst leaves].
    pose proof (fill_children_leaves elems IH news Hlen) as H. now rewrite E in H.
  - rewrite fill_tuple_eq.
    destruct (fill_children elems news) as [e r] eqn:E. cbn [fst leaves].
    pose proof (fill_children_leaves elems IH news Hlen) as H. now rewrite E in H.
  - destruct news; [reflexivity | discriminate].
Qed.

Lemma per_leaf_length F (rows : list (list tensor)) ls :
  length (per_leaf F rows ls) = length ls.
Proof. unfold per_leaf. now rewrite length_map, length_seq. Qed.
End Walked.

(* ================================================================== *)
(** * What the workers of one job get *)
(* ================================================================== *)

Section Agreement.
Context {TL : TensorLib}.
Hypothesis int64_roundtrip :
  forall z, (0 <= z < 2 ^ 63)%Z -> to_int (of_int z) = z.
Hypothesis add_zero_l : forall d x, reduce_elem SUM d (zero d) x = x.
Hypothesis add_zero_r : forall d x, reduce_elem SUM d x (zero d) = x.
Hypothesis bool_roundtrip : forall x, cast th_uint8 th_bool (cast th_bool th_uint8 x) = x.

Variable objs : list pyobj.
Hypothesis all_supported : Forall (fun o => supported o = true) objs.
Hypothesis all_distinct_keys : Forall (fun o => distinct_keys o = true) objs.
Hypothesis all_leaf_ok : Forall (fun o => Forall leaf_ok (leaves o)) objs.

Lemma per_leaf_ext (F G : list tensor -> tensor -> tensor) rows (la lb : list tensor) :
  length la = length lb ->
  (forall j, j < length la ->
     F (column rows j) (nth j la no_tensor) = G (column rows j) (nth j lb no_tensor)) ->
  per_leaf F rows la = per_leaf G rows lb.
Proof.
  intros Hlen H. unfold per_leaf. rewrite <- Hlen. apply map_ext_in.
  intros j Hj. apply in_seq in Hj. apply H. lia.
Qed.

(** X8. Let the workers hold containers of tensors, dicts with distinct
    keys, lists and tuples whose leaves agree, position by position, in
    dtype and element count, no leaf with an axis of length zero after the
    first, every leaf with fewer than 2^63 elements, and let the operator
    be one the backend knows.  With dst unset, Reduce and Stack then leave
    every worker with the same values: the leaves two workers get back
    agree in dtype and in their elements (each worker keeps the shapes of
    its own leaves).  Of the tensor library the statement takes that
    adding zero changes no element, that a size survives its int64, and a
    bool the byte it travels as. *)
Theorem reduce_and_stack_agree_across_workers op rop r s a b :
  aligned leaf_sig objs ->
  ReduceOp_getattr (upper (if String.eqb op "mean" then "sum"%string else op)) = Ok rop ->
  nth_error objs r = Some a -> nth_error objs s = Some b ->
  (exists out_a out_b,
     nth_error (spmd (fun ctx o => reduce ctx o op None) true objs) r = Some (Returned out_a)
     /\ nth_error (spmd (fun ctx o => reduce ctx o op None) true objs) s
        = Some (Returned out_b)
     /\ map tdtype (leaves out_a) = map tdtype (leaves out_b)
     /\ map tdata (leaves out_a) = map tdata (leaves out_b))
  /\ (exists out_a out_b,
        nth_error (spmd (fun ctx o => stack ctx o None) true objs) r = Some (Returned out_a)
        /\ nth_error (spmd (fun ctx o => stack ctx o None) true objs) s
           = Some (Returned out_b)
        /\ map tdtype (leaves out_a) = map tdtype (leaves out_b)
        /\ map tdata (leaves out_a) = map tdata (leaves out_b)).
Proof.
  intros Hal Hop Hr Hs.
  assert (Ha : In a objs) by (now apply nth_error_In in Hr).
  assert (Hb : In b objs) by (now apply nth_error_In in Hs).
  pose proof (aligned_length objs Hal a b Ha Hb) as Hlen.
  assert (Hdt : forall j, tdtype (nth j (leaves a) no_tensor)
                          = tdtype (nth j (leaves b) no_tensor)).
  { intros j. apply (map_eq_nth tdtype). now apply (aligned_dtypes objs Hal). }
  split.
  - exists (fst (fill a (per_leaf (reduced_leaf rop (String.eqb op "mean") (length objs))
                           (map leaves objs) (leaves a)))),
           (fst (fill b (per_leaf (reduced_leaf rop (String.eqb op "mean") (length objs))
                           (map leaves objs) (leaves b)))).
    split; [|split].
    + exact (reduce_spmd int64_roundtrip objs all_supported all_distinct_keys all_leaf_ok
               Hal rop _ None op r a Hop eq_refl Hr (or_introl eq_refl)).
    + exact (reduce_spmd int64_roundtrip objs all_supported all_distinct_keys all_leaf_ok
               Hal rop _ None op s b Hop eq_refl Hs (or_introl eq_refl)).
    + rewrite !fill_leaves by apply per_leaf_length.
      unfold per_leaf. rewrite !map_map, <- Hlen. split.
      * apply map_ext. intros j. unfold reduced_leaf, as_rebuilt. cbn [tdtype].
        rewrite !tensor_type_dtype. apply Hdt.
      * apply map_ext. intros j. rewrite !(reduced_leaf_data objs).
        unfold leaf_reduction. cbn [tdata]. now rewrite (Hdt j).
  - exists (fst (fill a (per_leaf stacked_leaf (map leaves objs) (leaves a)))),
           (fst (fill b (per_leaf stacked_leaf (map leaves objs) (leaves b)))).
    split; [|split].
    + exact (stack_spmd int64_roundtrip add_zero_l add_zero_r bool_roundtrip objs
               all_supported all_distinct_keys all_leaf_ok Hal None r a Hr (or_introl eq_refl)).
    + exact (stack_spmd int64_roundtrip add_zero_l add_zero_r bool_roundtrip objs
               all_supported all_distinct_keys all_leaf_ok Hal None s b Hs (or_introl eq_refl)).
    + rewrite !fill_leaves by apply per_leaf_length.
      unfold per_leaf. rewrite !map_map, <- Hlen. split.
      * apply map_ext. intros j. cbn [stacked_leaf tdtype]. apply Hdt.
      * apply map_ext. intros j. reflexivity.
Qed.

(** X9. Let the workers hold containers of tensors, dicts with distinct
    keys, lists and tuples whose leaves agree, position by position, in
    dtype and in the axes after the first, no leaf with an axis of length
    zero after the first, and the numbers of leaves and of elements below
    2^63.  With dst unset, Cat then leaves every worker with the same
    leaves: dtypes, shapes and elements.  Of the tensor library the
    statement takes that adding zero changes no element, that a size
    survives its int64, and a bool the byte it travels as. *)
Theorem cat_agrees_across_workers r s a b :
  aligned cat_sig objs ->
  Forall (fun o => (Z.of_nat (length (leaves o)) < 2 ^ 63)%Z) objs ->
  (forall o d, In o objs ->
     (Z.of_nat (list_sum (map (fun j => list_sum (map numel (column (map leaves objs) j)))
                              (positions d (leaves o)))) < 2 ^ 63)%Z) ->
  nth_error objs r = Some a -> nth_error objs s = Some b ->
  exists out_a out_b,
    nth_error (spmd (fun ctx o => cat ctx o None) true objs) r = Some (Returned out_a)
    /\ nth_error (spmd (fun ctx o => cat ctx o None) true objs) s = Some (Returned out_b)
    /\ leaves out_a = leaves out_b.
Proof.
  intros Hal Hcount Hbound Hr Hs.
  assert (Ha : In a objs) by (now apply nth_error_In in Hr).
  assert (Hb : In b objs) by (now apply nth_error_In in Hs).
  exists (fst (fill a (per_leaf cat_leaf (map leaves objs) (leaves a)))),
         (fst (fill b (per_leaf cat_leaf (map leaves objs) (leaves b)))).
  split; [|split].
  - exact (cat_spmd int64_roundtrip add_zero_l add_zero_r bool_roundtrip objs
             all_supported all_distinct_keys all_leaf_ok Hal Hcount Hbound None r a Hr
             (or_introl eq_refl)).
  - exact (cat_spmd int64_roundtrip add_zero_l add_zero_r bool_roundtrip objs
             all_supported all_distinct_keys all_leaf_ok Hal Hcount Hbound None s b Hs
             (or_introl eq_refl)).
  - rewrite !fill_leaves by apply per_leaf_length.
    apply per_leaf_ext; [exact (cat_length objs Hal a b Ha Hb)|].
    intros j _. unfold cat_leaf. f_equal.
    + apply (map_eq_nth tdtype). exact (cat_dtypes objs Hal a b Ha Hb).
    + unfold rebuilt_shape. now rewrite (cat_trailing objs Hal a b j Ha Hb).
Qed.
End Agreement.

(* ================================================================== *)
(** * A job of one worker *)
(* ================================================================== *)

Lemma list_sum_filter_le {A} (f : A -> nat) (p : A -> bool) (l : list A) :
  list_sum (map f (filter p l)) <= list_sum (map f l).
Proof.
  induction l as [|x l IH]; [reflexivity|]. cbn [filter map].
  destruct (p x); cbn [map]; change (list_sum (?a :: ?b)) with (a + list_sum b); lia.
Qed.

Lemma lockstep_alone {TL : TensorLib} {A} (p : comm A) : length (lockstep p []) = 1.
Proof.
  induction p as [a|e|op dst buf k IH]; [reflexivity | reflexivity |].
  cbn [lockstep gather forallb resume map]. apply IH.
Qed.

Section Alone.
Context {TL : TensorLib}.
Hypothesis int64_roundtrip :
  forall z, (0 <= z < 2 ^ 63)%Z -> to_int (of_int z) = z.
Hypothesis add_zero_l : forall d x, reduce_elem SUM d (zero d) x = x.
Hypothesis add_zero_r : forall d x, reduce_elem SUM d x (zero d) = x.
Hypothesis bool_roundtrip : forall x, cast th_uint8 th_bool (cast th_bool th_uint8 x) = x.

Variable obj : pyobj.
Hypothesis obj_supported : supported obj = true.
Hypothesis obj_distinct_keys : distinct_keys obj = true.
Hypothesis obj_leaf_ok : Forall leaf_ok (leaves obj).

Lemma alone_aligned {S} (sig : tensor -> S) : aligned sig [obj].
Proof. intros a b [<-|[]] [<-|[]]. reflexivity. Qed.

Lemma per_leaf_alone F (G : tensor -> tensor) :
  (forall t, In t (leaves obj) -> F [t] t = G t) ->
  per_leaf F (map leaves [obj]) (leaves obj) = map G (leaves obj).
Proof.
  intros H. unfold per_leaf. apply (map_seq_nth G _ (leaves obj) no_tensor).
  intros j Hj. cbn [map column]. apply H. now apply nth_In.
Qed.

Lemma unwire_one (t : tensor) :
  tensor_type (mkTensor (wire_dtype (tdtype t)) (tshape t) (wire_data t)) (tdtype t) = t.
Proof.
  apply tensor_ext.
  - now rewrite tensor_type_dtype.
  - now rewrite tensor_type_shape.
  - pose proof (unwire_list bool_roundtrip [t] (tdtype t) (tshape t)
                  (Forall_cons _ eq_refl (Forall_nil _))) as H.
    cbn [map concat] in H. now rewrite !app_nil_r in H.
Qed.

Lemma fill_own : fst (fill obj (map as_rebuilt (leaves obj))) = normalize obj.
Proof.
  pose proof (fill_normalize obj []) as F. rewrite app_nil_r in F. now rewrite F.
Qed.

(** X10. In a job of a single worker whose process group is initialised,
    on a container of tensors, dicts with distinct keys, lists and tuples
    in which no leaf has an axis of length zero after the first and every
    leaf holds fewer than 2^63 elements, Reduce with any operator the
    backend knows but [mean] returns the container as the round trip does
    (tuples as lists, a leaf without axes as a vector of one element), and
    so does Cat when the numbers of leaves and of elements are below 2^63;
    Stack returns it with every leaf under a new leading axis of length 1.
    Of the tensor library the statement takes that adding zero changes no
    element, that a size survives its int64, and a bool the byte it
    travels as. *)
Theorem single_worker_collectives dst :
  dst = None \/ dst = Some 0 ->
  (forall op rop,
     String.eqb op "mean" = false ->
     ReduceOp_getattr (upper op) = Ok rop ->
     spmd (fun ctx o => reduce ctx o op dst) true [obj] = [Returned (normalize obj)])
  /\ spmd (fun ctx o => stack ctx o dst) true [obj]
     = [Returned (fst (fill obj
          (map (fun t => mkTensor (tdtype t) (rebuilt_shape [1] (numel t) (tshape t)) (tdata t))
               (leaves obj))))]
  /\ ((Z.of_nat (length (leaves obj)) < 2 ^ 63)%Z ->
      (Z.of_nat (list_sum (map numel (leaves obj))) < 2 ^ 63)%Z ->
      spmd (fun ctx o => cat ctx o dst) true [obj] = [Returned (normalize obj)]).
Proof.
  intros Hdst.
  assert (Hs : Forall (fun o => supported o = true) [obj]) by (now constructor).
  assert (Hd : Forall (fun o => distinct_keys o = true) [obj]) by (now constructor).
  assert (Hl : Forall (fun o => Forall leaf_ok (leaves o)) [obj]) by (now constructor).
  assert (Hone : forall (l : list (outcome pyobj)) x,
            length l = 1 -> nth_error l 0 = Some x -> l = [x]).
  { intros [|y [|z l]] x Hlen Hx; try discriminate. cbn in Hx. congruence. }
  assert (Hlen : forall (f : context -> pyobj -> comm pyobj),
            length (spmd f true [obj]) = 1).
  { intros f. rewrite spmd_ranked. apply lockstep_alone. }
  split; [|split].
  - intros op rop Hm Hop.
    assert (Hop' : ReduceOp_getattr (upper (if String.eqb op "mean" then "sum"%string else op))
                   = Ok rop) by now rewrite Hm.
    pose proof (reduce_spmd int64_roundtrip [obj] Hs Hd Hl (alone_aligned leaf_sig)
                  rop false dst op 0 obj Hop' Hm eq_refl Hdst) as H.
    rewrite (per_leaf_alone _ as_rebuilt), fill_own in H.
    + apply Hone; [apply Hlen | exact H].
    + intros t _. unfold reduced_leaf, leaf_reduction. cbn [map reduce_buffers fold_left].
      now rewrite unwire_one.
  - pose proof (stack_spmd int64_roundtrip add_zero_l add_zero_r bool_roundtrip [obj]
                  Hs Hd Hl (alone_aligned leaf_sig) dst 0 obj eq_refl Hdst) as H.
    rewrite (per_leaf_alone _
               (fun t => mkTensor (tdtype t) (rebuilt_shape [1] (numel t) (tshape t)) (tdata t)))
      in H.
    + apply Hone; [apply Hlen | exact H].
    + intros t _. unfold stacked_leaf. cbn [map concat length]. now rewrite app_nil_r.
  - intros Hcount Htotal.
    assert (Hc : Forall (fun o => (Z.of_nat (length (leaves o)) < 2 ^ 63)%Z) [obj])
      by (now constructor).
    assert (Hb : forall o d, In o [obj] ->
              (Z.of_nat (list_sum (map (fun j => list_sum (map numel (column (map leaves [obj]) j)))
                                       (positions d (leaves o)))) < 2 ^ 63)%Z).
    { intros o d [<-|[]]. unfold positions.
      pose proof (list_sum_filter_le
                    (fun j => list_sum (map numel (column (map leaves [obj]) j)))
                    (fun j => has_dtype d (nth j (leaves obj) no_tensor))
                    (seq 0 (length (leaves obj)))) as Hle.
      assert (E : list_sum (map (fun j => list_sum (map numel (column (map leaves [obj]) j)))
                                (seq 0 (length (leaves obj))))
                  = list_sum (map numel (leaves obj))).
      { f_equal. apply (map_seq_nth numel _ (leaves obj) no_tensor).
        intros j _. cbn [map column]. change (list_sum [?x]) with (x + 0). lia. }
      lia. }
    pose proof (cat_spmd int64_roundtrip add_zero_l add_zero_r bool_roundtrip [obj]
                  Hs Hd Hl (alone_aligned cat_sig) Hc Hb dst 0 obj eq_refl Hdst) as H.
    rewrite (per_leaf_alone _ as_rebuilt), fill_own in H.
    + apply Hone; [apply Hlen | exact H].
    + intros t _. unfold cat_leaf, as_rebuilt. cbn [map concat list_sum fold_right].
      now rewrite app_nil_r, Nat.add_0_r.
Qed.
End Alone.

(* ================================================================== *)
(** * Coordinator gating: failures, bounds on the events, repeated calls *)
(* ================================================================== *)

Lemma kwargs_pop_drops_key (key : string) (default : value) (kwargs : list (string * value)) :
  dict_get String.eqb key (snd (kwargs_pop key default kwargs)) = None.
Proof.
  unfold kwargs_pop. cbn [snd].
  induction kwargs as [|[k v] rest IH]; [reflexivity|].
  cbn [filter fst]. destruct (String.eqb key k) eqn:E; cbn [negb]; [exact IH|].
  cbn [dict_get]. now rewrite E.
Qed.

Lemma args_getitem_out_of_range (i : Z) (args : list value) :
  (i < - Z.of_nat (length args) \/ Z.of_nat (length args) <= i)%Z ->
  args_getitem i args = Err IndexError.
Proof.
  intros H. unfold args_getitem. cbv zeta.
  destruct (i <? 0)%Z eqn:Hi.
  - apply Z.ltb_lt in Hi.
    destruct (i + Z.of_nat (length args) <? 0)%Z eqn:Hj; [reflexivity|].
    apply Z.ltb_ge in Hj. lia.
  - apply Z.ltb_ge in Hi.
    destruct (i <? 0)%Z eqn:Hj; [reflexivity|]. cbn [orb].
    destruct (Z.of_nat (length args) <=? i)%Z eqn:Hk; [reflexivity|].
    apply Z.leb_gt in Hk. lia.
Qed.

Section GatingMore.
Variable func : list value -> list (string * value) -> filesystem -> result value * filesystem.
Variable peers : filesystem -> filesystem.

Lemma process_eta (st : process) : mkProcess (files st) (trace st) = st.
Proof. destruct st; reflexivity. Qed.

(** What the miss branch does once the file name is known. *)
Lemma gate_miss_run_file ctx args kwargs' st f p :
  fspath f = Ok p ->
  io_bind (if get_rank ctx =? 0
           then io_bind (call func args kwargs') (fun _ => io_ret tt)
           else io_ret tt)
    (fun _ => io_bind (synchronize peers ctx)
       (fun _ => io_bind (path_exists f)
          (fun found => if found then pickle_load f
                        else io_raise AssertionError))) st =
  if get_rank ctx =? 0 then
    match fst (func args kwargs' (files st)) with
    | Ok _ =>
        let fs := snd (func args kwargs' (files st)) in
        let synced := if 1 <? world_size ctx then peers fs else fs in
        (match synced p with Some artifact => Ok artifact | None => Err AssertionError end,
         mkProcess synced
           (trace st ++ Called args kwargs' :: (if 1 <? world_size ctx then [Barrier] else [])))
    | Err e =>
        (Err e, mkProcess (snd (func args kwargs' (files st)))
                  (trace st ++ [Called args kwargs']))
    end
  else
    let synced := if 1 <? world_size ctx then peers (files st) else files st in
    (match synced p with Some artifact => Ok artifact | None => Err AssertionError end,
     mkProcess synced (trace st ++ (if 1 <? world_size ctx then [Barrier] else []))).
Proof.
  intros Hp.
  unfold synchronize, barrier, call, path_exists, pickle_load, io_raise.
  rewrite Hp. unfold io_bind, io_ret.
  destruct (get_rank ctx =? 0).
  - destruct (func args kwargs' (files st)) as [[r|e] fs1]; cbn [fst snd]; [|reflexivity].
    destruct (1 <? world_size ctx); cbn [files trace];
      [destruct (peers fs1 p) eqn:E | destruct (fs1 p) eqn:E];
      cbn [files trace]; rewrite ?E, <- ?app_assoc; reflexivity.
  - cbv zeta.
    destruct (1 <? world_size ctx); cbn [files trace];
      [destruct (peers (files st) p) eqn:E | destruct (files st p) eqn:E];
      cbn [files trace]; rewrite ?E, ?app_nil_r, ?process_eta; reflexivity.
Qed.

Lemma gate_miss_run ctx args kwargs' st p :
  io_bind (if get_rank ctx =? 0
           then io_bind (call func args kwargs') (fun _ => io_ret tt)
           else io_ret tt)
    (fun _ => io_bind (synchronize peers ctx)
       (fun _ => io_bind (path_exists (VStr p))
          (fun found => if found then pickle_load (VStr p)
                        else io_raise AssertionError))) st =
  if get_rank ctx =? 0 then
    match fst (func args kwargs' (files st)) with
    | Ok _ =>
        let fs := snd (func args kwargs' (files st)) in
        let synced := if 1 <? world_size ctx then peers fs else fs in
        (match synced p with Some artifact => Ok artifact | None => Err AssertionError end,
         mkProcess synced
           (trace st ++ Called args kwargs' :: (if 1 <? world_size ctx then [Barrier] else [])))
    | Err e =>
        (Err e, mkProcess (snd (func args kwargs' (files st)))
                  (trace st ++ [Called args kwargs']))
    end
  else
    let synced := if 1 <? world_size ctx then peers (files st) else files st in
    (match synced p with Some artifact => Ok artifact | None => Err AssertionError end,
     mkProcess synced (trace st ++ (if 1 <? world_size ctx then [Barrier] else []))).
Proof. now apply gate_miss_run_file. Qed.

(** What the hit branch does once the file name is known. *)
Lemma gate_hit_run_file ctx st f p :
  fspath f = Ok p ->
  io_bind (if get_rank ctx =? 0
           then log_func (Loaded_cache_skipped f) else io_ret tt)
    (fun _ => pickle_load f) st =
  (match files st p with Some artifact => Ok artifact | None => Err FileNotFoundError end,
   mkProcess (files st)
     (trace st ++ if get_rank ctx =? 0
                  then [Logged (Loaded_cache_skipped f)] else [])).
Proof.
  intros Hp. unfold io_bind, log_func, emit, io_ret, pickle_load. rewrite Hp.
  destruct (get_rank ctx =? 0); cbn [files];
    destruct (files st p); rewrite ?app_nil_r, ?process_eta; reflexivity.
Qed.

Lemma gate_hit_run ctx st p :
  io_bind (if get_rank ctx =? 0
           then log_func (Loaded_cache_skipped (VStr p)) else io_ret tt)
    (fun _ => pickle_load (VStr p)) st =
  (match files st p with Some artifact => Ok artifact | None => Err FileNotFoundError end,
   mkProcess (files st)
     (trace st ++ if get_rank ctx =? 0
                  then [Logged (Loaded_cache_skipped (VStr p))] else [])).
Proof. now apply gate_hit_run_file. Qed.

(** A file name that the operating system takes for no path makes
    [os.path.exists] raise. *)
Lemma gate_not_a_path cache_arg cache_kwarg ctx args kwargs st f e :
  cache_file cache_arg cache_kwarg args kwargs = Some f ->
  fspath f = Err e ->
  process_on_master_and_sync_by_pickle func peers cache_arg cache_kwarg ctx args kwargs st
  = (Err e, st).
Proof.
  unfold cache_file, process_on_master_and_sync_by_pickle. intros Hf Hp.
  assert (Hex : path_exists f st = (Err e, st)).
  { unfold path_exists. now rewrite Hp. }
  destruct cache_kwarg as [key|]; [|destruct cache_arg as [i|]; [|discriminate]].
  - destruct (kwargs_getitem key kwargs) as [f'|e']; [|discriminate].
    injection Hf as ->.
    unfold io_bind at 1. unfold io_lift. unfold io_bind at 1. unfold io_ret at 1.
    destruct (kwargs_pop "skip_cache" (VBool false) kwargs) as [skip kw'].
    unfold io_bind at 1. unfold io_ret at 1. unfold io_bind at 1. now rewrite Hex.
  - destruct (args_getitem i args) as [f'|e']; [|discriminate].
    injection Hf as ->.
    unfold io_bind at 1. unfold io_lift. unfold io_bind at 1. unfold io_ret at 1.
    destruct (kwargs_pop "skip_cache" (VBool false) kwargs) as [skip kw'].
    unfold io_bind at 1. unfold io_ret at 1. unfold io_bind at 1. now rewrite Hex.
Qed.

(** Without a file name the wrapper raises before it looks at the disk. *)
Lemma gate_no_file cache_arg cache_kwarg ctx args kwargs st :
  cache_file cache_arg cache_kwarg args kwargs = None ->
  process_on_master_and_sync_by_pickle func peers cache_arg cache_kwarg ctx args kwargs st
  = match cache_kwarg, cache_arg with
    | Some key, _ => (Err KeyError, st)
    | None, Some i => (Err IndexError, st)
    | None, None => (Err UnboundLocalError,
                     mkProcess (files st) (trace st ++ [Logged No_cache_file_specified]))
    end.
Proof.
  unfold cache_file, process_on_master_and_sync_by_pickle. intros Hf.
  destruct cache_kwarg as [key|]; [|destruct cache_arg as [i|]].
  - unfold kwargs_getitem, dict_getitem in *.
    destruct (dict_get String.eqb key kwargs); [discriminate|]. reflexivity.
  - unfold args_getitem in *. cbv zeta in *.
    destruct (_ || _)%bool; [reflexivity|].
    destruct (nth_error args _); [discriminate|reflexivity].
  - unfold io_bind at 1. unfold log_func, emit, io_bind, io_ret.
    destruct (kwargs_pop "skip_cache" (VBool false) kwargs) as [skip kw']. reflexivity.
Qed.

(** X11.  When the wrapper of [process_on_master_and_sync_by_pickle]
    cannot read a file name it fails before it looks at the disk, calls
    the wrapped function or reaches a barrier: with [KeyError] when
    [cache_kwarg] names a keyword that was not passed, with [IndexError]
    when [cache_arg] is outside the positional arguments, and, when the
    decorator was given neither (its defaults), with [UnboundLocalError]
    after the log line 'No cache file specified'. *)
Theorem gate_without_file_name ctx args kwargs st :
  (forall cache_arg key,
     dict_get String.eqb key kwargs = None ->
     process_on_master_and_sync_by_pickle func peers cache_arg (Some key) ctx args kwargs st
     = (Err KeyError, st))
  /\ (forall i,
     (i < - Z.of_nat (length args) \/ Z.of_nat (length args) <= i)%Z ->
     process_on_master_and_sync_by_pickle func peers (Some i) None ctx args kwargs st
     = (Err IndexError, st))
  /\ process_on_master_and_sync_by_pickle func peers None None ctx args kwargs st
     = (Err UnboundLocalError,
        mkProcess (files st) (trace st ++ [Logged No_cache_file_specified])).
Proof.
  split; [|split].
  - intros cache_arg key Hk.
    rewrite gate_no_file; [reflexivity|].
    unfold cache_file, kwargs_getitem, dict_getitem. now rewrite Hk.
  - intros i Hi.
    rewrite gate_no_file; [reflexivity|].
    unfold cache_file. now rewrite (args_getitem_out_of_range i args Hi).
  - now rewrite gate_no_file.
Qed.

(** X12.  When the cache is missed and the wrapped function raises on
    rank 0, the wrapper on rank 0 raises the same exception right after
    the call, without reaching [synchronize]; a worker of any other rank
    that misses the cache in a job of several workers still enters the
    barrier.  So rank 0 issues no collective call while the others issue
    one. *)
Theorem gate_failure_on_master_skips_barrier
    cache_arg cache_kwarg ctx args kwargs st p e :
  cache_file cache_arg cache_kwarg args kwargs = Some (VStr p) ->
  files st p = None \/ truthy (fst (kwargs_pop "skip_cache" (VBool false) kwargs)) = true ->
  get_rank ctx = 0 ->
  fst (func args (snd (kwargs_pop "skip_cache" (VBool false) kwargs)) (files st)) = Err e ->
  (let out := process_on_master_and_sync_by_pickle func peers cache_arg cache_kwarg
                ctx args kwargs st in
   fst out = Err e
   /\ issued st (snd out) = [Called args (snd (kwargs_pop "skip_cache" (VBool false) kwargs))]
   /\ collectives (issued st (snd out)) = [])
  /\ (forall ctx' st',
        get_rank ctx' <> 0 -> 1 < world_size ctx' ->
        files st' p = None \/ truthy (fst (kwargs_pop "skip_cache" (VBool false) kwargs)) = true ->
        collectives (issued st' (snd (process_on_master_and_sync_by_pickle func peers
                                        cache_arg cache_kwarg ctx' args kwargs st')))
        = [Barrier]).
Proof.
  intros Hf Hmiss Hr He.
  assert (Hcond : forall s : process,
            files s p = None \/ truthy (fst (kwargs_pop "skip_cache" (VBool false) kwargs)) = true ->
            negb (match files s p with Some _ => true | None => false end)
            || truthy (fst (kwargs_pop "skip_cache" (VBool false) kwargs)) = true).
  { intros s [-> | ->]; [reflexivity | apply orb_true_r]. }
  split.
  - rewrite (gate_after_filename func peers cache_arg cache_kwarg ctx args kwargs st p Hf).
    cbv zeta. rewrite (Hcond st Hmiss), gate_miss_run, Hr. cbn [Nat.eqb].
    rewrite He. cbn [fst snd]. rewrite issued_app. auto.
  - intros ctx' st' Hr' Hws Hmiss'.
    rewrite (gate_after_filename func peers cache_arg cache_kwarg ctx' args kwargs st' p Hf).
    cbv zeta. rewrite (Hcond st' Hmiss'), gate_miss_run.
    apply Nat.eqb_neq in Hr'. apply Nat.ltb_lt in Hws. rewrite Hr', Hws.
    cbv zeta. cbn [snd]. rewrite issued_app. reflexivity.
Qed.

(** X13.  Whatever its arguments and whatever the disk holds, one call of
    the wrapper keeps the events recorded before it and adds either
    nothing but one log line, leaving the files as they were, or at most
    one call of the wrapped function followed by at most one barrier: the
    call only on rank 0, with the positional arguments unchanged and the
    keyword arguments without [skip_cache], the barrier only in a job of
    more than one worker. *)
Theorem gate_events_are_bounded cache_arg cache_kwarg ctx args kwargs st :
  let out := process_on_master_and_sync_by_pickle func peers cache_arg cache_kwarg
               ctx args kwargs st in
  let kwargs' := snd (kwargs_pop "skip_cache" (VBool false) kwargs) in
  trace (snd out) = trace st ++ issued st (snd out)
  /\ dict_get String.eqb "skip_cache"%string kwargs' = None
  /\ ((files (snd out) = files st
       /\ (issued st (snd out) = [] \/ exists m, issued st (snd out) = [Logged m]))
      \/ (exists called synced : bool,
            issued st (snd out)
            = (if called then [Called args kwargs'] else [])
              ++ (if synced then [Barrier] else [])
            /\ (called = true -> get_rank ctx = 0)
            /\ (synced = true -> 1 < world_size ctx))).
Proof.
  cbv zeta. split; [|split; [apply kwargs_pop_drops_key|]].
  - destruct (cache_file cache_arg cache_kwarg args kwargs) as [f|] eqn:Hf.
    + destruct (fspath f) as [p|e] eqn:Hp.
      * rewrite (gate_after_file func peers cache_arg cache_kwarg ctx args kwargs st f p Hf Hp).
        cbv zeta. destruct (_ || _)%bool.
        -- rewrite (gate_miss_run_file _ _ _ _ _ _ Hp).
           destruct (get_rank ctx =? 0);
             [destruct (fst (func args _ (files st)))|]; cbv zeta; cbn [snd trace];
             now rewrite issued_app.
        -- rewrite (gate_hit_run_file _ _ _ _ Hp). cbn [snd trace]. now rewrite issued_app.
      * rewrite (gate_not_a_path cache_arg cache_kwarg ctx args kwargs st f e Hf Hp).
        cbn [snd]. now rewrite issued_same, app_nil_r.
    + rewrite (gate_no_file cache_arg cache_kwarg ctx args kwargs st Hf).
      destruct cache_kwarg; [|destruct cache_arg]; cbn [snd trace];
        rewrite ?issued_app, ?issued_same, ?app_nil_r; reflexivity.
  - destruct (cache_file cache_arg cache_kwarg args kwargs) as [f|] eqn:Hf.
    + destruct (fspath f) as [p|e] eqn:Hp.
      * rewrite (gate_after_file func peers cache_arg cache_kwarg ctx args kwargs st f p Hf Hp).
        cbv zeta. destruct (_ || _)%bool.
        -- right. rewrite (gate_miss_run_file _ _ _ _ _ _ Hp).
           destruct (get_rank ctx =? 0) eqn:Hr.
           ++ apply Nat.eqb_eq in Hr.
              destruct (fst (func args _ (files st))); cbv zeta; cbn [snd];
                rewrite issued_app.
              ** exists true, (1 <? world_size ctx). repeat split; auto.
                 intros H. now apply Nat.ltb_lt.
              ** exists true, false. repeat split; auto. discriminate.
           ++ cbv zeta. cbn [snd]. rewrite issued_app.
              exists false, (1 <? world_size ctx). repeat split; auto.
              ** discriminate.
              ** intros H. now apply Nat.ltb_lt.
        -- left. rewrite (gate_hit_run_file _ _ _ _ Hp). cbn [snd files]. rewrite issued_app.
           split; [reflexivity|]. destruct (get_rank ctx =? 0); eauto.
      * left. rewrite (gate_not_a_path cache_arg cache_kwarg ctx args kwargs st f e Hf Hp).
        cbn [snd]. rewrite issued_same. auto.
    + left. rewrite (gate_no_file cache_arg cache_kwarg ctx args kwargs st Hf).
      destruct cache_kwarg; [|destruct cache_arg]; cbn [snd files];
        rewrite ?issued_app, ?issued_same; eauto.
Qed.

(** X14.  Once a call of the wrapper has returned a value [v] for the
    cache file [p], the file [p] holds [v], and a further call for the
    same file without a true [skip_cache] returns [v] again, on any rank:
    it neither calls the wrapped function nor reaches a barrier, its only
    possible event is a log line, and it leaves the files as they are. *)
Theorem gate_second_call_hits_cache
    cache_arg cache_kwarg ctx args kwargs st p v args2 kwargs2 :
  cache_file cache_arg cache_kwarg args kwargs = Some (VStr p) ->
  fst (process_on_master_and_sync_by_pickle func peers cache_arg cache_kwarg
         ctx args kwargs st) = Ok v ->
  cache_file cache_arg cache_kwarg args2 kwargs2 = Some (VStr p) ->
  truthy (fst (kwargs_pop "skip_cache" (VBool false) kwargs2)) = false ->
  let st1 := snd (process_on_master_and_sync_by_pickle func peers cache_arg cache_kwarg
                    ctx args kwargs st) in
  let out2 := process_on_master_and_sync_by_pickle func peers cache_arg cache_kwarg
                ctx args2 kwargs2 st1 in
  files st1 p = Some v
  /\ fst out2 = Ok v
  /\ files (snd out2) = files st1
  /\ (forall ev, In ev (issued st1 (snd out2)) -> ev = Logged (Loaded_cache_skipped (VStr p))).
Proof.
  intros Hf Hv Hf2 Hskip. cbv zeta.
  assert (Hfile : files (snd (process_on_master_and_sync_by_pickle func peers cache_arg
                                cache_kwarg ctx args kwargs st)) p = Some v).
  { revert Hv.
    rewrite (gate_after_filename func peers cache_arg cache_kwarg ctx args kwargs st p Hf).
    cbv zeta. destruct (_ || _)%bool.
    - rewrite gate_miss_run.
      destruct (get_rank ctx =? 0);
        [destruct (fst (func args _ (files st))); [|discriminate]|];
        cbv zeta; cbn [fst snd files];
        match goal with |- context [match ?x with Some _ => _ | None => _ end] =>
          destruct x; [congruence | discriminate] end.
    - rewrite gate_hit_run. cbn [fst snd files].
      destruct (files st p); [congruence | discriminate]. }
  split; [exact Hfile|].
  rewrite (gate_after_filename func peers cache_arg cache_kwarg ctx args2 kwargs2 _ p Hf2).
  cbv zeta. rewrite Hfile, Hskip. cbn [negb orb].
  rewrite gate_hit_run, Hfile. cbn [fst snd files]. rewrite issued_app.
  repeat split.
  intros ev Hin. destruct (get_rank ctx =? 0); cbn [In] in Hin; [|contradiction].
  destruct Hin as [<-|[]]. reflexivity.
Qed.
End GatingMore.

(* ================================================================== *)
(** * The calls of the backend the collectives make *)
(* ================================================================== *)

Section Calls.
Context {TL : TensorLib}.
Variable respond : ReduceOp -> option nat -> tensor -> tensor.

Lemma requests_lift {A} (r : result A) : requests respond (lift r) = [].
Proof. now destruct r. Qed.

(** A loop whose body makes one call per item makes the calls of its
    items, in order, whatever the backend replies. *)
Lemma requests_for_each {K B A} (body : K -> B -> comm B) op dst (buf : K -> tensor)
    (g : K -> tensor -> B -> B) (f : B -> comm A) (items : list K) :
  (forall x acc, In x items ->
     body x acc = AllReduce op dst (buf x) (fun t => Ret (g x t acc))) ->
  (forall b, requests respond (f b) = []) ->
  forall acc,
    requests respond (cbind (for_each items body acc) f)
    = map (fun x => (op, dst, buf x)) items.
Proof.
  intros Hbody Hf. induction items as [|x rest IH]; intros acc.
  - cbn [for_each cbind map]. apply Hf.
  - cbn [for_each]. rewrite (Hbody x acc (or_introl eq_refl)).
    cbn [cbind requests map]. f_equal. apply IH.
    intros y acc' Hy. apply Hbody. now right.
Qed.

Lemma reduce_body_call ctx rop is_mean dst d ls (acc : ddict tensor) :
  group_ready ctx = true ->
  reduce_body ctx rop is_mean dst (d, flat_buffer d ls) acc
  = AllReduce rop dst (tensor_type (flat_buffer d ls) (wire_dtype d))
      (fun t => Ret (dset d (tensor_type
                               (if is_mean
                                then tensor_true_divide t (Z.of_nat (get_world_size ctx))
                                else t) d) acc)).
Proof.
  intros Hg. unfold reduce_body. cbn [fst snd]. unfold get_group. rewrite Hg.
  cbn [lift cbind all_reduce]. rewrite (reduce_send_eq d ls). reflexivity.
Qed.

Lemma stack_body_call ctx dst d obj (acc : ddict tensor) :
  group_ready ctx = true -> rank ctx < world_size ctx ->
  stack_body ctx dst (d, flat_buffer d (leaves obj)) acc
  = AllReduce SUM dst (stack_send (world_size ctx) (rank ctx) d obj)
      (fun t => Ret (dset d (tensor_type t d) acc)).
Proof.
  intros Hg Hr. destruct ctx as [r ws ready]. cbn [group_ready rank world_size] in *.
  subst ready. now apply stack_body_send.
Qed.

(** X15.  Whatever the backend replies, [reduce] on a container of
    tensors, dicts, lists and tuples calls the backend once per dtype
    among the leaves, not once per leaf, in the order in which the dtypes
    first occur: each time with the operator looked up ([SUM] for
    [mean]), the destination it was given, and one vector holding the
    elements of all leaves of that dtype in traversal order, bools as
    uint8. *)
Theorem reduce_calls_once_per_dtype ctx obj op rop dst :
  supported obj = true -> group_ready ctx = true ->
  ReduceOp_getattr (upper (if String.eqb op "mean" then "sum"%string else op)) = Ok rop ->
  requests respond (reduce ctx obj op dst)
  = map (fun d =>
           (rop, dst,
            mkTensor (wire_dtype d)
              [list_sum (map numel (filter (has_dtype d) (leaves obj)))]
              (concat (map wire_data (filter (has_dtype d) (leaves obj))))))
        (dtypes_of (leaves obj)).
Proof.
  intros Hs Hg Hop. unfold reduce. rewrite (flatten_container_ok obj Hs).
  cbn [lift cbind]. rewrite Hop. cbn [lift cbind].
  rewrite (requests_for_each
             (reduce_body ctx rop (String.eqb op "mean") dst) rop dst
             (fun kv : dtype * tensor => tensor_type (snd kv) (wire_dtype (fst kv)))
             (fun kv t acc =>
                dset (fst kv)
                  (tensor_type (if String.eqb op "mean"
                                then tensor_true_divide t (Z.of_nat (get_world_size ctx))
                                else t) (fst kv)) acc)).
  - unfold flattened. rewrite map_map. apply map_ext. intros d. cbn [fst snd].
    f_equal. apply tensor_ext.
    + now rewrite tensor_type_dtype.
    + now rewrite tensor_type_shape.
    + rewrite wire_flat_buffer. cbn [tdata]. rewrite filter_positions, map_map. reflexivity.
  - intros [d v] acc Hin. unfold flattened in Hin. apply in_map_iff in Hin as (d' & E & _).
    injection E as <- <-. cbn [fst snd]. now apply reduce_body_call.
  - intros b. apply requests_lift.
Qed.

Lemma stack_requests ctx obj dst :
  supported obj = true -> group_ready ctx = true -> rank ctx < world_size ctx ->
  requests respond (stack ctx obj dst)
  = map (fun d => (SUM, dst, stack_send (world_size ctx) (rank ctx) d obj))
        (dtypes_of (leaves obj)).
Proof.
  intros Hs Hg Hr.
  unfold stack. rewrite (flatten_container_ok obj Hs). cbn [lift cbind].
  rewrite (requests_for_each
             (stack_body ctx dst) SUM dst
             (fun kv : dtype * tensor => stack_send (world_size ctx) (rank ctx) (fst kv) obj)
             (fun kv t acc => dset (fst kv) (tensor_type t (fst kv)) acc)).
  - unfold flattened. rewrite map_map. reflexivity.
  - intros [d v] acc Hin. unfold flattened in Hin. apply in_map_iff in Hin as (d' & E & _).
    injection E as <- <-. cbn [fst snd]. now apply stack_body_call.
  - intros b. apply requests_lift.
Qed.

Lemma stack_send_layout ws r d obj :
  r < ws ->
  let n := list_sum (map numel (filter (has_dtype d) (leaves obj))) in
  tdtype (stack_send ws r d obj) = wire_dtype d
  /\ tshape (stack_send ws r d obj) = [ws; n]
  /\ tdata (stack_send ws r d obj)
     = repeat (zero (wire_dtype d)) (r * n)
       ++ concat (map wire_data (filter (has_dtype d) (leaves obj)))
       ++ repeat (zero (wire_dtype d)) ((ws - r - 1) * n).
Proof.
  intros Hr n. unfold stack_send. cbv zeta. cbn [tdtype tshape tdata flat_buffer].
  fold n. split; [reflexivity|]. split; [reflexivity|].
  cbn [prod fold_right]. rewrite !Nat.mul_1_r.
  rewrite firstn_repeat_le by nia. rewrite skipn_repeat_le by nia.
  rewrite (wire_flat_buffer d (leaves obj)), filter_positions, map_map.
  do 3 f_equal. nia.
Qed.

(** X16.  Whatever the backend replies, [stack] calls the backend once
    per dtype among the leaves, in the order in which the dtypes first
    occur, each time with [SUM] and the destination it was given.  The
    buffer has a row per worker and a column per element of the leaves of
    that dtype; it is sent as uint8 for bools, holds the worker's own
    elements in the row of its rank and zeros in every other row. *)
Theorem stack_calls_once_per_dtype ctx obj dst :
  supported obj = true -> group_ready ctx = true -> rank ctx < world_size ctx ->
  requests respond (stack ctx obj dst)
  = map (fun d => (SUM, dst, stack_send (world_size ctx) (rank ctx) d obj))
        (dtypes_of (leaves obj))
  /\ forall d,
       let n := list_sum (map numel (filter (has_dtype d) (leaves obj))) in
       tdtype (stack_send (world_size ctx) (rank ctx) d obj) = wire_dtype d
       /\ tshape (stack_send (world_size ctx) (rank ctx) d obj) = [world_size ctx; n]
       /\ tdata (stack_send (world_size ctx) (rank ctx) d obj)
          = repeat (zero (wire_dtype d)) (rank ctx * n)
            ++ concat (map wire_data (filter (has_dtype d) (leaves obj)))
            ++ repeat (zero (wire_dtype d)) ((world_size ctx - rank ctx - 1) * n).
Proof.
  intros Hs Hg Hr. split; [now apply stack_requests|].
  intros d. now apply stack_send_layout.
Qed.

(** The leaves of a size table all have dtype int64. *)
Lemma dtypes_of_int64 {K} (g : K -> tensor) (ks : list K) :
  (forall k, tdtype (g k) = th_int64) ->
  dtypes_of (map g ks) = match ks with [] => [] | _ :: _ => [th_int64] end.
Proof.
  intros Hg. induction ks as [|k ks IH]; [reflexivity|].
  cbn [map dtypes_of]. rewrite IH, Hg. now destruct ks.
Qed.

Lemma filter_int64 {K} (g : K -> tensor) (ks : list K) :
  (forall k, tdtype (g k) = th_int64) ->
  filter (has_dtype th_int64) (map g ks) = map g ks.
Proof.
  intros Hg. apply filter_all. intros t Ht. apply in_map_iff in Ht as (k & <- & _).
  unfold has_dtype. now rewrite Hg.
Qed.

Lemma sum_split_at (f : dtype -> nat) (dt : dtype) (D : list dtype) :
  NoDup D ->
  list_sum (map f D)
  = (if mem dt D then f dt else 0)
    + list_sum (map f (filter (fun d => negb (dtype_eqb d dt)) D)).
Proof.
  intros HD. induction HD as [|d D Hd _ IH]; [reflexivity|].
  cbn [map filter mem existsb]. change (existsb (dtype_eqb dt) D) with (mem dt D).
  change (list_sum (?x :: ?l)) with (x + list_sum l). rewrite IH.
  rewrite (dtype_eqb_sym dt d).
  destruct (dtype_eqb d dt) eqn:E; cbn [negb orb].
  - apply dtype_eqb_eq in E. subst d.
    apply mem_not_in in Hd. rewrite Hd. lia.
  - cbn [map]. change (list_sum (?x :: ?l)) with (x + list_sum l). lia.
Qed.

(** Every leaf is counted under exactly one dtype. *)
Lemma count_by_dtype (ls : list tensor) :
  list_sum (map (fun d => length (filter (has_dtype d) ls)) (dtypes_of ls)) = length ls.
Proof.
  induction ls as [|t ls IH]; [reflexivity|].
  cbn [dtypes_of map]. change (list_sum (?x :: ?l)) with (x + list_sum l).
  cbn [filter]. rewrite has_dtype_own. cbn [length].
  rewrite (map_ext_in
             (fun d => length (filter (has_dtype d) (t :: ls)))
             (fun d => length (filter (has_dtype d) ls))).
  - pose proof (sum_split_at (fun d => length (filter (has_dtype d) ls)) (tdtype t)
                  (dtypes_of ls) (NoDup_dtypes_of ls)) as Hsp.
    rewrite IH in Hsp.
    destruct (mem (tdtype t) (dtypes_of ls)) eqn:E; [lia|].
    cbn [length]. rewrite Hsp.
    rewrite mem_dtypes_of in E.
    rewrite (filter_none (has_dtype (tdtype t)) ls); [reflexivity|].
    intros x Hx. apply existsb_false_iff with (x := x) in E; assumption.
  - intros d Hd. apply filter_In in Hd as [_ Hd]. cbn [filter].
    unfold has_dtype at 1. rewrite dtype_eqb_sym.
    destruct (dtype_eqb d (tdtype t)); [discriminate | reflexivity].
Qed.

Lemma flattened_head obj t ts :
  leaves obj = t :: ts ->
  exists more, flattened (leaves obj) = (tdtype t, flat_buffer (tdtype t) (leaves obj)) :: more.
Proof. intros ->. rewrite flattened_cons. eauto. Qed.

Lemma reduce_head ctx obj op rop dst t ts :
  supported obj = true -> group_ready ctx = true ->
  ReduceOp_getattr (upper (if String.eqb op "mean" then "sum"%string else op)) = Ok rop ->
  leaves obj = t :: ts ->
  exists k, reduce ctx obj op dst = AllReduce rop dst (reduce_send (tdtype t) obj) k.
Proof.
  intros Hs Hg Hop El. unfold reduce. rewrite (flatten_container_ok obj Hs).
  cbn [lift cbind]. rewrite Hop. cbn [lift cbind].
  destruct (flattened_head obj t ts El) as [more ->].
  cbn [for_each]. rewrite reduce_body_call by exact Hg. cbn [cbind]. eauto.
Qed.

Lemma stack_head ctx obj dst t ts :
  supported obj = true -> group_ready ctx = true -> rank ctx < world_size ctx ->
  leaves obj = t :: ts ->
  exists k, stack ctx obj dst
            = AllReduce SUM dst (stack_send (world_size ctx) (rank ctx) (tdtype t) obj) k.
Proof.
  intros Hs Hg Hr El. unfold stack. rewrite (flatten_container_ok obj Hs).
  cbn [lift cbind]. destruct (flattened_head obj t ts El) as [more ->].
  cbn [for_each]. rewrite stack_body_call by assumption. cbn [cbind]. eauto.
Qed.

Lemma cat_head ctx obj dst :
  supported obj = true -> group_ready ctx = true -> rank ctx < world_size ctx ->
  leaves obj <> [] ->
  exists k, cat ctx obj dst
            = AllReduce SUM None
                (stack_send (world_size ctx) (rank ctx) th_int64 (sizes_obj (leaves obj))) k.
Proof.
  intros Hs Hg Hr Hl.
  destruct (read_sizes_ok obj Hs) as (values & sizes & Er & _ & Es).
  unfold cat. rewrite Er. cbn [lift cbind]. rewrite Es. cbn [lift cbind].
  fold (sizes_obj (leaves obj)).
  assert (El : exists t ts, leaves (sizes_obj (leaves obj)) = t :: ts /\ tdtype t = th_int64).
  { rewrite sizes_obj_leaves. destruct (leaves obj) as [|t ts]; [congruence|].
    cbn [dtypes_of map]. eauto. }
  destruct El as (t & ts & El & Et).
  destruct (stack_head ctx (sizes_obj (leaves obj)) None t ts
              (sizes_obj_supported (leaves obj)) Hg Hr El) as [k ->].
  rewrite Et. cbn [cbind]. eauto.
Qed.

(** X17.  [cat] on a container with leaves begins with an exchange of
    the leaf sizes in which every worker takes part, whatever destination
    the call was given: its first call of the backend is an all-reduce
    with [SUM] of an int64 buffer with a row per worker and a column per
    leaf, the worker's own row holding the element counts of its leaves,
    grouped by dtype. *)
Theorem cat_exchanges_sizes_first ctx obj dst :
  supported obj = true -> group_ready ctx = true -> rank ctx < world_size ctx ->
  leaves obj <> [] ->
  exists buf more,
    requests respond (cat ctx obj dst) = (SUM, None, buf) :: more
    /\ tdtype buf = th_int64
    /\ tshape buf = [world_size ctx; length (leaves obj)]
    /\ tdata buf
       = repeat (zero th_int64) (rank ctx * length (leaves obj))
         ++ concat (map (fun d => map (fun t => enc (numel t))
                                      (filter (has_dtype d) (leaves obj)))
                        (dtypes_of (leaves obj)))
         ++ repeat (zero th_int64) ((world_size ctx - rank ctx - 1) * length (leaves obj)).
Proof.
  intros Hs Hg Hr Hl.
  destruct (cat_head ctx obj dst Hs Hg Hr Hl) as [k ->].
  eexists. eexists. cbn [requests]. split; [reflexivity|].
  destruct (stack_send_layout (world_size ctx) (rank ctx) th_int64
              (sizes_obj (leaves obj)) Hr) as (Hd & Hsh & Hda).
  set (g := fun d => mkTensor th_int64 [length (filter (has_dtype d) (leaves obj))]
                       (map (fun t => enc (numel t)) (filter (has_dtype d) (leaves obj)))).
  assert (Hn : list_sum (map numel (filter (has_dtype th_int64)
                                      (leaves (sizes_obj (leaves obj)))))
               = length (leaves obj)).
  { rewrite sizes_obj_leaves. fold g. rewrite (filter_int64 g) by reflexivity.
    rewrite map_map. etransitivity; [|apply count_by_dtype].
    f_equal. apply map_ext. intros d. unfold g, numel. cbn [tshape prod fold_right]. lia. }
  rewrite Hn in Hsh, Hda. split; [exact Hd|]. split; [exact Hsh|].
  rewrite Hda. do 2 f_equal.
  rewrite sizes_obj_leaves. fold g. rewrite (filter_int64 g) by reflexivity.
  rewrite map_map. reflexivity.
Qed.
End Calls.

(* ================================================================== *)
(** * Workers that do not make the same calls *)
(* ================================================================== *)

Section Uneven.
Context {TL : TensorLib}.

Lemma gather_with_ret {A} (ps : list (comm A)) i a :
  nth_error ps i = Some (Ret a) -> gather ps = None.
Proof.
  revert i. induction ps as [|p ps IH]; intros [|i] H; try discriminate.
  - cbn in H. injection H as ->. reflexivity.
  - cbn [nth_error] in H. destruct p; try reflexivity.
    cbn [gather]. now rewrite (IH i H).
Qed.

Lemma nth_error_spawn {A B} (f : context -> A -> comm B) ws ready s (args : list A) i a :
  nth_error args i = Some a ->
  nth_error (spawn f ws ready s args) i = Some (f (mkContext (s + i) ws ready) a).
Proof.
  revert s i. induction args as [|x args IH]; intros s [|i] H; try discriminate.
  - cbn in H. injection H as ->. cbn [spawn nth_error]. now rewrite Nat.add_0_r.
  - cbn [nth_error] in H. cbn [spawn nth_error]. rewrite (IH (S s) i H).
    do 3 f_equal. lia.
Qed.

(** Rank 0 has returned and another rank waits in a call. *)
Lemma job_left_behind {A} (f : context -> pyobj -> comm A) o0 rest r o a0 op dst buf k :
  nth_error rest r = Some o ->
  f (mkContext 0 (S (length rest)) true) o0 = Ret a0 ->
  f (mkContext (S r) (S (length rest)) true) o = AllReduce op dst buf k ->
  nth_error (spmd f true (o0 :: rest)) 0 = Some (Returned a0)
  /\ nth_error (spmd f true (o0 :: rest)) (S r) = Some Hung.
Proof.
  intros Hr H0 Ho. unfold spmd. cbn [length spawn run_job]. rewrite H0.
  cbn [lockstep nth_error]. split; [reflexivity|].
  rewrite nth_error_map, (nth_error_spawn f (S (length rest)) true 1 rest r o Hr).
  cbn [Nat.add option_map]. now rewrite Ho.
Qed.

(** Rank 0 waits in a call that another rank, which has returned, never
    makes. *)
Lemma job_waits_for_returned {A} (f : context -> pyobj -> comm A) o0 rest r o a op dst buf k :
  nth_error rest r = Some o ->
  f (mkContext 0 (S (length rest)) true) o0 = AllReduce op dst buf k ->
  f (mkContext (S r) (S (length rest)) true) o = Ret a ->
  nth_error (spmd f true (o0 :: rest)) 0 = Some Hung
  /\ nth_error (spmd f true (o0 :: rest)) (S r) = Some (Returned a).
Proof.
  intros Hr H0 Ho. unfold spmd. cbn [length spawn run_job]. rewrite H0.
  pose proof (nth_error_spawn f (S (length rest)) true 1 rest r o Hr) as Hn.
  cbn [Nat.add] in Hn. rewrite Ho in Hn.
  cbn [lockstep]. rewrite (gather_with_ret _ r a Hn).
  cbn [nth_error]. split; [reflexivity|].
  now rewrite nth_error_map, Hn.
Qed.

(** X18.  When, of rank 0 and another rank, one passes a container
    without leaves and the other a container with leaves, the collective
    returns on the one without leaves, its container given back, and the
    other never returns: it waits in its first call of the backend for a
    worker that makes no call.  This holds for [reduce], [stack] and
    [cat] alike. *)
Theorem uneven_containers_hang o0 rest r o dst :
  nth_error rest r = Some o ->
  supported o0 = true -> distinct_keys o0 = true ->
  supported o = true -> distinct_keys o = true ->
  (leaves o0 = [] <-> leaves o <> []) ->
  let ends (out : list (outcome pyobj)) :=
    nth_error out 0
    = Some (match leaves o0 with [] => Returned (normalize o0) | _ :: _ => Hung end)
    /\ nth_error out (S r)
       = Some (match leaves o with [] => Returned (normalize o) | _ :: _ => Hung end) in
  (forall op rop,
     ReduceOp_getattr (upper (if String.eqb op "mean" then "sum"%string else op)) = Ok rop ->
     ends (spmd (fun ctx x => reduce ctx x op dst) true (o0 :: rest)))
  /\ ends (spmd (fun ctx x => stack ctx x dst) true (o0 :: rest))
  /\ ends (spmd (fun ctx x => cat ctx x dst) true (o0 :: rest)).
Proof.
  intros Hr Hs0 Hd0 Hs Hd Hiff ends. subst ends. cbv beta.
  assert (Hlt : S r < S (length rest)).
  { apply -> Nat.succ_lt_mono. apply nth_error_Some. congruence. }
  destruct (leaves o0) as [|t0 ts0] eqn:E0; destruct (leaves o) as [|t ts] eqn:E.
  - exfalso. now apply (proj1 Hiff).
  - split; [|split].
    + intros op rop Hop.
      destruct (reduce_head (mkContext (S r) (S (length rest)) true) o op rop dst t ts
                  Hs eq_refl Hop E) as [k Hk].
      eapply (job_left_behind (fun ctx x => reduce ctx x op dst) o0 rest r o); [exact Hr | | exact Hk].
      cbv beta. now apply (reduce_leafless _ o0 op rop dst).
    + destruct (stack_head (mkContext (S r) (S (length rest)) true) o dst t ts
                  Hs eq_refl Hlt E) as [k Hk].
      eapply (job_left_behind (fun ctx x => stack ctx x dst) o0 rest r o); [exact Hr | | exact Hk].
      cbv beta. now apply stack_leafless.
    + destruct (cat_head (mkContext (S r) (S (length rest)) true) o dst
                  Hs eq_refl Hlt) as [k Hk]; [now rewrite E|].
      eapply (job_left_behind (fun ctx x => cat ctx x dst) o0 rest r o); [exact Hr | | exact Hk].
      cbv beta. now apply cat_leafless.
  - assert (H0 : 0 < S (length rest)) by lia.
    split; [|split].
    + intros op rop Hop.
      destruct (reduce_head (mkContext 0 (S (length rest)) true) o0 op rop dst t0 ts0
                  Hs0 eq_refl Hop E0) as [k Hk].
      eapply (job_waits_for_returned (fun ctx x => reduce ctx x op dst) o0 rest r o); [exact Hr | exact Hk |].
      cbv beta. now apply (reduce_leafless _ o op rop dst).
    + destruct (stack_head (mkContext 0 (S (length rest)) true) o0 dst t0 ts0
                  Hs0 eq_refl H0 E0) as [k Hk].
      eapply (job_waits_for_returned (fun ctx x => stack ctx x dst) o0 rest r o); [exact Hr | exact Hk |].
      cbv beta. now apply stack_leafless.
    + destruct (cat_head (mkContext 0 (S (length rest)) true) o0 dst
                  Hs0 eq_refl H0) as [k Hk]; [now rewrite E0|].
      eapply (job_waits_for_returned (fun ctx x => cat ctx x dst) o0 rest r o); [exact Hr | exact Hk |].
      cbv beta. now apply cat_leafless.
  - exfalso. destruct Hiff as [_ Hiff]. discriminate Hiff. discriminate.
Qed.
End Uneven.

(* ================================================================== *)
(** * The process groups *)
(* ================================================================== *)

Section GroupFacts.
Variable group : Type.
Variable dist_state : Type.
Variable dist_init_process_group :
  string -> value -> list (string * value) -> dist_state -> result unit * dist_state.
Variable dist_group_WORLD : dist_state -> option group.
Variable dist_new_group : string -> dist_state -> result group * dist_state.

(** X19.  When [init_process_group] returns, the group of every device
    that is not a cpu is [dist.group.WORLD]; the group of a cpu is the
    new gloo group if the backend is nccl and [dist.group.WORLD] as well
    for any other backend.  So from then on [get_group] answers for every
    device, provided the backend has a world group, whatever the globals
    held before. *)
Theorem init_process_group_sets_both_groups backend init_method kwargs g g' :
  Groups.init_process_group dist_init_process_group dist_group_WORLD dist_new_group
    backend init_method kwargs g = (Ok tt, g') ->
  let d1 := snd (dist_init_process_group backend init_method kwargs (Groups.dist g)) in
  Groups.gpu_group g' = dist_group_WORLD d1
  /\ (forall device, String.eqb device "cpu" = false ->
        Groups.get_group device g'
        = match dist_group_WORLD d1 with
          | Some w => Ok w
          | None => Err ValueError_GroupNotInitialized
          end)
  /\ (if String.eqb backend "nccl"
      then exists gloo, dist_new_group "gloo" d1 = (Ok gloo, Groups.dist g')
                        /\ Groups.get_group "cpu" g' = Ok gloo
      else Groups.cpu_group g' = Groups.gpu_group g' /\ Groups.dist g' = d1).
Proof.
  intros H d1. subst d1. unfold Groups.init_process_group in H.
  destruct (dist_init_process_group backend init_method kwargs (Groups.dist g))
    as [[[]|e] d] eqn:E1; [|discriminate].
  cbn [snd]. cbv zeta in H.
  destruct (String.eqb backend "nccl") eqn:Eb.
  - destruct (dist_new_group "gloo" d) as [[gloo|e] d'] eqn:E2; [|discriminate].
    injection H as <-. cbn [Groups.gpu_group Groups.dist].
    split; [reflexivity|]. split.
    + intros device Hdev. unfold Groups.get_group. rewrite Hdev. reflexivity.
    + exists gloo. split; reflexivity.
  - injection H as <-. cbn [Groups.gpu_group Groups.cpu_group Groups.dist].
    split; [reflexivity|]. split; [|split; reflexivity].
    intros device Hdev. unfold Groups.get_group. rewrite Hdev. reflexivity.
Qed.

(** X20.  [get_group] raises its ValueError for every device while the
    module is as imported, and a failed [init_process_group] leaves the
    globals either untouched, when the backend's own initialisation
    raised, or half set, when the backend is nccl and the creation of the
    gloo group raised: then [gpu_group] is [dist.group.WORLD] and
    [cpu_group] is what it was, so that after a first initialisation
    that failed this way [get_group] still raises for a cpu. *)
Theorem failed_init_leaves_cpu_group_unset backend init_method kwargs g g' e :
  Groups.init_process_group dist_init_process_group dist_group_WORLD dist_new_group
    backend init_method kwargs g = (Err e, g') ->
  let d1 := snd (dist_init_process_group backend init_method kwargs (Groups.dist g)) in
  (forall (d : dist_state) device, Groups.get_group device (Groups.imported group d)
                    = Err ValueError_GroupNotInitialized)
  /\ Groups.cpu_group g' = Groups.cpu_group g
  /\ (Groups.cpu_group g = None -> Groups.get_group "cpu" g' = Err ValueError_GroupNotInitialized)
  /\ ((fst (dist_init_process_group backend init_method kwargs (Groups.dist g)) = Err e
       /\ Groups.gpu_group g' = Groups.gpu_group g)
      \/ (fst (dist_init_process_group backend init_method kwargs (Groups.dist g)) = Ok tt
          /\ String.eqb backend "nccl" = true
          /\ fst (dist_new_group "gloo" d1) = Err e
          /\ Groups.gpu_group g' = dist_group_WORLD d1)).
Proof.
  intros H d1. subst d1. unfold Groups.init_process_group in H.
  split; [intros d device; unfold Groups.get_group, Groups.imported;
          now destruct (String.eqb device "cpu")|].
  destruct (dist_init_process_group backend init_method kwargs (Groups.dist g))
    as [[[]|e1] d] eqn:E1; cbn [fst snd].
  - cbv zeta in H. destruct (String.eqb backend "nccl") eqn:Eb; [|discriminate].
    destruct (dist_new_group "gloo" d) as [[gloo|e2] d'] eqn:E2; [discriminate|].
    injection H as <- <-. cbn [Groups.cpu_group Groups.gpu_group fst].
    split; [reflexivity|]. split.
    + intros Hc. unfold Groups.get_group. cbn. now rewrite Hc.
    + right. auto.
  - injection H as <- <-. cbn [Groups.cpu_group Groups.gpu_group].
    split; [reflexivity|]. split.
    + intros Hc. unfold Groups.get_group. cbn. now rewrite Hc.
    + left. auto.
Qed.
End GroupFacts.

(* ================================================================== *)
(** * The rebuilder on buffers of any content *)
(* ================================================================== *)

Lemma firstn_plus {A} (n m : nat) (l : list A) :
  firstn (n + m) l = firstn n l ++ firstn m (skipn n l).
Proof.
  revert l. induction n as [|n IH]; intros l; [reflexivity|].
  destruct l as [|x l]; cbn [Nat.add firstn skipn app].
  - now rewrite firstn_nil.
  - now rewrite IH.
Qed.

Section Dealt.
Context {TL : TensorLib}.
Hypothesis int64_roundtrip :
  forall z, (0 <= z < 2 ^ 63)%Z -> to_int (of_int z) = z.

Lemma deal_length ls : forall bufs, length (deal ls bufs) = length ls.
Proof.
  induction ls as [|t ls IH]; intros bufs; [reflexivity|].
  cbn [deal length]. now rewrite IH.
Qed.

Lemma dealt_pieces_leaves ls : forall bufs, map piece_leaf (dealt_pieces ls bufs) = ls.
Proof.
  unfold dealt_pieces.
  induction ls as [|t ls IH]; intros bufs; [reflexivity|].
  cbn [deal zip_with map piece_leaf]. now rewrite IH.
Qed.

Lemma dealt_pieces_tensors ls :
  forall bufs, map (piece_tensor []) (dealt_pieces ls bufs) = dealt ls bufs.
Proof.
  unfold dealt_pieces, dealt.
  induction ls as [|t ls IH]; intros bufs; [reflexivity|].
  cbn [deal zip_with map]. rewrite IH. f_equal.
  unfold piece_tensor. cbn [piece_leaf piece_len piece_rows concat]. now rewrite app_nil_r.
Qed.

Lemma dealt_pieces_ok ls :
  forall bufs,
    Forall leaf_ok ls ->
    (forall d, list_sum (map numel (filter (has_dtype d) ls)) <= length (bufs d)) ->
    Forall (piece_ok 1) (dealt_pieces ls bufs)
    /\ Sized None (dealt_pieces ls bufs).
Proof.
  unfold dealt_pieces.
  induction ls as [|t ls IH]; intros bufs Hok Hlen; [split; constructor|].
  apply Forall_cons_iff in Hok as [(Hwf & Htr & Hfit) Hok].
  cbn [deal zip_with].
  destruct (IH (fun d => if has_dtype d t then skipn (numel t) (bufs d) else bufs d) Hok)
    as [IH1 IH2].
  { intros d. specialize (Hlen d). cbn [filter] in Hlen.
    destruct (has_dtype d t); [|exact Hlen].
    cbn [map] in Hlen. change (list_sum (?x :: ?l)) with (x + list_sum l) in Hlen.
    rewrite length_skipn. lia. }
  split.
  - constructor; [|exact IH1].
    unfold piece_ok. cbn [piece_rows piece_len piece_leaf length].
    split; [reflexivity|]. split; [|split; [exact Htr | apply numel_mod_trailing]].
    constructor; [|constructor]. rewrite length_firstn.
    specialize (Hlen (tdtype t)). cbn [filter] in Hlen. rewrite has_dtype_own in Hlen.
    cbn [map] in Hlen. change (list_sum (?x :: ?l)) with (x + list_sum l) in Hlen. lia.
  - cbn [Sized] in *. constructor; [|exact IH2].
    cbn [piece_len piece_leaf]. split; [reflexivity | exact Hfit].
Qed.

Lemma dealt_pieces_rows ls d :
  forall bufs,
    rowcat 1 (map piece_rows (pieces_of d (dealt_pieces ls bufs)))
    = [firstn (list_sum (map numel (filter (has_dtype d) ls))) (bufs d)]
    /\ list_sum (map piece_len (pieces_of d (dealt_pieces ls bufs)))
       = list_sum (map numel (filter (has_dtype d) ls)).
Proof.
  unfold dealt_pieces, pieces_of.
  induction ls as [|t ls IH]; intros bufs; [split; reflexivity|].
  cbn [deal zip_with filter piece_leaf].
  destruct (IH (fun d => if has_dtype d t then skipn (numel t) (bufs d) else bufs d))
    as [IH1 IH2].
  destruct (has_dtype d t) eqn:E.
  - cbn [map piece_rows piece_len rowcat].
    change (list_sum (?x :: ?l)) with (x + list_sum l).
    rewrite IH1, IH2. cbn [zip_with].
    apply dtype_eqb_eq in E. rewrite E. split; [|reflexivity].
    now rewrite firstn_plus.
  - split; [exact IH1 | exact IH2].
Qed.

Lemma dealt_pieces_supply ls (values : ddict tensor) :
  (forall d, In d (dtypes_of ls) ->
     exists xs, dget d values = Some (mkTensor d [length xs] xs)
                /\ length xs = list_sum (map numel (filter (has_dtype d) ls))) ->
  Supplies [] values (dealt_pieces ls (buffer_data values)).
Proof.
  intros Hval d Hne.
  assert (Hd : In d (dtypes_of ls)).
  { apply pieces_of_in_dtypes in Hne. now rewrite dealt_pieces_leaves in Hne. }
  destruct (Hval d Hd) as (xs & Eg & Hlen).
  destruct (dealt_pieces_rows ls d (buffer_data values)) as [Hrows Hsum].
  cbn [prod fold_right app]. rewrite Hrows, Hsum. cbn [concat]. rewrite app_nil_r.
  unfold buffer_data. rewrite Eg. cbn [tdata].
  rewrite <- Hlen, firstn_all. reflexivity.
Qed.

Lemma rebuild_deals_buffers_gen obj (values : ddict tensor) :
  supported obj = true -> distinct_keys obj = true ->
  Forall leaf_ok (leaves obj) ->
  (forall d, In d (dtypes_of (leaves obj)) ->
     exists xs, dget d values = Some (mkTensor d [length xs] xs)
                /\ length xs = list_sum (map numel (filter (has_dtype d) (leaves obj)))) ->
  rebuild obj values
  = Ok (fst (fill obj (dealt (leaves obj) (buffer_data values)))).
Proof.
  intros Hs Hd Hok Hval. unfold rebuild.
  assert (Hone : prod [] <> 0) by discriminate.
  assert (Hlen : forall d, list_sum (map numel (filter (has_dtype d) (leaves obj)))
                           <= length (buffer_data values d)).
  { intros d. destruct (in_dec dtype_eq_dec d (dtypes_of (leaves obj))) as [Hin|Hout].
    - destruct (Hval d Hin) as (xs & Eg & Hl). unfold buffer_data. rewrite Eg.
      cbn [tdata]. lia.
    - rewrite (filter_none (has_dtype d) (leaves obj)); [cbn; lia|].
      intros t Ht. destruct (has_dtype d t) eqn:E; [|reflexivity].
      exfalso. apply Hout. apply in_dtypes_of. exists t. split; [exact Ht|].
      now apply dtype_eqb_eq. }
  destruct (dealt_pieces_ok (leaves obj) (buffer_data values) Hok Hlen) as [Hpo Hsz].
  destruct (@write_ok _ int64_roundtrip [] Hone obj Hs Hd
              (dealt_pieces (leaves obj) (buffer_data values)) [] values None)
    as (values' & sizes' & E & _).
  - apply dealt_pieces_leaves.
  - now rewrite app_nil_r.
  - rewrite app_nil_r. now apply dealt_pieces_supply.
  - now rewrite app_nil_r.
  - rewrite E. cbn [rbind]. now rewrite dealt_pieces_tensors.
Qed.

Lemma deal_nth ls :
  forall bufs j, j < length ls ->
    nth j (deal ls bufs) []
    = firstn (numel (nth j ls no_tensor))
        (skipn (list_sum (map numel (filter (has_dtype (tdtype (nth j ls no_tensor)))
                                            (firstn j ls))))
               (bufs (tdtype (nth j ls no_tensor)))).
Proof.
  induction ls as [|t ls IH]; intros bufs j Hj; [cbn in Hj; lia|].
  destruct j as [|j]; [reflexivity|].
  cbn [length] in Hj. cbn [deal nth firstn filter].
  rewrite IH by lia.
  destruct (has_dtype (tdtype (nth j ls no_tensor)) t); [|reflexivity].
  cbn [map]. change (list_sum (?x :: ?l)) with (x + list_sum l).
  now rewrite skipn_skipn, (Nat.add_comm (numel t)).
Qed.

Lemma dealt_nth ls bufs j :
  j < length ls ->
  nth j (dealt ls bufs) no_tensor
  = mkTensor (tdtype (nth j ls no_tensor))
      (rebuilt_shape [] (numel (nth j ls no_tensor)) (tshape (nth j ls no_tensor)))
      (firstn (numel (nth j ls no_tensor))
         (skipn (list_sum (map numel (filter (has_dtype (tdtype (nth j ls no_tensor)))
                                             (firstn j ls))))
                (bufs (tdtype (nth j ls no_tensor))))).
Proof.
  intros Hj. rewrite <- (deal_nth ls bufs j Hj). unfold dealt.
  pose proof (deal_length ls bufs) as Hlen. revert Hlen Hj.
  generalize (deal ls bufs). revert j.
  induction ls as [|t ls IH]; intros j xs Hlen Hj; [cbn in Hj; lia|].
  destruct xs as [|x xs]; [discriminate|].
  destruct j as [|j]; [reflexivity|].
  cbn [zip_with nth]. cbn [length] in Hlen, Hj. apply IH; lia.
Qed.

(** X21.  On a container of tensors, dicts with distinct keys, lists and
    tuples in which no leaf has an axis of length zero after the first and
    every leaf holds fewer than 2^63 elements, the rebuilder with
    [sizes=None], given for every dtype among the leaves a vector with as
    many elements as the leaves of that dtype hold, returns the container
    (its tuples as lists) with each leaf made of the next elements
    of the vector of its dtype: the leaf at position [j] gets the
    elements that follow those of the earlier leaves of its dtype,
    whatever the elements are, and comes back with the dtype of the
    template and the shape the rebuilder gives (the first axis
    recomputed, the others kept).  Keys of the buffers that no leaf has
    are ignored. *)
Theorem rebuild_deals_buffers obj (values : ddict tensor) :
  supported obj = true -> distinct_keys obj = true ->
  Forall leaf_ok (leaves obj) ->
  (forall d, In d (dtypes_of (leaves obj)) ->
     exists xs, dget d values = Some (mkTensor d [length xs] xs)
                /\ length xs = list_sum (map numel (filter (has_dtype d) (leaves obj)))) ->
  exists out,
    rebuild obj values = Ok out
    /\ out = fst (fill obj (leaves out))
    /\ length (leaves out) = length (leaves obj)
    /\ forall j, j < length (leaves obj) ->
         let t := nth j (leaves obj) no_tensor in
         let before := filter (has_dtype (tdtype t)) (firstn j (leaves obj)) in
         nth j (leaves out) no_tensor
         = mkTensor (tdtype t) (rebuilt_shape [] (numel t) (tshape t))
             (firstn (numel t)
                (skipn (list_sum (map numel before)) (buffer_data values (tdtype t)))).
Proof.
  intros Hs Hd Hok Hval.
  exists (fst (fill obj (dealt (leaves obj) (buffer_data values)))).
  assert (Hlen : length (dealt (leaves obj) (buffer_data values)) = length (leaves obj)).
  { unfold dealt. rewrite zip_with_length, deal_length. apply Nat.min_id. }
  split; [now apply rebuild_deals_buffers_gen|].
  rewrite (fill_leaves obj _ Hlen).
  split; [reflexivity|]. split; [exact Hlen|].
  intros j Hj. cbv zeta. now apply dealt_nth.
Qed.
End Dealt.

(* ================================================================== *)
(** * Reduce with a destination, on the workers it is not meant for *)
(* ================================================================== *)

Section Everywhere.
Context {TL : TensorLib}.
Hypothesis int64_roundtrip :
  forall z, (0 <= z < 2 ^ 63)%Z -> to_int (of_int z) = z.

Lemma reply_length op dst (bufs : list tensor) r own :
  Forall (fun b => length (tdata b) = length (tdata own)) bufs ->
  length (tdata (reply op dst bufs r own)) = length (tdata own).
Proof.
  intros Hall. unfold reply. cbn [tdata].
  assert (Hred : length (match bufs with
                         | [] => tdata own
                         | b0 :: rest =>
                             reduce_buffers op (tdtype own) (tdata b0) (map tdata rest)
                         end) = length (tdata own)).
  { destruct bufs as [|b0 rest]; [reflexivity|].
    apply Forall_cons_iff in Hall as [H0 Hrest].
    rewrite reduce_buffers_length; [exact H0|].
    apply Forall_map. eapply Forall_impl; [|exact Hrest].
    intros b Hb. cbn beta in *. congruence. }
  destruct dst as [d|]; [|exact Hred].
  destruct (r =? d); [exact Hred|]. now rewrite length_map, length_seq.
Qed.

Lemma dealt_signature ls :
  forall bufs,
    (forall d, list_sum (map numel (filter (has_dtype d) ls)) <= length (bufs d)) ->
    length (dealt ls bufs) = length ls
    /\ map tdtype (dealt ls bufs) = map tdtype ls
    /\ map tshape (dealt ls bufs) = map (fun t => tshape (as_rebuilt t)) ls
    /\ map (fun t => length (tdata t)) (dealt ls bufs) = map numel ls.
Proof.
  unfold dealt.
  induction ls as [|t ls IH]; intros bufs Hlen; [repeat split|].
  cbn [deal zip_with map length tdtype tshape tdata].
  destruct (IH (fun d => if has_dtype d t then skipn (numel t) (bufs d) else bufs d))
    as (H1 & H2 & H3 & H4).
  { intros d. specialize (Hlen d). cbn [filter] in Hlen.
    destruct (has_dtype d t); [|exact Hlen].
    cbn [map] in Hlen. change (list_sum (?x :: ?l)) with (x + list_sum l) in Hlen.
    rewrite length_skipn. lia. }
  rewrite H1, H2, H3, H4. repeat split.
  f_equal. rewrite length_firstn.
  specialize (Hlen (tdtype t)). cbn [filter] in Hlen. rewrite has_dtype_own in Hlen.
  cbn [map] in Hlen. change (list_sum (?x :: ?l)) with (x + list_sum l) in Hlen. lia.
Qed.

Variable objs : list pyobj.
Hypothesis all_supported : Forall (fun o => supported o = true) objs.
Hypothesis all_distinct_keys : Forall (fun o => distinct_keys o = true) objs.
Hypothesis all_leaf_ok : Forall (fun o => Forall leaf_ok (leaves o)) objs.

(** X22.  [reduce] with a destination that is a rank of the job, and with
    an operator the backend knows, returns on every worker, not only on
    the destination: when the workers hold containers of tensors, dicts
    with distinct keys, lists and tuples whose leaves agree, position by
    position, in dtype and element count, no leaf with an axis of length
    zero after the first and every leaf with fewer than 2^63 elements,
    each worker gets back its container with the same nesting and keys
    (tuples as lists) and, for every leaf, a leaf of the same dtype, of
    the shape the rebuilder gives and with as many elements (on a worker
    that is not the destination the elements are whatever the backend
    left in its buffer). *)
Theorem reduce_returns_on_every_rank op rop dst r obj :
  aligned leaf_sig objs ->
  (forall d, dst = Some d -> d < length objs) ->
  ReduceOp_getattr (upper (if String.eqb op "mean" then "sum"%string else op)) = Ok rop ->
  nth_error objs r = Some obj ->
  exists out,
    nth_error (spmd (fun ctx o => reduce ctx o op dst) true objs) r = Some (Returned out)
    /\ out = fst (fill obj (leaves out))
    /\ map tdtype (leaves out) = map tdtype (leaves obj)
    /\ map tshape (leaves out) = map (fun t => tshape (as_rebuilt t)) (leaves obj)
    /\ map (fun t => length (tdata t)) (leaves out) = map numel (leaves obj).
Proof.
  intros Hal _ Hop Hr.
  assert (Hin : In obj objs) by (now apply nth_error_In in Hr).
  pose proof all_supported as Hsup. pose proof all_distinct_keys as Hdk.
  pose proof all_leaf_ok as Hlk. rewrite Forall_forall in Hsup, Hdk, Hlk.
  rewrite (reduce_job objs all_supported Hal rop (String.eqb op "mean") dst obj op
             Hin Hop eq_refl).
  rewrite nth_error_map, (nth_error_ranked objs r obj Hr). cbn [option_map fst snd].
  set (val := fun k => reduce_finish (String.eqb op "mean") (length objs) k
                         (reply rop dst
                            (map (fun w : nat * pyobj => reduce_send k (snd w)) (ranked objs))
                            r (reduce_send k obj))).
  set (values := map (fun k => (k, val k)) (dtypes_of (leaves obj))).
  assert (Hlenval : forall d,
            length (tdata (val d))
            = list_sum (map numel (filter (has_dtype d) (leaves obj)))).
  { intros d. unfold val.
    rewrite reduce_finish_data
      by (unfold reply; cbn [tdtype]; unfold reduce_send; apply tensor_type_dtype).
    rewrite length_map, reply_length.
    - rewrite (send_length objs all_leaf_ok Hal obj obj d Hin Hin).
      now rewrite filter_positions, map_map.
    - apply Forall_map. apply Forall_forall. intros w Hw.
      apply in_ranked in Hw as [Hw _]. apply nth_error_In in Hw.
      rewrite (send_length objs all_leaf_ok Hal obj (snd w) d Hin Hw).
      now rewrite (send_length objs all_leaf_ok Hal obj obj d Hin Hin). }
  assert (Hval : forall d, In d (dtypes_of (leaves obj)) ->
            exists xs, dget d values = Some (mkTensor d [length xs] xs)
                       /\ length xs
                          = list_sum (map numel (filter (has_dtype d) (leaves obj)))).
  { intros d Hd. exists (tdata (val d)). split; [|apply Hlenval].
    unfold values. rewrite (dget_tabulate val d _ Hd). f_equal.
    apply tensor_ext; cbn [tdtype tshape tdata]; [| |reflexivity].
    - unfold val, reduce_finish. apply tensor_type_dtype.
    - rewrite Hlenval. unfold val. rewrite reduce_finish_shape.
      unfold reply. cbn [tshape]. unfold reduce_send. rewrite tensor_type_shape.
      rewrite flat_buffer_shape. now rewrite filter_positions, map_map. }
  match goal with |- context [rebuild obj ?v] => change v with values end.
  rewrite (rebuild_deals_buffers_gen int64_roundtrip obj values (Hsup obj Hin) (Hdk obj Hin) (Hlk obj Hin) Hval).
  cbn [settle].
  destruct (dealt_signature (leaves obj) (buffer_data values)) as (H1 & H2 & H3 & H4).
  { intros d. destruct (in_dec dtype_eq_dec d (dtypes_of (leaves obj))) as [Hd|Hout].
    - destruct (Hval d Hd) as (xs & Eg & Hl). unfold buffer_data. rewrite Eg.
      cbn [tdata]. lia.
    - rewrite (filter_none (has_dtype d) (leaves obj)); [cbn; lia|].
      intros t Ht. destruct (has_dtype d t) eqn:E; [|reflexivity].
      exfalso. apply Hout. apply in_dtypes_of. exists t. split; [exact Ht|].
      now apply dtype_eqb_eq. }
  eexists. split; [reflexivity|].
  rewrite (fill_leaves obj _ H1). auto.
Qed.
End Everywhere.

(* ================================================================== *)
(** * Leaves with rows of length zero *)
(* ================================================================== *)

Section EmptyRows.
Context {TL : TensorLib}.
Hypothesis int64_roundtrip :
  forall z, (0 <= z < 2 ^ 63)%Z -> to_int (of_int z) = z.

(** The view of the rebuilder cannot infer the first axis of a leaf
    whose other axes multiply to zero. *)
Lemma view_empty_rows (new_obj obj : tensor) :
  prod (tl (tshape obj)) = 0 -> view_as_leaf new_obj obj = Err RuntimeError.
Proof.
  intros H. unfold view_as_leaf, view_infer. rewrite H, Nat.mul_0_r.
  cbn [Nat.ltb Nat.leb andb Nat.eqb]. rewrite orb_false_r.
  now destruct (numel new_obj =? 0).
Qed.

Lemma write_leaf_empty_rows (t : tensor) values sizes :
  prod (tl (tshape t)) = 0 -> exists e, write_leaf t values sizes = Err e.
Proof.
  intros H. unfold write_leaf.
  match goal with |- context [rbind ?m _] =>
    destruct m as [[size sizes']|e]; cbn [rbind]; [|now exists e] end.
  destruct (dgetitem (tdtype t) values) as [v|e]; cbn [rbind]; [|now exists e].
  destruct (tensor_item size) as [k|e]; cbn [rbind]; [|now exists e].
  destruct (split_last v k) as [[new_obj v']|e]; cbn [rbind]; [|now exists e].
  rewrite (view_empty_rows new_obj t H). cbn [rbind]. now exists RuntimeError.
Qed.

Lemma write_children_empty_rows elems :
  Forall (fun obj => Exists (fun t => prod (tl (tshape t)) = 0) (leaves obj) ->
            forall values sizes, exists e, _recursive_write obj values sizes = Err e) elems ->
  Exists (fun t => prod (tl (tshape t)) = 0) (flat_map leaves elems) ->
  forall acc values sizes, exists e, write_children elems acc values sizes = Err e.
Proof.
  induction 1 as [|v rest Hv Hrest IH]; cbn [flat_map]; intros Hex acc values sizes.
  - now apply Exists_nil in Hex.
  - rewrite write_children_cons.
    destruct (_recursive_write v values sizes) as [[[nv values'] sizes']|e] eqn:E;
      cbn [rbind]; [|now exists e].
    apply Exists_app in Hex as [Hex|Hex].
    + destruct (Hv Hex values sizes) as [e He]. congruence.
    + now apply IH.
Qed.

Lemma write_items_empty_rows items :
  Forall (fun kv => Exists (fun t => prod (tl (tshape t)) = 0) (leaves (snd kv)) ->
            forall values sizes, exists e, _recursive_write (snd kv) values sizes = Err e)
         items ->
  Exists (fun t => prod (tl (tshape t)) = 0) (flat_map leaves (map snd items)) ->
  forall acc values sizes, exists e, write_items items acc values sizes = Err e.
Proof.
  induction 1 as [|[k v] rest Hv Hrest IH]; cbn [flat_map map snd];
    intros Hex acc values sizes.
  - now apply Exists_nil in Hex.
  - rewrite write_items_cons. cbn [snd] in Hv.
    destruct (_recursive_write v values sizes) as [[[nv values'] sizes']|e] eqn:E;
      cbn [rbind]; [|now exists e].
    apply Exists_app in Hex as [Hex|Hex].
    + destruct (Hv Hex values sizes) as [e He]. congruence.
    + now apply IH.
Qed.

Lemma write_empty_rows obj :
  Exists (fun t => prod (tl (tshape t)) = 0) (leaves obj) ->
  forall values sizes, exists e, _recursive_write obj values sizes = Err e.
Proof.
  induction obj as [t|items IH|elems IH|elems IH|s] using pyobj_ind; intros Hex values sizes.
  - cbn [leaves] in Hex. apply Exists_cons in Hex as [Hex|Hex];
      [|now apply Exists_nil in Hex].
    now apply write_leaf_empty_rows.
  - rewrite write_dict_eq. rewrite leaves_dict in Hex.
    now apply write_items_empty_rows.
  - rewrite write_list_eq. now apply write_children_empty_rows.
  - rewrite write_tuple_eq. now apply write_children_empty_rows.
  - now apply Exists_nil in Hex.
Qed.

(** X25.  A container in which some leaf has an axis of length zero after
    the first is never rebuilt: whatever the buffers and the size table,
    the rebuilder fails, at that leaf if not before, where it views the
    piece of the leaf as rows of length zero.  When the container is such
    a leaf alone, the round trip (flatten, then rebuild with
    [sizes=None]) fails there with RuntimeError. *)
Theorem empty_rows_are_never_rebuilt obj :
  Exists (fun t => prod (tl (tshape t)) = 0) (leaves obj) ->
  (forall values sizes, exists e, _recursive_write obj values sizes = Err e)
  /\ (forall values, exists e, rebuild obj values = Err e)
  /\ (forall t, obj = PyTensor t ->
        (let* values := flatten_container obj in rebuild obj values) = Err RuntimeError).
Proof.
  intros Hex. split; [now apply write_empty_rows|]. split.
  - intros values. unfold rebuild.
    destruct (write_empty_rows obj Hex values None) as [e He]. rewrite He. now exists e.
  - intros t ->. cbn [leaves] in Hex.
    apply Exists_cons in Hex as [Hex|Hex]; [|now apply Exists_nil in Hex].
    assert (Hn : numel t = 0).
    { unfold numel. destruct (tshape t) as [|a tr]; [discriminate|].
      cbn [tl] in Hex. unfold prod in *. cbn [fold_right]. rewrite Hex. lia. }
    rewrite (flatten_container_ok (PyTensor t) eq_refl). cbn [rbind leaves].
    unfold rebuild. cbn [_recursive_write]. unfold write_leaf. cbn [rbind].
    unfold flattened. cbn [dtypes_of filter map]. unfold dgetitem, dict_getitem.
    cbn [dict_get fst snd]. rewrite dtype_eqb_refl. cbn [rbind].
    unfold tensor_item, size_tensor. cbn [tdata rbind].
    rewrite Hn. rewrite int64_roundtrip by (cbn; lia). cbn [rbind Z.of_nat].
    unfold split_last, flat_buffer. cbn [tshape rev app].
    cbn [Z.ltb Z.compare orb].
    match goal with |- context [(?a <? 0)%Z] => destruct (a <? 0)%Z eqn:E end.
    + apply Z.ltb_lt in E. lia.
    + cbn [rbind]. now rewrite view_empty_rows.
Qed.
End EmptyRows.

Local Open Scope string_scope.

(* ================================================================== *)
(** * The statements on the examples of the docstrings *)
(* ================================================================== *)

(** The reference instance meets the laws the statements ask of the
    tensor library. *)
Lemma Z_int64_roundtrip :
  forall z, (0 <= z < 2 ^ 63)%Z -> @to_int Z_lib (@of_int Z_lib z) = z.
Proof. intros z _. reflexivity. Qed.

Lemma Z_add_zero_l : forall d x, @reduce_elem Z_lib SUM d (@zero Z_lib d) x = x.
Proof. intros d x. reflexivity. Qed.

Lemma Z_add_zero_r : forall d x, @reduce_elem Z_lib SUM d x (@zero Z_lib d) = x.
Proof. intros d x. apply Z.add_0_r. Qed.

Lemma Z_bool_roundtrip :
  forall x, @cast Z_lib th_uint8 th_bool (@cast Z_lib th_bool th_uint8 x) = x.
Proof. intros x. reflexivity. Qed.

(** On a name within ASCII [str.upper] is the capital of each letter,
    whatever the table of the interpreter holds. *)
Lemma upper_of_ascii {TL : TensorLib} (s : string) :
  isascii s = true -> upper s = map_ascii upper_ascii s.
Proof. intros H. unfold upper. now rewrite H. Qed.

(** The reference table knows the long s (U+017F): the name made of it
    and of [um], whose first letter is the bytes 197 and 191, is looked up
    as [SUM]. *)
Lemma upper_long_s :
  ReduceOp_getattr
    (@upper Z_lib (String (ascii_of_nat 197) (String (ascii_of_nat 191) "um")))
  = Ok SUM.
Proof. reflexivity. Qed.

Lemma cat_ranges_witness :
  aligned cat_sig ranges
  /\ nth_error (spmd (fun ctx o => @cat Z_lib ctx o None) true ranges) 2
     = Some (Returned
               (PyDict [(KStr "range",
                         PyTensor (Ztensor th_int64 [10] [0; 1; 2; 3; 4; 5; 6; 7; 8; 9]%Z))])).
Proof.
  assert (Hal : aligned cat_sig ranges) by workers_aligned.
  split; [exact Hal|].
  refine (proj1 (@cat_concatenates_in_rank_order Z_lib Z_int64_roundtrip Z_add_zero_l
                   Z_add_zero_r Z_bool_roundtrip ranges _ _ _ Hal _ _ None 2
                   (PyDict [(KStr "range", PyTensor (Ztensor th_int64 [3] [3; 4; 5]%Z))])
                   eq_refl (or_introl eq_refl))).
  - all_workers.
  - all_workers.
  - leaves_ok.
  - leaves_ok.
  - totals_bounded.
Defined.

(** Cat returns a tuple as a list, and leaves without axes as one vector
    with an element per worker. *)
Lemma cat_returns_lists_and_vectors :
  spmd (fun ctx o => @cat Z_lib ctx o None) true pairs
  = [Returned (PyList [PyTensor (Ztensor th_int64 [3] [1; 2; 3]%Z)]);
     Returned (PyList [PyTensor (Ztensor th_int64 [3] [1; 2; 3]%Z)])]
  /\ PyList [PyTensor (Ztensor th_int64 [3] [1; 2; 3]%Z)]
     <> PyTuple [PyTensor (Ztensor th_int64 [3] [1; 2; 3]%Z)]
  /\ map (fun o => map (@tshape Z_lib) (leaves o)) scalars = [[[]]; [[]]]
  /\ spmd (fun ctx o => @cat Z_lib ctx o None) true scalars
     = [Returned (PyTensor (Ztensor th_float32 [2] [5; 7]%Z));
        Returned (PyTensor (Ztensor th_float32 [2] [5; 7]%Z))]
  /\ Forall (fun o => supported o = true /\ distinct_keys o = true) (pairs ++ scalars).
Proof.
  split; [reflexivity|]. split; [discriminate|]. split; [reflexivity|].
  split; [reflexivity|]. repeat constructor.
Qed.

Lemma roundtrip_mixed_witness :
  Forall leaf_ok (leaves mixed)
  /\ (let* values := flatten_container mixed in rebuild mixed values)
     = Ok (PyDict [(KStr "w", PyTensor (Ztensor th_float32 [2; 2] [1; 2; 3; 4]%Z));
                   (KStr "b", PyList [PyTensor (Ztensor th_int64 [3] [5; 6; 7]%Z);
                                      PyList [PyTensor (Ztensor th_float32 [1] [8]%Z)]])]).
Proof.
  assert (Hok : Forall leaf_ok (leaves mixed)) by leaves_ok.
  split; [exact Hok|].
  exact (proj1 (@roundtrip_is_normalize Z_lib Z_int64_roundtrip mixed eq_refl eq_refl Hok)).
Defined.

(** A leaf without axes comes back with the shape (1,), and a tuple comes
    back as a list. *)
Lemma roundtrip_changes_scalars_and_tuples :
  (let* values := flatten_container scalar_leaf in rebuild scalar_leaf values)
  = Ok (PyTensor (Ztensor th_float32 [1] [5]%Z))
  /\ PyTensor (Ztensor th_float32 [1] [5]%Z) <> scalar_leaf
  /\ (let* values := flatten_container (PyTuple [scalar_leaf]) in
      rebuild (PyTuple [scalar_leaf]) values)
     = Ok (PyList [PyTensor (Ztensor th_float32 [1] [5]%Z)])
  /\ supported scalar_leaf = true
  /\ distinct_keys scalar_leaf = true.
Proof. repeat split; try reflexivity. discriminate. Qed.



Lemma reduce_powers_witness :
  nth_error (spmd (fun ctx o => @reduce Z_lib ctx o "mean" None) true (powers "polynomial")) 3
  = Some (Returned
            (PyDict [(KStr "polynomial", PyTensor (Ztensor th_int64 [3] [3; 10; 39]%Z))]))
  /\ nth_error (spmd (fun ctx o => @reduce Z_lib ctx o "sum" None) true (powers "polynomial")) 3
     = Some (Returned
               (PyDict [(KStr "polynomial", PyTensor (Ztensor th_int64 [3] [15; 40; 156]%Z))])).
Proof.
  refine (@reduce_mean_is_sum_over_world_size Z_lib Z_int64_roundtrip (powers "polynomial")
            _ _ _ _ None 3
            (PyDict [(KStr "polynomial", PyTensor (Ztensor th_int64 [3] [8; 27; 125]%Z))])
            eq_refl (or_introl eq_refl)).
  - all_workers.
  - all_workers.
  - leaves_ok.
  - workers_aligned.
Defined.

(** The mean of integer leaves is not their sum divided by the world
    size: for x = (2, 3, 5) on four workers the sums are 15, 40 and 156,
    and the means that Reduce returns are 3, 10 and 39. *)
Lemma mean_of_integers_is_truncated :
  spmd (fun ctx o => @reduce Z_lib ctx o "sum" None) true (powers "polynomial")
  = repeat (Returned (PyDict [(KStr "polynomial",
                               PyTensor (Ztensor th_int64 [3] [15; 40; 156]%Z))])) 4
  /\ spmd (fun ctx o => @reduce Z_lib ctx o "mean" None) true (powers "polynomial")
     = repeat (Returned (PyDict [(KStr "polynomial",
                                  PyTensor (Ztensor th_int64 [3] [3; 10; 39]%Z))])) 4
  /\ map (fun mean => 4 * mean)%Z [3; 10; 39]%Z <> [15; 40; 156]%Z.
Proof. split; [reflexivity|]. split; [reflexivity|]. discriminate. Qed.

(** C5.  A leaf of the shape (2, 0) or (3, 0) holds no element.  On two
    workers that hold such leaves the write loop of Cat passes its bounds
    assertion and yields the empty buffer, the size table sums to zero,
    and then the rebuild fails where it views the empty buffer as rows of
    length zero: Cat raises RuntimeError on both workers. *)
Lemma cat_raises_on_empty_rows :
  map (fun o => map (@tshape Z_lib) (leaves o)) empty_rows = [[[2; 0]]; [[3; 0]]]
  /\ map (fun o => map numel (leaves o)) empty_rows = [[0]; [0]]
  /\ (let rows := map leaves empty_rows in
      let own := [Ztensor th_int64 [2; 0] []] in
      cat_buffer (mkContext 0 2 true) (stacked_sizes rows own) th_int64
        (map flatten (filter (has_dtype th_int64) own))
      = Ok (Ztensor th_int64 [0] [], Ztensor th_int64 [0] [])
      /\ summed_sizes rows own = [(th_int64, Ztensor th_int64 [1] [0]%Z)]
      /\ _recursive_write (PyTensor (Ztensor th_int64 [2; 0] []))
           [(th_int64, cat_out th_int64 rows own)] (Some (summed_sizes rows own))
         = Err RuntimeError)
  /\ spmd (fun ctx o => @cat Z_lib ctx o None) true empty_rows
     = [Raised RuntimeError; Raised RuntimeError].
Proof. repeat split. Qed.

Lemma cat_ragged_witness :
  numel (nth 0 (leaves (nth 1 ragged (PyOther ""))) no_tensor) = 0
  /\ nth_error (spmd (fun ctx o => @cat Z_lib ctx o (Some 1)) true ragged) 1
     = Some (Returned
               (PyList [PyTensor (Ztensor th_int64 [3] [1; 2; 3]%Z);
                        PyTensor (Ztensor th_bool [4; 2] [1; 0; 0; 0; 1; 1; 0; 1]%Z)])).
Proof.
  split; [reflexivity|].
  refine (proj1 (@cat_accepts_empty_leaves Z_lib Z_int64_roundtrip Z_add_zero_l
                   Z_add_zero_r Z_bool_roundtrip ragged _ _ _ _ _ _ (Some 1) 1
                   (nth 1 ragged (PyOther "")) 1 (nth 1 ragged (PyOther "")) 0
                   eq_refl (or_intror eq_refl) eq_refl _ eq_refl)).
  - all_workers.
  - all_workers.
  - leaves_ok.
  - workers_aligned.
  - leaves_ok.
  - totals_bounded.
  - cbn. lia.
Defined.

Lemma unsupported_witness :
  supported tensor_then_int = false
  /\ flatten_container tensor_then_int = Err ValueError_UnknownType
  /\ leaves_before tensor_then_int = [Ztensor th_float32 [1] [8]%Z]
  /\ rebuild tensor_then_int [(th_float32, Ztensor th_float32 [1] [8]%Z)]
     = Err ValueError_UnknownType.
Proof.
  split; [reflexivity|].
  pose proof (@unsupported_node_fails Z_lib Z_int64_roundtrip tensor_then_int eq_refl)
    as (_ & Hf & _ & _ & Hw).
  split; [exact Hf|]. split; [reflexivity|].
  refine (Hw eq_refl [] _). leaves_ok.
Defined.


Lemma reshaped_witness :
  aligned leaf_sig reshaped
  /\ nth_error (spmd (fun ctx o => @reduce Z_lib ctx o "sum" None) true reshaped) 1
     = Some (Returned (PyTensor (Ztensor th_int64 [3; 2] [11; 22; 33; 44; 55; 66]%Z)))
  /\ nth_error (spmd (fun ctx o => @stack Z_lib ctx o None) true reshaped) 1
     = Some (Returned (PyTensor (Ztensor th_int64 [2; 3; 2]
                                   [1; 2; 3; 4; 5; 6; 10; 20; 30; 40; 50; 60]%Z))).
Proof.
  assert (Hal : aligned leaf_sig reshaped) by workers_aligned.
  split; [exact Hal|].
  assert (Hsup : Forall (fun o : @pyobj Z_lib => supported o = true) reshaped) by all_workers.
  assert (Hdk : Forall (fun o : @pyobj Z_lib => distinct_keys o = true) reshaped)
    by all_workers.
  assert (Hok : Forall (fun o : @pyobj Z_lib => Forall leaf_ok (leaves o)) reshaped)
    by leaves_ok.
  pose proof (@reduce_and_stack_check_no_shapes Z_lib Z_int64_roundtrip Z_add_zero_l
                Z_add_zero_r Z_bool_roundtrip reshaped Hsup Hdk Hok Hal "sum" SUM None 1
                (nth 1 reshaped (PyOther "")) eq_refl eq_refl (or_introl eq_refl))
    as (Hred & Hst & _).
  split; [exact Hred | exact Hst].
Defined.

(** Leaves of the shapes (2, 3) and (3, 2) at the same position: Reduce
    and Stack return on both workers, each in its own shape, the elements
    combined by flat index. *)
Lemma reshaped_leaves_raise_no_error :
  map (fun o => map (@tshape Z_lib) (leaves o)) reshaped = [[[2; 3]]; [[3; 2]]]
  /\ spmd (fun ctx o => @reduce Z_lib ctx o "sum" None) true reshaped
     = [Returned (PyTensor (Ztensor th_int64 [2; 3] [11; 22; 33; 44; 55; 66]%Z));
        Returned (PyTensor (Ztensor th_int64 [3; 2] [11; 22; 33; 44; 55; 66]%Z))]
  /\ spmd (fun ctx o => @stack Z_lib ctx o None) true reshaped
     = [Returned (PyTensor (Ztensor th_int64 [2; 2; 3]
                              [1; 2; 3; 4; 5; 6; 10; 20; 30; 40; 50; 60]%Z));
        Returned (PyTensor (Ztensor th_int64 [2; 3; 2]
                              [1; 2; 3; 4; 5; 6; 10; 20; 30; 40; 50; 60]%Z))].
Proof. repeat split. Qed.

(** A missing file on rank 0; a true [skip_cache] over a file that is
    there, on rank 0 and on rank 2. *)
Lemma gate_miss_witness :
  (issued empty_disk
     (snd (process_on_master_and_sync_by_pickle write_cache master_writes (Some 0%Z) None
             (mkContext 0 4 true) [VStr "cache.pkl"] [] empty_disk))
   = [Called [VStr "cache.pkl"] []; Barrier]
   /\ fst (process_on_master_and_sync_by_pickle write_cache master_writes (Some 0%Z) None
             (mkContext 0 4 true) [VStr "cache.pkl"] [] empty_disk)
      = Ok (VObj 7))
  /\ (files stale "cache.pkl" = Some (VObj 1)
      /\ issued stale
           (snd (process_on_master_and_sync_by_pickle write_cache idle_peers (Some 0%Z) None
                   (mkContext 0 4 true) [VStr "cache.pkl"]
                   [("skip_cache", VBool true); ("epochs", VObj 3)] stale))
         = [Called [VStr "cache.pkl"] [("epochs", VObj 3)]; Barrier]
      /\ fst (process_on_master_and_sync_by_pickle write_cache idle_peers (Some 0%Z) None
                (mkContext 0 4 true) [VStr "cache.pkl"]
                [("skip_cache", VBool true); ("epochs", VObj 3)] stale)
         = Ok (VObj 7))
  /\ (issued stale
        (snd (process_on_master_and_sync_by_pickle write_cache master_writes None (Some "file")
                (mkContext 2 4 true) []
                [("file", VStr "cache.pkl"); ("skip_cache", VStr "yes")] stale))
      = [Barrier]
      /\ fst (process_on_master_and_sync_by_pickle write_cache master_writes None (Some "file")
                (mkContext 2 4 true) []
                [("file", VStr "cache.pkl"); ("skip_cache", VStr "yes")] stale)
         = Ok (VObj 7)).
Proof.
  split; [|split].
  - pose proof (gate_miss_runs_on_master_then_barrier_then_load write_cache master_writes
                  (Some 0%Z) None (mkContext 0 4 true) [VStr "cache.pkl"] [] empty_disk
                  "cache.pkl" eq_refl (or_introl eq_refl)
                  (fun _ => ex_intro _ VNone eq_refl))
      as (Hev & _ & Hres).
    split; [exact Hev | exact Hres].
  - pose proof (gate_miss_runs_on_master_then_barrier_then_load write_cache idle_peers
                  (Some 0%Z) None (mkContext 0 4 true) [VStr "cache.pkl"]
                  [("skip_cache", VBool true); ("epochs", VObj 3)] stale
                  "cache.pkl" eq_refl
                  (or_intror (ex_intro _ (VBool true) (conj eq_refl eq_refl)))
                  (fun _ => ex_intro _ VNone eq_refl))
      as (Hev & _ & Hres).
    split; [reflexivity|]. split; [exact Hev | exact Hres].
  - pose proof (gate_miss_runs_on_master_then_barrier_then_load write_cache master_writes
                  None (Some "file") (mkContext 2 4 true) []
                  [("file", VStr "cache.pkl"); ("skip_cache", VStr "yes")] stale
                  "cache.pkl" eq_refl
                  (or_intror (ex_intro _ (VStr "yes") (conj eq_refl eq_refl)))
                  (fun H => match Nat.neq_succ_0 _ H with end))
      as (Hev & _ & Hres).
    split; [exact Hev | exact Hres].
Defined.

Lemma gate_hit_witness :
  fst (process_on_master_and_sync_by_pickle write_cache idle_peers (Some 0%Z) None
         (mkContext 1 4 true) [VStr "cache.pkl"] [] cached)
  = Ok (VObj 7)
  /\ issued cached
       (snd (process_on_master_and_sync_by_pickle write_cache idle_peers (Some 0%Z) None
               (mkContext 1 4 true) [VStr "cache.pkl"] [] cached))
     = [].
Proof.
  pose proof (gate_hit_loads_without_call_or_barrier write_cache idle_peers
                (Some 0%Z) None (mkContext 1 4 true) [VStr "cache.pkl"] [] cached
                "cache.pkl" (VObj 7) eq_refl eq_refl eq_refl)
    as (Hres & Hev & _).
  split; [exact Hres | exact Hev].
Defined.

(* ================================================================== *)
(** * Further statements on examples *)
(* ================================================================== *)

Lemma rebuild_from_empty_buffers_witness :
  @rebuild Z_lib mixed [] = Err KeyError
  /\ @rebuild Z_lib (PyList [PyTuple []; PyDict []]) [] = Ok (PyList [PyList []; PyDict []]).
Proof.
  split.
  - exact (@rebuild_from_empty_buffers Z_lib mixed eq_refl eq_refl).
  - exact (@rebuild_from_empty_buffers Z_lib (PyList [PyTuple []; PyDict []])
             eq_refl eq_refl).
Defined.

Lemma collectives_reject_unsupported_witness :
  supported tensor_then_int = false
  /\ @reduce Z_lib (mkContext 0 4 true) tensor_then_int "sum" None
     = Raise ValueError_UnknownType
  /\ @stack Z_lib (mkContext 0 4 true) tensor_then_int None = Raise ValueError_UnknownType
  /\ @cat Z_lib (mkContext 0 4 true) tensor_then_int None = Raise ValueError_UnknownType.
Proof.
  split; [reflexivity|].
  exact (@collectives_reject_unsupported Z_lib (mkContext 0 4 true) tensor_then_int
           "sum" None eq_refl).
Defined.

Lemma reduce_unknown_operator_witness :
  @reduce Z_lib (mkContext 0 4 true) mixed "MEAN" None = Raise AttributeError
  /\ @reduce Z_lib (mkContext 0 4 true) mixed "median" (Some 0) = Raise AttributeError.
Proof.
  split.
  - exact (@reduce_unknown_operator Z_lib (mkContext 0 4 true) mixed "MEAN" None
             eq_refl eq_refl eq_refl).
  - exact (@reduce_unknown_operator Z_lib (mkContext 0 4 true) mixed "median" (Some 0)
             eq_refl eq_refl eq_refl).
Defined.

Lemma collectives_need_process_group_witness :
  @reduce Z_lib (mkContext 1 4 false) mixed "max" None = Raise ValueError_GroupNotInitialized
  /\ @stack Z_lib (mkContext 1 4 false) mixed None = Raise ValueError_GroupNotInitialized
  /\ @cat Z_lib (mkContext 1 4 false) mixed None = Raise ValueError_GroupNotInitialized.
Proof.
  assert (Hl : leaves mixed <> []) by discriminate.
  pose proof (@collectives_need_process_group Z_lib (mkContext 1 4 false) mixed None
                eq_refl eq_refl Hl) as [Hr Hsc].
  split; [exact (Hr "max" MAX eq_refl)|].
  apply Hsc. cbn. lia.
Defined.

Lemma collectives_skip_leafless_witness :
  let obj := @PyDict Z_lib [(KStr "a", PyList []); (KStr "b", PyTuple [])] in
  let out := @PyDict Z_lib [(KStr "a", PyList []); (KStr "b", PyList [])] in
  stack (mkContext 2 4 false) obj None = Ret out
  /\ cat (mkContext 2 4 false) obj None = Ret out
  /\ reduce (mkContext 2 4 false) obj "sum" None = Ret out
  /\ reduce (mkContext 2 4 false) obj "median" None = Raise AttributeError.
Proof.
  pose proof (@collectives_skip_leafless Z_lib (mkContext 2 4 false)
                (PyDict [(KStr "a", PyList []); (KStr "b", PyTuple [])]) None
                eq_refl eq_refl eq_refl) as (Hs & Hc & Hr & He).
  cbv zeta. split; [exact Hs|]. split; [exact Hc|]. split.
  - exact (Hr "sum" SUM eq_refl).
  - exact (He "median" eq_refl).
Defined.

Lemma walker_buckets_mixed_witness :
  _recursive_read mixed
  = Ok ([(th_float32, [Ztensor th_float32 [4] [1; 2; 3; 4]%Z; Ztensor th_float32 [1] [8]%Z]);
         (th_int64, [Ztensor th_int64 [3] [5; 6; 7]%Z])],
        [(th_float32, [Ztensor th_int64 [1] [4]%Z; Ztensor th_int64 [1] [1]%Z]);
         (th_int64, [Ztensor th_int64 [1] [3]%Z])]).
Proof.
  exact (proj1 (@walker_buckets_leaves_by_dtype Z_lib mixed eq_refl)).
Defined.

Lemma flatten_mixed_witness :
  flatten_container mixed
  = Ok [(th_float32, Ztensor th_float32 [5] [1; 2; 3; 4; 8]%Z);
        (th_int64, Ztensor th_int64 [3] [5; 6; 7]%Z)].
Proof.
  exact (proj1 (@flatten_concatenates_by_dtype Z_lib mixed eq_refl)).
Defined.

Lemma agree_reshaped_witness :
  (exists out_a out_b,
     nth_error (spmd (fun ctx o => @reduce Z_lib ctx o "sum" None) true reshaped) 0
     = Some (Returned out_a)
     /\ nth_error (spmd (fun ctx o => @reduce Z_lib ctx o "sum" None) true reshaped) 1
        = Some (Returned out_b)
     /\ map tdtype (leaves out_a) = map tdtype (leaves out_b)
     /\ map tdata (leaves out_a) = map tdata (leaves out_b))
  /\ (exists out_a out_b,
        nth_error (spmd (fun ctx o => @stack Z_lib ctx o None) true reshaped) 0
        = Some (Returned out_a)
        /\ nth_error (spmd (fun ctx o => @stack Z_lib ctx o None) true reshaped) 1
           = Some (Returned out_b)
        /\ map tdtype (leaves out_a) = map tdtype (leaves out_b)
        /\ map tdata (leaves out_a) = map tdata (leaves out_b)).
Proof.
  refine (@reduce_and_stack_agree_across_workers Z_lib Z_int64_roundtrip Z_add_zero_l
            Z_add_zero_r Z_bool_roundtrip reshaped _ _ _ "sum" SUM 0 1
            (nth 0 reshaped (PyOther "")) (nth 1 reshaped (PyOther ""))
            _ eq_refl eq_refl eq_refl).
  - all_workers.
  - all_workers.
  - leaves_ok.
  - workers_aligned.
Defined.

Lemma cat_agrees_ranges_witness :
  exists out_a out_b,
    nth_error (spmd (fun ctx o => @cat Z_lib ctx o None) true ranges) 0
    = Some (Returned out_a)
    /\ nth_error (spmd (fun ctx o => @cat Z_lib ctx o None) true ranges) 3
       = Some (Returned out_b)
    /\ leaves out_a = leaves out_b.
Proof.
  refine (@cat_agrees_across_workers Z_lib Z_int64_roundtrip Z_add_zero_l
            Z_add_zero_r Z_bool_roundtrip ranges _ _ _ 0 3
            (nth 0 ranges (PyOther "")) (nth 3 ranges (PyOther ""))
            _ _ _ eq_refl eq_refl).
  - all_workers.
  - all_workers.
  - leaves_ok.
  - workers_aligned.
  - leaves_ok.
  - totals_bounded.
Defined.

Lemma single_worker_mixed_witness :
  spmd (fun ctx o => @reduce Z_lib ctx o "max" None) true [mixed]
  = [Returned (PyDict [(KStr "w", PyTensor (Ztensor th_float32 [2; 2] [1; 2; 3; 4]%Z));
                       (KStr "b", PyList [PyTensor (Ztensor th_int64 [3] [5; 6; 7]%Z);
                                          PyList [PyTensor (Ztensor th_float32 [1] [8]%Z)]])])]
  /\ spmd (fun ctx o => @stack Z_lib ctx o None) true [mixed]
     = [Returned (PyDict [(KStr "w", PyTensor (Ztensor th_float32 [1; 2; 2] [1; 2; 3; 4]%Z));
                          (KStr "b", PyList [PyTensor (Ztensor th_int64 [1; 3] [5; 6; 7]%Z);
                                             PyList [PyTensor (Ztensor th_float32 [1; 1] [8]%Z)]])])]
  /\ spmd (fun ctx o => @cat Z_lib ctx o None) true [mixed]
     = [Returned (PyDict [(KStr "w", PyTensor (Ztensor th_float32 [2; 2] [1; 2; 3; 4]%Z));
                          (KStr "b", PyList [PyTensor (Ztensor th_int64 [3] [5; 6; 7]%Z);
                                             PyList [PyTensor (Ztensor th_float32 [1] [8]%Z)]])])].
Proof.
  assert (Hok : Forall leaf_ok (leaves mixed)) by leaves_ok.
  pose proof (@single_worker_collectives Z_lib Z_int64_roundtrip Z_add_zero_l
                Z_add_zero_r Z_bool_roundtrip mixed eq_refl eq_refl Hok None
                (or_introl eq_refl)) as (Hr & Hs & Hc).
  split; [exact (Hr "max" MAX eq_refl eq_refl)|]. split; [exact Hs|].
  apply Hc; cbn; lia.
Defined.

Lemma gate_without_file_name_witness :
  process_on_master_and_sync_by_pickle write_cache idle_peers None (Some "path")
    (mkContext 0 2 true) [VStr "cache.pkl"] [("skip_cache", VBool true)] empty_disk
  = (Err KeyError, empty_disk)
  /\ process_on_master_and_sync_by_pickle write_cache idle_peers (Some 1%Z) None
       (mkContext 0 2 true) [VStr "cache.pkl"] [] empty_disk
     = (Err IndexError, empty_disk)
  /\ process_on_master_and_sync_by_pickle write_cache idle_peers (Some (-2)%Z) None
       (mkContext 0 2 true) [VStr "cache.pkl"] [] empty_disk
     = (Err IndexError, empty_disk)
  /\ process_on_master_and_sync_by_pickle write_cache idle_peers None None
       (mkContext 0 2 true) [VStr "cache.pkl"] [] empty_disk
     = (Err UnboundLocalError, mkProcess (fun _ => None) [Logged No_cache_file_specified]).
Proof.
  split; [|split; [|split]].
  - exact (proj1 (gate_without_file_name write_cache idle_peers (mkContext 0 2 true)
                    [VStr "cache.pkl"] [("skip_cache", VBool true)] empty_disk)
             None "path" eq_refl).
  - apply (proj1 (proj2 (gate_without_file_name write_cache idle_peers (mkContext 0 2 true)
                           [VStr "cache.pkl"] [] empty_disk))).
    cbn. lia.
  - apply (proj1 (proj2 (gate_without_file_name write_cache idle_peers (mkContext 0 2 true)
                           [VStr "cache.pkl"] [] empty_disk))).
    cbn. lia.
  - exact (proj2 (proj2 (gate_without_file_name write_cache idle_peers (mkContext 0 2 true)
                           [VStr "cache.pkl"] [] empty_disk))).
Defined.

Lemma gate_failure_witness :
  let failing := fun (_ : list value) (_ : list (string * value)) (fs : filesystem) =>
                   (@Err value RuntimeError, fs) in
  (fst (process_on_master_and_sync_by_pickle failing master_writes (Some 0%Z) None
          (mkContext 0 2 true) [VStr "cache.pkl"] [] empty_disk) = Err RuntimeError
   /\ issued empty_disk
        (snd (process_on_master_and_sync_by_pickle failing master_writes (Some 0%Z) None
                (mkContext 0 2 true) [VStr "cache.pkl"] [] empty_disk))
      = [Called [VStr "cache.pkl"] []]
   /\ collectives
        (issued empty_disk
           (snd (process_on_master_and_sync_by_pickle failing master_writes (Some 0%Z) None
                   (mkContext 0 2 true) [VStr "cache.pkl"] [] empty_disk)))
      = [])
  /\ collectives
       (issued empty_disk
          (snd (process_on_master_and_sync_by_pickle failing master_writes (Some 0%Z) None
                  (mkContext 1 2 true) [VStr "cache.pkl"] [] empty_disk)))
     = [Barrier].
Proof.
  cbv zeta.
  pose proof (gate_failure_on_master_skips_barrier
                (fun _ _ fs => (@Err value RuntimeError, fs)) master_writes
                (Some 0%Z) None (mkContext 0 2 true) [VStr "cache.pkl"] [] empty_disk
                "cache.pkl" RuntimeError eq_refl (or_introl eq_refl) eq_refl eq_refl)
    as [Hmaster Hothers].
  split; [exact Hmaster|].
  apply Hothers; [cbn; lia | cbn; lia | left; reflexivity].
Defined.

Lemma gate_second_call_witness :
  let st1 := snd (process_on_master_and_sync_by_pickle write_cache idle_peers
                    (Some 0%Z) None (mkContext 0 1 false)
                    [VStr "cache.pkl"] [("skip_cache", VBool true)] empty_disk) in
  let out2 := process_on_master_and_sync_by_pickle write_cache idle_peers
                (Some 0%Z) None (mkContext 0 1 false)
                [VStr "cache.pkl"; VObj 3] [] st1 in
  files st1 "cache.pkl" = Some (VObj 7)
  /\ fst out2 = Ok (VObj 7)
  /\ files (snd out2) = files st1
  /\ (forall ev, In ev (issued st1 (snd out2)) ->
        ev = Logged (Loaded_cache_skipped (VStr "cache.pkl"))).
Proof.
  exact (gate_second_call_hits_cache write_cache idle_peers (Some 0%Z) None
           (mkContext 0 1 false) [VStr "cache.pkl"] [("skip_cache", VBool true)]
           empty_disk "cache.pkl" (VObj 7) [VStr "cache.pkl"; VObj 3] []
           eq_refl eq_refl eq_refl eq_refl).
Defined.

Lemma reduce_calls_mixed_witness :
  requests (fun _ _ t => t) (@reduce Z_lib (mkContext 0 4 true) mixed "mean" (Some 0))
  = [(SUM, Some 0, Ztensor th_float32 [5] [1; 2; 3; 4; 8]%Z);
     (SUM, Some 0, Ztensor th_int64 [3] [5; 6; 7]%Z)].
Proof.
  exact (@reduce_calls_once_per_dtype Z_lib (fun _ _ t => t) (mkContext 0 4 true) mixed
           "mean" SUM (Some 0) eq_refl eq_refl eq_refl).
Defined.

Lemma stack_calls_mixed_witness :
  requests (fun _ _ t => t) (@stack Z_lib (mkContext 1 3 true) mixed None)
  = [(SUM, None, Ztensor th_float32 [3; 5] [0; 0; 0; 0; 0; 1; 2; 3; 4; 8; 0; 0; 0; 0; 0]%Z);
     (SUM, None, Ztensor th_int64 [3; 3] [0; 0; 0; 5; 6; 7; 0; 0; 0]%Z)].
Proof.
  refine (proj1 (@stack_calls_once_per_dtype Z_lib (fun _ _ t => t) (mkContext 1 3 true)
                   mixed None eq_refl eq_refl _)).
  cbn. lia.
Defined.

Lemma cat_sizes_mixed_witness :
  exists buf more,
    requests (fun _ _ t => t) (@cat Z_lib (mkContext 1 2 true) mixed (Some 0))
    = (SUM, None, buf) :: more
    /\ tdtype buf = th_int64
    /\ tshape buf = [2; 3]
    /\ tdata buf = [0; 0; 0; 4; 1; 3]%Z.
Proof.
  refine (@cat_exchanges_sizes_first Z_lib (fun _ _ t => t) (mkContext 1 2 true) mixed
            (Some 0) eq_refl eq_refl _ _).
  - cbn. lia.
  - discriminate.
Defined.

Lemma uneven_containers_witness :
  nth_error (spmd (fun ctx x => @stack Z_lib ctx x None) true
               [PyList []; PyList [scalar_leaf]]) 0
  = Some (Returned (PyList []))
  /\ nth_error (spmd (fun ctx x => @stack Z_lib ctx x None) true
                  [PyList []; PyList [scalar_leaf]]) 1
     = Some Hung.
Proof.
  refine (proj1 (proj2 (@uneven_containers_hang Z_lib (PyList []) [PyList [scalar_leaf]] 0
                          (PyList [scalar_leaf]) None eq_refl eq_refl eq_refl eq_refl eq_refl
                          _))).
  split; [discriminate | reflexivity].
Defined.

Lemma init_nccl_witness :
  let init := fun (_ : string) (_ : value) (_ : list (string * value)) (d : nat) =>
                (@Ok unit tt, d) in
  let world := fun _ : nat => Some 0 in
  let new_group := fun (_ : string) (d : nat) => (@Ok nat (S d), S d) in
  let g' := snd (Groups.init_process_group init world new_group "nccl" (VStr "env://") []
                   (Groups.imported nat 0)) in
  Groups.get_group "cuda" g' = Ok 0
  /\ Groups.get_group "cpu" g' = Ok 1.
Proof.
  cbv zeta.
  pose proof (init_process_group_sets_both_groups nat nat
                (fun _ _ _ d => (@Ok unit tt, d)) (fun _ => Some 0)
                (fun _ d => (@Ok nat (S d), S d))
                "nccl" (VStr "env://") [] (Groups.imported nat 0)
                (Groups.mkGlobals (Some 1) (Some 0) 1) eq_refl) as (_ & Hgpu & Hcpu).
  split; [exact (Hgpu "cuda" eq_refl)|].
  destruct Hcpu as (gloo & Hnew & Hget). injection Hnew as <-. exact Hget.
Defined.

Lemma failed_init_witness :
  let init := fun (_ : string) (_ : value) (_ : list (string * value)) (d : nat) =>
                (@Ok unit tt, d) in
  let world := fun _ : nat => Some 0 in
  let new_group := fun (_ : string) (d : nat) => (@Err nat RuntimeError, d) in
  let g' := snd (Groups.init_process_group init world new_group "nccl" (VStr "env://") []
                   (Groups.imported nat 0)) in
  Groups.get_group "cpu" g' = Err ValueError_GroupNotInitialized
  /\ Groups.gpu_group g' = Some 0.
Proof.
  cbv zeta.
  pose proof (failed_init_leaves_cpu_group_unset nat nat
                (fun _ _ _ d => (@Ok unit tt, d)) (fun _ => Some 0)
                (fun _ d => (@Err nat RuntimeError, d))
                "nccl" (VStr "env://") [] (Groups.imported nat 0)
                (Groups.mkGlobals None (Some 0) 0) RuntimeError eq_refl)
    as (_ & _ & Hcpu & _).
  split; [exact (Hcpu eq_refl) | reflexivity].
Defined.

Lemma rebuild_deals_mixed_witness :
  exists out,
    @rebuild Z_lib mixed
      [(th_int64, Ztensor th_int64 [3] [7; 8; 9]%Z);
       (th_bool, Ztensor th_bool [1] [1]%Z);
       (th_float32, Ztensor th_float32 [5] [10; 20; 30; 40; 50]%Z)]
    = Ok out
    /\ out = fst (fill mixed (leaves out))
    /\ length (leaves out) = 3
    /\ nth 2 (leaves out) no_tensor = Ztensor th_float32 [1] [50]%Z.
Proof.
  destruct (@rebuild_deals_buffers Z_lib Z_int64_roundtrip mixed
              [(th_int64, Ztensor th_int64 [3] [7; 8; 9]%Z);
               (th_bool, Ztensor th_bool [1] [1]%Z);
               (th_float32, Ztensor th_float32 [5] [10; 20; 30; 40; 50]%Z)]
              eq_refl eq_refl) as (out & E & Hfill & Hlen & Hnth).
  - leaves_ok.
  - intros d [<-|[<-|[]]]; [exists [10; 20; 30; 40; 50]%Z | exists [7; 8; 9]%Z];
      split; reflexivity.
  - exists out. split; [exact E|]. split; [exact Hfill|]. split; [exact Hlen|].
    apply (Hnth 2). cbn. lia.
Defined.

Lemma reduce_everywhere_witness :
  exists out,
    nth_error (spmd (fun ctx o => @reduce Z_lib ctx o "sum" (Some 0)) true
                 (powers "polynomial")) 2
    = Some (Returned out)
    /\ out = fst (fill (nth 2 (powers "polynomial") (PyOther "")) (leaves out))
    /\ map tdtype (leaves out) = [th_int64]
    /\ map tshape (leaves out) = [[3]]
    /\ map (fun t => length (tdata t)) (leaves out) = [3].
Proof.
  refine (@reduce_returns_on_every_rank Z_lib Z_int64_roundtrip (powers "polynomial")
            _ _ _ "sum" SUM (Some 0) 2 (nth 2 (powers "polynomial") (PyOther ""))
            _ _ eq_refl eq_refl).
  - all_workers.
  - all_workers.
  - leaves_ok.
  - workers_aligned.
  - intros d H. injection H as <-. cbn. lia.
Defined.

Lemma empty_rows_witness :
  (let* values := flatten_container (PyTensor (Ztensor th_int64 [2; 0] [])) in
   rebuild (PyTensor (Ztensor th_int64 [2; 0] [])) values)
  = Err RuntimeError
  /\ exists e, rebuild empty_rows_then_int [(th_int64, Ztensor th_int64 [0] [])] = Err e.
Proof.
  split.
  - refine (proj2 (proj2 (@empty_rows_are_never_rebuilt Z_lib Z_int64_roundtrip
                            (PyTensor (Ztensor th_int64 [2; 0] [])) _))
              (Ztensor th_int64 [2; 0] []) eq_refl).
    apply Exists_cons_hd. reflexivity.
  - refine (proj1 (proj2 (@empty_rows_are_never_rebuilt Z_lib Z_int64_roundtrip
                            empty_rows_then_int _))
              [(th_int64, Ztensor th_int64 [0] [])]).
    apply Exists_cons_hd. reflexivity.
Defined.

